(* ===== verification/_CoqProject ===== *)
-Q . S2P
Prelude.v
CString.v
DecimalFp.v
StdMap.v
Aggregator.v
AggregatorSpec.v
AggregatorProps.v
Calendar.v
Output.v
Float64.v
Json.v
JsonRef.v
TradeParser.v
ConfigLoader.v
Cli.v
ConnectionError.v
ReconnectPolicy.v
Jitter.v
Totals.v
BoundedQueue.v
QueueProps.v
NetworkStage.v
NetworkProps.v
Snapshots.v
Pipeline.v
PipelineInv.v
PipelineLive.v
PipelineProps.v
Punctual.v
PipelineTyped.v
Defined.v
Operation.v
Lifecycle.v
Main.v
Service.v
ServiceProps.v
ServiceTotal.v
Reports.v
Crash.v
CondVars.v
CondVarProps.v
Conformance.v
