(* ===== verification/Prelude.v ===== *)
(** * Verification of the Binance market-data aggregator

    The program (app/, C++20) is a service that connects to Binance over a
    WebSocket, parses trade messages, aggregates them per symbol and time
    window in several shards, and appends text reports of the completed
    windows to a file until it is told to stop.  This library models it and
    proves it correct, from the command line to the bytes of the file.

    ** The parts and the files that model them

    - Prelude: machine integers, the outcomes of C++ calls (a value, an
      exception, undefined behaviour) and their monad, the tactics and hint
      databases of the development.  CString, StdMap, Totals: the parts of
      the standard library the program uses ([std::string] and <cctype>,
      [std::map]) and sums over lists.
    - DecimalFp: [Decimal] (include/agg/util/Decimal.hpp,
      src/util/Decimal.cpp), fixed-point numbers with 8 digits: [parse],
      [to_string], [Decimal_add], [Decimal_mul].
    - Aggregator, AggregatorSpec, AggregatorProps: [TradeEvent],
      [WindowStats] and [MarketDataAggregator] (src/aggregation): [add_trade],
      [window_stats], [extract_completed_windows], [extract_all_windows].  The
      abstract state is the list of pending trades ([agg_models]).
    - Calendar, Output: UTC calendar time, [StatsSerializer], [OutputSink] (a
      type class) and its instance [FileOutputSink] (src/output).
    - Json, JsonRef: the interface of nlohmann::json, which is not part of the
      repository and so a parameter ([JsonLib], [JsonLaws]), and a small
      implementation of it that the evaluated examples run on.
    - TradeParser: [BinanceTradeParser::parse] (src/parse).
    - ConfigLoader, Cli: [ConfigLoader::load_from_file] (src/config) and
      [parse_cli_options] (src/runtime/CliOptions.cpp).
    - ConnectionError, ReconnectPolicy: [classify_error],
      [build_combined_stream_target] and [ReconnectPolicy] (src/net).
      Float64, Jitter: the rounding of binary64 arithmetic, the range of the
      jittered delays computed with it, and the sequence of the delays.
    - BoundedQueue, QueueProps: [BoundedQueue] (include/agg/runtime), as
      atomic operations and as a monitor with condition variables, any number
      of threads and spurious wake-ups.
    - NetworkStage, NetworkProps: [BinanceWebSocketClient] and [NetworkStage]
      (src/net, src/runtime): the network thread and the stopping thread as
      steps over the shared state.
    - Snapshots, Pipeline, PipelineInv, PipelineLive, PipelineProps:
      [MarketDataPipeline] (src/runtime): the parser, aggregation, writer,
      submitting and stopping threads as steps over the shared state.
      Punctual and PipelineTyped: runs without late trades, and the machine
      ranges of everything the pipeline stores.  Defined: inputs for which no
      step of the pipeline is undefined.  Operation: the pipeline between
      [start] and [stop].  Lifecycle: calling [start] again.
    - Main, Service, ServiceProps: [main] (main.cpp).  Main has the startup
      and the log lines, Service the running program: the main thread, from
      starting the stages over the polling loop to the two rounds of [stop],
      with the signal handler, the network thread and the threads of the
      pipeline, over the one raw queue that the network stage and the pipeline
      share.  ServiceTotal: the program runs to completion.  Crash: what is in
      the output file when the process ends with an exception.
    - CondVars, CondVarProps: the running program once more, with the condition
      variables of the queues, of the pipeline and of the reconnect policy:
      threads that sleep, notifications made after the mutex is released,
      timeouts and spurious wake-ups.
    - Reports: the program in operation, on Operation: messages get through,
      ticks of the timer write the reports; and the stop that is lost.
    - Conformance: the unit tests of the repository, evaluated.

    ** How the code is modelled

    A function of the source is a function here, with the same name where
    Rocq allows it; its state is passed explicitly.  A call returns an
    [outcome]: [Ret], [Throw] with the exception class, or [Undef] for
    undefined behaviour (signed overflow, a missing JSON key, a cast out of
    range).  A wait with a timeout adds its interval to the steady clock in
    signed nanoseconds ([wait_deadline]), which can overflow; starting a thread
    throws when the system refuses it ([start_refused], [start_stage_refused]);
    more shards than a vector can hold throw ([construct_pipeline]).  64-bit integers are [Z] with the wrap-around of unsigned
    arithmetic ([to_u64]) and the range check of signed arithmetic
    ([i64_checked]) written out.

    Concurrent code is a step relation.  A program counter per thread names
    the blocking or locked operation the thread performs next; a step executes
    it with the thread-local code that follows.  Critical sections are atomic
    because the source holds a mutex throughout.  That a blocking call may be
    taken as atomic, waiting until its predicate holds, is itself a theorem:
    for the queue with any number of threads ([monitor_refines_queue],
    [no_lost_wakeup]) and for all waits of the whole program
    ([condvars_same_runs], [program_no_lost_wakeup]).
    Steps are functions, so that schedules can be executed.  The clock, the
    hash function, the random draws, the network and the disk are arguments.

    ** What the theorems show

    - Decimals: exactly which texts [parse] accepts, with the exact value, for
      which it throws [std::invalid_argument], and on which its arithmetic
      overflows; printing is canonical and parsing inverts it; products are
      truncated exactly.
    - Aggregation: every sequence of calls refines an abstract machine over the
      list of pending trades; the result does not depend on the order of the
      trades; each window has the count, volume, prices and sides of the trades
      in its interval; extraction splits at the watermark.
    - Parsing, configuration, command line: exact characterisations of what is
      accepted, of the result, and of the exceptions.
    - Output: blocks are complete, ordered and can be read back if no symbol
      holds a space or a newline; what is written depends only on the set of
      windows.
    - Queue: linearizable, first in first out, bounded; drained before it
      reports the end; no wake-up is lost; threads settle.
    - Pipeline: when [stop] returns, the trades of the accepted messages have
      been written, each in exactly one batch; without late trades the
      output is the report of all trades at once, whatever the number of
      shards, the schedule and the timer flushes; [stop] cannot deadlock and
      takes a bounded number of steps; nothing happens afterwards; a timer
      flush leaves the current window alone; only the sink can throw, and
      [start] when a thread is refused; all stored integers stay in the range of
      their types; [start] called again ends the process, or has no effect when
      the pipeline has been stopped.
    - Network: the back-off sequence; the jitter stays within the configured
      ratio, rounding included; which stops reach the connection in
      progress and end the thread; a schedule in which a stop is lost, and one
      in which it waits out a back-off.  A lost stop leaves [main] blocked for
      as long as messages arrive ([program_can_hang]).
    - Program: a run of the whole program is a run of the pipeline that accepts
      exactly the messages received; at any moment, and when it has exited,
      the output file accounts for every received trade; without late trades
      the file is the report that a sequential aggregator would have written;
      a shutdown whose stop has been noticed cannot get stuck, takes a bounded
      number of steps and can always be completed, also with condition
      variables; with condition variables it makes the same steps, no thread
      being woken but by a notification or a timeout; while it runs, the
      messages received can get through, and a tick of the timer then writes
      every window that is over; with prices, quantities and volumes per symbol
      and window that fit, a disk that works, intervals that are not excessive
      and threads that are granted no step of any thread is undefined or throws;
      when a step throws, the file holds whole reports and an initial part of
      one more.

    ** Bounds and fuel

    [to_digits] gets 20 steps, the decimal digits of a 64-bit number; the
    example JSON parser gets the length of its input, each level of its descent
    consuming a character; every other recursion is structural.  The doubling
    loop of the back-off recurs on the attempt count, as the source's loop
    does.  The theorems on termination give explicit measures
    ([settle_measure], [pipe_measure], [system_measure], [cv_measure]).  The
    range of the jitter is shown for back-offs of up to 2^52 ms, whole numbers
    of milliseconds that a double holds exactly with room for the spread.  The
    deadlines of the waits are shown to fit for back-offs of up to 2^41 ms (70
    years; the jitter can double one), flush intervals of up to 2^42 ms and a
    steady clock of up to 2^62 ns (146 years of operation).

    ** What is not modelled

    spdlog's formatting and output (the log is the list of the entries that
    are passed to it); Boost.Asio, Boost.Beast and OpenSSL behind the events
    of [net_event]; the internals of nlohmann::json; memory allocation
    failure; the C++ memory model below mutexes and the atomic flags; [start] or
    [stop] called while another thread is inside [start] or [stop] of the same
    object, which [main] never does. *)

From Stdlib Require Export ZArith Lia.
From Stdlib Require Ascii.
Export Ascii (ascii(..), N_of_ascii, ascii_of_N, N_ascii_bounded, N_ascii_embedding,
  ascii_N_embedding).
Export (notations) Ascii.
From stdpp Require Export base tactics list strings sorting sets.

#[global] Open Scope Z_scope.

(** ** Machine integers

    A [w]-bit integer is a [Z]; the width is written out by the operation
    that could leave the range.  Unsigned arithmetic wraps; signed arithmetic
    that leaves the range is undefined behaviour in C++ and yields [Undef]
    (see [outcome] below). *)

Declare Scope cpp_scope.
Delimit Scope cpp_scope with cpp.

Abbreviation two64 := 18446744073709551616 (only parsing).
Abbreviation two63 := 9223372036854775808 (only parsing).

Definition in_u64 (x : Z) : Prop := 0 ≤ x < two64.
Definition in_i64 (x : Z) : Prop := - two63 ≤ x < two63.

#[export] Instance in_u64_dec x : Decision (in_u64 x).
Proof. unfold in_u64. apply _. Defined.
#[export] Instance in_i64_dec x : Decision (in_i64 x).
Proof. unfold in_i64. apply _. Defined.

(** Conversion of an integer to [std::uint64_t]. *)
Definition to_u64 (x : Z) : Z := x mod two64.

(** Conversion of an integer to [std::int64_t] (modulo 2^64 since C++20). *)
Definition to_i64 (x : Z) : Z := (x + two63) mod two64 - two63.

(** ** Outcomes

    What a C++ call does: it returns a value, throws an exception of one of
    the classes the program deals with, or executes undefined behaviour. *)

Inductive exn :=
  | InvalidArgument (what : string)
  | RuntimeError (what : string)
  | LengthError (what : string)
  | SystemError (what : string)
  | JsonException (what : string).

Inductive outcome (A : Type) :=
  | Ret (a : A)
  | Throw (e : exn)
  | Undef.
Arguments Ret {A} _.
Arguments Throw {A} _.
Arguments Undef {A}.

#[export] Instance outcome_ret : MRet outcome := @Ret.
#[export] Instance outcome_bind : MBind outcome := λ A B f m,
  match m with
  | Ret a => f a
  | Throw e => Throw e
  | Undef => Undef
  end.
#[export] Instance outcome_fmap : FMap outcome := λ A B f m,
  match m with
  | Ret a => Ret (f a)
  | Throw e => Throw e
  | Undef => Undef
  end.

#[export] Instance exn_eq_dec : EqDecision exn.
Proof. solve_decision. Defined.
#[export] Instance outcome_eq_dec {A} `{EqDecision A} : EqDecision (outcome A).
Proof. solve_decision. Defined.

(** The exceptions a computation can throw satisfy [P]. *)
Definition throws_only {A} (P : exn → Prop) (m : outcome A) : Prop :=
  match m with Throw e => P e | _ => True end.

Definition is_invalid_argument (e : exn) : Prop := ∃ what, e = InvalidArgument what.
Definition is_runtime_error (e : exn) : Prop := ∃ what, e = RuntimeError what.

(** The computation returns. *)
Definition is_ret {A} (m : outcome A) : Prop := ∃ a, m = Ret a.

Definition i64_checked (x : Z) : outcome Z :=
  if decide (in_i64 x) then Ret x else Undef.

(** [std::condition_variable::wait_for]: the deadline is
    [steady_clock::now() + interval], a signed 64-bit count of nanoseconds;
    [steady_ns] is the reading of the clock. *)
Definition wait_deadline (steady_ns interval_ms : Z) : outcome Z :=
  interval_ns ← i64_checked (interval_ms * 1000000); i64_checked (steady_ns + interval_ns).

Notation "a +i64 b" := (i64_checked (a + b))
  (at level 50, left associativity) : cpp_scope.
Notation "a *i64 b" := (i64_checked (a * b))
  (at level 40, left associativity) : cpp_scope.
Notation "a +u64 b" := (to_u64 (a + b))
  (at level 50, left associativity) : cpp_scope.

(** Left fold of a step that may fail. *)
Fixpoint foldM {A B} (f : B → A → outcome B) (b : B) (l : list A) : outcome B :=
  match l with
  | [] => Ret b
  | x :: l => b' ← f b x; foldM f b' l
  end.

(** ** Automation *)

Create HintDb cpp.
Create Rewrite HintDb cpp.

(** Opens the binds of a hypothesis saying that a computation returned. *)
Lemma bind_Ret {A B} (m : outcome A) (f : A → outcome B) b :
  m ≫= f = Ret b ↔ ∃ a, m = Ret a ∧ f a = Ret b.
Proof. destruct m; naive_solver. Qed.

Lemma Ret_inj {A} (a b : A) : Ret a = Ret b → a = b.
Proof. by injection 1. Qed.

Lemma bind_Throw {A B} (m : outcome A) (f : A → outcome B) e :
  m ≫= f = Throw e ↔ m = Throw e ∨ ∃ a, m = Ret a ∧ f a = Throw e.
Proof. destruct m; naive_solver. Qed.

Lemma bind_Undef {A B} (m : outcome A) (f : A → outcome B) :
  m ≫= f = Undef ↔ m = Undef ∨ ∃ a, m = Ret a ∧ f a = Undef.
Proof. destruct m; naive_solver. Qed.

Lemma bind_assoc {A B C} (m : outcome A) (f : A → outcome B) (g : B → outcome C) :
  (m ≫= f) ≫= g = m ≫= (λ a, f a ≫= g).
Proof. by destruct m. Qed.

Lemma bind_ext {A B} (m : outcome A) (f g : A → outcome B) :
  (∀ a, m = Ret a → f a = g a) → m ≫= f = m ≫= g.
Proof. destruct m; naive_solver. Qed.

Ltac inv_ret :=
  repeat match goal with
  | H : mret _ = _ |- _ => progress unfold mret, outcome_ret in H
  | H : Ret _ = Ret _ |- _ => injection H as H; subst
  | H : Throw _ = Ret _ |- _ => discriminate H
  | H : Undef = Ret _ |- _ => discriminate H
  | H : Ret _ = Throw _ |- _ => discriminate H
  | H : Ret _ = Undef |- _ => discriminate H
  | H : Undef = Throw _ |- _ => discriminate H
  | H : Throw _ = Undef |- _ => discriminate H
  | H : _ ≫= _ = Ret _ |- _ =>
      let x := fresh "x" in let Hx := fresh "Hx" in
      apply bind_Ret in H as (x & Hx & H)
  end.

(** Closes a decidable closed goal by evaluating its decision procedure. *)
Ltac by_compute := refine (bool_decide_unpack _ _); vm_compute; exact I.

(** Unfolds the range predicates and calls [lia]. *)
Ltac range := unfold in_u64, in_i64, to_u64, to_i64 in *; lia.

Lemma i64_checked_Ret x y : i64_checked x = Ret y ↔ in_i64 x ∧ y = x.
Proof. unfold i64_checked. case_decide; naive_solver. Qed.

Lemma i64_checked_Undef x : i64_checked x = Undef ↔ ¬ in_i64 x.
Proof. unfold i64_checked. case_decide; naive_solver. Qed.

Lemma i64_checked_in x : in_i64 x → i64_checked x = Ret x.
Proof. intros. by apply i64_checked_Ret. Qed.

Lemma i64_checked_no_throw x e : i64_checked x ≠ Throw e.
Proof. unfold i64_checked. by case_decide. Qed.

Lemma to_u64_range x : in_u64 (to_u64 x).
Proof. unfold to_u64, in_u64. apply Z.mod_pos_bound. lia. Qed.

Lemma to_u64_id x : in_u64 x → to_u64 x = x.
Proof. intros. apply Z.mod_small. range. Qed.

Lemma to_i64_range x : in_i64 (to_i64 x).
Proof.
  unfold to_i64, in_i64.
  pose proof (Z.mod_pos_bound (x + two63) two64). lia.
Qed.

Lemma to_i64_id x : in_i64 x → to_i64 x = x.
Proof. intros. unfold to_i64. rewrite Z.mod_small by range. lia. Qed.

(** Wrapping addition is associative and commutative on all integers. *)
Lemma to_u64_add_l x y : to_u64 (to_u64 x + y) = to_u64 (x + y).
Proof. unfold to_u64. by rewrite Zplus_mod_idemp_l. Qed.

Lemma to_u64_add_r x y : to_u64 (x + to_u64 y) = to_u64 (x + y).
Proof. unfold to_u64. by rewrite Zplus_mod_idemp_r. Qed.

#[export] Hint Resolve to_u64_range to_i64_range : cpp.

(** ** Deadlines *)

Lemma wait_deadline_no_throw steady_ns interval_ms e : wait_deadline steady_ns interval_ms ≠ Throw e.
Proof. intros [?%i64_checked_no_throw|(? & _ & ?%i64_checked_no_throw)]%bind_Throw; done. Qed.

(** A process that has run for at most 2^62 ns, 146 years, can wait for up to
    2^42 ms, 139 years. *)
Definition steady_ok (steady_ns : Z) : Prop := 0 ≤ steady_ns ≤ 2 ^ 62.
Definition interval_ok (interval_ms : Z) : Prop := - 2 ^ 42 ≤ interval_ms ≤ 2 ^ 42.

Lemma wait_deadline_ok steady_ns interval_ms :
  steady_ok steady_ns → interval_ok interval_ms → ∃ deadline, wait_deadline steady_ns interval_ms = Ret deadline.
Proof.
  unfold steady_ok, interval_ok. change (2 ^ 62) with 4611686018427387904. change (2 ^ 42) with 4398046511104.
  intros. unfold wait_deadline. rewrite (i64_checked_in (interval_ms * 1000000)) by range. cbn.
  rewrite i64_checked_in by range. eauto.
Qed.

(** The other steps do not depend on the deadline. *)
Lemma wait_deadline_then {A} steady_ns interval_ms (m : outcome A) x :
  (_ ← wait_deadline steady_ns interval_ms; m) = Ret x → m = Ret x.
Proof. by intros (? & _ & ?)%bind_Ret. Qed.
#[export] Hint Rewrite to_u64_add_l to_u64_add_r : cpp.

(** ** Exceptions *)

Lemma throws_only_bind {A B} P (m : outcome A) (f : A → outcome B) :
  throws_only P m → (∀ a, throws_only P (f a)) → throws_only P (m ≫= f).
Proof. destruct m; naive_solver. Qed.

Lemma throws_only_ret {A} P (a : A) : throws_only P (Ret a).
Proof. done. Qed.

Lemma throws_only_undef {A} P : throws_only (A := A) P Undef.
Proof. done. Qed.

Lemma throws_only_checked P x : throws_only P (i64_checked x).
Proof. unfold i64_checked. by case_decide. Qed.

Lemma throws_only_invalid {A} what : throws_only (A := A) is_invalid_argument (Throw (InvalidArgument what)).
Proof. by exists what. Qed.

Lemma throws_only_runtime {A} what : throws_only (A := A) is_runtime_error (Throw (RuntimeError what)).
Proof. by exists what. Qed.

#[export] Hint Resolve throws_only_ret throws_only_undef throws_only_checked throws_only_invalid
  throws_only_runtime : cpp.

(** Splits a monadic program into its steps. *)
Ltac throws :=
  repeat match goal with
  | |- throws_only _ (_ ≫= _) => apply throws_only_bind; [|intros ?]
  | |- throws_only _ (match ?x with _ => _ end) => destruct x
  end; auto with cpp.

(** ** Folds *)

Lemma foldM_app {A B} (f : B → A → outcome B) l1 l2 b :
  foldM f b (l1 ++ l2) = b' ← foldM f b l1; foldM f b' l2.
Proof.
  revert b. induction l1 as [|x l1 IH]; intros b; [done|].
  cbn. destruct (f b x); cbn; [apply IH|done|done].
Qed.

Lemma foldM_snoc {A B} (f : B → A → outcome B) l x b :
  foldM f b (l ++ [x]) = b' ← foldM f b l; f b' x.
Proof.
  rewrite foldM_app. apply bind_ext. intros b' _. cbn. by destruct (f b' x).
Qed.

(** An invariant of every step holds of the folded result. *)
Lemma foldM_ind {A B} (P : B → Prop) (f : B → A → outcome B) l b b' :
  P b → (∀ b1 x b2, x ∈ l → P b1 → f b1 x = Ret b2 → P b2) →
  foldM f b l = Ret b' → P b'.
Proof.
  revert b. induction l as [|x l IH]; intros b Hb Hstep H; cbn in H; inv_ret; [done|].
  eapply IH; [|intros; eapply Hstep; eauto using list_elem_of_further|exact H].
  eapply Hstep; [apply list_elem_of_here|exact Hb|done].
Qed.

(** ** Strictly sorted lists *)

Section strict_sorted.
Context {A : Type} (R : relation A) `{!Irreflexive R, !Transitive R}.

Lemma strict_sorted_NoDup l : StronglySorted R l → NoDup l.
Proof.
  induction 1 as [|x l Hs IH Hx]; constructor; [|done].
  intros Hin. rewrite Forall_forall in Hx. by apply (irreflexivity R x), Hx.
Qed.

(** A strictly sorted list is determined by its elements. *)
Lemma strict_sorted_ext l1 l2 :
  StronglySorted R l1 → StronglySorted R l2 → (∀ x, x ∈ l1 ↔ x ∈ l2) → l1 = l2.
Proof.
  intros H1 H2 Heq. apply (StronglySorted_unique_strong R); [|done..|].
  - intros x1 x2 _ _ H12 H21. exfalso. apply (irreflexivity R x1). by transitivity x2.
  - apply NoDup_Permutation; eauto using strict_sorted_NoDup.
Qed.
End strict_sorted.
