(* ===== verification/CString.v ===== *)
(** * Characters, strings and decimal digits

    The parts of [<cctype>], [<string>] and [std::to_string] the program
    uses.  A [char] is a Stdlib [ascii] (eight bits, compared as
    [unsigned char] the way [std::char_traits<char>] does), a [std::string]
    is a Stdlib [string].  The classification functions are those of the
    "C" locale: the program never calls [setlocale]. *)

From S2P Require Import Prelude.

(** ** Character classes *)

Definition code (c : ascii) : Z := Z.of_N (N_of_ascii c).
Definition char_of (z : Z) : ascii := ascii_of_N (Z.to_N z).

Definition between (lo hi : Z) (c : ascii) : bool := (lo <=? code c) && (code c <=? hi).

Definition isdigit : ascii → bool := between 48 57.
Definition isupper : ascii → bool := between 65 90.
Definition islower : ascii → bool := between 97 122.
Definition isalnum (c : ascii) : bool := isdigit c || isupper c || islower c.

Definition toupper (c : ascii) : ascii := if islower c then char_of (code c - 32) else c.
Definition tolower (c : ascii) : ascii := if isupper c then char_of (code c + 32) else c.

(** [c - '0'] *)
Definition digit_val (c : ascii) : Z := code c - 48.
Definition digit_char (d : Z) : ascii := char_of (48 + d).

(** ** Whole strings *)

Fixpoint string_map (f : ascii → ascii) (s : string) : string :=
  match s with
  | "" => ""
  | String c s => String (f c) (string_map f s)
  end.

Fixpoint string_all (p : ascii → bool) (s : string) : bool :=
  match s with
  | "" => true
  | String c s => p c && string_all p s
  end.

Definition starts_with_digit (s : string) : bool :=
  match s with
  | "" => false
  | String c _ => isdigit c
  end.

(** [n] copies of a character. *)
Fixpoint string_repeat (n : nat) (c : ascii) : string :=
  match n with
  | O => ""
  | S n => String c (string_repeat n c)
  end.

Fixpoint string_concat (l : list string) : string :=
  match l with
  | [] => ""
  | s :: l => s +:+ string_concat l
  end.

(** ** [std::to_string] on unsigned integers

    Digits are produced from the least significant one; 20 digits are enough
    for every [std::uint64_t]. *)

Fixpoint to_digits (fuel : nat) (n : Z) (acc : string) : string :=
  match fuel with
  | O => acc
  | S fuel =>
      let acc := String (digit_char (n mod 10)) acc in
      if n <? 10 then acc else to_digits fuel (n / 10) acc
  end.

Definition to_string_u64 (n : Z) : string := to_digits 20 n "".

(** The value of a digit string read after the prefix value [a]. *)
Fixpoint dec_value (a : Z) (s : string) : Z :=
  match s with
  | "" => a
  | String c s => dec_value (a * 10 + digit_val c) s
  end.

Notation all_digits := (string_all isdigit).
Notation slen s := (Z.of_nat (String.length s)).

(** ** Lemmas *)

Lemma string_app_nil_l s : "" +:+ s = s.
Proof. done. Qed.

Lemma string_app_cons c s1 s2 : String c s1 +:+ s2 = String c (s1 +:+ s2).
Proof. done. Qed.

Lemma string_app_nil_r s : s +:+ "" = s.
Proof. induction s as [|c s IH]; [done|]. by rewrite string_app_cons, IH. Qed.

Lemma string_app_assoc s1 s2 s3 : (s1 +:+ s2) +:+ s3 = s1 +:+ (s2 +:+ s3).
Proof. induction s1 as [|c s1 IH]; [done|]. by rewrite !string_app_cons, IH. Qed.

#[export] Hint Rewrite string_app_nil_l string_app_cons string_app_nil_r string_app_assoc : cpp.

Lemma string_length_app s1 s2 :
  String.length (s1 +:+ s2) = (String.length s1 + String.length s2)%nat.
Proof. induction s1 as [|c s1 IH]; [done|]. rewrite string_app_cons. cbn. by rewrite IH. Qed.

Lemma string_all_app p s1 s2 :
  string_all p (s1 +:+ s2) = string_all p s1 && string_all p s2.
Proof.
  induction s1 as [|c s1 IH]; [done|]. rewrite string_app_cons. cbn.
  by rewrite IH, andb_assoc.
Qed.

Lemma string_map_length f s : String.length (string_map f s) = String.length s.
Proof. induction s; cbn; congruence. Qed.

Lemma string_map_map f g s : string_map f (string_map g s) = string_map (λ c, f (g c)) s.
Proof. induction s; cbn; congruence. Qed.

Lemma string_map_ext_all (p : ascii → bool) f g s :
  (∀ c, p c = true → f c = g c) → string_all p s = true → string_map f s = string_map g s.
Proof.
  intros Hfg. induction s as [|c s IH]; [done|]. cbn.
  intros [? ?]%andb_true_iff. f_equal; auto.
Qed.

Lemma string_repeat_length n c : String.length (string_repeat n c) = n.
Proof. induction n; cbn; congruence. Qed.

Lemma string_repeat_all p n c : p c = true → string_all p (string_repeat n c) = true.
Proof. intros Hc. induction n; cbn; [done|]. by rewrite Hc. Qed.

Lemma string_concat_app l1 l2 :
  string_concat (l1 ++ l2) = string_concat l1 +:+ string_concat l2.
Proof.
  induction l1 as [|s l1 IH]; [done|]. cbn. by rewrite IH, string_app_assoc.
Qed.

Lemma code_range c : 0 ≤ code c < 256.
Proof.
  unfold code. pose proof (N_ascii_bounded c).
  lia.
Qed.

Lemma code_char_of z : 0 ≤ z < 256 → code (char_of z) = z.
Proof.
  intros Hz. unfold code, char_of. rewrite N_ascii_embedding by lia. lia.
Qed.

Lemma char_of_code c : char_of (code c) = c.
Proof. unfold code, char_of. rewrite N2Z.id. apply ascii_N_embedding. Qed.

Lemma code_inj c1 c2 : code c1 = code c2 → c1 = c2.
Proof. intros H. by rewrite <- (char_of_code c1), <- (char_of_code c2), H. Qed.

Lemma between_spec lo hi c : between lo hi c = true ↔ lo ≤ code c ≤ hi.
Proof. unfold between. rewrite andb_true_iff, !Z.leb_le. done. Qed.

Lemma isdigit_spec c : isdigit c = true ↔ 0 ≤ digit_val c ≤ 9.
Proof. unfold isdigit, digit_val. rewrite between_spec. lia. Qed.

Lemma digit_val_char d : 0 ≤ d < 10 → digit_val (digit_char d) = d.
Proof. intros. unfold digit_val, digit_char. rewrite code_char_of; lia. Qed.

Lemma isdigit_char d : 0 ≤ d < 10 → isdigit (digit_char d) = true.
Proof. intros. apply isdigit_spec. rewrite digit_val_char; lia. Qed.

Lemma digit_char_val c : isdigit c = true → digit_char (digit_val c) = c.
Proof.
  intros _. unfold digit_char, digit_val.
  replace (48 + (code c - 48)) with (code c) by lia. apply char_of_code.
Qed.

#[export] Hint Resolve isdigit_char string_repeat_all : cpp.

Lemma dec_value_app a s1 s2 : dec_value a (s1 +:+ s2) = dec_value (dec_value a s1) s2.
Proof. revert a. induction s1 as [|c s1 IH]; intros a; [done|]. rewrite string_app_cons. apply IH. Qed.

Lemma dec_value_shift a s : dec_value a s = a * 10 ^ slen s + dec_value 0 s.
Proof.
  revert a. induction s as [|c s IH]; intros a; [cbn; lia|].
  cbn [dec_value String.length]. rewrite (IH (a * 10 + _)), (IH (0 * 10 + _)).
  rewrite Nat2Z.inj_succ, Z.pow_succ_r by lia. ring.
Qed.

Lemma dec_value_bounds s : all_digits s = true → 0 ≤ dec_value 0 s < 10 ^ slen s.
Proof.
  induction s as [|c s IH]; [cbn; lia|].
  cbn [string_all dec_value String.length].
  intros [Hc%isdigit_spec Hs]%andb_true_iff. specialize (IH Hs).
  rewrite dec_value_shift, Nat2Z.inj_succ, Z.pow_succ_r by lia. nia.
Qed.

Lemma dec_value_zeros a n : dec_value a (string_repeat n "0") = a * 10 ^ Z.of_nat n.
Proof.
  revert a. induction n as [|n IH]; intros a; [cbn; lia|].
  rewrite Nat2Z.inj_succ, Z.pow_succ_r by lia. cbn [string_repeat dec_value].
  rewrite IH. change (digit_val "0") with 0. ring.
Qed.

(** What [to_digits] prepends to its accumulator. *)
Lemma to_digits_spec fuel n acc :
  0 ≤ n < 10 ^ Z.of_nat fuel → fuel ≠ 0%nat →
  ∃ s, to_digits fuel n acc = s +:+ acc ∧ all_digits s = true ∧
    dec_value 0 s = n ∧ (1 ≤ String.length s ≤ fuel)%nat ∧
    ((2 ≤ String.length s)%nat → 10 ^ (slen s - 1) ≤ n).
Proof.
  revert n acc. induction fuel as [|fuel IH]; intros n acc Hn Hf; [done|].
  cbn [to_digits]. destruct (Z.ltb_spec n 10).
  { exists (String (digit_char (n mod 10)) "").
    rewrite Z.mod_small by lia. rewrite string_app_cons, string_app_nil_l.
    cbn -[Z.mul]. rewrite isdigit_char, digit_val_char by lia.
    repeat split; lia. }
  rewrite Nat2Z.inj_succ, Z.pow_succ_r in Hn by lia.
  assert (0 ≤ n / 10 < 10 ^ Z.of_nat fuel).
  { split; [apply Z.div_pos; lia|apply Z.div_lt_upper_bound; lia]. }
  assert (fuel ≠ 0%nat) by (intros ->; cbn in *; lia).
  pose proof (Z.mod_pos_bound n 10). pose proof (Z.div_mod n 10).
  destruct (IH (n / 10) (String (digit_char (n mod 10)) acc)) as (s & -> & Hs & Hv & Hl & Hlo);
    [done..|].
  exists (s +:+ String (digit_char (n mod 10)) "").
  rewrite string_app_assoc, string_app_cons, string_app_nil_l, string_all_app, dec_value_app, Hv.
  rewrite string_length_app. cbn [string_all dec_value String.length].
  rewrite Hs, isdigit_char, digit_val_char by lia.
  repeat split; [lia..|]. intros _.
  destruct (decide (String.length s = 1%nat)) as [Hl1|]; [rewrite Hl1; cbn; lia|].
  replace (Z.of_nat (String.length s + 1) - 1) with (Z.succ (slen s - 1)) by lia.
  rewrite Z.pow_succ_r by lia. lia.
Qed.

Lemma to_string_u64_spec n :
  in_u64 n →
  all_digits (to_string_u64 n) = true ∧ dec_value 0 (to_string_u64 n) = n ∧
  (1 ≤ String.length (to_string_u64 n) ≤ 20)%nat ∧
  ((2 ≤ String.length (to_string_u64 n))%nat → 10 ^ (slen (to_string_u64 n) - 1) ≤ n).
Proof.
  intros Hn. destruct (to_digits_spec 20 n "") as (s & Hs & ?); [|done|].
  { split; [range|]. change (10 ^ Z.of_nat 20) with 100000000000000000000. range. }
  unfold to_string_u64. by rewrite Hs, string_app_nil_r.
Qed.

Lemma to_string_u64_inj n m : in_u64 n → in_u64 m → to_string_u64 n = to_string_u64 m → n = m.
Proof.
  intros Hn Hm H.
  destruct (to_string_u64_spec n Hn) as (_ & <- & _).
  destruct (to_string_u64_spec m Hm) as (_ & <- & _). by rewrite H.
Qed.

(** The number of digits of a value below a power of ten. *)
Lemma to_string_u64_length n k :
  in_u64 n → (1 ≤ k)%nat → n < 10 ^ Z.of_nat k → (String.length (to_string_u64 n) ≤ k)%nat.
Proof.
  intros Hn Hk Hlt. destruct (to_string_u64_spec n Hn) as (_ & _ & Hl & Hlo).
  destruct (decide (String.length (to_string_u64 n) ≤ k)%nat) as [|Hgt]; [done|].
  specialize (Hlo ltac:(lia)).
  assert (10 ^ Z.of_nat k ≤ 10 ^ (slen (to_string_u64 n) - 1)); [|lia].
  apply Z.pow_le_mono_r; lia.
Qed.

(** ** ASCII case mapping *)

Lemma toupper_idemp c : toupper (toupper c) = toupper c.
Proof.
  unfold toupper. destruct (islower c) eqn:E; [|by rewrite E].
  unfold islower in *. rewrite between_spec in E.
  destruct (between 97 122 (char_of (code c - 32))) eqn:E2; [|done].
  rewrite between_spec, code_char_of in E2 by lia. lia.
Qed.

Lemma tolower_toupper c : tolower (toupper c) = tolower c.
Proof.
  unfold tolower, toupper. destruct (islower c) eqn:E; [|done].
  unfold islower, isupper in *. rewrite between_spec in E.
  assert (between 65 90 (char_of (code c - 32)) = true) as ->.
  { rewrite between_spec, code_char_of by lia. lia. }
  destruct (between 65 90 c) eqn:E2; [rewrite between_spec in E2; lia|].
  rewrite code_char_of by lia. replace (code c - 32 + 32) with (code c) by lia.
  apply char_of_code.
Qed.

Lemma toupper_tolower c : toupper (tolower c) = toupper c.
Proof.
  unfold tolower, toupper. destruct (isupper c) eqn:E; [|done].
  unfold islower, isupper in *. rewrite between_spec in E.
  assert (between 97 122 (char_of (code c + 32)) = true) as ->.
  { rewrite between_spec, code_char_of by lia. lia. }
  destruct (between 97 122 c) eqn:E2; [rewrite between_spec in E2; lia|].
  rewrite code_char_of by lia. replace (code c + 32 - 32) with (code c) by lia.
  apply char_of_code.
Qed.

(** ** Splitting at a separator *)

Definition lacks (c : ascii) (s : string) : bool := string_all (λ x, negb (bool_decide (x = c))) s.

Lemma split_at_char c s1 s2 r1 r2 :
  lacks c s1 = true → lacks c s2 = true →
  s1 +:+ String c r1 = s2 +:+ String c r2 → s1 = s2 ∧ r1 = r2.
Proof.
  unfold lacks. revert s2. induction s1 as [|x s1 IH]; intros [|y s2]; cbn; intros H1 H2 He.
  - by simplify_eq.
  - simplify_eq. by rewrite bool_decide_eq_true_2 in H2.
  - simplify_eq. by rewrite bool_decide_eq_true_2 in H1.
  - apply andb_true_iff in H1 as [_ H1], H2 as [_ H2]. injection He as -> He.
    destruct (IH s2 H1 H2 He) as [-> ->]. done.
Qed.

Lemma lacks_app c s1 s2 : lacks c (s1 +:+ s2) = lacks c s1 && lacks c s2.
Proof. apply string_all_app. Qed.

Lemma string_all_lacks (p : ascii → bool) c s : p c = false → string_all p s = true → lacks c s = true.
Proof.
  intros Hc. unfold lacks. induction s as [|x s IH]; [done|]. cbn.
  intros [Hx Hs]%andb_true_iff. rewrite (IH Hs), andb_true_r.
  rewrite bool_decide_eq_false_2; [done|]. intros ->. congruence.
Qed.

Lemma digits_lack c s : isdigit c = false → all_digits s = true → lacks c s = true.
Proof. apply string_all_lacks. Qed.

(** The two strings have the same length, so equal concatenations split. *)
Lemma split_same_length s1 s2 r1 r2 :
  String.length s1 = String.length s2 → s1 +:+ r1 = s2 +:+ r2 → s1 = s2 ∧ r1 = r2.
Proof.
  revert s2. induction s1 as [|x s1 IH]; intros [|y s2]; cbn; intros Hl He; [done..|].
  rewrite !string_app_cons in He. simplify_eq. destruct (IH s2) as [-> ->]; [lia|done|done].
Qed.

Lemma string_app_inv_head s r1 r2 : s +:+ r1 = s +:+ r2 → r1 = r2.
Proof. intros H. by apply split_same_length in H as [_ ?]. Qed.

Lemma string_cons_inv c r1 r2 : String c r1 = String c r2 → r1 = r2.
Proof. by injection 1. Qed.
