(* ===== verification/DecimalFp.v ===== *)
(** * [agg::util::Decimal]

    The fixed-point number of app/include/agg/util/Decimal.hpp and
    app/src/util/Decimal.cpp: a signed 64-bit integer scaled by 10^8.
    [parse] and [to_string] keep the order of the checks of the source, the
    exception messages, and the points where signed arithmetic can leave its
    range ([Undef]). *)

From S2P Require Import Prelude CString.

Local Open Scope cpp_scope.

(** ** The type and its operators *)

Record Decimal := from_raw { raw : Z }.

#[export] Instance Decimal_eq_dec : EqDecision Decimal.
Proof. solve_decision. Defined.

Definition kScale : Z := 8.
Definition kScaleFactor : Z := 100000000.

(** The default member initialiser [raw_ = 0]. *)
Definition Decimal_zero : Decimal := from_raw 0.

Definition Decimal_ltb (lhs rhs : Decimal) : bool := raw lhs <? raw rhs.

Definition Decimal_add (lhs rhs : Decimal) : outcome Decimal :=
  r ← raw lhs +i64 raw rhs; Ret (from_raw r).

(** The product is formed in [__int128]; dividing it back by the scale factor
    truncates towards zero and the cast to [std::int64_t] wraps. *)
Definition Decimal_mul (lhs rhs : Decimal) : Decimal :=
  let product := raw lhs * raw rhs in
  from_raw (to_i64 (Z.quot product kScaleFactor)).

(** ** [Decimal::parse] *)

(** The optional leading sign: is it a minus, and what follows it. *)
Definition take_sign (text : string) : bool * string :=
  match text with
  | "" => (false, "")
  | String c rest =>
      if bool_decide (c = "+"%char) || bool_decide (c = "-"%char)
      then (bool_decide (c = "-"%char), rest)
      else (false, text)
  end.

(** The loop over the integer digits. *)
Fixpoint scan_integer (integer_part : Z) (text : string) : outcome (Z * string) :=
  match text with
  | "" => Ret (integer_part, "")
  | String c rest =>
      if isdigit c then
        t ← integer_part *i64 10;
        integer_part ← t +i64 digit_val c;
        scan_integer integer_part rest
      else Ret (integer_part, text)
  end.

(** The loop over the fractional digits; [whole] is the text quoted in the
    exception message. *)
Fixpoint scan_fraction (whole : string) (fractional_part fractional_digits : Z)
    (text : string) : outcome (Z * Z * string) :=
  match text with
  | "" => Ret (fractional_part, fractional_digits, "")
  | String c rest =>
      if isdigit c then
        if kScale <=? fractional_digits then
          Throw (InvalidArgument ("Decimal string exceeds supported precision: " +:+ whole))
        else
          t ← fractional_part *i64 10;
          fractional_part ← t +i64 digit_val c;
          scan_fraction whole fractional_part (fractional_digits + 1) rest
      else Ret (fractional_part, fractional_digits, text)
  end.

(** The optional fraction after the integer part. *)
Definition parse_fraction (whole text : string) : outcome (Z * Z * string) :=
  match text with
  | "" => Ret (0, 0, "")
  | String c rest =>
      if bool_decide (c = "."%char) then
        if negb (starts_with_digit rest) then
          Throw (InvalidArgument ("Decimal string must have digits after '.': " +:+ whole))
        else scan_fraction whole 0 0 rest
      else Ret (0, 0, text)
  end.

(** The loop that scales the fraction to [kScale] digits. *)
Fixpoint scale_fraction (n : nat) (fractional_part : Z) : outcome Z :=
  match n with
  | O => Ret fractional_part
  | S n => fractional_part ← fractional_part *i64 10; scale_fraction n fractional_part
  end.

Definition parse (text : string) : outcome Decimal :=
  if bool_decide (text = "") then
    Throw (InvalidArgument "Decimal string must not be empty")
  else
    let '(negative, rest) := take_sign text in
    if negb (starts_with_digit rest) then
      Throw (InvalidArgument ("Decimal string must contain an integer part: " +:+ text))
    else
      '(integer_part, rest) ← scan_integer 0 rest;
      '(fractional_part, fractional_digits, rest) ← parse_fraction text rest;
      if negb (bool_decide (rest = "")) then
        Throw (InvalidArgument ("Decimal string contains invalid characters: " +:+ text))
      else
        fractional_part ← scale_fraction (Z.to_nat (kScale - fractional_digits)) fractional_part;
        scaled ← integer_part *i64 kScaleFactor;
        r ← scaled +i64 fractional_part;
        r ← (if negative then i64_checked (- r) else Ret r);
        Ret (from_raw r).

(** ** [Decimal::to_string] *)

(** The loop that pops ['0'] off the back: drops the maximal run of trailing
    zeros. *)
Fixpoint strip_zeros (s : string) : string :=
  match s with
  | "" => ""
  | String c s =>
      match strip_zeros s with
      | "" => if bool_decide (c = "0"%char) then "" else String c ""
      | s' => String c s'
      end
  end.

Definition to_string (d : Decimal) : outcome string :=
  let negative := raw d <? 0 in
  m ← (if negative then i64_checked (- raw d) else Ret (raw d));
  let magnitude := to_u64 m in
  let integer_part := magnitude / kScaleFactor in
  let fractional_part := magnitude mod kScaleFactor in
  let digits := to_string_u64 fractional_part in
  let padded := string_repeat (Z.to_nat kScale - String.length digits) "0" +:+ digits in
  let fractional_str := strip_zeros padded in
  let result := (if negative then "-" else "") +:+ to_string_u64 integer_part in
  Ret (if bool_decide (fractional_str = "") then result
       else result +:+ String "." fractional_str).

(** ** The decimal literals [parse] accepts *)

Inductive sign := NoSign | Plus | Minus.

#[export] Instance sign_eq_dec : EqDecision sign.
Proof. solve_decision. Defined.

Record literal := Literal {
  lit_sign : sign;
  lit_int : string;
  lit_frac : option string
}.

Definition sign_text (s : sign) : string :=
  match s with NoSign => "" | Plus => "+" | Minus => "-" end.

Definition frac_digits (l : literal) : string := default "" (lit_frac l).

Definition lit_text (l : literal) : string :=
  sign_text (lit_sign l) +:+ lit_int l +:+
  match lit_frac l with None => "" | Some f => String "." f end.

Definition lit_wf (l : literal) : bool :=
  all_digits (lit_int l) && negb (bool_decide (lit_int l = "")) &&
  match lit_frac l with
  | None => true
  | Some f => all_digits f && negb (bool_decide (f = "")) && (String.length f <=? 8)%nat
  end.

(** The magnitude of a literal in units of 10^-8. *)
Definition lit_magnitude (l : literal) : Z :=
  dec_value 0 (lit_int l) * 10 ^ 8 +
  dec_value 0 (frac_digits l) * 10 ^ (8 - slen (frac_digits l)).

Definition lit_raw (l : literal) : Z :=
  match lit_sign l with Minus => - lit_magnitude l | _ => lit_magnitude l end.

(** The maximal run of digits at the front of a text, and the rest. *)
Fixpoint span_digits (s : string) : string * string :=
  match s with
  | "" => ("", "")
  | String c s' =>
      if isdigit c then let '(d, r) := span_digits s' in (String c d, r) else ("", s)
  end.

(** ** Lemmas on the scanning loops *)

Lemma span_digits_spec s d r :
  span_digits s = (d, r) →
  s = d +:+ r ∧ all_digits d = true ∧ starts_with_digit r = false.
Proof.
  revert d r. induction s as [|c s IH]; intros d r H; cbn in H; [by simplify_eq|].
  destruct (isdigit c) eqn:Hc; [|simplify_eq; by cbn].
  destruct (span_digits s) as [d' r']. simplify_eq.
  destruct (IH d' r eq_refl) as (-> & Hd & Hr). cbn. by rewrite Hc.
Qed.

Lemma span_digits_app d r :
  all_digits d = true → starts_with_digit r = false → span_digits (d +:+ r) = (d, r).
Proof.
  intros Hd Hr. induction d as [|c d IH].
  - rewrite string_app_nil_l. destruct r as [|c r]; [done|]. cbn in *. by rewrite Hr.
  - cbn in Hd. apply andb_true_iff in Hd as [Hc Hd].
    rewrite string_app_cons. cbn. by rewrite Hc, (IH Hd).
Qed.

(** Reading more digits never makes the value smaller. *)
Lemma dec_value_ge a s : 0 ≤ a → all_digits s = true → a ≤ dec_value a s.
Proof.
  revert a. induction s as [|c s IH]; intros a Ha; cbn; [lia|].
  intros [Hc%isdigit_spec Hs]%andb_true_iff.
  etransitivity; [|apply IH; [lia|done]]. lia.
Qed.

Lemma scan_integer_spec acc s d r :
  0 ≤ acc → in_i64 acc → span_digits s = (d, r) →
  scan_integer acc s =
    if decide (in_i64 (dec_value acc d)) then Ret (dec_value acc d, r) else Undef.
Proof.
  revert acc d. induction s as [|c s IH]; intros acc d Hacc Hin H; cbn in H.
  { simplify_eq. cbn. by rewrite decide_True. }
  destruct (isdigit c) eqn:Hc.
  2:{ simplify_eq. cbn. rewrite Hc. by rewrite decide_True. }
  destruct (span_digits s) as [d' r'] eqn:Hspan. simplify_eq.
  destruct (span_digits_spec _ _ _ Hspan) as (_ & Hd & _).
  cbn. rewrite Hc. apply isdigit_spec in Hc.
  pose proof (dec_value_ge (acc * 10 + digit_val c) d' ltac:(lia) Hd).
  destruct (decide (in_i64 (dec_value (acc * 10 + digit_val c) d'))) as [Hv|Hv].
  - rewrite (i64_checked_in (acc * 10)) by range. cbn.
    rewrite i64_checked_in by range. cbn.
    rewrite (IH _ d') by (done || range). by rewrite decide_True.
  - unfold i64_checked. case_decide; [cbn|done]. case_decide; [cbn|done].
    rewrite (IH _ d') by (done || range). by rewrite decide_False.
Qed.

Lemma scan_fraction_spec whole acc n s d r :
  0 ≤ n ≤ 8 → 0 ≤ acc < 10 ^ n → span_digits s = (d, r) →
  scan_fraction whole acc n s =
    if decide (n + slen d ≤ 8) then Ret (dec_value acc d, n + slen d, r)
    else Throw (InvalidArgument ("Decimal string exceeds supported precision: " +:+ whole)).
Proof.
  revert acc n d. induction s as [|c s IH]; intros acc n d Hn Hacc H; cbn in H.
  { simplify_eq. cbn. rewrite decide_True by lia. by rewrite Z.add_0_r. }
  destruct (isdigit c) eqn:Hc.
  2:{ simplify_eq. cbn -[kScale]. rewrite Hc, decide_True by lia. by rewrite Z.add_0_r. }
  destruct (span_digits s) as [d' r'] eqn:Hspan. simplify_eq.
  cbn [scan_fraction]. rewrite Hc. apply isdigit_spec in Hc. unfold kScale.
  cbn [String.length dec_value]. rewrite Nat2Z.inj_succ.
  destruct (Z.leb_spec 8 n); [by rewrite decide_False by lia|].
  assert (10 ^ n * 10 ≤ 10 ^ 8).
  { rewrite Z.mul_comm, <- Z.pow_succ_r by lia. apply Z.pow_le_mono_r; lia. }
  change (10 ^ 8) with 100000000 in *.
  rewrite (i64_checked_in (acc * 10)) by range. cbn.
  rewrite i64_checked_in by range. cbn.
  rewrite (IH _ _ d') by (done || lia || (rewrite Z.pow_add_r by lia; lia)).
  replace (n + Z.succ (slen d')) with (n + 1 + slen d') by lia. done.
Qed.

Lemma scale_fraction_spec n v :
  0 ≤ v → v * 10 ^ Z.of_nat n < two63 → scale_fraction n v = Ret (v * 10 ^ Z.of_nat n).
Proof.
  revert v. induction n as [|n IH]; intros v Hv Hlt; cbn [scale_fraction].
  { f_equal. cbn. lia. }
  rewrite Nat2Z.inj_succ, Z.pow_succ_r in * by lia.
  assert (0 < 10 ^ Z.of_nat n) by (apply Z.pow_pos_nonneg; lia).
  rewrite i64_checked_in by (unfold in_i64; nia). cbn.
  rewrite IH by nia. f_equal. ring.
Qed.

(** ** Lemmas on literals *)

Lemma lit_wf_spec l :
  lit_wf l = true ↔
  all_digits (lit_int l) = true ∧ lit_int l ≠ "" ∧
  ∀ f, lit_frac l = Some f → all_digits f = true ∧ f ≠ "" ∧ (String.length f ≤ 8)%nat.
Proof.
  unfold lit_wf. rewrite !andb_true_iff, negb_true_iff, bool_decide_eq_false.
  destruct (lit_frac l) as [f|]; [|naive_solver].
  rewrite !andb_true_iff, negb_true_iff, bool_decide_eq_false, Nat.leb_le. naive_solver.
Qed.

Lemma scaled_fraction_bounds fp fd :
  0 ≤ fd ≤ 8 → 0 ≤ fp < 10 ^ fd → 0 ≤ fp * 10 ^ (8 - fd) < 10 ^ 8.
Proof.
  intros Hfd Hfp. assert (0 < 10 ^ (8 - fd)) by (apply Z.pow_pos_nonneg; lia).
  replace (10 ^ 8) with (10 ^ fd * 10 ^ (8 - fd)); [nia|].
  rewrite <- Z.pow_add_r by lia. f_equal. lia.
Qed.

Lemma lit_frac_bounds l :
  lit_wf l = true →
  0 ≤ dec_value 0 (frac_digits l) ∧ 0 ≤ slen (frac_digits l) ≤ 8 ∧
  0 ≤ dec_value 0 (frac_digits l) * 10 ^ (8 - slen (frac_digits l)) < 10 ^ 8.
Proof.
  intros (_ & _ & Hf)%lit_wf_spec. unfold frac_digits.
  destruct (lit_frac l) as [f|]; cbn -[Z.pow]; [|change (10 ^ 8) with 100000000; lia].
  destruct (Hf f eq_refl) as (Hd & _ & Hl). apply dec_value_bounds in Hd.
  split; [|split]; [lia..|]. apply scaled_fraction_bounds; lia.
Qed.

Lemma lit_int_nonneg l : lit_wf l = true → 0 ≤ dec_value 0 (lit_int l).
Proof. intros (Hd & _)%lit_wf_spec. by apply dec_value_bounds. Qed.

Lemma starts_with_digit_app d r :
  all_digits d = true → d ≠ "" → starts_with_digit (d +:+ r) = true.
Proof. destruct d as [|c d]; [done|]. rewrite string_app_cons. cbn. by intros [? _]%andb_true_iff. Qed.

Lemma take_sign_text sg s :
  starts_with_digit s = true →
  take_sign (sign_text sg +:+ s) = (bool_decide (sg = Minus), s).
Proof.
  intros Hs. destruct sg; [|done..].
  change (sign_text NoSign +:+ s) with s.
  destruct s as [|c s]; [done|]. cbn in Hs |- *.
  rewrite !bool_decide_eq_false_2; [done|done || by intros ->; vm_compute in Hs..].
Qed.


Lemma parse_fraction_lit whole l :
  lit_wf l = true →
  parse_fraction whole (match lit_frac l with None => "" | Some f => String "." f end) =
    Ret (dec_value 0 (frac_digits l), slen (frac_digits l), "").
Proof.
  intros Hwf. apply lit_wf_spec in Hwf as (_ & _ & Hf). unfold frac_digits.
  destruct (lit_frac l) as [f|]; [|done].
  destruct (Hf f eq_refl) as (Hd & Hne & Hl). cbn [parse_fraction default].
  pose proof (starts_with_digit_app f "" Hd Hne) as Hsd.
  pose proof (span_digits_app f "" Hd eq_refl) as Hspan.
  rewrite string_app_nil_r in Hsd, Hspan. rewrite Hsd.
  rewrite (scan_fraction_spec _ _ _ _ f "") by (done || lia).
  by rewrite decide_True by lia.
Qed.

(** ** Parsing *)

(** [parse] on the text of a literal: the exact value when it fits, undefined
    behaviour otherwise. *)
Lemma parse_lit l :
  lit_wf l = true →
  parse (lit_text l) =
    if decide (lit_magnitude l < two63) then Ret (from_raw (lit_raw l)) else Undef.
Proof.
  intros Hwf. destruct (proj1 (lit_wf_spec l) Hwf) as (Hd & Hne & _).
  pose proof (lit_frac_bounds l Hwf) as (Hfv & Hfl & Hfb).
  pose proof (lit_int_nonneg l Hwf) as Hi.
  unfold parse. rewrite bool_decide_eq_false_2; cycle 1.
  { unfold lit_text. destruct (lit_sign l), (lit_int l); by rewrite ?string_app_cons. }
  unfold lit_text at 1. rewrite take_sign_text by by apply starts_with_digit_app.
  rewrite starts_with_digit_app by done. cbn [negb].
  erewrite (scan_integer_spec 0 _ (lit_int l)); [|done..|]; cycle 1.
  { apply span_digits_app; [done|]. by destruct (lit_frac l). }
  unfold lit_raw, lit_magnitude in *. change (10 ^ 8) with 100000000 in *.
  unfold mbind, outcome_bind at 1.
  case_decide as Hint; [|rewrite decide_False; [done|unfold in_i64 in Hint; lia]].
  unfold outcome_bind at 1. rewrite parse_fraction_lit by done.
  rewrite bool_decide_eq_true_2 by done. cbn [negb outcome_bind].
  unfold kScale, kScaleFactor.
  rewrite scale_fraction_spec; rewrite ?Z2Nat.id by lia; [cbn [outcome_bind]|lia..].
  unfold i64_checked. case_decide; cbn [outcome_bind]; [|rewrite decide_False; [done|range]].
  case_decide; cbn [outcome_bind]; [|rewrite decide_False; [done|range]].
  rewrite !decide_True by range.
  by destruct (lit_sign l).
Qed.

Lemma take_sign_inv text neg rest :
  take_sign text = (neg, rest) → ∃ sg, text = sign_text sg +:+ rest.
Proof.
  destruct text as [|c text]; cbn; intros H; [exists NoSign; by simplify_eq|].
  destruct (decide (c = "+"%char)) as [->|H1]; [exists Plus; by simplify_eq/=|].
  destruct (decide (c = "-"%char)) as [->|H2]; [exists Minus; by simplify_eq/=|].
  rewrite !bool_decide_eq_false_2 in H by done. exists NoSign. by simplify_eq/=.
Qed.

Lemma parse_fraction_inv whole s fp fd :
  parse_fraction whole s = Ret (fp, fd, "") →
  ∃ fr, s = match fr with None => "" | Some f => String "." f end ∧
    ∀ f, fr = Some f → all_digits f = true ∧ f ≠ "" ∧ (String.length f ≤ 8)%nat.
Proof.
  destruct s as [|c s]; [by exists None|]. cbn [parse_fraction].
  case_bool_decide; [subst|by intros ?; simplify_eq].
  destruct (starts_with_digit s) eqn:Hs; [cbn [negb]|done].
  destruct (span_digits s) as [d r] eqn:Hspan.
  rewrite (scan_fraction_spec _ _ _ _ d r) by (done || lia).
  case_decide; [|done]. intros ?; simplify_eq.
  destruct (span_digits_spec _ _ _ Hspan) as (-> & Hd & _).
  rewrite string_app_nil_r in *. exists (Some d). split; [done|].
  intros f [= <-]. split_and!; [done|by intros ->|lia].
Qed.

(** Every text [parse] accepts is the text of a well-formed literal. *)
Lemma parse_Ret_lit text d :
  parse text = Ret d → ∃ l, lit_wf l = true ∧ text = lit_text l.
Proof.
  unfold parse. case_bool_decide as Hne; [done|].
  destruct (take_sign text) as [neg rest] eqn:Hsg. apply take_sign_inv in Hsg as [sg Hsg].
  destruct (starts_with_digit rest) eqn:Hsd; [cbn [negb]|done].
  intros H. inv_ret. destruct x as [ip rest1]. inv_ret.
  destruct x as [[fp fd] rest2]. case_bool_decide as Hend; [cbn [negb] in H; subst|done].
  destruct (span_digits rest) as [di r1] eqn:Hspan.
  erewrite scan_integer_spec in Hx by done. case_decide; [|done]. inv_ret.
  destruct (span_digits_spec _ _ _ Hspan) as (-> & Hdi & Hr1).
  apply parse_fraction_inv in Hx0 as (fr & -> & Hfr).
  exists (Literal sg di fr). split; [|done].
  apply lit_wf_spec. split_and!; [done| |done]. cbn. intros ->.
  rewrite string_app_nil_l in Hsd. congruence.
Qed.

(** The fraction never overflows. *)
Lemma parse_fraction_bounds whole s :
  match parse_fraction whole s with
  | Ret (fp, fd, _) => 0 ≤ fd ≤ 8 ∧ 0 ≤ fp < 10 ^ fd
  | Throw _ => True
  | Undef => False
  end.
Proof.
  destruct s as [|c s]; [cbn; lia|]. cbn [parse_fraction].
  case_bool_decide; [|lia]. destruct (starts_with_digit s); [cbn [negb]|done].
  destruct (span_digits s) as [d r] eqn:Hspan.
  rewrite (scan_fraction_spec _ _ _ _ d r) by (done || lia).
  case_decide; [|done]. split; [lia|].
  rewrite Z.add_0_l. apply dec_value_bounds. by apply span_digits_spec in Hspan as (_ & ? & _).
Qed.

(** The digits after an optional sign denote 2^63 or more. *)
Definition integer_overflows (text : string) : Prop :=
  ∃ sg digits rest, text = sign_text sg +:+ digits +:+ rest ∧ all_digits digits = true ∧ two63 ≤ dec_value 0 digits.

Lemma span_digits_prefix d s :
  all_digits d = true → ∃ d' r, span_digits (d +:+ s) = (d +:+ d', r).
Proof.
  intros Hd. induction d as [|c d IH].
  - destruct (span_digits s) as [d' r] eqn:Hs. exists d', r. by rewrite !string_app_nil_l.
  - cbn in Hd. apply andb_true_iff in Hd as [Hc Hd]. destruct (IH Hd) as (d' & r & Hs).
    exists d', r. rewrite !string_app_cons. cbn. by rewrite Hc, Hs.
Qed.

Lemma parse_integer_overflows text : integer_overflows text → parse text = Undef.
Proof.
  intros (sg & ds & rest & -> & Hd & Hbig).
  assert (ds ≠ "") as Hne by (intros ->; cbn in Hbig; range).
  pose proof (starts_with_digit_app ds rest Hd Hne) as Hsd.
  unfold parse. rewrite bool_decide_eq_false_2 by (destruct sg, ds; by rewrite ?string_app_cons).
  rewrite take_sign_text, Hsd by done. cbn [negb].
  destruct (span_digits_prefix ds rest Hd) as (d' & r & Hspan).
  destruct (span_digits_spec _ _ _ Hspan) as (_ & Hd' & _). rewrite string_all_app, Hd in Hd'. cbn in Hd'.
  rewrite (scan_integer_spec 0 _ _ _ ltac:(lia) ltac:(range) Hspan), decide_False; [done|].
  rewrite dec_value_app. pose proof (dec_value_ge (dec_value 0 ds) d' ltac:(range) Hd'). range.
Qed.

(** Overflow comes from the digits of the integer part, whatever follows them,
    or from scaling a literal. *)
Lemma parse_Undef_inv text :
  parse text = Undef →
  integer_overflows text ∨ ∃ l, lit_wf l = true ∧ text = lit_text l ∧ two63 ≤ lit_magnitude l.
Proof.
  intros Hu. destruct (take_sign text) as [neg rest] eqn:Hsg. destruct (take_sign_inv _ _ _ Hsg) as [sg Htext].
  destruct (span_digits rest) as [di r1] eqn:Hspan. destruct (span_digits_spec _ _ _ Hspan) as (Hrest & Hdi & _).
  destruct (decide (in_i64 (dec_value 0 di))) as [Hin|Hout].
  2:{ left. exists sg, di, r1. subst. split_and!; [done..|]. apply dec_value_bounds in Hdi. range. }
  right. enough (∃ l, lit_wf l = true ∧ text = lit_text l) as (l & Hwf & ->).
  { exists l. rewrite parse_lit in Hu by done. case_decide; [done|]. split_and!; [done..|lia]. }
  unfold parse in Hu. case_bool_decide; [done|]. rewrite Hsg in Hu.
  destruct (starts_with_digit rest) eqn:Hsd; [cbn [negb] in Hu|done].
  erewrite scan_integer_spec, decide_True in Hu by done. cbn [mbind outcome_bind] in Hu.
  pose proof (parse_fraction_bounds text r1) as Hfb.
  destruct (parse_fraction text r1) as [[[fp fd] r2]|e|] eqn:Hf; cbn [mbind outcome_bind] in Hu; [|done..].
  case_bool_decide as Hend; [cbn [negb] in Hu; subst r2|done].
  apply parse_fraction_inv in Hf as (fr & Hr1 & Hfr). exists (Literal sg di fr). split.
  - apply lit_wf_spec. split_and!; [done| |done]. cbn. intros ->. rewrite string_app_nil_l in Hrest. subst rest.
    rewrite Hr1 in Hsd. by destruct fr.
  - by rewrite Htext, Hrest, Hr1.
Qed.

(** ** Printing *)

Lemma strip_zeros_spec s :
  ∃ k, s = strip_zeros s +:+ string_repeat k "0" ∧ strip_zeros (strip_zeros s) = strip_zeros s.
Proof.
  induction s as [|c s (k & Hs & Hi)]; [by exists O|]. cbn [strip_zeros].
  destruct (strip_zeros s) as [|c' s'] eqn:E.
  - rewrite string_app_nil_l in Hs. subst s. case_bool_decide; subst; [by exists (S k)|].
    exists k. split; [done|]. cbn. by rewrite bool_decide_eq_false_2.
  - exists k. rewrite string_app_cons. split; [congruence|]. cbn in Hi |- *. by rewrite Hi.
Qed.

Lemma strip_zeros_all p s : string_all p s = true → string_all p (strip_zeros s) = true.
Proof.
  destruct (strip_zeros_spec s) as (k & Hs & _). rewrite Hs at 1.
  rewrite string_all_app. by intros [? _]%andb_true_iff.
Qed.

(** The digits of a fraction padded to the scale. *)
Definition padded_fraction (f : Z) : string :=
  string_repeat (Z.to_nat kScale - String.length (to_string_u64 f)) "0" +:+ to_string_u64 f.

Lemma padded_fraction_spec f :
  0 ≤ f < 10 ^ 8 →
  all_digits (padded_fraction f) = true ∧ String.length (padded_fraction f) = 8%nat ∧
  dec_value 0 (padded_fraction f) = f.
Proof.
  intros Hf. assert (in_u64 f) as Hu by (change (10 ^ 8) with 100000000 in Hf; range).
  destruct (to_string_u64_spec f Hu) as (Hd & Hv & Hl & _).
  pose proof (to_string_u64_length f 8 Hu ltac:(lia) ltac:(apply Hf)) as Hl8.
  unfold padded_fraction. change (Z.to_nat kScale) with 8%nat.
  rewrite string_all_app, string_length_app, string_repeat_length, dec_value_app, dec_value_zeros.
  rewrite string_repeat_all, Z.mul_0_l by done. split_and!; [done|lia|done].
Qed.

(** The literal [to_string] writes. *)
Definition canonical (d : Decimal) : literal :=
  let f := strip_zeros (padded_fraction (Z.abs (raw d) mod kScaleFactor)) in
  Literal (if raw d <? 0 then Minus else NoSign)
    (to_string_u64 (Z.abs (raw d) / kScaleFactor))
    (if bool_decide (f = "") then None else Some f).

Lemma to_string_canonical d :
  in_i64 (raw d) → raw d ≠ - two63 → to_string d = Ret (lit_text (canonical d)).
Proof.
  intros Hd Hmin. unfold to_string, canonical, lit_text. cbn [lit_sign lit_int lit_frac].
  fold (padded_fraction (Z.abs (raw d) mod kScaleFactor)).
  destruct (Z.ltb_spec (raw d) 0).
  - rewrite i64_checked_in by range. cbn [mbind outcome_bind].
    rewrite to_u64_id by range. rewrite Z.abs_neq by lia.
    fold (padded_fraction (- raw d mod kScaleFactor)).
    case_bool_decide; cbn [sign_text]; by autorewrite with cpp.
  - cbn [mbind outcome_bind]. rewrite to_u64_id by range. rewrite Z.abs_eq by lia.
    fold (padded_fraction (raw d mod kScaleFactor)).
    case_bool_decide; cbn [sign_text]; by autorewrite with cpp.
Qed.

Lemma integer_part_in_u64 d : in_i64 (raw d) → in_u64 (Z.abs (raw d) / kScaleFactor).
Proof.
  intros Hd. unfold kScaleFactor. split; [apply Z.div_pos; lia|].
  apply Z.div_lt_upper_bound; range.
Qed.

Lemma canonical_spec d :
  in_i64 (raw d) →
  lit_wf (canonical d) = true ∧ lit_magnitude (canonical d) = Z.abs (raw d) ∧
  lit_raw (canonical d) = raw d.
Proof.
  intros Hd. set (m := Z.abs (raw d)).
  assert (0 ≤ m mod kScaleFactor < 10 ^ 8) as Hf by (apply Z.mod_pos_bound; done).
  destruct (padded_fraction_spec _ Hf) as (Hpd & Hpl & Hpv).
  destruct (to_string_u64_spec _ (integer_part_in_u64 d Hd)) as (Hid & Hiv & Hil & _).
  fold m in Hid, Hiv, Hil.
  destruct (strip_zeros_spec (padded_fraction (m mod kScaleFactor))) as (k & Hk & _).
  pose proof (strip_zeros_all _ _ Hpd) as Hsd.
  set (f := strip_zeros (padded_fraction (m mod kScaleFactor))) in *.
  rewrite Hk, string_length_app, string_repeat_length in Hpl.
  rewrite Hk, dec_value_app, dec_value_zeros in Hpv.
  assert (frac_digits (canonical d) = f) as Hfd.
  { unfold frac_digits, canonical. fold m. fold f. cbn. by case_bool_decide. }
  assert (lit_magnitude (canonical d) = m) as Hm.
  { unfold lit_magnitude. rewrite Hfd. cbn [canonical lit_int]. fold m. rewrite Hiv.
    replace (8 - slen f) with (Z.of_nat k) by lia. rewrite Hpv.
    rewrite (Z.div_mod m kScaleFactor) at 3 by done. unfold kScaleFactor. lia. }
  split_and!; [|done|].
  - apply lit_wf_spec. cbn [canonical lit_int lit_frac]. fold m. fold f.
    split_and!; [done|by intros Hn; rewrite Hn in Hil; cbn in Hil; lia|].
    intros g. case_bool_decide; intros; simplify_eq. split_and!; [done..|lia].
  - unfold lit_raw. rewrite Hm. cbn [canonical lit_sign].
    destruct (Z.ltb_spec (raw d) 0); unfold m; lia.
Qed.

Lemma parse_canonical d :
  in_i64 (raw d) → raw d ≠ - two63 → parse (lit_text (canonical d)) = Ret d.
Proof.
  intros Hd Hmin. destruct (canonical_spec d Hd) as (Hwf & Hm & Hr).
  rewrite parse_lit, Hm, Hr, decide_True by (done || range). by destruct d.
Qed.

Lemma to_string_inj d1 d2 s :
  in_i64 (raw d1) → raw d1 ≠ - two63 → in_i64 (raw d2) → raw d2 ≠ - two63 →
  to_string d1 = Ret s → to_string d2 = Ret s → d1 = d2.
Proof.
  intros H1 H1' H2 H2'. rewrite !to_string_canonical by done. intros E1 E2.
  pose proof (parse_canonical d1 H1 H1') as P1. pose proof (parse_canonical d2 H2 H2') as P2.
  congruence.
Qed.

(** A printed decimal has no characters but digits, the sign and the point. *)
Lemma to_string_lacks d s c :
  in_i64 (raw d) → raw d ≠ - two63 → to_string d = Ret s →
  isdigit c = false → c ≠ "-"%char → c ≠ "."%char → lacks c s = true.
Proof.
  intros Hd Hmin. rewrite to_string_canonical by done. intros Hs Hc Hminus Hdot. inv_ret.
  destruct (canonical_spec d Hd) as ((Hi & _ & Hf)%lit_wf_spec & _).
  unfold lit_text. rewrite !lacks_app, (digits_lack c _ Hc Hi).
  assert (lacks c (sign_text (lit_sign (canonical d))) = true) as ->.
  { cbn. destruct (raw d <? 0); [|done]. cbn. by rewrite bool_decide_eq_false_2. }
  destruct (lit_frac (canonical d)) as [f|]; [|done]. destruct (Hf f eq_refl) as [Hfd _].
  cbn. rewrite bool_decide_eq_false_2 by done. by apply (digits_lack c).
Qed.

(** ** Exceptions *)

Lemma scan_integer_throws P acc s : throws_only P (scan_integer acc s).
Proof. revert acc. induction s as [|c s IH]; intros acc; cbn; throws. Qed.

Lemma scan_fraction_throws whole acc n s :
  throws_only is_invalid_argument (scan_fraction whole acc n s).
Proof. revert acc n. induction s as [|c s IH]; intros acc n; cbn; throws. Qed.

Lemma scale_fraction_throws P n v : throws_only P (scale_fraction n v).
Proof. revert v. induction n as [|n IH]; intros v; cbn; throws. Qed.

#[export] Hint Resolve scan_integer_throws scan_fraction_throws scale_fraction_throws : cpp.

Lemma parse_throws text : throws_only is_invalid_argument (parse text).
Proof. unfold parse, parse_fraction. throws. Qed.
#[export] Hint Resolve parse_throws : cpp.

Lemma lit_magnitude_nonneg l : lit_wf l = true → 0 ≤ lit_magnitude l.
Proof.
  intros Hwf. pose proof (lit_frac_bounds l Hwf). pose proof (lit_int_nonneg l Hwf).
  unfold lit_magnitude. lia.
Qed.

Lemma parse_in_i64 text d : parse text = Ret d → in_i64 (raw d).
Proof.
  intros H. destruct (parse_Ret_lit _ _ H) as (l & Hwf & ->).
  rewrite parse_lit in H by done. case_decide; [|done]. inv_ret.
  pose proof (lit_magnitude_nonneg l Hwf). cbn. unfold lit_raw. destruct (lit_sign l); range.
Qed.

(** The text is a literal and the decimal its exact value. *)
Definition denotes (text : string) (d : Decimal) : Prop :=
  ∃ l, lit_wf l = true ∧ text = lit_text l ∧ lit_magnitude l < two63 ∧ raw d = lit_raw l.

Lemma parse_denotes text d : parse text = Ret d ↔ denotes text d.
Proof.
  split.
  - intros H. destruct (parse_Ret_lit _ _ H) as (l & Hwf & ->).
    rewrite parse_lit in H by done. case_decide; [|done]. inv_ret. unfold denotes. naive_solver.
  - intros (l & Hwf & -> & Hlt & Hraw). rewrite parse_lit, decide_True by done.
    destruct d. naive_solver.
Qed.

Lemma parse_Throw_not_literal text e l : parse text = Throw e → lit_wf l = true → text ≠ lit_text l.
Proof. intros H Hwf ->. rewrite parse_lit in H by done. by case_decide. Qed.

(** ** Properties *)

(** C20: [Decimal::parse] accepts exactly the literals [[+-]?digits(.digits)?]
    with at least one integer digit, one to eight fractional digits after a
    point and a magnitude below 2^63 units of 10^-8, and returns their exact
    value: no rounding, no wrap-around. *)
Theorem parse_accepts text d :
  parse text = Ret d ↔
  ∃ l, lit_wf l = true ∧ text = lit_text l ∧ lit_magnitude l < two63 ∧ raw d = lit_raw l.
Proof. apply parse_denotes. Qed.

(** C37: what [Decimal::parse] does with every other text.  It throws exactly
    when the text is no literal and the digits after its optional sign denote
    less than 2^63, and what it throws is [std::invalid_argument]; its signed
    arithmetic overflows (undefined behaviour) exactly when those digits denote
    2^63 or more, whatever follows them, or the text is a literal of 2^63 units
    of 10^-8 or more. *)
Theorem parse_rejects text :
  ((∃ e, parse text = Throw e) ↔ (∀ l, lit_wf l = true → text ≠ lit_text l) ∧ ¬ integer_overflows text) ∧
  (∀ e, parse text = Throw e → is_invalid_argument e) ∧
  (parse text = Undef ↔
   integer_overflows text ∨ ∃ l, lit_wf l = true ∧ text = lit_text l ∧ two63 ≤ lit_magnitude l).
Proof.
  pose proof (parse_throws text) as Ht. split_and!.
  - split.
    + intros [e He]. split; [intros l; by eapply parse_Throw_not_literal|].
      intros Hov%parse_integer_overflows. congruence.
    + intros [Hl Hov]. destruct (parse text) as [d|e|] eqn:H; [|by eauto|].
      * apply parse_Ret_lit in H as (l & Hwf & ?). by destruct (Hl l Hwf).
      * apply parse_Undef_inv in H as [?|(l & Hwf & ? & _)]; [done|]. by destruct (Hl l Hwf).
  - intros e He. by rewrite He in Ht.
  - split; [apply parse_Undef_inv|]. intros [?|(l & Hwf & -> & Hle)]; [by apply parse_integer_overflows|].
    by rewrite parse_lit, decide_False by (done || lia).
Qed.

(** C24: printing a value and parsing the text gives the value back, for every
    64-bit raw value except the most negative one. *)
Theorem decimal_roundtrip d :
  in_i64 (raw d) → raw d ≠ - two63 → ∃ s, to_string d = Ret s ∧ parse s = Ret d.
Proof.
  intros Hd Hmin. exists (lit_text (canonical d)).
  by rewrite to_string_canonical, parse_canonical.
Qed.

Lemma decimal_roundtrip_witness :
  ∃ s, to_string (from_raw (-4301210000000)) = Ret s ∧ parse s = Ret (from_raw (-4301210000000)).
Proof. apply (decimal_roundtrip (from_raw (-4301210000000))); cbn; [range|lia]. Defined.

(** The printed form is canonical: a minus sign exactly for negative
    values, an integer part without superfluous leading zeros, and a fraction
    that is either absent or does not end in ['0']. *)
Theorem to_string_normal_form d s :
  in_i64 (raw d) → to_string d = Ret s →
  ∃ l, s = lit_text l ∧ lit_wf l = true ∧ lit_raw l = raw d ∧
    (lit_sign l = Minus ↔ raw d < 0) ∧ lit_sign l ≠ Plus ∧
    ((2 ≤ String.length (lit_int l))%nat → 10 ^ (slen (lit_int l) - 1) ≤ dec_value 0 (lit_int l)) ∧
    (∀ f, lit_frac l = Some f → strip_zeros f = f ∧ f ≠ "").
Proof.
  intros Hd Hs. assert (raw d ≠ - two63) as Hmin.
  { intros Hmin. unfold to_string in Hs. rewrite Hmin in Hs. by vm_compute in Hs. }
  rewrite to_string_canonical in Hs by done. inv_ret.
  destruct (canonical_spec d Hd) as (Hwf & Hm & Hr). exists (canonical d).
  split_and!; [done..| | | |].
  - cbn. destruct (Z.ltb_spec (raw d) 0); naive_solver lia.
  - cbn. by destruct (raw d <? 0).
  - cbn [canonical lit_int].
    destruct (to_string_u64_spec _ (integer_part_in_u64 d Hd)) as (_ & -> & _ & Hlo). done.
  - cbn. intros f. case_bool_decide; intros; simplify_eq.
    split; [|done]. by edestruct strip_zeros_spec as (k & _ & ?).
Qed.

Lemma to_string_normal_form_witness :
  ∃ l, "23.51" = lit_text l ∧ lit_wf l = true ∧ lit_raw l = 2351000000 ∧
    (lit_sign l = Minus ↔ 2351000000 < 0) ∧ lit_sign l ≠ Plus ∧
    ((2 ≤ String.length (lit_int l))%nat → 10 ^ (slen (lit_int l) - 1) ≤ dec_value 0 (lit_int l)) ∧
    (∀ f, lit_frac l = Some f → strip_zeros f = f ∧ f ≠ "").
Proof. apply (to_string_normal_form (from_raw 2351000000)); [cbn; range|reflexivity]. Defined.

(** C38: the product of two decimals is formed without overflow in 128 bits,
    and when the scaled-back quotient fits in 64 bits it is the exact product
    truncated towards zero: off by less than one unit of 10^-8, never away
    from zero. *)
Theorem Decimal_mul_truncates a b :
  in_i64 (raw a) → in_i64 (raw b) → in_i64 (Z.quot (raw a * raw b) kScaleFactor) →
  - 2 ^ 127 ≤ raw a * raw b < 2 ^ 127 ∧
  let exact := raw a * raw b in
  let got := raw (Decimal_mul a b) * kScaleFactor in
  Z.abs (exact - got) < kScaleFactor ∧ Z.abs got ≤ Z.abs exact ∧ 0 ≤ exact * got.
Proof.
  intros Ha Hb Hq. split.
  { assert (Z.abs (raw a * raw b) ≤ two63 * two63).
    { rewrite Z.abs_mul. apply Z.mul_le_mono_nonneg; range. }
    change (2 ^ 127) with 170141183460469231731687303715884105728. lia. }
  unfold Decimal_mul. cbn [raw]. rewrite to_i64_id by done. cbn zeta.
  set (p := raw a * raw b) in *. unfold kScaleFactor in *.
  pose proof (Z.quot_rem' p 100000000) as Hqr.
  pose proof (Z.rem_bound_abs p 100000000 ltac:(lia)) as Hr.
  destruct (Z_le_gt_dec 0 p) as [Hp|Hp].
  - pose proof (Z.rem_nonneg p 100000000 ltac:(lia) Hp). nia.
  - pose proof (Z.rem_nonpos p 100000000 ltac:(lia) ltac:(lia)). nia.
Qed.

Lemma Decimal_mul_truncates_witness :
  - 2 ^ 127 ≤ 4301210000000 * 50000000 < 2 ^ 127 ∧
  let exact := 4301210000000 * 50000000 in
  let got := raw (Decimal_mul (from_raw 4301210000000) (from_raw 50000000)) * kScaleFactor in
  Z.abs (exact - got) < kScaleFactor ∧ Z.abs got ≤ Z.abs exact ∧ 0 ≤ exact * got.
Proof.
  apply (Decimal_mul_truncates (from_raw 4301210000000) (from_raw 50000000));
    by_compute.
Defined.
