(* ===== verification/StdMap.v ===== *)
(** * [std::map]

    An ordered map as the list of its entries in key order, which is the
    order [std::map] iterates in.  The key order is an interface
    ([KeyOrder]); the program uses it at [std::string] and
    [std::uint64_t].  [map_ok] is the representation invariant: keys are
    strictly increasing, so they are also distinct. *)

From S2P Require Import Prelude.

(** ** The key order *)

Class KeyOrder (K : Type) := {
  kcompare : K → K → comparison;
  kcompare_eq a b : kcompare a b = Eq ↔ a = b;
  kcompare_flip a b : kcompare a b = CompOpp (kcompare b a);
  kcompare_trans a b c : kcompare a b = Lt → kcompare b c = Lt → kcompare a c = Lt
}.

Definition klt `{KeyOrder K} (a b : K) : Prop := kcompare a b = Lt.

#[export] Instance klt_dec `{KeyOrder K} : RelDecision klt.
Proof. intros a b. unfold klt. apply _. Defined.

#[export] Program Instance Z_order : KeyOrder Z := {| kcompare := Z.compare |}.
Next Obligation. apply Z.compare_eq_iff. Qed.
Next Obligation. intros a b. apply Z.compare_antisym. Qed.
Next Obligation. intros a b c; cbn. rewrite !Z.compare_lt_iff. lia. Qed.

#[export] Program Instance string_order : KeyOrder string := {| kcompare := String.compare |}.
Next Obligation.
  intros a b; cbn. split; [apply String.compare_eq_iff|intros ->].
  pose proof (String.compare_antisym b b). by destruct (String.compare b b).
Qed.
Next Obligation. apply String.compare_antisym. Qed.
Next Obligation.
  intros a b c; cbn. intros Hab Hbc.
  assert (String.le a c) as Hac.
  { transitivity b; unfold String.le, String.leb; [by rewrite Hab|by rewrite Hbc]. }
  unfold String.le, String.leb in Hac. destruct (String.compare a c) eqn:E; [|done..].
  apply String.compare_eq_iff in E. subst c.
  rewrite String.compare_antisym, Hab in Hbc. done.
Qed.

(** ** Operations *)

Abbreviation stdmap K V := (list (K * V)).

Section ops.
Context {K V : Type} `{KeyOrder K}.

Fixpoint map_find (m : stdmap K V) (k : K) : option V :=
  match m with
  | [] => None
  | (k', v) :: m =>
      match kcompare k k' with
      | Eq => Some v
      | _ => map_find m k
      end
  end.

(** [m[k] = v]: overwrites the entry of [k] or inserts it in key order. *)
Fixpoint map_insert (m : stdmap K V) (k : K) (v : V) : stdmap K V :=
  match m with
  | [] => [(k, v)]
  | (k', v') :: m' =>
      match kcompare k k' with
      | Lt => (k, v) :: m
      | Eq => (k, v) :: m'
      | Gt => (k', v') :: map_insert m' k v
      end
  end.

Definition map_ok (m : stdmap K V) : Prop := StronglySorted klt m.*1.
End ops.

(** The loop that visits every entry in key order and either keeps it, with a
    new value, or erases it. *)
Definition map_filter_map {K V W} (f : K → V → option W) (m : stdmap K V) : stdmap K W :=
  omap (λ kv, pair kv.1 <$> f kv.1 kv.2) m.

Definition map_values {K V} (m : stdmap K V) : list V := m.*2.

(** ** Lemmas *)

Section lemmas.
Context {K V : Type} `{KeyOrder K}.
Implicit Types (m : stdmap K V) (k : K) (v : V).

Lemma kcompare_refl k : kcompare k k = Eq.
Proof. by apply kcompare_eq. Qed.

Lemma kcompare_ne k k' : k ≠ k' → kcompare k k' ≠ Eq.
Proof. by intros Hne ?%kcompare_eq. Qed.

Lemma kcompare_gt k k' : kcompare k k' = Gt ↔ klt k' k.
Proof. unfold klt. rewrite kcompare_flip. by destruct (kcompare k' k). Qed.

Lemma klt_irrefl k : ¬ klt k k.
Proof. unfold klt. by rewrite kcompare_refl. Qed.

#[global] Instance klt_trans : Transitive klt.
Proof. intros ???. apply kcompare_trans. Qed.

Lemma map_ok_nil : map_ok (K := K) (V := V) [].
Proof. constructor. Qed.

Lemma map_ok_cons k v m :
  map_ok ((k, v) :: m) ↔ map_ok m ∧ ∀ k' v', (k', v') ∈ m → klt k k'.
Proof.
  unfold map_ok. rewrite fmap_cons. cbn. split.
  - intros Hs. inversion_clear Hs as [|?? Hm Hk]. split; [done|].
    intros k' v' Hin. rewrite Forall_forall in Hk. apply Hk.
    apply list_elem_of_fmap. by exists (k', v').
  - intros [Hm Hk]. constructor; [done|]. apply Forall_forall.
    intros k' ([k'' v''] & -> & Hin)%list_elem_of_fmap. eauto.
Qed.

Lemma map_find_Some_elem m k v : map_find m k = Some v → (k, v) ∈ m.
Proof.
  induction m as [|[k' v'] m IH]; cbn; [done|].
  destruct (kcompare k k') eqn:E; intros; simplify_eq; [|right; auto..].
  apply kcompare_eq in E as ->. left.
Qed.

Lemma map_find_elem m k v : map_ok m → (k, v) ∈ m → map_find m k = Some v.
Proof.
  induction m as [|[k' v'] m IH]; [by intros _ ?%not_elem_of_nil|].
  intros [Hm Hk]%map_ok_cons [?|Hin]%elem_of_cons; cbn; simplify_eq.
  - by rewrite kcompare_refl.
  - specialize (Hk k v Hin). rewrite kcompare_flip, Hk. cbn. auto.
Qed.

Lemma map_find_elem_iff m k v : map_ok m → map_find m k = Some v ↔ (k, v) ∈ m.
Proof. split; eauto using map_find_Some_elem, map_find_elem. Qed.

(** A key below every key of the map is absent. *)
Lemma map_find_below m k :
  (∀ k' v', (k', v') ∈ m → klt k k') → map_find m k = None.
Proof.
  induction m as [|[k' v'] m IH]; intros Hk; [done|]. cbn.
  rewrite (Hk k' v') by left. apply IH. intros. eapply Hk. by right.
Qed.

Lemma map_find_insert_eq m k v : map_find (map_insert m k v) k = Some v.
Proof.
  induction m as [|[k' v'] m IH]; cbn; [by rewrite kcompare_refl|].
  destruct (kcompare k k') eqn:E; cbn; [by rewrite kcompare_refl..|].
  by rewrite E.
Qed.

Lemma map_find_insert_ne m k k' v :
  k ≠ k' → map_find (map_insert m k v) k' = map_find m k'.
Proof.
  intros Hne. apply not_eq_sym in Hne as Hne'. apply kcompare_ne in Hne'.
  induction m as [|[k2 v2] m IH]; cbn; [by destruct (kcompare k' k)|].
  destruct (kcompare k k2) eqn:E; cbn.
  - apply kcompare_eq in E as ->. by destruct (kcompare k' k2).
  - by destruct (kcompare k' k).
  - by rewrite IH.
Qed.

Lemma elem_of_map_insert m k v k' v' :
  (k', v') ∈ map_insert m k v → (k', v') = (k, v) ∨ (k', v') ∈ m.
Proof.
  induction m as [|[k2 v2] m IH]; cbn; [rewrite list_elem_of_singleton; auto|].
  destruct (kcompare k k2); rewrite !elem_of_cons; naive_solver.
Qed.

Lemma map_insert_ok m k v : map_ok m → map_ok (map_insert m k v).
Proof.
  induction m as [|[k' v'] m IH]; cbn.
  - intros _. apply map_ok_cons. split; [apply map_ok_nil|]. by intros ?? ?%not_elem_of_nil.
  - intros [Hm Hk]%map_ok_cons. destruct (kcompare k k') eqn:E.
    + apply kcompare_eq in E as ->. by apply map_ok_cons.
    + apply map_ok_cons. split; [by apply map_ok_cons|].
      intros k2 v2 [?|?]%elem_of_cons; simplify_eq; [done|]. etransitivity; eauto.
    + apply kcompare_gt in E. apply map_ok_cons. split; [auto|].
      intros k2 v2 [?|?]%elem_of_map_insert; simplify_eq; eauto.
Qed.

(** Two well-formed maps with the same lookups are equal. *)
Lemma map_ext m1 m2 :
  map_ok m1 → map_ok m2 → (∀ k, map_find m1 k = map_find m2 k) → m1 = m2.
Proof.
  revert m2. induction m1 as [|[k1 v1] m1 IH]; intros [|[k2 v2] m2] H1 H2 Heq; [done|..].
  - specialize (Heq k2). cbn in Heq. by rewrite kcompare_refl in Heq.
  - specialize (Heq k1). cbn in Heq. by rewrite kcompare_refl in Heq.
  - apply map_ok_cons in H1 as [Hm1 Hk1]. apply map_ok_cons in H2 as [Hm2 Hk2].
    assert (k1 = k2 ∧ v1 = v2) as [<- <-].
    { pose proof (Heq k1) as E1. pose proof (Heq k2) as E2. cbn in E1, E2.
      rewrite kcompare_refl in E1, E2.
      destruct (kcompare k1 k2) eqn:E; [apply kcompare_eq in E; by simplify_eq|..].
      - rewrite map_find_below in E1; [done|]. intros. etransitivity; [exact E|eauto].
      - apply kcompare_gt in E. unfold klt in E. rewrite E in E2.
        rewrite map_find_below in E2; [done|]. intros. etransitivity; [exact E|eauto]. }
    f_equal. apply IH; [done..|]. intros k. specialize (Heq k). cbn in Heq.
    destruct (kcompare k k1) eqn:E; [|done..].
    apply kcompare_eq in E as ->. by rewrite !map_find_below.
Qed.

Lemma map_insert_same m k v v' :
  map_insert (map_insert m k v) k v' = map_insert m k v'.
Proof.
  induction m as [|[k2 v2] m IH]; cbn; [by rewrite kcompare_refl|].
  destruct (kcompare k k2) eqn:E; cbn; rewrite ?kcompare_refl, ?E; [done..|].
  by rewrite IH.
Qed.

Lemma map_insert_comm m k1 k2 v1 v2 :
  map_ok m → k1 ≠ k2 →
  map_insert (map_insert m k1 v1) k2 v2 = map_insert (map_insert m k2 v2) k1 v1.
Proof.
  intros Hm Hne. apply map_ext; auto using map_insert_ok. intros k.
  destruct (decide (kcompare k k1 = Eq)) as [->%kcompare_eq|H1].
  { by rewrite map_find_insert_ne, !map_find_insert_eq by done. }
  assert (k1 ≠ k) by (intros ->; by rewrite kcompare_refl in H1).
  rewrite (map_find_insert_ne _ k1 k) by done.
  destruct (decide (kcompare k k2 = Eq)) as [->%kcompare_eq|H2].
  { by rewrite !map_find_insert_eq. }
  assert (k2 ≠ k) by (intros ->; by rewrite kcompare_refl in H2).
  by rewrite !map_find_insert_ne by done.
Qed.
End lemmas.

Section filter_map.
Context {K V W : Type} `{KeyOrder K} (f : K → V → option W).

Lemma elem_of_map_filter_map (m : stdmap K V) k w :
  (k, w) ∈ map_filter_map f m ↔ ∃ v, (k, v) ∈ m ∧ f k v = Some w.
Proof.
  unfold map_filter_map. rewrite list_elem_of_omap. split.
  - intros ([k' v] & Hin & Hf). cbn in Hf. destruct (f k' v) eqn:E; naive_solver.
  - intros (v & Hin & Hf). exists (k, v). cbn. by rewrite Hf.
Qed.

Lemma map_filter_map_ok (m : stdmap K V) : map_ok m → map_ok (map_filter_map f m).
Proof.
  induction m as [|[k v] m IH]; [done|].
  intros [Hm Hk]%map_ok_cons. cbn. destruct (f k v); cbn; [|auto].
  apply map_ok_cons. split; [auto|]. intros k' w' (v' & Hin & _)%elem_of_map_filter_map. eauto.
Qed.

Lemma map_find_filter_map (m : stdmap K V) k :
  map_ok m → map_find (map_filter_map f m) k = map_find m k ≫= f k.
Proof.
  intros Hm. destruct (map_find m k) as [v|] eqn:E; cbn.
  - apply map_find_Some_elem in E. destruct (f k v) as [w|] eqn:Ef.
    + apply map_find_elem; [by apply map_filter_map_ok|]. apply elem_of_map_filter_map. eauto.
    + destruct (map_find (map_filter_map f m) k) as [w|] eqn:E2; [|done].
      apply map_find_Some_elem, elem_of_map_filter_map in E2 as (v' & Hin & Hf).
      apply map_find_elem in E, Hin; [|done..]. congruence.
  - destruct (map_find (map_filter_map f m) k) as [w|] eqn:E2; [|done].
    apply map_find_Some_elem, elem_of_map_filter_map in E2 as (v' & Hin & Hf).
    apply map_find_elem in Hin; [|done]. congruence.
Qed.
End filter_map.

#[export] Hint Resolve map_ok_nil map_insert_ok map_filter_map_ok : cpp.
