(* ===== verification/AggregatorSpec.v ===== *)
(** * The abstract aggregator

    [MarketDataAggregator] specified by the list of its pending trades: the
    trades added and not yet extracted, in arrival order.  A window is what
    [ref_stats] computes from the trades of its bucket. *)

From S2P Require Import Prelude CString DecimalFp StdMap Aggregator.

(** ** Reference statistics of a bucket *)

(** The notional value [price * quantity] of one trade, in units of 10^-8. *)
Definition volume (t : TradeEvent) : Z := raw (Decimal_mul (te_price t) (te_quantity t)).
#[global] Arguments volume : simpl never.

Definition sum_volume (ts : list TradeEvent) : Z := foldr (λ t v, volume t + v) 0 ts.

Definition price_of (t : TradeEvent) : Z := raw (te_price t).

Definition min_price (ts : list TradeEvent) : Z :=
  match ts with
  | [] => 0
  | t :: ts => foldr (λ t m, Z.min (price_of t) m) (price_of t) ts
  end.

Definition max_price (ts : list TradeEvent) : Z :=
  match ts with
  | [] => 0
  | t :: ts => foldr (λ t m, Z.max (price_of t) m) (price_of t) ts
  end.

(** The number of trades with the given maker side. *)
Definition side_count (maker : bool) (ts : list TradeEvent) : Z :=
  Z.of_nat (length (filter (λ t, te_buyer_is_maker t = maker) ts)).

Definition ref_stats (s : string) (k : Z) (ts : list TradeEvent) : WindowStats :=
  {| ws_symbol := s; ws_window_start_ms := k;
     ws_trade_count := to_u64 (Z.of_nat (length ts));
     ws_total_volume := from_raw (sum_volume ts);
     ws_min_price := from_raw (min_price ts);
     ws_max_price := from_raw (max_price ts);
     ws_buyer_initiated_count := to_u64 (side_count false ts);
     ws_seller_initiated_count := to_u64 (side_count true ts) |}.

(** ** Buckets *)

Definition start_of (w : Z) (t : TradeEvent) : Z := window_start_of w (te_trade_time_ms t).

Definition in_bucket (w : Z) (s : string) (k : Z) (t : TradeEvent) : Prop :=
  te_symbol t = s ∧ start_of w t = k.

#[export] Instance in_bucket_dec w s k t : Decision (in_bucket w s k t).
Proof. unfold in_bucket. apply _. Defined.

Definition bucket (w : Z) (s : string) (k : Z) (ts : list TradeEvent) : list TradeEvent :=
  filter (in_bucket w s k) ts.

(** The window of a bucket: none when no trade fell into it. *)
Definition ref_window (w : Z) (s : string) (k : Z) (ts : list TradeEvent) : option WindowStats :=
  match bucket w s k ts with
  | [] => None
  | b => Some (ref_stats s k b)
  end.

(** ** The representation invariant and the abstraction *)

Definition windows_ok (m : stdmap string (stdmap Z WindowStats)) : Prop :=
  map_ok m ∧ ∀ s sw, (s, sw) ∈ m → map_ok sw ∧ sw ≠ [].

(** The aggregator [a] holds exactly the pending trades [ts]. *)
Definition agg_models (a : MarketDataAggregator) (ts : list TradeEvent) : Prop :=
  agg_window_ms a ≠ 0 ∧ windows_ok (agg_windows a) ∧
  ∀ s k, window_stats a s k = ref_window (agg_window_ms a) s k ts.

(** ** Lemmas on reference statistics *)

Section extrema.
(** The least and the greatest price of a non-empty list are characterised
    by membership and bound, which gives their behaviour under appending
    and permutation. *)
Implicit Types (ts : list TradeEvent).

Definition is_least (R : Z → Z → Prop) (m : Z) ts : Prop :=
  (∃ t, t ∈ ts ∧ price_of t = m) ∧ ∀ t, t ∈ ts → R m (price_of t).

Lemma min_price_least ts : ts ≠ [] → is_least Z.le (min_price ts) ts.
Proof.
  destruct ts as [|t0 ts]; [done|]. intros _. cbn.
  induction ts as [|t ts [(t' & Ht' & Hm) Hle]]; cbn.
  - split; [exists t0; set_solver|]. intros t ->%list_elem_of_singleton. lia.
  - split.
    + destruct (Z.min_spec (price_of t) (foldr (λ t m, Z.min (price_of t) m) (price_of t0) ts))
        as [[_ ->]|[_ ->]]; [exists t; set_solver|exists t'; set_solver].
    + intros t2 [->|[->|Hin]%elem_of_cons]%elem_of_cons; [|lia|].
      * specialize (Hle t0 ltac:(set_solver)). lia.
      * specialize (Hle t2 ltac:(set_solver)). lia.
Qed.

Lemma max_price_least ts : ts ≠ [] → is_least Z.ge (max_price ts) ts.
Proof.
  destruct ts as [|t0 ts]; [done|]. intros _. cbn.
  induction ts as [|t ts [(t' & Ht' & Hm) Hle]]; cbn.
  - split; [exists t0; set_solver|]. intros t ->%list_elem_of_singleton. lia.
  - split.
    + destruct (Z.max_spec (price_of t) (foldr (λ t m, Z.max (price_of t) m) (price_of t0) ts))
        as [[_ ->]|[_ ->]]; [exists t'; set_solver|exists t; set_solver].
    + intros t2 [->|[->|Hin]%elem_of_cons]%elem_of_cons; [|lia|].
      * specialize (Hle t0 ltac:(set_solver)). lia.
      * specialize (Hle t2 ltac:(set_solver)). lia.
Qed.

Lemma is_least_unique (R : Z → Z → Prop) `{!AntiSymm (=) R} m1 m2 ts :
  is_least R m1 ts → is_least R m2 ts → m1 = m2.
Proof.
  intros [(t1 & H1 & <-) L1] [(t2 & H2 & <-) L2]. apply (anti_symm R); auto.
Qed.

#[global] Instance Zge_antisymm : AntiSymm (=) Z.ge.
Proof. intros x y. lia. Qed.

Lemma min_price_unique m ts : ts ≠ [] → is_least Z.le m ts → min_price ts = m.
Proof. intros Hne. apply is_least_unique; [apply _|]. by apply min_price_least. Qed.

Lemma max_price_unique m ts : ts ≠ [] → is_least Z.ge m ts → max_price ts = m.
Proof. intros Hne. apply is_least_unique; [apply _|]. by apply max_price_least. Qed.

Lemma min_price_snoc ts t :
  ts ≠ [] → min_price (ts ++ [t]) = Z.min (min_price ts) (price_of t).
Proof.
  intros Hne. destruct (min_price_least ts Hne) as [(t' & Hin & Hm) Hle].
  apply min_price_unique; [by destruct ts|]. split.
  - destruct (Z.min_spec (min_price ts) (price_of t)) as [[_ ->]|[_ ->]];
      [exists t'; set_solver|exists t; set_solver].
  - intros t2 [Ht2| ->%list_elem_of_singleton]%elem_of_app; [|lia].
    specialize (Hle t2 Ht2). lia.
Qed.

Lemma max_price_snoc ts t :
  ts ≠ [] → max_price (ts ++ [t]) = Z.max (max_price ts) (price_of t).
Proof.
  intros Hne. destruct (max_price_least ts Hne) as [(t' & Hin & Hm) Hle].
  apply max_price_unique; [by destruct ts|]. split.
  - destruct (Z.max_spec (max_price ts) (price_of t)) as [[_ ->]|[_ ->]];
      [exists t; set_solver|exists t'; set_solver].
  - intros t2 [Ht2| ->%list_elem_of_singleton]%elem_of_app; [|lia].
    specialize (Hle t2 Ht2). lia.
Qed.

Lemma is_least_perm R m ts ts' : ts ≡ₚ ts' → is_least R m ts → is_least R m ts'.
Proof.
  intros Hp [(t & Hin & Hm) Hle]. split.
  - exists t. by rewrite <- Hp.
  - intros t'. rewrite <- Hp. apply Hle.
Qed.
End extrema.

#[export] Instance sum_volume_perm : Proper ((≡ₚ) ==> (=)) sum_volume.
Proof. intros ts ts' Hp. unfold sum_volume. induction Hp; cbn; lia. Qed.

#[export] Instance min_price_perm : Proper ((≡ₚ) ==> (=)) min_price.
Proof.
  intros ts ts' Hp. destruct (decide (ts' = [])) as [->|Hne].
  { apply Permutation_nil_r in Hp. by subst. }
  assert (ts ≠ []) by (intros ->; by apply Permutation_nil_l in Hp).
  apply min_price_unique; [done|]. eapply is_least_perm; [by symmetry|].
  by apply min_price_least.
Qed.

#[export] Instance max_price_perm : Proper ((≡ₚ) ==> (=)) max_price.
Proof.
  intros ts ts' Hp. destruct (decide (ts' = [])) as [->|Hne].
  { apply Permutation_nil_r in Hp. by subst. }
  assert (ts ≠ []) by (intros ->; by apply Permutation_nil_l in Hp).
  apply max_price_unique; [done|]. eapply is_least_perm; [by symmetry|].
  by apply max_price_least.
Qed.

#[export] Instance side_count_perm b : Proper ((≡ₚ) ==> (=)) (side_count b).
Proof. intros ts ts' Hp. unfold side_count. by rewrite Hp. Qed.

#[export] Instance ref_stats_perm s k : Proper ((≡ₚ) ==> (=)) (ref_stats s k).
Proof. intros ts ts' Hp. unfold ref_stats. by rewrite !Hp. Qed.

#[export] Instance bucket_perm w s k : Proper ((≡ₚ) ==> (≡ₚ)) (bucket w s k).
Proof. intros ts ts' Hp. unfold bucket. by rewrite Hp. Qed.

#[export] Instance ref_window_perm w s k : Proper ((≡ₚ) ==> (=)) (ref_window w s k).
Proof.
  intros ts ts' Hp. unfold ref_window.
  assert (bucket w s k ts ≡ₚ bucket w s k ts') as Hb by by rewrite Hp.
  destruct (bucket w s k ts) as [|t b], (bucket w s k ts') as [|t' b'];
    [done|by apply Permutation_nil_cons in Hb
    |symmetry in Hb; by apply Permutation_nil_cons in Hb|].
  by rewrite Hb.
Qed.

Lemma sum_volume_app ts1 ts2 : sum_volume (ts1 ++ ts2) = sum_volume ts1 + sum_volume ts2.
Proof. induction ts1; cbn; [done|]. unfold sum_volume in *. lia. Qed.

Lemma side_count_snoc b ts t :
  side_count b (ts ++ [t]) = side_count b ts + (if decide (te_buyer_is_maker t = b) then 1 else 0).
Proof.
  unfold side_count. rewrite filter_app, filter_cons, filter_nil, length_app.
  case_decide; cbn; lia.
Qed.

Lemma bucket_app w s k ts1 ts2 : bucket w s k (ts1 ++ ts2) = bucket w s k ts1 ++ bucket w s k ts2.
Proof. apply filter_app. Qed.

Lemma bucket_snoc_in w t ts :
  bucket w (te_symbol t) (start_of w t) (ts ++ [t]) = bucket w (te_symbol t) (start_of w t) ts ++ [t].
Proof. rewrite bucket_app. unfold bucket at 2. rewrite filter_cons, decide_True; done. Qed.

Lemma bucket_snoc_out w s k t ts :
  ¬ in_bucket w s k t → bucket w s k (ts ++ [t]) = bucket w s k ts.
Proof.
  intros Hn. rewrite bucket_app. unfold bucket at 2.
  by rewrite filter_cons, decide_False, filter_nil, app_nil_r.
Qed.

(** ** [add_trade] implements appending to the pending list *)

(** The statistics [add_trade] starts from when the bucket holds [b]. *)
Definition start_stats (t : TradeEvent) (k : Z) (b : list TradeEvent) : WindowStats :=
  match b with
  | [] => init_bucket t k
  | _ => update_extrema t (ref_stats (te_symbol t) k b)
  end.

Lemma accumulate_ref t k b :
  accumulate t (start_stats t k b) =
    if decide (in_i64 (sum_volume b + volume t)) then Ret (ref_stats (te_symbol t) k (b ++ [t]))
    else Undef.
Proof.
  unfold accumulate, Decimal_add, i64_checked. fold (volume t).
  assert (raw (ws_total_volume (start_stats t k b)) = sum_volume b) as -> by by destruct b.
  case_decide as Hin; cbn [mbind outcome_bind]; [|done]. f_equal.
  unfold ref_stats. rewrite length_app, sum_volume_app, !side_count_snoc.
  replace (sum_volume [t]) with (volume t) by (cbn; lia).
  destruct (decide (b = [])) as [->|Hne].
  - destruct t as [sym id [p] q tm []]; done.
  - rewrite min_price_snoc, max_price_snoc by done.
    replace (start_stats t k b) with (update_extrema t (ref_stats (te_symbol t) k b))
      by by destruct b.
    cbn. rewrite Nat2Z.inj_add. autorewrite with cpp. unfold Decimal_ltb, price_of. cbn.
    destruct t as [sym id [p] q tm []]; cbn; autorewrite with cpp;
      f_equal; repeat (case_match; try f_equal); try lia.
Qed.

Lemma window_stats_insert w (m : stdmap string (stdmap Z WindowStats)) s sw k st s' k' :
  map_ok m → map_ok sw → default [] (map_find m s) = sw →
  window_stats {| agg_window_ms := w; agg_windows := map_insert m s (map_insert sw k st) |} s' k' =
    if decide (s' = s ∧ k' = k) then Some st
    else window_stats {| agg_window_ms := w; agg_windows := m |} s' k'.
Proof.
  intros Hm Hsw Hdef. unfold window_stats. cbn [agg_windows].
  destruct (decide (s' = s)) as [->|Hs].
  - rewrite map_find_insert_eq. destruct (decide (k' = k)) as [->|Hk].
    + by rewrite map_find_insert_eq, decide_True.
    + rewrite map_find_insert_ne, decide_False by naive_solver.
      subst sw. by destruct (map_find m s).
  - by rewrite map_find_insert_ne, decide_False by naive_solver.
Qed.

Lemma windows_ok_find m s sw : windows_ok m → map_find m s = Some sw → map_ok sw ∧ sw ≠ [].
Proof. intros [_ Hm] H%map_find_Some_elem. eauto. Qed.

Lemma windows_ok_default m s : windows_ok m → map_ok (default [] (map_find m s)).
Proof.
  intros Hm. destruct (map_find m s) eqn:E; cbn; [|apply map_ok_nil].
  by eapply windows_ok_find.
Qed.

Lemma windows_ok_insert m s sw :
  windows_ok m → map_ok sw → sw ≠ [] → windows_ok (map_insert m s sw).
Proof.
  intros [Hm Hin] Hsw Hne. split; [by apply map_insert_ok|].
  intros s' sw' [?|?]%elem_of_map_insert; simplify_eq; eauto.
Qed.

Lemma map_insert_not_nil {K V} `{KeyOrder K} (m : stdmap K V) k v : map_insert m k v ≠ [].
Proof. destruct m as [|[k' v'] m]; cbn; [done|]. by destruct (kcompare k k'). Qed.

Lemma add_trade_models a ts t :
  agg_models a ts →
  let sum := sum_volume (bucket (agg_window_ms a) (te_symbol t)
               (start_of (agg_window_ms a) t) ts) + volume t in
  match add_trade a t with
  | Ret a' => agg_models a' (ts ++ [t]) ∧ agg_window_ms a' = agg_window_ms a ∧ in_i64 sum
  | Throw _ => False
  | Undef => ¬ in_i64 sum
  end.
Proof.
  intros (Hw & Hok & Hst). set (w := agg_window_ms a) in *. set (k := start_of w t).
  set (b := bucket w (te_symbol t) k ts). cbn zeta.
  pose proof (Hst (te_symbol t) k) as Hb. unfold window_stats, ref_window in Hb. fold b in Hb.
  unfold add_trade. fold w. rewrite (proj2 (Z.eqb_neq w 0)) by done. fold (start_of w t) k.
  set (sw := default [] (map_find (agg_windows a) (te_symbol t))).
  assert (match map_find sw k with
          | None => init_bucket t k
          | Some st => update_extrema t st
          end = start_stats t k b) as ->.
  { unfold sw. destruct (map_find (agg_windows a) (te_symbol t)) as [sw'|]; cbn.
    - rewrite Hb. by destruct b.
    - by destruct b. }
  rewrite accumulate_ref. case_decide as Hin; cbn [mbind outcome_bind]; [|done].
  split_and!; [|done..]. split_and!; [done|..].
  - apply windows_ok_insert; [done| |apply map_insert_not_nil].
    apply map_insert_ok, windows_ok_default, Hok.
  - intros s' k'. cbn [agg_window_ms]. rewrite window_stats_insert;
      [|apply Hok|apply windows_ok_default, Hok|done].
    unfold ref_window. case_decide as Hk; [destruct Hk as [-> ->]|].
    + rewrite bucket_snoc_in. fold k b. by destruct (b ++ [t]) eqn:E; [destruct b|].
    + rewrite bucket_snoc_out; [apply Hst|]. intros [? ?]. naive_solver.
Qed.

(** ** Extraction *)

Lemma extract_symbol_loop_spec w sw :
  extract_symbol_loop w sw =
    ((filter (λ kv, kv.1 < w) sw).*2, map_filter_map (λ k st, if k <? w then None else Some st) sw).
Proof.
  induction sw as [|[k st] sw IH]; [done|]. cbn [extract_symbol_loop]. rewrite IH.
  unfold map_filter_map. rewrite filter_cons. cbn.
  destruct (Z.ltb_spec k w); [rewrite decide_True by done|rewrite decide_False by lia]; done.
Qed.

(** What is left of one symbol's windows, if anything. *)
Definition kept_windows (w : Z) (sw : stdmap Z WindowStats) : option (stdmap Z WindowStats) :=
  match map_filter_map (λ k st, if k <? w then None else Some st) sw with
  | [] => None
  | kept => Some kept
  end.

Lemma kept_windows_find w sw k :
  map_ok sw →
  match kept_windows w sw with Some kept => map_find kept k | None => None end =
    if k <? w then None else map_find sw k.
Proof.
  intros Hok.
  pose proof (map_find_filter_map (λ k st, if k <? w then None else Some st) sw k Hok) as Hf.
  transitivity (map_find (map_filter_map (λ k st, if k <? w then None else Some st) sw) k).
  - unfold kept_windows. by destruct (map_filter_map _ sw).
  - rewrite Hf. by destruct (map_find sw k), (k <? w).
Qed.

Lemma extract_loop_spec w m :
  extract_loop w m =
    (concat ((λ sw, (filter (λ kv, kv.1 < w) sw).*2) <$> map_values m),
     map_filter_map (λ _ sw, kept_windows w sw) m).
Proof.
  induction m as [|[s sw] m IH]; [done|]. cbn [extract_loop].
  rewrite IH, extract_symbol_loop_spec. unfold kept_windows, map_filter_map. cbn.
  f_equal. by destruct (omap _ sw).
Qed.

(** The windows of a two-level map in iteration order. *)
Definition all_windows (m : stdmap string (stdmap Z WindowStats)) : list WindowStats :=
  concat (map_values <$> map_values m).

Lemma elem_of_all_windows m st :
  st ∈ all_windows m ↔ ∃ s sw k, (s, sw) ∈ m ∧ (k, st) ∈ sw.
Proof.
  unfold all_windows, map_values. rewrite list_elem_of_In, in_concat. setoid_rewrite <- list_elem_of_In.
  split.
  - intros (l & (sw & -> & ([s sw'] & -> & Hm)%list_elem_of_fmap)%list_elem_of_fmap & Hst).
    apply list_elem_of_fmap in Hst as ([k st'] & -> & Hsw). eauto.
  - intros (s & sw & k & Hm & Hsw). exists (sw.*2). split.
    + apply list_elem_of_fmap. exists sw. split; [done|]. apply list_elem_of_fmap. by exists (s, sw).
    + apply list_elem_of_fmap. by exists (k, st).
Qed.

(** Every window carries the key it is stored under. *)
Definition keyed (m : stdmap string (stdmap Z WindowStats)) : Prop :=
  ∀ s sw k st, (s, sw) ∈ m → (k, st) ∈ sw → ws_symbol st = s ∧ ws_window_start_ms st = k.

(** Order of extraction: by symbol, then by window. *)
Definition win_before (st1 st2 : WindowStats) : Prop :=
  klt (ws_symbol st1) (ws_symbol st2) ∨
  (ws_symbol st1 = ws_symbol st2 ∧ ws_window_start_ms st1 < ws_window_start_ms st2).

Lemma map_values_sorted s sw :
  map_ok sw → (∀ k st, (k, st) ∈ sw → ws_symbol st = s ∧ ws_window_start_ms st = k) →
  StronglySorted win_before (map_values sw).
Proof.
  induction sw as [|[k st] sw IH]; [intros; apply SSorted_nil|].
  intros [Hok Hlt]%map_ok_cons Hk. apply SSorted_cons.
  - apply IH; [done|]. intros. apply Hk. by right.
  - apply Forall_forall. intros st' ([k' st''] & -> & Hin)%list_elem_of_fmap.
    destruct (Hk k st) as [Hs1 Hk1]; [left|]. destruct (Hk k' st'') as [Hs2 Hk2]; [by right|].
    right. cbn. rewrite Hs1, Hs2, Hk1, Hk2. split; [done|].
    apply Z.compare_lt_iff. by eapply Hlt.
Qed.

Lemma all_windows_sorted m :
  map_ok m → (∀ s sw, (s, sw) ∈ m → map_ok sw) → keyed m → StronglySorted win_before (all_windows m).
Proof.
  induction m as [|[s sw] m IH]; [intros; apply SSorted_nil|].
  intros [Hm Hlt]%map_ok_cons Hsw Hk.
  unfold all_windows. cbn. fold (all_windows m). apply StronglySorted_app_2.
  - intros st1 st2 ([k1 st1'] & -> & H1)%list_elem_of_fmap (s2 & sw2 & k2 & Hm2 & H2)%elem_of_all_windows.
    left. destruct (Hk s sw k1 st1') as [Hs1 _]; [left|done|].
    destruct (Hk s2 sw2 k2 st2) as [Hs2 _]; [by right|done|]. cbn. rewrite Hs1, Hs2. eauto.
  - apply (map_values_sorted s); [eapply Hsw; left|]. intros. eapply Hk; [left|done].
  - apply IH; [done|..]; [intros; eapply Hsw; by right|]. intros ?????. eapply Hk. by right.
Qed.

Lemma agg_models_keyed a ts : agg_models a ts → keyed (agg_windows a).
Proof.
  intros (_ & [Hm Hsw] & Hst) s sw k st H1 H2. specialize (Hst s k).
  destruct (Hsw s sw H1) as [Hok _].
  unfold window_stats in Hst. erewrite map_find_elem in Hst by done.
  rewrite (map_find_elem sw k st) in Hst by done.
  unfold ref_window in Hst. destruct (bucket _ _ _ _); naive_solver.
Qed.

Lemma elem_of_windows a ts st :
  agg_models a ts →
  st ∈ all_windows (agg_windows a) ↔ ∃ s k, ref_window (agg_window_ms a) s k ts = Some st.
Proof.
  intros (_ & [Hm Hsw] & Hst). rewrite elem_of_all_windows. setoid_rewrite <- Hst.
  unfold window_stats. split.
  - intros (s & sw & k & H1 & H2). exists s, k. rewrite (map_find_elem _ s sw) by done.
    apply map_find_elem; [by eapply Hsw|done].
  - intros (s & k & H). destruct (map_find (agg_windows a) s) as [sw|] eqn:E; [|done].
    exists s, sw, k. eauto using map_find_Some_elem.
Qed.

(** Extracting the completed windows keeps exactly the trades of the windows
    at or after the watermark pending, and returns the windows before it. *)
Definition pending_after (W w : Z) (ts : list TradeEvent) : list TradeEvent :=
  filter (λ t, w ≤ start_of W t) ts.

Lemma bucket_pending_after W w s k ts :
  bucket W s k (pending_after W w ts) = if decide (w ≤ k) then bucket W s k ts else [].
Proof.
  unfold bucket, pending_after. rewrite list_filter_filter. case_decide as Hk.
  - apply list_filter_iff. unfold in_bucket. naive_solver lia.
  - induction ts as [|t ts IH]; [done|]. rewrite filter_cons, decide_False; [done|].
    unfold in_bucket. naive_solver lia.
Qed.

Lemma extract_completed_models a ts w res a' :
  agg_models a ts → extract_completed_windows a w = (res, a') →
  agg_models a' (pending_after (agg_window_ms a) w ts) ∧ agg_window_ms a' = agg_window_ms a.
Proof.
  intros (Hw & [Hm Hsw] & Hst). unfold extract_completed_windows.
  rewrite extract_loop_spec. intros ?; simplify_eq. split; [|done].
  split_and!; [done| |].
  - split; [by apply map_filter_map_ok|].
    intros s sw (sw0 & Hin & Hkept)%elem_of_map_filter_map. unfold kept_windows in Hkept.
    destruct (Hsw s sw0 Hin) as [Hok _].
    pose proof (map_filter_map_ok (λ k st, if k <? w then None else Some st) sw0 Hok).
    case_match; naive_solver.
  - intros s k. cbn [agg_window_ms]. specialize (Hst s k).
    unfold ref_window, window_stats in Hst |- *. cbn [agg_windows].
    rewrite bucket_pending_after, map_find_filter_map by done.
    destruct (map_find (agg_windows a) s) as [sw|] eqn:E; cbn.
    + rewrite kept_windows_find by (eapply Hsw, map_find_Some_elem, E).
      destruct (Z.ltb_spec k w); case_decide; done || lia.
    + by case_decide.
Qed.

#[export] Instance win_before_irrefl : Irreflexive win_before.
Proof. intros st [H|[_ H]]; [by apply klt_irrefl in H|lia]. Qed.

#[export] Instance win_before_trans : Transitive win_before.
Proof.
  intros x y z [H1|[H1 H1']] [H2|[H2 H2']]; unfold win_before;
    rewrite ?H1, <- ?H2; [left; by etransitivity|auto..|right; split; [done|lia]].
Qed.

(** The windows taken out by [extract_completed_windows]. *)
Lemma extract_loop_result w m :
  (extract_loop w m).1 =
    all_windows (map_filter_map (λ _ sw, Some (filter (λ kv : Z * WindowStats, kv.1 < w) sw)) m).
Proof.
  rewrite extract_loop_spec. cbn [fst]. unfold all_windows, map_values, map_filter_map.
  induction m as [|[s sw] m IH]; [done|]. cbn. by rewrite IH.
Qed.

Lemma filter_map_ok {V} (P : Z * V → Prop) `{∀ kv, Decision (P kv)} (m : stdmap Z V) :
  map_ok m → map_ok (filter P m).
Proof.
  induction m as [|[k v] m IH]; [done|]. intros [Hm Hk]%map_ok_cons.
  rewrite filter_cons. case_decide; [|auto]. apply map_ok_cons. split; [auto|].
  intros k' v' [_ Hin]%list_elem_of_filter. eauto.
Qed.

Lemma ref_window_keys w s k ts st :
  ref_window w s k ts = Some st → ws_symbol st = s ∧ ws_window_start_ms st = k.
Proof. unfold ref_window. destruct (bucket w s k ts); naive_solver. Qed.

Lemma extract_completed_result a ts w :
  agg_models a ts →
  StronglySorted win_before (extract_completed_windows a w).1 ∧
  ∀ st, st ∈ (extract_completed_windows a w).1 ↔
    ∃ s k, k < w ∧ ref_window (agg_window_ms a) s k ts = Some st.
Proof.
  intros Ha. pose proof (agg_models_keyed a ts Ha) as Hk.
  pose proof (elem_of_windows a ts) as Hel. destruct Ha as (Hw & [Hm Hsw] & Hst).
  unfold extract_completed_windows. pose proof (extract_loop_result w (agg_windows a)) as Hr.
  destruct (extract_loop w (agg_windows a)) as [res m']. cbn [fst] in Hr |- *. subst res.
  set (m := map_filter_map _ _).
  assert (∀ s sw, (s, sw) ∈ m ↔ ∃ sw0, (s, sw0) ∈ agg_windows a ∧ sw = filter (λ kv, kv.1 < w) sw0) as Hin.
  { intros. unfold m. rewrite elem_of_map_filter_map. naive_solver. }
  split.
  - apply all_windows_sorted; [by apply map_filter_map_ok|..].
    + intros s sw (sw0 & H0 & ->)%Hin. by apply filter_map_ok, (Hsw s).
    + intros s sw k st (sw0 & H0 & ->)%Hin [_ Hkv]%list_elem_of_filter. eauto.
  - intros st. specialize (Hel st (conj Hw (conj (conj Hm Hsw) Hst))).
    rewrite elem_of_all_windows in Hel |- *. split.
    + intros (s & sw & k & (sw0 & H0 & ->)%Hin & [Hlt Hkv]%list_elem_of_filter).
      destruct Hel as [(s' & k' & Href) _]; [eauto|]. exists s', k'. split; [|done].
      destruct (ref_window_keys _ _ _ _ _ Href) as [<- <-]. by destruct (Hk s sw0 k st) as [_ ->].
    + intros (s & k & Hlt & Href). destruct Hel as [_ (s' & sw & k' & H1 & H2)]; [eauto|].
      destruct (ref_window_keys _ _ _ _ _ Href) as [<- <-].
      destruct (Hk s' sw k' st H1 H2) as [<- <-].
      exists (ws_symbol st), (filter (λ kv, kv.1 < w) sw), (ws_window_start_ms st).
      split; [apply Hin; eauto|]. by apply list_elem_of_filter.
Qed.

Lemma extract_all_result a ts :
  agg_models a ts →
  StronglySorted win_before (extract_all_windows a).1 ∧
  ∀ st, st ∈ (extract_all_windows a).1 ↔
    ∃ s k, ref_window (agg_window_ms a) s k ts = Some st.
Proof.
  intros Ha. split; [|intros st; by apply elem_of_windows].
  destruct (Ha) as (_ & [Hm Hsw] & _). apply all_windows_sorted; [done| |by eapply agg_models_keyed].
  intros. by eapply Hsw.
Qed.

Lemma agg_models_new w : w ≠ 0 → agg_models (new_aggregator w) [].
Proof.
  intros Hw. split_and!; [done| |done]. split; [apply map_ok_nil|]. by intros ?? ?%not_elem_of_nil.
Qed.

Lemma extract_all_models a ts :
  agg_models a ts → agg_models (extract_all_windows a).2 [].
Proof. intros (Hw & _). by apply (agg_models_new (agg_window_ms a)). Qed.

(** A symbol is present exactly when it has a window. *)
Lemma symbol_present a s :
  windows_ok (agg_windows a) →
  is_Some (map_find (agg_windows a) s) ↔ ∃ k, is_Some (window_stats a s k).
Proof.
  intros [Hm Hsw]. unfold window_stats. split.
  - intros [sw E]. rewrite E. destruct (Hsw s sw) as [Hok Hne]; [by apply map_find_Some_elem|].
    destruct sw as [|[k st] sw]; [done|]. exists k, st. apply map_find_elem; [done|left].
  - intros [k [st E]]. by destruct (map_find (agg_windows a) s).
Qed.

(** The pending trades determine the aggregator, up to their order. *)
Lemma agg_models_unique a1 a2 ts1 ts2 :
  agg_models a1 ts1 → agg_models a2 ts2 → agg_window_ms a1 = agg_window_ms a2 → ts1 ≡ₚ ts2 →
  a1 = a2.
Proof.
  intros (_ & Hok1 & H1) (_ & Hok2 & H2) Hw Hp.
  assert (∀ s k, window_stats a1 s k = window_stats a2 s k) as Heq.
  { intros s k. by rewrite H1, H2, Hw, Hp. }
  assert (agg_windows a1 = agg_windows a2) as Hm; [|destruct a1, a2; cbn in *; congruence].
  pose proof (symbol_present a1) as Hd1. pose proof (symbol_present a2) as Hd2.
  apply map_ext; [apply Hok1|apply Hok2|]. intros s.
  specialize (Hd1 s Hok1). specialize (Hd2 s Hok2). setoid_rewrite Heq in Hd1.
  specialize (Heq s). unfold window_stats in Heq.
  destruct (map_find (agg_windows a1) s) as [sw1|] eqn:E1,
    (map_find (agg_windows a2) s) as [sw2|] eqn:E2; [|exfalso..|done].
  - f_equal. apply map_ext; [by eapply (windows_ok_find (agg_windows a1))|by eapply (windows_ok_find (agg_windows a2))|done].
  - apply (is_Some_None (A := stdmap Z WindowStats)). by apply Hd2, Hd1.
  - apply (is_Some_None (A := stdmap Z WindowStats)). by apply Hd1, Hd2.
Qed.
