(* ===== verification/AggregatorProps.v ===== *)
(** * Properties of [MarketDataAggregator]

    Sequences of operations on the aggregator, the abstract machine they
    implement, and the consequences: what a window contains, that extraction
    splits the windows at the watermark, that the order of the trades does
    not matter, and when no signed overflow happens. *)

From S2P Require Import Prelude CString DecimalFp StdMap Aggregator AggregatorSpec.

(** ** Sequences of operations *)

Inductive agg_op :=
  | OpAdd (t : TradeEvent)
  | OpExtractCompleted (current_window_start_ms : Z)
  | OpExtractAll.

(** One call on the aggregator and the windows it returns. *)
Definition agg_step (a : MarketDataAggregator) (op : agg_op) :
    outcome (list WindowStats * MarketDataAggregator) :=
  match op with
  | OpAdd t => a' ← add_trade a t; Ret ([], a')
  | OpExtractCompleted w => Ret (extract_completed_windows a w)
  | OpExtractAll => Ret (extract_all_windows a)
  end.

Fixpoint agg_run (a : MarketDataAggregator) (ops : list agg_op) :
    outcome (list (list WindowStats) * MarketDataAggregator) :=
  match ops with
  | [] => Ret ([], a)
  | op :: ops =>
      '(out, a) ← agg_step a op;
      '(outs, a) ← agg_run a ops;
      Ret (out :: outs, a)
  end.

(** The windows of the buckets of [ts] whose start satisfies [P], in order. *)
Definition windows_of (W : Z) (P : Z → Prop) (ts : list TradeEvent)
    (res : list WindowStats) : Prop :=
  StronglySorted win_before res ∧
  ∀ st, st ∈ res ↔ ∃ s k, P k ∧ ref_window W s k ts = Some st.

(** The abstract machine: its state is the list of pending trades. *)
Inductive spec_step (W : Z) (ts : list TradeEvent) :
    agg_op → list WindowStats → list TradeEvent → Prop :=
  | spec_add t : spec_step W ts (OpAdd t) [] (ts ++ [t])
  | spec_extract_completed w res :
      windows_of W (λ k, k < w) ts res →
      spec_step W ts (OpExtractCompleted w) res (pending_after W w ts)
  | spec_extract_all res :
      windows_of W (λ _, True) ts res → spec_step W ts OpExtractAll res [].

Inductive spec_run (W : Z) :
    list TradeEvent → list agg_op → list (list WindowStats) → list TradeEvent → Prop :=
  | spec_done ts : spec_run W ts [] [] ts
  | spec_cons ts op out ts' ops outs ts'' :
      spec_step W ts op out ts' → spec_run W ts' ops outs ts'' →
      spec_run W ts (op :: ops) (out :: outs) ts''.

(** ** Simulation *)

Lemma agg_step_simulates a ts op out a' :
  agg_models a ts → agg_step a op = Ret (out, a') →
  ∃ ts', spec_step (agg_window_ms a) ts op out ts' ∧ agg_models a' ts' ∧
    agg_window_ms a' = agg_window_ms a.
Proof.
  intros Ha. destruct op as [t|w|]; cbn; intros H; inv_ret.
  - pose proof (add_trade_models a ts t Ha) as Hadd. cbn zeta in Hadd. rewrite Hx in Hadd.
    destruct Hadd as (Ha' & Hw & _). eexists; split; [constructor|done].
  - pose proof (extract_completed_result a ts w Ha) as Hres.
    destruct (extract_completed_models a ts w out a' Ha) as [Ha' Hw]; [done|].
    rewrite H in Hres. eexists; split; [by constructor|done].
  - eexists; split; [constructor|split; [by eapply extract_all_models|done]].
    destruct (extract_all_result a ts Ha) as [Hs Hin]. split; [done|].
    intros st. rewrite Hin. naive_solver.
Qed.

Lemma agg_run_simulates a ts ops outs a' :
  agg_models a ts → agg_run a ops = Ret (outs, a') →
  ∃ ts', spec_run (agg_window_ms a) ts ops outs ts' ∧ agg_models a' ts' ∧
    agg_window_ms a' = agg_window_ms a.
Proof.
  revert a ts outs. induction ops as [|op ops IH]; intros a ts outs Ha; cbn; intros H.
  { inv_ret. eexists; split; [constructor|done]. }
  apply bind_Ret in H as ([out a1] & Hstep & H). apply bind_Ret in H as ([outs1 a2] & Hrun & H).
  inv_ret. destruct (agg_step_simulates a ts op out a1 Ha Hstep) as (ts1 & Hs & Ha1 & Hw1).
  destruct (IH a1 ts1 outs1 Ha1 Hrun) as (ts2 & Hr & Ha2 & Hw2). rewrite Hw1 in Hr.
  eexists; split; [by econstructor|split; [done|congruence]].
Qed.

(** An aggregator reached by calls holds some list of pending trades. *)
Lemma agg_run_models W ops outs a :
  W ≠ 0 → agg_run (new_aggregator W) ops = Ret (outs, a) →
  ∃ ts, agg_models a ts ∧ agg_window_ms a = W.
Proof.
  intros HW H. destruct (agg_run_simulates _ _ _ _ _ (agg_models_new W HW) H) as (ts & _ & ? & ?).
  eauto.
Qed.

(** The trades that were added and not extracted since. *)
Fixpoint pending_of (W : Z) (pending : list TradeEvent) (ops : list agg_op) : list TradeEvent :=
  match ops with
  | [] => pending
  | OpAdd t :: ops => pending_of W (pending ++ [t]) ops
  | OpExtractCompleted w :: ops => pending_of W (filter (λ t, w ≤ start_of W t) pending) ops
  | OpExtractAll :: ops => pending_of W [] ops
  end.

Lemma spec_run_pending W ts ops outs ts' : spec_run W ts ops outs ts' → ts' = pending_of W ts ops.
Proof. induction 1 as [|ts op out ts' ops outs ts'' Hs _ ->]; [done|]. by destruct Hs. Qed.

(** A window covers the times from its start on. *)
Lemma start_of_range W t k : 0 < W → k mod W = 0 → start_of W t = k ↔ k ≤ te_trade_time_ms t < k + W.
Proof.
  intros HW Hk. unfold start_of, window_start_of. set (m := te_trade_time_ms t).
  pose proof (Z.mod_pos_bound m W HW). pose proof (Z.div_mod m W ltac:(lia)) as Hm.
  pose proof (Z.div_mod k W ltac:(lia)) as Hkd. rewrite Hk in Hkd.
  split; [lia|]. intros Hr. enough (m / W = k / W) by nia. nia.
Qed.

Lemma start_of_aligned W t : 0 < W → start_of W t mod W = 0.
Proof. intros HW. unfold start_of, window_start_of. by rewrite Zminus_mod_idemp_r, Z.sub_diag, Zmod_0_l. Qed.

(** The trades of a symbol in the interval of [W] milliseconds from [k] on. *)
Definition traded_in (W : Z) (s : string) (k : Z) (ts : list TradeEvent) : list TradeEvent :=
  filter (λ t, te_symbol t = s ∧ k ≤ te_trade_time_ms t < k + W) ts.

Lemma bucket_traded_in W s k ts : 0 < W → k mod W = 0 → bucket W s k ts = traded_in W s k ts.
Proof.
  intros HW Hk. apply list_filter_iff. intros t. unfold in_bucket. by rewrite start_of_range.
Qed.

(** ** Adding a list of trades *)

Notation add_trades := (foldM add_trade).

Lemma add_trades_models a ts ts' a' :
  agg_models a ts → add_trades a ts' = Ret a' →
  agg_models a' (ts ++ ts') ∧ agg_window_ms a' = agg_window_ms a.
Proof.
  revert a ts. induction ts' as [|t ts' IH]; intros a ts Ha; cbn; intros H.
  { inv_ret. by rewrite app_nil_r. }
  inv_ret. pose proof (add_trade_models a ts t Ha) as Hadd. cbn zeta in Hadd. rewrite Hx in Hadd.
  destruct Hadd as (Hx' & Hw & _). destruct (IH x (ts ++ [t]) Hx' H) as [? ?].
  rewrite <- app_assoc in *. split; [done|congruence].
Qed.

(** A bound on the traded volume of every bucket that rules out overflow
    whatever the order of the trades. *)
Definition sum_abs_volume (ts : list TradeEvent) : Z := foldr (λ t v, Z.abs (volume t) + v) 0 ts.

Definition volume_bounded (W : Z) (ts : list TradeEvent) : Prop :=
  ∀ s k, sum_abs_volume (bucket W s k ts) < two63.

Lemma sum_abs_volume_app ts1 ts2 :
  sum_abs_volume (ts1 ++ ts2) = sum_abs_volume ts1 + sum_abs_volume ts2.
Proof. unfold sum_abs_volume. induction ts1; cbn; lia. Qed.

Lemma sum_abs_volume_bound ts : Z.abs (sum_volume ts) ≤ sum_abs_volume ts.
Proof. unfold sum_abs_volume, sum_volume. induction ts; cbn; lia. Qed.

Lemma sum_abs_volume_nonneg ts : 0 ≤ sum_abs_volume ts.
Proof. unfold sum_abs_volume. induction ts; cbn; lia. Qed.

#[export] Instance sum_abs_volume_perm : Proper ((≡ₚ) ==> (=)) sum_abs_volume.
Proof. intros ts ts' Hp. unfold sum_abs_volume. induction Hp; cbn; lia. Qed.

#[export] Instance volume_bounded_perm W : Proper ((≡ₚ) ==> iff) (volume_bounded W).
Proof. intros ts ts' Hp. unfold volume_bounded. by setoid_rewrite Hp. Qed.

Lemma volume_bounded_total W ts : sum_abs_volume ts < two63 → volume_bounded W ts.
Proof.
  intros Hb s k. eapply Z.le_lt_trans; [|exact Hb]. clear Hb. unfold bucket.
  induction ts as [|t ts IH]; [done|]. rewrite filter_cons.
  unfold sum_abs_volume in *. case_decide; cbn; lia.
Qed.

Lemma side_count_total ts : side_count false ts + side_count true ts = Z.of_nat (length ts).
Proof.
  unfold side_count. induction ts as [|t ts IH]; [done|]. rewrite !filter_cons.
  destruct (te_buyer_is_maker t); repeat case_decide; done || (cbn; lia).
Qed.

Lemma add_trades_returns a ts ts' :
  agg_models a ts → volume_bounded (agg_window_ms a) (ts ++ ts') → ∃ a', add_trades a ts' = Ret a'.
Proof.
  revert a ts. induction ts' as [|t ts' IH]; intros a ts Ha Hb; cbn; [eauto|].
  pose proof (add_trade_models a ts t Ha) as Hadd. cbn zeta in Hadd.
  destruct (add_trade a t) as [a1|e|]; cbn [mbind outcome_bind]; [|done|].
  - destruct Hadd as (Ha1 & Hw & _). apply (IH a1 (ts ++ [t])); [done|].
    by rewrite <- app_assoc, Hw.
  - exfalso. apply Hadd. specialize (Hb (te_symbol t) (start_of (agg_window_ms a) t)).
    rewrite (cons_middle t ts ts'), app_assoc, bucket_app, bucket_snoc_in in Hb.
    rewrite !sum_abs_volume_app in Hb. set (b := bucket _ _ _ ts) in *.
    pose proof (sum_abs_volume_bound b).
    pose proof (sum_abs_volume_nonneg (bucket (agg_window_ms a) (te_symbol t)
                  (start_of (agg_window_ms a) t) ts')).
    unfold sum_abs_volume at 2 in Hb. cbn in Hb. range.
Qed.

(** ** Properties *)

(** C15: every sequence of [add_trade], [extract_completed_windows] and
    [extract_all_windows] calls returns what the abstract machine over the
    list of pending trades allows: each extraction yields, in order of symbol
    and window, exactly the reference statistics of the non-empty buckets it
    takes, and leaves exactly the trades of the other buckets pending. *)
Theorem aggregator_refines_pending_trades W ops outs a :
  W ≠ 0 → agg_run (new_aggregator W) ops = Ret (outs, a) →
  ∃ pending, spec_run W [] ops outs pending ∧
    ∀ s k, window_stats a s k = ref_window W s k pending.
Proof.
  intros HW H.
  destruct (agg_run_simulates _ _ _ _ _ (agg_models_new W HW) H) as (ts & Hr & (_ & _ & Hst) & Hw).
  exists ts. split; [done|]. cbn in Hw. by rewrite Hw in Hst.
Qed.

(** Trades used in the evaluated examples. *)
Definition example_trade (s : string) (id p q t : Z) (maker : bool) : TradeEvent :=
  {| te_symbol := s; te_trade_id := id; te_price := from_raw (p * kScaleFactor);
     te_quantity := from_raw (q * kScaleFactor); te_trade_time_ms := t;
     te_buyer_is_maker := maker |}.

Definition example_ops : list agg_op :=
  [OpAdd (example_trade "BTCUSDT" 1 100 1 1000 false);
   OpAdd (example_trade "ETHUSDT" 1 10 5 2300 true);
   OpExtractCompleted 2000; OpAdd (example_trade "BTCUSDT" 2 110 2 1500 true); OpExtractAll].

Lemma aggregator_refines_pending_trades_witness :
  ∃ outs a pending, agg_run (new_aggregator 1000) example_ops = Ret (outs, a) ∧
    spec_run 1000 [] example_ops outs pending ∧
    ∀ s k, window_stats a s k = ref_window 1000 s k pending.
Proof.
  eexists _, _. edestruct (aggregator_refines_pending_trades 1000 example_ops) as (ts & H1 & H2);
    [lia|vm_compute; reflexivity|]. exists ts. split; [vm_compute; reflexivity|]. split; [exact H1|exact H2].
Defined.

(** [extract_completed_windows] splits the windows at the watermark:
    it removes and returns, without duplicates and in order, exactly the
    windows that start before it and leaves every other window untouched. *)
Theorem extract_completed_splits W ops outs a w res a' :
  W ≠ 0 → agg_run (new_aggregator W) ops = Ret (outs, a) →
  extract_completed_windows a w = (res, a') →
  (∀ s k, window_stats a' s k = if k <? w then None else window_stats a s k) ∧
  (∀ st, st ∈ res ↔ ∃ s k, k < w ∧ window_stats a s k = Some st) ∧
  StronglySorted win_before res.
Proof.
  intros HW Hrun Hex. destruct (agg_run_models _ _ _ _ HW Hrun) as (ts & Ha & Hw).
  destruct (extract_completed_models a ts w res a' Ha Hex) as [(_ & _ & Hst') Hw'].
  destruct (extract_completed_result a ts w Ha) as [Hs Hin]. rewrite Hex in Hs, Hin.
  destruct Ha as (_ & _ & Hst). split_and!; [|by setoid_rewrite Hst|done].
  intros s k. rewrite Hst', Hst, Hw'. unfold ref_window. rewrite bucket_pending_after.
  destruct (Z.ltb_spec k w); case_decide; done || lia.
Qed.

Lemma extract_completed_splits_witness :
  let a := {| agg_window_ms := 1000; agg_windows :=
    [("BTC", [(1000, ref_stats "BTC" 1000 [example_trade "BTC" 1 100 1 1200 false]);
              (2000, ref_stats "BTC" 2000 [example_trade "BTC" 2 90 3 2200 true])])] |} in
  let r := extract_completed_windows a 2000 in
  (∀ s k, window_stats r.2 s k = if k <? 2000 then None else window_stats a s k) ∧
  (∀ st, st ∈ r.1 ↔ ∃ s k, k < 2000 ∧ window_stats a s k = Some st) ∧
  StronglySorted win_before r.1.
Proof.
  cbv zeta.
  eapply (extract_completed_splits 1000
    [OpAdd (example_trade "BTC" 1 100 1 1200 false); OpAdd (example_trade "BTC" 2 90 3 2200 true)]);
    [lia|vm_compute; reflexivity|apply surjective_pairing].
Defined.

(** C23: aggregation is commutative: when the volume of every bucket stays
    within 64 bits, any two orders of the same trades are accepted without
    overflow and leave the aggregator in the same state. *)
Theorem add_trades_commute W ts1 ts2 :
  W ≠ 0 → volume_bounded W ts1 → ts1 ≡ₚ ts2 →
  ∃ a, add_trades (new_aggregator W) ts1 = Ret a ∧ add_trades (new_aggregator W) ts2 = Ret a.
Proof.
  intros HW Hb Hp. pose proof (agg_models_new W HW) as Hnew.
  destruct (add_trades_returns _ [] ts1 Hnew Hb) as [a1 H1].
  destruct (add_trades_returns _ [] ts2 Hnew) as [a2 H2]; [cbn; by rewrite <- Hp|].
  destruct (add_trades_models _ [] ts1 a1 Hnew H1) as [Ha1 Hw1].
  destruct (add_trades_models _ [] ts2 a2 Hnew H2) as [Ha2 Hw2].
  exists a1. split; [done|]. rewrite H2. f_equal. symmetry.
  apply (agg_models_unique a1 a2 ts1 ts2); [done..|congruence|done].
Qed.

Lemma add_trades_commute_witness :
  let ts := [example_trade "BTC" 1 100 1 1200 false; example_trade "BTC" 2 90 3 1300 true] in
  ∃ a, add_trades (new_aggregator 1000) ts = Ret a ∧
       add_trades (new_aggregator 1000) (reverse ts) = Ret a.
Proof.
  cbv zeta. apply (add_trades_commute 1000); [lia| |symmetry; apply reverse_Permutation].
  apply volume_bounded_total. vm_compute. reflexivity.
Defined.

(** C28: what a window says is true of the trades that were added.  After any
    calls, a window is held for a symbol and a time [k] exactly when [k] is a
    multiple of the window size and trades of that symbol with a time in
    [[k, k + W)] were added and not extracted since; and then it carries that
    symbol and start, and of exactly those trades the number (as a 64-bit
    counter), the sum of the traded volumes, the least and the greatest price,
    the number that the buyer initiated, and the number that the seller did. *)
Theorem window_consistent W ops outs a s k :
  0 < W → agg_run (new_aggregator W) ops = Ret (outs, a) →
  let ts := traded_in W s k (pending_of W [] ops) in
  match window_stats a s k with
  | None => k mod W = 0 → ts = []
  | Some st =>
      k mod W = 0 ∧ ts ≠ [] ∧ ws_symbol st = s ∧ ws_window_start_ms st = k ∧
      ws_trade_count st = to_u64 (Z.of_nat (length ts)) ∧ raw (ws_total_volume st) = sum_volume ts ∧
      is_least Z.le (raw (ws_min_price st)) ts ∧ is_least Z.ge (raw (ws_max_price st)) ts ∧
      ws_buyer_initiated_count st =
        to_u64 (Z.of_nat (length (filter (λ t, te_buyer_is_maker t = false) ts))) ∧
      ws_seller_initiated_count st =
        to_u64 (Z.of_nat (length (filter (λ t, te_buyer_is_maker t = true) ts)))
  end.
Proof.
  intros HW Hrun ts.
  destruct (agg_run_simulates _ _ _ _ _ (agg_models_new W ltac:(lia)) Hrun) as (p & Hr & (_ & _ & Hst) & Hw).
  cbn in Hr, Hw. apply spec_run_pending in Hr as ->. rewrite Hst, Hw. unfold ref_window.
  destruct (bucket W s k (pending_of W [] ops)) as [|t0 b] eqn:Hb.
  { intros Hk. unfold ts. by rewrite <- bucket_traded_in. }
  assert (k mod W = 0) as Hk.
  { assert (t0 ∈ bucket W s k (pending_of W [] ops)) as [[_ <-] _]%list_elem_of_filter by (rewrite Hb; left).
    by apply start_of_aligned. }
  rewrite bucket_traded_in in Hb by done. fold ts in Hb. rewrite Hb.
  split_and!; try done; [by apply min_price_least|by apply max_price_least].
Qed.

Lemma window_consistent_witness :
  let ops := [OpAdd (example_trade "BTC" 1 100 1 1200 false); OpAdd (example_trade "BTC" 2 90 2 1700 true);
              OpAdd (example_trade "ETH" 1 10 1 1300 true)] in
  ∃ outs a st, agg_run (new_aggregator 1000) ops = Ret (outs, a) ∧ window_stats a "BTC" 1000 = Some st ∧
    raw (ws_total_volume st) = sum_volume (traded_in 1000 "BTC" 1000 (pending_of 1000 [] ops)) ∧
    ws_buyer_initiated_count st = 1 ∧ ws_seller_initiated_count st = 1.
Proof.
  cbv zeta. eexists _, _, _. split; [vm_compute; reflexivity|]. split; [vm_compute; reflexivity|].
  pose proof (window_consistent 1000 [OpAdd (example_trade "BTC" 1 100 1 1200 false);
    OpAdd (example_trade "BTC" 2 90 2 1700 true); OpAdd (example_trade "ETH" 1 10 1 1300 true)] _ _ "BTC" 1000
    ltac:(reflexivity) ltac:(vm_compute; reflexivity)) as H.
  destruct H as (_ & _ & _ & _ & _ & Hv & _ & _ & Hb & Hs).
  split; [exact Hv|]. split; [exact Hb|exact Hs].
Defined.
