(* ===== verification/Calendar.v ===== *)
(** * [std::gmtime] and [std::strftime]

    The UTC calendar [format_iso8601_utc] (app/src/output/StatsSerializer.cpp)
    relies on: the broken-down time of a non-negative [time_t] in the
    Gregorian calendar and its rendering with the format
    ["%Y-%m-%dT%H:%M:%SZ"].  [gmtime_date] is proved to be the inverse of
    counting the days of years and months ([days_from_civil]). *)

From S2P Require Import Prelude CString.

Record tm := {
  tm_year_ad : Z;  (** [tm_year + 1900] *)
  tm_month : Z;    (** [tm_mon + 1] *)
  tm_mday : Z;
  tm_hour : Z;
  tm_min : Z;
  tm_sec : Z
}.

(** ** The Gregorian calendar *)

Definition is_leap (y : Z) : bool :=
  (y mod 4 =? 0) && (negb (y mod 100 =? 0) || (y mod 400 =? 0)).

Definition month_lengths (leap : bool) : list Z :=
  [31; if leap then 29 else 28; 31; 30; 31; 30; 31; 31; 30; 31; 30; 31].

(** Days from 0001-01-01 to the first of January of year [y]. *)
Definition days_before_year (y : Z) : Z :=
  365 * (y - 1) + (y - 1) / 4 - (y - 1) / 100 + (y - 1) / 400.

Definition sum_days (l : list Z) : Z := foldr Z.add 0 l.

Definition days_before_month (leap : bool) (m : Z) : Z :=
  sum_days (take (Z.to_nat (m - 1)) (month_lengths leap)).

(** Days from 0001-01-01 to 1970-01-01. *)
Definition epoch_days : Z := 719162.

(** Days from the epoch to a date. *)
Definition days_from_civil (y m d : Z) : Z :=
  days_before_year y + days_before_month (is_leap y) m + (d - 1) - epoch_days.

(** ** Broken-down time *)

(** Year and day of the year of a day counted from 0001-01-01: whole
    400-, 100-, 4- and 1-year cycles are taken off in turn. *)
Definition year_of_day (n : Z) : Z * Z :=
  let n400 := n / 146097 in let r := n mod 146097 in
  let n100 := Z.min 3 (r / 36524) in let r := r - 36524 * n100 in
  let n4 := r / 1461 in let r := r mod 1461 in
  let n1 := Z.min 3 (r / 365) in
  (400 * n400 + 100 * n100 + 4 * n4 + n1 + 1, r - 365 * n1).

(** Month and day of the month of a day of the year. *)
Fixpoint month_of_day (m : Z) (lengths : list Z) (yday : Z) : Z * Z :=
  match lengths with
  | [] => (m, yday + 1)
  | len :: lengths =>
      if yday <? len then (m, yday + 1) else month_of_day (m + 1) lengths (yday - len)
  end.

Definition gmtime_date (days : Z) : Z * Z * Z :=
  let '(y, yday) := year_of_day (days + epoch_days) in
  let '(m, d) := month_of_day 1 (month_lengths (is_leap y)) yday in
  (y, m, d).

(** [std::gmtime] returns a null pointer when the year does not fit in
    [int]. *)
Definition gmtime (seconds : Z) : option tm :=
  let '(y, m, d) := gmtime_date (seconds / 86400) in
  let s := seconds mod 86400 in
  if y - 1900 <? 2147483648 then
    Some {| tm_year_ad := y; tm_month := m; tm_mday := d;
            tm_hour := s / 3600; tm_min := s mod 3600 / 60; tm_sec := s mod 60 |}
  else None.

(** A two-digit field. *)
Definition two_digits (n : Z) : string :=
  String (digit_char (n / 10)) (String (digit_char (n mod 10)) "").

(** [std::strftime] with ["%Y-%m-%dT%H:%M:%SZ"]. *)
Definition strftime_iso (t : tm) : string :=
  to_string_u64 (tm_year_ad t) +:+
  String "-" (two_digits (tm_month t) +:+
  String "-" (two_digits (tm_mday t) +:+
  String "T" (two_digits (tm_hour t) +:+
  String ":" (two_digits (tm_min t) +:+
  String ":" (two_digits (tm_sec t) +:+ "Z"))))).

(** ** The calendar is right *)

Lemma days_before_year_cycles a b c d :
  0 ≤ b ≤ 3 → 0 ≤ c ≤ 24 → 0 ≤ d ≤ 3 →
  days_before_year (400 * a + 100 * b + 4 * c + d + 1) = 146097 * a + 36524 * b + 1461 * c + 365 * d.
Proof.
  intros Hb Hc Hd. unfold days_before_year.
  set (y := 400 * a + 100 * b + 4 * c + d + 1 - 1).
  assert (y / 4 = 100 * a + 25 * b + c) as -> by (symmetry; apply (Z.div_unique _ _ _ d); lia).
  assert (y / 100 = 4 * a + b) as -> by (symmetry; apply (Z.div_unique _ _ _ (4 * c + d)); lia).
  assert (y / 400 = a) as -> by (symmetry; apply (Z.div_unique _ _ _ (100 * b + 4 * c + d)); lia).
  lia.
Qed.

Lemma mod_zero_range x n : 1 ≤ x ≤ n → x mod n = 0 ↔ x = n.
Proof.
  intros Hx. split; [|intros ->; by rewrite Z_mod_same_full].
  intros H0. destruct (Z.lt_ge_cases x n); [|lia]. rewrite Z.mod_small in H0; lia.
Qed.

Lemma is_leap_cycles a b c d :
  0 ≤ b ≤ 3 → 0 ≤ c ≤ 24 → 0 ≤ d ≤ 3 →
  is_leap (400 * a + 100 * b + 4 * c + d + 1) = (d =? 3) && (negb (c =? 24) || (b =? 3)).
Proof.
  intros Hb Hc Hd. unfold is_leap. set (y := 400 * a + 100 * b + 4 * c + d + 1).
  assert (y mod 4 = (d + 1) mod 4) as H4.
  { unfold y. rewrite <- (Z_mod_plus_full (d + 1) (100 * a + 25 * b + c)). f_equal. lia. }
  assert (y mod 100 = (4 * c + d + 1) mod 100) as H100.
  { unfold y. rewrite <- (Z_mod_plus_full (4 * c + d + 1) (4 * a + b)). f_equal. lia. }
  assert (y mod 400 = (100 * b + 4 * c + d + 1) mod 400) as H400.
  { unfold y. rewrite <- (Z_mod_plus_full (100 * b + 4 * c + d + 1) a). f_equal. lia. }
  pose proof (mod_zero_range (d + 1) 4 ltac:(lia)) as D4.
  pose proof (mod_zero_range (4 * c + d + 1) 100 ltac:(lia)) as D100.
  pose proof (mod_zero_range (100 * b + 4 * c + d + 1) 400 ltac:(lia)) as D400.
  rewrite <- H4 in D4. rewrite <- H100 in D100. rewrite <- H400 in D400. clear H4 H100 H400.
  generalize dependent (y mod 4). generalize dependent (y mod 100).
  generalize dependent (y mod 400). clear y. intros m400 D400 m100 D100 m4 D4.
  destruct (Z.eqb_spec m4 0), (Z.eqb_spec m100 0), (Z.eqb_spec m400 0),
    (Z.eqb_spec d 3), (Z.eqb_spec c 24), (Z.eqb_spec b 3); cbn; done || lia.
Qed.

Definition year_length (y : Z) : Z := if is_leap y then 366 else 365.

Lemma year_of_day_spec n y yday :
  0 ≤ n → year_of_day n = (y, yday) →
  1 ≤ y ∧ 0 ≤ yday < year_length y ∧ days_before_year y + yday = n.
Proof.
  intros Hn. unfold year_of_day. cbn zeta.
  set (a := n / 146097). set (r := n mod 146097).
  set (b := Z.min 3 (r / 36524)). set (r2 := r - 36524 * b).
  set (c := r2 / 1461). set (r3 := r2 mod 1461). set (d := Z.min 3 (r3 / 365)).
  assert (0 ≤ a ∧ n = 146097 * a + r ∧ 0 ≤ r < 146097) as (Ha & Hnr & Hr).
  { pose proof (Z.div_mod n 146097). pose proof (Z.mod_pos_bound n 146097).
    pose proof (Z.div_pos n 146097). lia. }
  assert (0 ≤ b ≤ 3 ∧ 0 ≤ r2 ≤ 36524 ∧ (b = 3 ∨ r2 < 36524)) as (Hb & Hr2 & Hb').
  { pose proof (Z.div_mod r 36524). pose proof (Z.mod_pos_bound r 36524).
    pose proof (Z.div_pos r 36524). unfold b in *. lia. }
  assert (0 ≤ c ≤ 24 ∧ r2 = 1461 * c + r3 ∧ 0 ≤ r3 < 1461 ∧ (c = 24 → b = 3 ∨ r3 < 1460)) as (Hc & Hr3 & Hr3' & Hc').
  { pose proof (Z.div_mod r2 1461). pose proof (Z.mod_pos_bound r2 1461).
    pose proof (Z.div_pos r2 1461). unfold c, r3 in *. lia. }
  assert (0 ≤ d ≤ 3 ∧ 0 ≤ r3 - 365 * d ≤ 365 ∧ (d = 3 ∨ r3 - 365 * d < 365)) as (Hd & Hy & Hd').
  { pose proof (Z.div_mod r3 365). pose proof (Z.mod_pos_bound r3 365).
    pose proof (Z.div_pos r3 365). unfold d in *. lia. }
  assert (r2 = r - 36524 * b) as Hr2' by done.
  clearbody a r b r2 c r3 d. intros [= <- <-].
  rewrite days_before_year_cycles by lia. unfold year_length. rewrite is_leap_cycles by lia.
  destruct (Z.eqb_spec d 3), (Z.eqb_spec c 24), (Z.eqb_spec b 3); cbn; lia.
Qed.

Lemma month_of_day_spec m0 lengths yday m d :
  0 ≤ yday < sum_days lengths → month_of_day m0 lengths yday = (m, d) →
  ∃ len, m0 ≤ m ∧ lengths !! Z.to_nat (m - m0) = Some len ∧ 1 ≤ d ≤ len ∧
    sum_days (take (Z.to_nat (m - m0)) lengths) + (d - 1) = yday.
Proof.
  revert m0 yday. induction lengths as [|len lengths IH]; intros m0 yday Hy; cbn in *; [lia|].
  destruct (Z.ltb_spec yday len).
  - intros [= <- <-]. exists len. rewrite Z.sub_diag. change (Z.to_nat 0) with 0%nat. cbn. split_and!; done || lia.
  - intros H2. destruct (IH (m0 + 1) (yday - len)) as (len' & Hm & Hl & Hd & Hs); [unfold sum_days in *; cbn in Hy; lia|done|].
    exists len'. replace (Z.to_nat (m - m0)) with (S (Z.to_nat (m - (m0 + 1)))) by lia.
    cbn. unfold sum_days in *. split_and!; done || lia.
Qed.

Lemma sum_month_lengths y : sum_days (month_lengths (is_leap y)) = year_length y.
Proof. unfold year_length. by destruct (is_leap y). Qed.

Lemma gmtime_date_spec days y m d :
  0 ≤ days → gmtime_date days = (y, m, d) →
  days_from_civil y m d = days ∧ 1 ≤ y ∧ 1 ≤ m ≤ 12 ∧
  ∃ len, month_lengths (is_leap y) !! Z.to_nat (m - 1) = Some len ∧ 1 ≤ d ≤ len.
Proof.
  intros Hdays. unfold gmtime_date.
  destruct (year_of_day (days + epoch_days)) as [y' yday] eqn:Hy.
  apply year_of_day_spec in Hy as (Hy1 & Hyd & Hsum); [|unfold epoch_days; lia].
  destruct (month_of_day 1 (month_lengths (is_leap y')) yday) as [m' d'] eqn:Hm.
  apply month_of_day_spec in Hm as (len & Hm1 & Hl & Hd & Hs); [|by rewrite sum_month_lengths].
  intros [= <- <- <-]. split_and!; [unfold days_from_civil, days_before_month; lia|lia|lia| |eauto].
  apply lookup_lt_Some in Hl. cbn in Hl. lia.
Qed.

Lemma month_length_bound y m len :
  month_lengths (is_leap y) !! Z.to_nat (m - 1) = Some len → 28 ≤ len ≤ 31.
Proof.
  intros H%list_elem_of_lookup_2. unfold month_lengths in H.
  destruct (is_leap y); repeat (apply elem_of_cons in H as [->|H]; [lia|]); by apply not_elem_of_nil in H.
Qed.

(** Years of representable times: a [std::uint64_t] number of milliseconds
    ends before the year 584556050. *)
Lemma gmtime_date_year days y m d :
  0 ≤ days ≤ 213503982335 → gmtime_date days = (y, m, d) → 1 ≤ y < 584556050.
Proof.
  intros Hdays. unfold gmtime_date.
  destruct (year_of_day (days + epoch_days)) as [y' yday] eqn:Hy.
  apply year_of_day_spec in Hy as (Hy1 & Hyd & Hsum); [|unfold epoch_days; lia].
  destruct (month_of_day 1 (month_lengths (is_leap y')) yday) as [m' d'].
  intros [= <- <- <-]. unfold days_before_year, epoch_days in Hsum.
  Z.div_mod_to_equations. lia.
Qed.

(** ** Whole timestamps *)

(** Fields in the ranges [std::gmtime] produces. *)
Definition tm_ok (t : tm) : Prop :=
  1 ≤ tm_year_ad t < 584556050 ∧ 1 ≤ tm_month t ≤ 12 ∧ 1 ≤ tm_mday t ≤ 31 ∧
  0 ≤ tm_hour t < 24 ∧ 0 ≤ tm_min t < 60 ∧ 0 ≤ tm_sec t < 60.

(** Seconds from the epoch to a broken-down time. *)
Definition tm_seconds (t : tm) : Z :=
  days_from_civil (tm_year_ad t) (tm_month t) (tm_mday t) * 86400 +
  tm_hour t * 3600 + tm_min t * 60 + tm_sec t.

Lemma hms_split s :
  0 ≤ s < 86400 →
  (0 ≤ s / 3600 < 24 ∧ 0 ≤ s mod 3600 / 60 < 60 ∧ 0 ≤ s mod 60 < 60) ∧
  s / 3600 * 3600 + s mod 3600 / 60 * 60 + s mod 60 = s.
Proof.
  intros Hs. split; [split_and!; Z.div_mod_to_equations; lia|].
  replace (s mod 60) with (s mod 3600 mod 60) by (apply Z.mod_mod_divide; by exists 60).
  pose proof (Z.div_mod s 3600). pose proof (Z.div_mod (s mod 3600) 60). lia.
Qed.

Lemma gmtime_spec seconds :
  0 ≤ seconds ≤ 18446744073709551 → ∃ t, gmtime seconds = Some t ∧ tm_ok t ∧ tm_seconds t = seconds.
Proof.
  intros Hs. unfold gmtime.
  assert (0 ≤ seconds / 86400 ≤ 213503982335) as Hd.
  { split; [apply Z.div_pos; lia|apply Z.div_le_upper_bound; lia]. }
  destruct (gmtime_date (seconds / 86400)) as [[y m] d] eqn:Hg.
  pose proof (gmtime_date_year _ _ _ _ Hd Hg) as Hy.
  destruct (gmtime_date_spec _ _ _ _ (proj1 Hd) Hg) as (Hdays & _ & Hm & len & Hl & Hdl).
  apply month_length_bound in Hl. rewrite (proj2 (Z.ltb_lt _ _)) by lia.
  eexists; split; [done|]. unfold tm_ok, tm_seconds. cbn.
  pose proof (Z.div_mod seconds 86400). rewrite Hdays.
  pose proof (hms_split (seconds mod 86400) (Z.mod_pos_bound seconds 86400 eq_refl)).
  split; [|lia]. split_and!; lia.
Qed.

Lemma two_digits_inj n m r1 r2 :
  0 ≤ n < 100 → 0 ≤ m < 100 → two_digits n +:+ r1 = two_digits m +:+ r2 → n = m ∧ r1 = r2.
Proof.
  intros Hn Hm He. apply split_same_length in He as [He ->]; [|done]. split; [|done].
  injection He as H1 H2. apply (f_equal digit_val) in H1, H2.
  rewrite !digit_val_char in H1, H2 by (Z.div_mod_to_equations; lia).
  pose proof (Z.div_mod n 10). pose proof (Z.div_mod m 10). lia.
Qed.

Lemma strftime_iso_inj t1 t2 :
  tm_ok t1 → tm_ok t2 → strftime_iso t1 = strftime_iso t2 → t1 = t2.
Proof.
  destruct t1 as [y1 m1 d1 h1 i1 s1], t2 as [y2 m2 d2 h2 i2 s2].
  intros (Hy1 & Hm1 & Hd1 & Hh1 & Hi1 & Hs1) (Hy2 & Hm2 & Hd2 & Hh2 & Hi2 & Hs2). cbn in *.
  unfold strftime_iso. cbn [tm_year_ad tm_month tm_mday tm_hour tm_min tm_sec]. intros He.
  assert (in_u64 y1 ∧ in_u64 y2) as [Hu1 Hu2] by range.
  apply split_at_char in He as [Hy He];
    [|apply digits_lack; [done|by apply to_string_u64_spec]..].
  apply to_string_u64_inj in Hy; [|done..]. subst.
  apply two_digits_inj in He as [-> He]; [|lia..]. apply string_cons_inv in He.
  apply two_digits_inj in He as [-> He]; [|lia..]. apply string_cons_inv in He.
  apply two_digits_inj in He as [-> He]; [|lia..]. apply string_cons_inv in He.
  apply two_digits_inj in He as [-> He]; [|lia..]. apply string_cons_inv in He.
  by apply two_digits_inj in He as [-> He]; [|lia..].
Qed.

Lemma strftime_iso_length t : tm_ok t → (String.length (strftime_iso t) ≤ 25)%nat.
Proof.
  intros (Hy & _). unfold strftime_iso.
  assert (in_u64 (tm_year_ad t)) by range.
  pose proof (to_string_u64_length (tm_year_ad t) 9 ltac:(done) ltac:(lia)
    ltac:(change (10 ^ Z.of_nat 9) with 1000000000; lia)).
  repeat first [rewrite string_length_app | progress cbn [String.length]].
  unfold two_digits. cbn [String.length]. lia.
Qed.

(** The rendered timestamp contains no newline. *)
Lemma two_digits_lacks c n : isdigit c = false → 0 ≤ n < 100 → lacks c (two_digits n) = true.
Proof.
  intros Hc Hn. apply digits_lack; [done|]. cbn.
  rewrite !isdigit_char by (Z.div_mod_to_equations; lia). done.
Qed.

Lemma lacks_cons c x s : lacks c (String x s) = negb (bool_decide (x = c)) && lacks c s.
Proof. done. Qed.

Lemma strftime_iso_lacks_newline t : tm_ok t → lacks "010" (strftime_iso t) = true.
Proof.
  intros (Hy & Hm & Hd & Hh & Hi & Hs). unfold strftime_iso.
  assert (all_digits (to_string_u64 (tm_year_ad t)) = true) as Hdig
    by (apply to_string_u64_spec; range).
  rewrite lacks_app, (digits_lack "010" _ eq_refl Hdig).
  do 5 rewrite lacks_cons, lacks_app, two_digits_lacks by (done || lia). done.
Qed.
