(* ===== verification/Output.v ===== *)
(** * Serialisation and output sinks

    app/include/agg/output/StatsSnapshot.hpp, OutputSink.hpp,
    app/src/output/StatsSerializer.cpp and app/src/output/FileOutputSink.cpp. *)

From S2P Require Import Prelude CString DecimalFp StdMap Aggregator Calendar.

(** ** [StatsSerializer] *)

Record StatsSnapshot := {
  ss_window_start_ms : Z;
  ss_windows : list WindowStats
}.

Definition newline : ascii := "010".

(** [std::strftime] leaves the 32-byte buffer unspecified when the text and its
    terminating null do not fit, and reading it is then undefined. *)
Definition format_iso8601_utc (epoch_ms : Z) : outcome string :=
  let seconds := to_i64 (epoch_ms / 1000) in
  match gmtime seconds with
  | None => Undef
  | Some tm_utc =>
      let text := strftime_iso tm_utc in
      if (String.length text <? 32)%nat then Ret text else Undef
  end.

(** One line of the block. *)
Definition serialize_window (window : WindowStats) : outcome string :=
  total_volume ← to_string (ws_total_volume window);
  min_price ← to_string (ws_min_price window);
  max_price ← to_string (ws_max_price window);
  Ret ("symbol=" +:+ ws_symbol window
    +:+ " trades=" +:+ to_string_u64 (ws_trade_count window)
    +:+ " volume=" +:+ total_volume
    +:+ " min=" +:+ min_price
    +:+ " max=" +:+ max_price
    +:+ " buy=" +:+ to_string_u64 (ws_buyer_initiated_count window)
    +:+ " sell=" +:+ to_string_u64 (ws_seller_initiated_count window)
    +:+ String newline "").

Definition serialize (snapshot : StatsSnapshot) : outcome string :=
  match ss_windows snapshot with
  | [] => Ret ""
  | windows =>
      timestamp ← format_iso8601_utc (ss_window_start_ms snapshot);
      output ← foldM (λ output window, line ← serialize_window window; Ret (output +:+ line))
        ("timestamp=" +:+ timestamp +:+ String newline "") windows;
      Ret (output +:+ String newline "")
  end.

(** ** [OutputSink]

    The interface the pipeline writes through: a successful [write] appends
    the block verbatim to what the sink has received. *)

Class OutputSink (S : Type) := {
  sink_write : S → string → outcome S;
  sink_text : S → string;
  sink_write_verbatim s text s' :
    sink_write s text = Ret s' → sink_text s' = sink_text s +:+ text
}.

(** ** [FileOutputSink]

    The state is the contents of the file and the state of the stream.  What
    the operating system does with each write is not under the program's
    control: [fos_os] lists it for the writes to come ([None] the write
    succeeds, [Some n] it fails after [n] bytes); beyond the list writes
    succeed. *)

Record FileOutputSink := {
  fos_file : string;
  fos_good : bool;
  fos_os : list (option nat)
}.

(** The constructor: opens the file at [path] for appending. *)
Definition open_FileOutputSink (path : string) (open_ok : bool) (contents : string)
    (os : list (option nat)) : outcome FileOutputSink :=
  if open_ok then Ret {| fos_file := contents; fos_good := true; fos_os := os |}
  else Throw (RuntimeError ("Failed to open output file: " +:+ path)).

(** [stream_ << text; stream_.flush()]: a stream that has failed before does
    nothing, a failing write sets the error state. *)
Definition stream_put (sink : FileOutputSink) (text : string) : FileOutputSink :=
  if fos_good sink then
    match fos_os sink with
    | Some n :: os =>
        {| fos_file := fos_file sink +:+ String.substring 0 n text; fos_good := false; fos_os := os |}
    | None :: os => {| fos_file := fos_file sink +:+ text; fos_good := true; fos_os := os |}
    | [] => {| fos_file := fos_file sink +:+ text; fos_good := true; fos_os := [] |}
    end
  else sink.

Definition file_write (sink : FileOutputSink) (text : string) : outcome FileOutputSink :=
  let sink := stream_put sink text in
  if fos_good sink then Ret sink
  else Throw (RuntimeError "Failed to write to output file").

#[export] Program Instance file_sink : OutputSink FileOutputSink :=
  {| sink_write := file_write; sink_text := fos_file |}.
Next Obligation.
  intros s text s'. unfold file_write, stream_put.
  destruct (fos_good s) eqn:Hg; [|by rewrite Hg].
  destruct (fos_os s) as [|[n|] os]; cbn; intros; by inv_ret.
Qed.

(** ** Serialisation always succeeds on what the aggregator produces *)

(** A window whose numbers are in range; the most negative decimal cannot be
    printed. *)
Definition printable (d : Decimal) : Prop := in_i64 (raw d) ∧ raw d ≠ - two63.

Definition window_printable (w : WindowStats) : Prop :=
  printable (ws_total_volume w) ∧ printable (ws_min_price w) ∧ printable (ws_max_price w) ∧
  in_u64 (ws_trade_count w) ∧ in_u64 (ws_buyer_initiated_count w) ∧
  in_u64 (ws_seller_initiated_count w).

#[export] Instance printable_dec d : Decision (printable d).
Proof. unfold printable. apply _. Defined.
#[export] Instance window_printable_dec w : Decision (window_printable w).
Proof. unfold window_printable. apply _. Defined.

Lemma format_iso8601_utc_spec epoch_ms :
  in_u64 epoch_ms →
  ∃ t, format_iso8601_utc epoch_ms = Ret (strftime_iso t) ∧ tm_ok t ∧ tm_seconds t = epoch_ms / 1000.
Proof.
  intros He. unfold format_iso8601_utc.
  assert (0 ≤ epoch_ms / 1000 ≤ 18446744073709551) as Hs.
  { split; [apply Z.div_pos; range|apply Z.lt_succ_r, Z.div_lt_upper_bound; range]. }
  rewrite to_i64_id by range. destruct (gmtime_spec _ Hs) as (t & -> & Ht & Hsec).
  exists t. pose proof (strftime_iso_length t Ht).
  rewrite (proj2 (Nat.ltb_lt _ _)) by lia. done.
Qed.

Lemma foldM_append {A} (f : A → outcome string) l o :
  foldM (λ o x, s ← f x; Ret (o +:+ s)) o l = ls ← mapM f l; Ret (o +:+ string_concat ls).
Proof.
  revert o. induction l as [|x l IH]; intros o; cbn; [by rewrite string_app_nil_r|].
  destruct (f x); cbn; [|done..]. rewrite IH. destruct (mapM f l); cbn; [|done..].
  by rewrite string_app_assoc.
Qed.

(** The block as one concatenation. *)
Lemma serialize_eq snapshot :
  ss_windows snapshot ≠ [] →
  serialize snapshot =
    timestamp ← format_iso8601_utc (ss_window_start_ms snapshot);
    lines ← mapM serialize_window (ss_windows snapshot);
    Ret ("timestamp=" +:+ timestamp +:+ String newline (string_concat lines +:+ String newline "")).
Proof.
  intros Hne. unfold serialize. destruct (ss_windows snapshot) as [|w ws] eqn:E; [done|].
  apply bind_ext. intros ts _. rewrite foldM_append, bind_assoc. apply bind_ext. intros ls _.
  cbn [mbind outcome_bind]. by autorewrite with cpp.
Qed.

Lemma serialize_window_returns w : window_printable w → ∃ line, serialize_window w = Ret line.
Proof.
  intros ([Hv1 Hv2] & [Hm1 Hm2] & [Hx1 Hx2] & _). unfold serialize_window.
  rewrite !to_string_canonical by done. cbn. eauto.
Qed.

Lemma mapM_returns {A B} (f : A → outcome B) l :
  (∀ x, x ∈ l → ∃ y, f x = Ret y) → ∃ ys, mapM f l = Ret ys.
Proof.
  induction l as [|x l IH]; intros Hf; cbn; [eauto|].
  destruct (Hf x) as [y ->]; [left|]. destruct IH as [ys ->]; [intros; apply Hf; by right|]. cbn. eauto.
Qed.

(** ** A block determines its contents *)

(** Symbols that cannot be confused with the punctuation of a line.  The
    symbols of the exchange are alphanumeric, but the parser takes whatever
    string the ["s"] of a message holds. *)
Definition symbol_clean (s : string) : bool := lacks " " s && lacks newline s.

(** A window without its start: a line does not print it. *)
Definition erase_start (w : WindowStats) : WindowStats :=
  {| ws_symbol := ws_symbol w; ws_window_start_ms := 0; ws_trade_count := ws_trade_count w;
     ws_total_volume := ws_total_volume w; ws_min_price := ws_min_price w;
     ws_max_price := ws_max_price w; ws_buyer_initiated_count := ws_buyer_initiated_count w;
     ws_seller_initiated_count := ws_seller_initiated_count w |}.

Definition window_readable (w : WindowStats) : Prop :=
  window_printable w ∧ symbol_clean (ws_symbol w) = true.

#[export] Instance window_readable_dec w : Decision (window_readable w).
Proof. unfold window_readable. apply _. Defined.

(** Reads one number field off the front of two equal texts. *)
Lemma u64_field_inj c n1 n2 r1 r2 :
  in_u64 n1 → in_u64 n2 → isdigit c = false →
  to_string_u64 n1 +:+ String c r1 = to_string_u64 n2 +:+ String c r2 → n1 = n2 ∧ r1 = r2.
Proof.
  intros H1 H2 Hc He. apply split_at_char in He as [Hn ->];
    [|apply digits_lack; [done|by apply to_string_u64_spec]..].
  by apply to_string_u64_inj in Hn.
Qed.

Lemma decimal_field_inj d1 d2 s1 s2 r1 r2 :
  to_string d1 = Ret s1 → to_string d2 = Ret s2 → printable d1 → printable d2 →
  s1 +:+ String " " r1 = s2 +:+ String " " r2 → d1 = d2 ∧ r1 = r2.
Proof.
  intros E1 E2 [H1 H1'] [H2 H2'] He. apply split_at_char in He as [-> ->];
    [|by eapply (to_string_lacks d1)|by eapply (to_string_lacks d2)].
  split; [|done]. by eapply to_string_inj.
Qed.

Lemma serialize_window_inj w1 w2 l1 l2 r1 r2 :
  window_readable w1 → window_readable w2 →
  serialize_window w1 = Ret l1 → serialize_window w2 = Ret l2 →
  l1 +:+ r1 = l2 +:+ r2 → erase_start w1 = erase_start w2 ∧ r1 = r2.
Proof.
  intros [(Hv1 & Hm1 & Hx1 & Hc1 & Hb1 & Hs1) [Hsp1 _]%andb_true_iff].
  intros [(Hv2 & Hm2 & Hx2 & Hc2 & Hb2 & Hs2) [Hsp2 _]%andb_true_iff].
  unfold serialize_window. intros E1 E2. inv_ret. rewrite !string_app_assoc.
  intros He. apply string_app_inv_head in He.
  apply (split_at_char " ") in He as [Hsym He]; [|done..].
  apply (string_app_inv_head "trades=") in He. apply (u64_field_inj " ") in He as [Hcnt He]; [|done..].
  apply (string_app_inv_head "volume=") in He. eapply decimal_field_inj in He as [Hvol He]; [|done..].
  apply (string_app_inv_head "min=") in He. eapply decimal_field_inj in He as [Hmin He]; [|done..].
  apply (string_app_inv_head "max=") in He. eapply decimal_field_inj in He as [Hmax He]; [|done..].
  apply (string_app_inv_head "buy=") in He. apply (u64_field_inj " ") in He as [Hbuy He]; [|done..].
  apply (string_app_inv_head "sell=") in He.
  apply (u64_field_inj newline) in He as [Hsell He]; [|done..].
  split; [|done]. unfold erase_start. congruence.
Qed.

Lemma serialize_window_head w l : serialize_window w = Ret l → ∃ l', l = String "s" l'.
Proof. unfold serialize_window. intros H. inv_ret. eexists. reflexivity. Qed.

Lemma mapM_Ret_cons {A B} (f : A → outcome B) x l ys :
  mapM f (x :: l) = Ret ys → ∃ y ys', ys = y :: ys' ∧ f x = Ret y ∧ mapM f l = Ret ys'.
Proof. cbn. intros H. inv_ret. eauto. Qed.

Lemma serialize_windows_inj ws1 ws2 ls1 ls2 r1 r2 :
  Forall window_readable ws1 → Forall window_readable ws2 →
  mapM serialize_window ws1 = Ret ls1 → mapM serialize_window ws2 = Ret ls2 →
  string_concat ls1 +:+ String newline r1 = string_concat ls2 +:+ String newline r2 →
  erase_start <$> ws1 = erase_start <$> ws2.
Proof.
  intros H1 H2. revert ws2 H2 ls1 ls2.
  induction H1 as [|w1 ws1 Hw1 _ IH]; intros ws2 [|w2 ws2' Hw2 Hws2] ls1 ls2 E1 E2; [done|..].
  - cbn in E1. inv_ret. apply mapM_Ret_cons in E2 as (l & ls & -> & Hl & _).
    apply serialize_window_head in Hl as [l' ->]. intros He. discriminate He.
  - cbn in E2. inv_ret. apply mapM_Ret_cons in E1 as (l & ls & -> & Hl & _).
    apply serialize_window_head in Hl as [l' ->]. intros He. discriminate He.
  - apply mapM_Ret_cons in E1 as (l1 & ls1' & -> & Hl1 & Hls1), E2 as (l2 & ls2' & -> & Hl2 & Hls2).
    cbn [string_concat]. rewrite !string_app_assoc. intros He.
    apply (serialize_window_inj w1 w2 l1 l2) in He as [Hw He]; [|done..]. cbn. f_equal; [done|]. by eapply IH.
Qed.

(** ** Properties *)

(** Serialising a non-empty snapshot of printable windows always
    succeeds, and the block is the timestamp line of the window start, one
    line per window in order, and a blank line; the timestamp always fits the
    32-byte buffer and denotes the window start to the second. *)
Theorem serialize_block snapshot :
  in_u64 (ss_window_start_ms snapshot) → ss_windows snapshot ≠ [] →
  Forall window_printable (ss_windows snapshot) →
  ∃ t lines, serialize snapshot =
      Ret ("timestamp=" +:+ strftime_iso t +:+ String newline (string_concat lines +:+ String newline "")) ∧
    mapM serialize_window (ss_windows snapshot) = Ret lines ∧
    (String.length (strftime_iso t) < 32)%nat ∧ tm_seconds t = ss_window_start_ms snapshot / 1000.
Proof.
  intros Hu Hne Hp. destruct (format_iso8601_utc_spec _ Hu) as (t & Ht & Hok & Hsec).
  destruct (mapM_returns serialize_window (ss_windows snapshot)) as [lines Hl].
  { intros w Hw. rewrite Forall_forall in Hp. by apply serialize_window_returns, Hp. }
  exists t, lines. rewrite serialize_eq, Ht, Hl by done. cbn [mbind outcome_bind].
  pose proof (strftime_iso_length t Hok). split_and!; done || lia.
Qed.

Definition example_window (s : string) : WindowStats :=
  {| ws_symbol := s; ws_window_start_ms := 1768227800000; ws_trade_count := 154;
     ws_total_volume := from_raw 2351000000; ws_min_price := from_raw 4301210000000;
     ws_max_price := from_raw 4318940000000; ws_buyer_initiated_count := 82;
     ws_seller_initiated_count := 72 |}.

Definition example_snapshot : StatsSnapshot :=
  {| ss_window_start_ms := 1768227800000; ss_windows := [example_window "BTCUSDT"] |}.

(** The expected text of the unit test. *)
Example serialize_example :
  serialize example_snapshot = Ret ("timestamp=2026-01-12T14:23:20Z" +:+ String newline
    ("symbol=BTCUSDT trades=154 volume=23.51 min=43012.1 max=43189.4 buy=82 sell=72" +:+
     String newline (String newline ""))).
Proof. vm_compute. reflexivity. Qed.

Lemma serialize_block_witness :
  ∃ t lines, serialize example_snapshot =
      Ret ("timestamp=" +:+ strftime_iso t +:+ String newline (string_concat lines +:+ String newline "")) ∧
    mapM serialize_window (ss_windows example_snapshot) = Ret lines ∧
    (String.length (strftime_iso t) < 32)%nat ∧ tm_seconds t = 1768227800.
Proof. apply (serialize_block example_snapshot); by_compute. Defined.

(** C34: a block can be read back, when no symbol holds a space or a newline
    (the parser does not check that, and [unclean_symbols_collide] shows that it
    is needed): two snapshots with such symbols, numbers that can be printed, at
    least one window and 64-bit starts that serialise to the same text have the
    same statistics line by line and their windows start in the same second. *)
Theorem serialize_injective s1 s2 text :
  in_u64 (ss_window_start_ms s1) → in_u64 (ss_window_start_ms s2) →
  ss_windows s1 ≠ [] → ss_windows s2 ≠ [] →
  Forall window_readable (ss_windows s1) → Forall window_readable (ss_windows s2) →
  serialize s1 = Ret text → serialize s2 = Ret text →
  erase_start <$> ss_windows s1 = erase_start <$> ss_windows s2 ∧
  ss_window_start_ms s1 / 1000 = ss_window_start_ms s2 / 1000.
Proof.
  intros Hu1 Hu2 Hn1 Hn2 Hr1 Hr2. rewrite !serialize_eq by done.
  destruct (format_iso8601_utc_spec _ Hu1) as (t1 & -> & Hok1 & <-).
  destruct (format_iso8601_utc_spec _ Hu2) as (t2 & -> & Hok2 & <-).
  cbn [mbind outcome_bind]. intros (l1 & Hl1 & E1)%bind_Ret (l2 & Hl2 & E2)%bind_Ret.
  apply Ret_inj in E1 as <-. apply Ret_inj in E2 as He. symmetry in He.
  apply (string_app_inv_head "timestamp=") in He.
  apply split_at_char in He as [Ht He]; [|by apply strftime_iso_lacks_newline..].
  apply strftime_iso_inj in Ht as ->; [|done..]. split; [|done].
  by eapply serialize_windows_inj.
Qed.

Lemma serialize_injective_witness :
  ∃ text, serialize example_snapshot = Ret text ∧
    erase_start <$> ss_windows example_snapshot = erase_start <$> ss_windows example_snapshot ∧
    1768227800000 / 1000 = 1768227800000 / 1000.
Proof.
  eexists. split; [vm_compute; reflexivity|].
  eapply (serialize_injective example_snapshot example_snapshot); [by_compute..| |];
    vm_compute; reflexivity.
Defined.

(** A symbol with a newline can pass for two windows. *)
Definition unclean_symbol : string :=
  "BTCUSDT trades=154 volume=23.51 min=43012.1 max=43189.4 buy=82 sell=72" +:+ String newline "symbol=ETHUSDT".

Example unclean_symbols_collide :
  let s1 := {| ss_window_start_ms := 0; ss_windows := [example_window "BTCUSDT"; example_window "ETHUSDT"] |} in
  let s2 := {| ss_window_start_ms := 0; ss_windows := [example_window unclean_symbol] |} in
  serialize s1 = serialize s2 ∧ (∃ text, serialize s1 = Ret text) ∧ symbol_clean unclean_symbol = false.
Proof. vm_compute. eauto. Qed.

(** The timestamp has a resolution of one second: two windows that start within
    the same second, as windows shorter than a second do, are reported under
    the same timestamp. *)
Example timestamps_collide :
  format_iso8601_utc 1500 = format_iso8601_utc 1000 ∧
  format_iso8601_utc 1000 = Ret "1970-01-01T00:00:01Z".
Proof. vm_compute. done. Qed.
