(* ===== verification/Float64.v ===== *)
(** * Double-precision arithmetic

    The standard library's [SpecFloat] computes with IEEE 754 doubles exactly
    as the hardware does; this file says what the results are worth.  A finite
    double is an integer number of units of 2^-1074, and rounding is faithful:
    the rounded result of an operation lies on the same side of every
    representable number as the exact result. *)

From Stdlib Require Export SpecFloat.
From S2P Require Import Prelude.

(** ** Values *)

Abbreviation d_prec := 53 (only parsing).
Abbreviation d_emax := 1024 (only parsing).
Abbreviation d_emin := (-1074) (only parsing).

Abbreviation d_fexp := (fexp d_prec d_emax).
Abbreviation d_valid := (valid_binary d_prec d_emax).

(** The value of a finite double, in units of 2^-1074. *)
Definition units (x : spec_float) : option Z :=
  match x with
  | S754_zero _ => Some 0
  | S754_finite s m e => Some ((if s then -1 else 1) * (Zpos m * 2 ^ (e + 1074)))
  | S754_infinity _ | S754_nan => None
  end.

(** One, in these units. *)
Definition unit_one : Z := 2 ^ 1074.

(** ** Digits *)

Lemma digits2_pos_bounds p :
  2 ^ (Zpos (digits2_pos p) - 1) ≤ Zpos p < 2 ^ Zpos (digits2_pos p).
Proof.
  induction p as [p IH|p IH|]; cbn [digits2_pos]; [..|done];
    rewrite Pos2Z.inj_succ, Z.sub_1_r, Z.pred_succ, Z.pow_succ_r by lia;
    rewrite Z.sub_1_r in IH; destruct IH as [H1 H2];
    rewrite <- (Z.succ_pred (Zpos (digits2_pos p))), Z.pow_succ_r in H2 |- * by lia; lia.
Qed.

Lemma Zdigits2_bounds m : 0 < m → 2 ^ (Zdigits2 m - 1) ≤ m < 2 ^ Zdigits2 m.
Proof. destruct m as [|p|p]; [lia| |lia]. intros _. apply digits2_pos_bounds. Qed.

Lemma Zdigits2_le m k : 0 ≤ m < 2 ^ k → 0 ≤ k → Zdigits2 m ≤ k.
Proof.
  intros Hm Hk. destruct (decide (m = 0)) as [->|]; [done|].
  pose proof (Zdigits2_bounds m ltac:(lia)). apply Z.lt_succ_r, (Z.pow_lt_mono_r_iff 2); [lia..|].
  destruct (decide (Zdigits2 m ≤ k)); [apply Z.pow_lt_mono_r; lia|].
  assert (2 ^ k ≤ 2 ^ (Zdigits2 m - 1)) by (apply Z.pow_le_mono_r; lia). lia.
Qed.

Lemma pow2_pos k : 0 ≤ k → 0 < 2 ^ k.
Proof. intros. by apply Z.pow_pos_nonneg. Qed.

(** ** Shifting right *)

(** The flags are clear when nothing was shifted out. *)
Definition shifted (m : Z) (d : Z) (r : shr_record) : Prop :=
  shr_m r = m / 2 ^ d ∧ (m mod 2 ^ d = 0 → shr_r r = false ∧ shr_s r = false).

Lemma shr_1_spec r :
  0 ≤ shr_m r →
  shr_m (shr_1 r) = shr_m r / 2 ∧ shr_r (shr_1 r) = Z.odd (shr_m r) ∧
  shr_s (shr_1 r) = shr_r r || shr_s r.
Proof.
  destruct r as [m r s]. cbn. intros Hm. destruct m as [|[p|p|]|p]; cbn; [done|..|done|lia].
  - split_and!; [|done..]. rewrite <- Z.div2_div. done.
  - split_and!; [|done..]. rewrite <- Z.div2_div. done.
Qed.

Lemma shifted_next m d r : 0 ≤ m → 0 ≤ d → shifted m d r → shifted m (d + 1) (shr_1 r).
Proof.
  intros Hm Hd [Hr Hf]. assert (0 ≤ shr_m r) as Hr0.
  { rewrite Hr. apply Z.div_pos; [done|by apply pow2_pos]. }
  unfold shifted. destruct (shr_1_spec r Hr0) as (-> & -> & ->). rewrite Hr. pose proof (pow2_pos d Hd).
  split.
  - cbn. rewrite Z.pow_add_r, Z.pow_1_r by lia. by rewrite Z.div_div by lia.
  - cbn. rewrite Z.pow_add_r, Z.pow_1_r, Z.rem_mul_r by lia. intros H0.
    pose proof (Z.mod_pos_bound m (2 ^ d) ltac:(lia)). pose proof (Z.mod_pos_bound (m / 2 ^ d) 2 ltac:(lia)).
    destruct Hf as [-> ->]; [nia|]. split; [|done].
    rewrite <- Z.negb_even, Zeven_mod. apply negb_false_iff, Z.eqb_eq. nia.
Qed.

Lemma iter_pos_shifted p m d r :
  0 ≤ m → 0 ≤ d → shifted m d r → shifted m (d + Zpos p) (SpecFloat.iter_pos shr_1 p r).
Proof.
  intros Hm. revert d r. induction p as [p IH|p IH|]; intros d r Hd Hr; cbn [SpecFloat.iter_pos].
  - replace (d + Zpos p~1) with (d + 1 + Zpos p + Zpos p) by lia.
    apply IH; [lia|]. apply IH; [lia|]. by apply shifted_next.
  - replace (d + Zpos p~0) with (d + Zpos p + Zpos p) by lia. apply IH; [lia|]. by apply IH.
  - by apply shifted_next.
Qed.

Lemma shr_shifted m e n :
  0 ≤ m → ∃ r, shr (shr_record_of_loc m loc_Exact) e n = (r, e + Z.max n 0) ∧ shifted m (Z.max n 0) r.
Proof.
  intros Hm. assert (shifted m 0 (shr_record_of_loc m loc_Exact)) as H0
    by (split; [cbn; by rewrite Z.div_1_r|done]).
  destruct n as [|p|p]; cbn [shr]; eexists.
  - split; [|exact H0]. do 2 f_equal. lia.
  - split; [done|]. by apply (iter_pos_shifted p m 0).
  - split; [|exact H0]. do 2 f_equal. lia.
Qed.

(** Rounding takes the quotient or the next number, and the quotient when
    nothing was shifted out. *)
Lemma round_nearest_even_faithful m d r :
  0 ≤ m → 0 ≤ d → shifted m d r →
  let m' := round_nearest_even (shr_m r) (loc_of_shr_record r) in
  (m' = m / 2 ^ d) ∨ (m' = m / 2 ^ d + 1 ∧ m mod 2 ^ d ≠ 0).
Proof.
  intros Hm Hd [Hr Hf]. destruct r as [q rb sb]. cbn in *. subst q.
  destruct (decide (m mod 2 ^ d = 0)) as [H0|Hn0].
  - destruct (Hf H0) as [-> ->]. by left.
  - destruct rb, sb; cbn; auto. destruct (Z.even (m / 2 ^ d)); auto.
Qed.

(** ** Rounding *)

Lemma pow2_split a b : 0 ≤ a → 0 ≤ b → 2 ^ (a + b) = 2 ^ a * 2 ^ b.
Proof. intros. by apply Z.pow_add_r. Qed.

(** [v] is on the same side of every representable number as [x]; both count
    units of 2^-s. *)
Definition faithful (s x v : Z) : Prop :=
  ∀ n k, 0 ≤ n ≤ 2 ^ 53 → d_emin ≤ k →
    (x ≤ n * 2 ^ (k + s) → v ≤ n * 2 ^ (k + s)) ∧ (n * 2 ^ (k + s) ≤ x → n * 2 ^ (k + s) ≤ v).

Lemma faithful_refl s x : faithful s x x.
Proof. done. Qed.

Lemma quot_faithful m P N m1 :
  0 < P → m1 = m / P ∨ m1 = m / P + 1 ∧ m mod P ≠ 0 → (m ≤ N * P → m1 ≤ N) ∧ (N * P ≤ m → N ≤ m1).
Proof.
  intros HP Hm1. pose proof (Z.div_mod m P ltac:(lia)). pose proof (Z.mod_pos_bound m P HP).
  set (q := m / P) in *. set (r := m mod P) in *. split; intros Hle.
  - assert (q ≤ N) by nia. destruct Hm1 as [->|[-> Hr]]; [done|]. enough (q ≠ N) by lia. intros ->. lia.
  - assert (N < q + 1) by nia. lia.
Qed.

(** The first shift: to at most 53 digits, or to the least exponent. *)
Lemma round_once m e r d :
  0 < m → d = Z.max (d_fexp (Zdigits2 m + e) - e) 0 → shifted m d r →
  let m1 := round_nearest_even (shr_m r) (loc_of_shr_record r) in
  0 ≤ m1 ≤ 2 ^ 53 ∧ d_emin ≤ e + d ∧ (e + d = d_emin ∨ d = 0 ∨ 2 ^ 52 ≤ m1) ∧
  ∀ s, 0 ≤ e + s → 1074 ≤ s → faithful s (m * 2 ^ (e + s)) (m1 * 2 ^ (e + d + s)).
Proof.
  intros Hm Hd Hr m1. pose proof (Zdigits2_bounds m Hm) as Hdig. set (D := Zdigits2 m) in *.
  assert (0 < D) as HD by (unfold D; destruct m; cbn; lia).
  change (d_fexp (D + e)) with (Z.max (D + e - 53) (-1074)) in Hd.
  pose proof (pow2_pos d ltac:(lia)) as Hpd.
  pose proof (Z.div_mod m (2 ^ d) ltac:(lia)) as Hdm. pose proof (Z.mod_pos_bound m (2 ^ d) ltac:(lia)) as Hmod.
  assert (m / 2 ^ d < 2 ^ 53) as Hq.
  { apply Z.div_lt_upper_bound; [lia|]. rewrite <- pow2_split by lia.
    assert (2 ^ D ≤ 2 ^ (d + 53)) by (apply Z.pow_le_mono_r; lia). lia. }
  assert (0 ≤ m / 2 ^ d) by (apply Z.div_pos; lia).
  assert (e + d = -1074 ∨ d = 0 ∨ 2 ^ 52 ≤ m / 2 ^ d) as Hnorm.
  { destruct (decide (d = 0)); [auto|]. destruct (decide (e + d = -1074)); [auto|]. right. right.
    apply Z.div_le_lower_bound; [lia|]. rewrite <- pow2_split by lia.
    replace (d + 52) with (D - 1) by lia. lia. }
  assert (m1 = m / 2 ^ d ∨ m1 = m / 2 ^ d + 1 ∧ m mod 2 ^ d ≠ 0) as Hm1.
  { apply (round_nearest_even_faithful m d r); [lia..|done]. }
  split_and!; [lia..|]. intros s Hes Hs n k Hn Hk.
  replace (e + d + s) with (d + (e + s)) by lia. rewrite (pow2_split d (e + s)) by lia.
  pose proof (pow2_pos (e + s) Hes) as HA. set (A := 2 ^ (e + s)) in *. set (q := m / 2 ^ d) in *.
  destruct (decide (e + d ≤ k)) as [Hke|Hke].
  - replace (k + s) with (k - (e + d) + (d + (e + s))) by lia. rewrite (pow2_split (k - (e + d))) by lia.
    rewrite (pow2_split d) by lia. fold A. set (N := n * 2 ^ (k - (e + d))).
    replace (n * (2 ^ (k - (e + d)) * (2 ^ d * A))) with (N * 2 ^ d * A) by (unfold N; ring).
    replace (m1 * (2 ^ d * A)) with (m1 * 2 ^ d * A) by ring. set (P := 2 ^ d) in *.
    destruct (quot_faithful m P N m1 Hpd Hm1) as [Hup Hlo].
    split; intros Hle%Z.mul_le_mono_pos_r; try done; apply Z.mul_le_mono_nonneg_r; try lia;
      apply Z.mul_le_mono_nonneg_r; auto with lia.
  - destruct Hnorm as [?|[->|Hnorm]]; [lia|..].
    + change (2 ^ 0) with 1 in *. rewrite Z.mul_1_l. destruct Hm1 as [->|[_ Hne]].
      * unfold q. rewrite Z.div_1_r. done.
      * by rewrite Z.mod_1_r in Hne.
    + assert (n * 2 ^ (k + s) ≤ 2 ^ 52 * (2 ^ d * A)) as Hy.
      { unfold A. rewrite <- pow2_split by lia. transitivity (2 ^ 53 * 2 ^ (k + s)); [pose proof (pow2_pos (k + s) ltac:(lia)); nia|].
        rewrite <- !pow2_split by lia. apply Z.pow_le_mono_r; lia. }
      set (P := 2 ^ d) in *. split; intros Hle; [|nia].
      assert (m ≤ 2 ^ 52 * P) by nia. assert (m mod P = 0 ∧ q = 2 ^ 52) as [Hz ->] by nia.
      destruct Hm1 as [->|[_ ?]]; [|done]. nia.
Qed.

Lemma round_twice m1 e1 :
  0 ≤ m1 ≤ 2 ^ 53 → d_emin ≤ e1 →
  ∃ r d2, shr_fexp d_prec d_emax m1 e1 loc_Exact = (r, e1 + d2) ∧ 0 ≤ d2 ∧ shr_m r * 2 ^ d2 = m1 ∧
    (d2 = 0 ∨ shr_m r = 2 ^ 52).
Proof.
  intros Hm He. unfold shr_fexp. destruct (shr_shifted m1 e1 (d_fexp (Zdigits2 m1 + e1) - e1)) as (r & -> & Hr & _); [lia|].
  exists r. eexists. split; [done|]. change (d_fexp (Zdigits2 m1 + e1)) with (Z.max (Zdigits2 m1 + e1 - 53) (-1074)) in *.
  destruct (decide (m1 = 2 ^ 53)) as [->|Hne].
  - change (Zdigits2 (2 ^ 53)) with 54 in *. replace (Z.max (Z.max (54 + e1 - 53) (-1074) - e1) 0) with 1 in * by lia.
    rewrite Hr. split; [lia|]. split; [done|by right].
  - assert (Zdigits2 m1 ≤ 53) by (apply Zdigits2_le; lia).
    replace (Z.max (Z.max (Zdigits2 m1 + e1 - 53) (-1074) - e1) 0) with 0 in * by lia.
    rewrite Hr. change (2 ^ 0) with 1. rewrite Z.div_1_r. split_and!; [lia..|by left].
Qed.

(** The result of rounding an exact value [m * 2^e]. *)
Definition rounded (sx : bool) (m e : Z) : spec_float :=
  match m with
  | Z0 => S754_zero sx
  | Zpos p => if e <=? 971 then S754_finite sx p e else S754_infinity sx
  | Zneg _ => S754_nan
  end.

Lemma binary_round_aux_faithful sx m e :
  0 < m →
  ∃ m' e', binary_round_aux d_prec d_emax sx m e loc_Exact = rounded sx m' e' ∧ 0 ≤ m' ∧ d_emin ≤ e' ∧
    (e' ≤ Z.max e (-1074) ∨ 2 ^ 52 ≤ m') ∧
    ∀ s, 0 ≤ e + s → 1074 ≤ s → faithful s (m * 2 ^ (e + s)) (m' * 2 ^ (e' + s)).
Proof.
  intros Hm. unfold binary_round_aux, shr_fexp at 1.
  destruct (shr_shifted m e (d_fexp (Zdigits2 m + e) - e)) as (r & -> & Hr); [lia|].
  destruct (round_once m e r _ Hm eq_refl Hr) as (Hm1 & He1 & Hnorm & Hf).
  set (d := Z.max (d_fexp (Zdigits2 m + e) - e) 0) in *.
  destruct (round_twice _ _ Hm1 He1) as (r2 & d2 & -> & Hd2 & Hv & Hn2).
  set (m1 := round_nearest_even (shr_m r) (loc_of_shr_record r)) in *.
  pose proof (pow2_pos d2 Hd2). exists (shr_m r2), (e + d + d2). split_and!; [done|nia|lia|..].
  - destruct Hn2 as [->| ->]; [|lia]. change (2 ^ 0) with 1 in Hv. lia.
  - intros s Hes Hs. replace (e + d + d2 + s) with (d2 + (e + d + s)) by lia.
    rewrite (pow2_split d2) by lia. rewrite Z.mul_assoc, Hv. by apply Hf.
Qed.

(** ** The operations on non-negative doubles *)

(** [x] is a non-negative double worth [v] units. *)
Definition worth (x : spec_float) (v : Z) : Prop :=
  match x with
  | S754_zero s => s = false ∧ v = 0
  | S754_finite s m e => s = false ∧ d_emin ≤ e ≤ 971 ∧ v = Zpos m * 2 ^ (e + 1074)
  | S754_infinity _ | S754_nan => False
  end.

Lemma worth_nonneg x v : worth x v → 0 ≤ v.
Proof.
  destruct x as [s|s| |s m e]; cbn; [lia|done..|]. intros (_ & He & ->).
  pose proof (pow2_pos (e + 1074) ltac:(lia)). lia.
Qed.

Lemma worth_units x v : worth x v → units x = Some v.
Proof.
  destruct x as [s|s| |s m e]; cbn; [by intros [_ ->]|done..|]. intros (-> & _ & ->).
  by rewrite Z.mul_1_l.
Qed.

(** A value that is at most 2^1023 is rounded to a double. *)
Lemma binary_round_aux_worth m e :
  0 < m → e ≤ 971 → -2148 ≤ e → m * 2 ^ (e + 2148) ≤ 2 ^ 53 * 2 ^ (970 + 2148) →
  ∃ v, worth (binary_round_aux d_prec d_emax false m e loc_Exact) v ∧
    faithful 2148 (m * 2 ^ (e + 2148)) (v * 2 ^ 1074).
Proof.
  intros Hm He He' Hle. destruct (binary_round_aux_faithful false m e Hm) as (m' & e' & -> & Hm' & Hmin & Hn & Hf).
  specialize (Hf 2148 ltac:(lia) ltac:(lia)).
  assert (e' ≤ 971) as He1.
  { destruct Hn as [?|Hn]; [lia|]. destruct (decide (e' ≤ 971)) as [|Hgt]; [done|exfalso].
    apply (Hf (2 ^ 53) 970) in Hle; [|lia..].
    assert (2 ^ 52 * 2 ^ (972 + 2148) ≤ m' * 2 ^ (e' + 2148)); [|lia].
    apply Z.mul_le_mono_nonneg; [lia..| |apply Z.pow_le_mono_r; lia]. apply Z.pow_nonneg. lia. }
  exists (m' * 2 ^ (e' + 1074)). split.
  - destruct m' as [|p|p]; cbn [rounded]; [done| |lia]. rewrite (proj2 (Z.leb_le _ _)) by done. cbn. lia.
  - rewrite <- Z.mul_assoc, <- pow2_split by lia. replace (e' + 1074 + 1074) with (e' + 2148) by lia. done.
Qed.

Lemma iter_xO m d : Zpos (Pos.iter xO m d) = Zpos m * 2 ^ Zpos d.
Proof.
  change (2 ^ Zpos d) with (Z.pow_pos 2 d). unfold Z.pow_pos. revert d. apply Pos.peano_ind; [cbn; lia|].
  intros d IH. rewrite !Pos.iter_succ, Pos2Z.inj_xO, IH. lia.
Qed.

Lemma shl_align_spec m e e' :
  (shl_align m e e').2 = Z.min e e' ∧
  ∀ s, 0 ≤ Z.min e e' + s → Zpos (shl_align m e e').1 * 2 ^ (Z.min e e' + s) = Zpos m * 2 ^ (e + s).
Proof.
  unfold shl_align. destruct (e' - e) as [|d|d] eqn:Hd; cbn; [split; [lia|]..|].
  - intros s Hs. by replace (Z.min e e') with e by lia.
  - intros s Hs. by replace (Z.min e e') with e by lia.
  - split; [lia|]. intros s Hs. rewrite iter_xO, <- Z.mul_assoc, <- pow2_split by lia. do 2 f_equal. lia.
Qed.

(** Refining the unit does not matter. *)
Lemma faithful_scale x v : faithful 2148 (x * 2 ^ 1074) (v * 2 ^ 1074) ↔ faithful 1074 x v.
Proof.
  assert (∀ n k, d_emin ≤ k → n * 2 ^ (k + 2148) = n * 2 ^ (k + 1074) * 2 ^ 1074) as Hs.
  { intros n k Hk. rewrite <- Z.mul_assoc, <- pow2_split by lia. do 2 f_equal. lia. }
  unfold faithful. split; intros Hf n k Hn Hk; specialize (Hf n k Hn Hk); rewrite Hs in * by done;
    rewrite <- !Z.mul_le_mono_pos_r in * by done; done.
Qed.

(** The largest exact results considered: 2^1023. *)
Definition max_units : Z := 2 ^ 53 * 2 ^ (970 + 1074).

Lemma binary_normalize_worth m e :
  0 ≤ m → d_emin ≤ e ≤ 971 → m * 2 ^ (e + 1074) ≤ max_units →
  ∃ v, worth (binary_normalize d_prec d_emax m e false) v ∧ faithful 1074 (m * 2 ^ (e + 1074)) v.
Proof.
  intros Hm He Hle. destruct m as [|p|p]; [by exists 0| |lia]. cbn [binary_normalize]. unfold binary_round.
  destruct (shl_align_spec p e (d_fexp (Zpos (digits2_pos p) + e))) as [H2 Hv].
  destruct (shl_align p e _) as [p' e']. cbn [fst snd] in *.
  change (d_fexp (Zpos (digits2_pos p) + e)) with (Z.max (Zpos (digits2_pos p) + e - 53) (-1074)) in *.
  rewrite <- H2 in Hv. assert (-1074 ≤ e' ≤ 971) by lia.
  specialize (Hv 1074 ltac:(lia)). rewrite <- Hv in Hle |- *.
  assert (Zpos p' * 2 ^ (e' + 2148) = Zpos p' * 2 ^ (e' + 1074) * 2 ^ 1074) as Hs.
  { rewrite <- Z.mul_assoc, <- pow2_split by lia. do 2 f_equal. lia. }
  destruct (binary_round_aux_worth (Zpos p') e') as (v & Hw & Hf); [lia..| |].
  - rewrite Hs. apply (Z.mul_le_mono_nonneg_r _ _ (2 ^ 1074)) in Hle; [|done].
    etransitivity; [exact Hle|]. unfold max_units. vm_compute. discriminate.
  - exists v. split; [done|]. rewrite Hs in Hf. by apply faithful_scale.
Qed.

(** The arguments of a sum or difference, at their smaller exponent. *)
Lemma align_worth m1 e1 m2 e2 :
  d_emin ≤ e1 ≤ 971 → d_emin ≤ e2 ≤ 971 →
  let ez := Z.min e1 e2 in
  d_emin ≤ ez ≤ 971 ∧
  Zpos (shl_align m1 e1 ez).1 * 2 ^ (ez + 1074) = Zpos m1 * 2 ^ (e1 + 1074) ∧
  Zpos (shl_align m2 e2 ez).1 * 2 ^ (ez + 1074) = Zpos m2 * 2 ^ (e2 + 1074).
Proof.
  intros H1 H2 ez. split; [lia|].
  destruct (shl_align_spec m1 e1 ez) as [_ Ha]. destruct (shl_align_spec m2 e2 ez) as [_ Hb].
  replace (Z.min e1 ez) with ez in Ha by lia. replace (Z.min e2 ez) with ez in Hb by lia.
  split; [apply Ha|apply Hb]; lia.
Qed.

Lemma SFadd_worth x y a b :
  worth x a → worth y b → a + b ≤ max_units →
  ∃ v, worth (SFadd d_prec d_emax x y) v ∧ faithful 1074 (a + b) v.
Proof.
  intros Hx Hy Hle. destruct x as [s|s| |s m e], y as [s'|s'| |s' m' e']; try done.
  - destruct Hx as [-> ->], Hy as [-> ->]. by exists 0.
  - destruct Hx as [-> ->]. exists b. by rewrite Z.add_0_l.
  - destruct Hy as [-> ->]. exists a. by rewrite Z.add_0_r.
  - destruct Hx as (-> & He & ->), Hy as (-> & He' & ->). cbn [SFadd cond_Zopp].
    destruct (align_worth m e m' e' He He') as (Hez & Ha & Hb). rewrite <- Ha, <- Hb, <- Z.mul_add_distr_r in Hle |- *.
    apply binary_normalize_worth; [lia|done|done].
Qed.

Lemma SFsub_worth x y a b :
  worth x a → worth y b → b ≤ a → a ≤ max_units →
  ∃ v, worth (SFsub d_prec d_emax x y) v ∧ faithful 1074 (a - b) v.
Proof.
  intros Hx Hy Hba Hle. pose proof (worth_nonneg _ _ Hy) as Hb0.
  destruct x as [s|s| |s m e], y as [s'|s'| |s' m' e']; try done.
  - destruct Hx as [-> ->], Hy as [-> ->]. by exists 0.
  - destruct Hx as [-> ->], Hy as (_ & He & ->). pose proof (pow2_pos (e' + 1074) ltac:(lia)). lia.
  - destruct Hy as [-> ->]. exists a. by rewrite Z.sub_0_r.
  - destruct Hx as (-> & He & ->), Hy as (-> & He' & ->). cbn [SFsub cond_Zopp].
    destruct (align_worth m e m' e' He He') as (Hez & Ha & Hb). rewrite <- Ha in Hba, Hle |- *.
    rewrite <- Hb in Hba, Hb0 |- *. rewrite <- Z.mul_sub_distr_r.
    pose proof (pow2_pos (Z.min e e' + 1074) ltac:(lia)).
    apply binary_normalize_worth; [nia|done|nia].
Qed.

(** Multiplication by a ratio of at most one. *)
Lemma SFmul_worth x y a b :
  worth x a → worth y b → a ≤ max_units → b ≤ unit_one →
  ∃ v, worth (SFmul d_prec d_emax x y) v ∧ faithful 2148 (a * b) (v * 2 ^ 1074).
Proof.
  intros Hx Hy Ha Hb. destruct x as [s|s| |s m e], y as [s'|s'| |s' m' e']; try done.
  - destruct Hx as [-> ->], Hy as [-> ->]. by exists 0.
  - destruct Hx as [-> ->], Hy as [-> _]. by exists 0.
  - destruct Hx as [-> _], Hy as [-> ->]. exists 0. rewrite Z.mul_0_r. done.
  - pose proof (worth_nonneg _ _ Hy) as Hb0.
    destruct Hx as (-> & He & ->), Hy as (-> & He' & Hb'). cbn [SFmul xorb]. rewrite Pos2Z.inj_mul.
    assert (e' ≤ 0).
    { destruct (decide (e' ≤ 0)); [done|exfalso]. assert (2 ^ 1075 ≤ 2 ^ (e' + 1074)) by (apply Z.pow_le_mono_r; lia).
      unfold unit_one in Hb. change (2 ^ 1075) with (2 * 2 ^ 1074) in *.
      assert (0 < 2 ^ 1074) by done. nia. }
    assert (Zpos m * Zpos m' * 2 ^ (e + e' + 2148) = Zpos m * 2 ^ (e + 1074) * b) as Hs.
    { rewrite Hb'. replace (e + e' + 2148) with ((e + 1074) + (e' + 1074)) by lia. rewrite pow2_split by lia. ring. }
    destruct (binary_round_aux_worth (Zpos m * Zpos m') (e + e')) as (v & Hw & Hf); [lia..| |].
    + rewrite Hs. transitivity (max_units * unit_one); [|vm_compute; discriminate].
      apply Z.mul_le_mono_nonneg; lia.
    + exists v. split; [done|]. by rewrite Hs in Hf.
Qed.
