(* ===== verification/Json.v ===== *)
(** * The JSON library

    nlohmann::json is not part of the repository: it is a parameter of the
    model.  [JsonLib] lists the operations the program calls, [JsonLaws] the
    documented behaviour it relies on. *)

From Stdlib Require Export SpecFloat.
From S2P Require Import Prelude.

Class JsonLib := {
  json : Type;
  (** [json::parse]; [None] is a thrown [json::exception] *)
  json_parse : string → option json;
  (** [stream >> json]; [inr] is a thrown [json::exception] and its [what()] *)
  json_read : string → json + string;
  is_object : json → bool;
  is_array : json → bool;
  is_string : json → bool;
  is_boolean : json → bool;
  is_number : json → bool;
  is_number_unsigned : json → bool;
  (** the value of a key, when [contains] it *)
  json_lookup : json → string → option json;
  (** the elements a range-based [for] visits *)
  json_elements : json → list json;
  (** [get<T>()]; [None] is a thrown [json::type_error] *)
  get_string : json → option string;
  get_u64 : json → option Z;
  get_bool : json → option bool;
  get_double : json → option spec_float
}.

Class JsonLaws (J : JsonLib) : Prop := {
  get_string_typed j : is_string j = true → is_Some (get_string j);
  get_u64_typed j : is_number_unsigned j = true → ∃ n, get_u64 j = Some n ∧ in_u64 n;
  get_bool_typed j : is_boolean j = true → is_Some (get_bool j);
  get_double_typed j : is_number j = true → is_Some (get_double j)
}.

Section json.
Context `{J : JsonLib}.

Definition contains (j : json) (key : string) : bool := bool_decide (is_Some (json_lookup j key)).

(** [j[key]] on a constant value; undefined when the key is missing. *)
Definition json_at (j : json) (key : string) : outcome json :=
  match json_lookup j key with
  | Some v => Ret v
  | None => Undef
  end.

(** [get<T>()] as a call that may throw. *)
Definition json_get {A} (get : json → option A) (j : json) : outcome A :=
  match get j with
  | Some a => Ret a
  | None => Throw (JsonException "type_error")
  end.

(** [j.contains(key) && j[key].is_T()] *)
Definition field_is (test : json → bool) (j : json) (key : string) : bool :=
  match json_lookup j key with
  | Some v => test v
  | None => false
  end.

Lemma field_is_true test j key :
  field_is test j key = true ↔ ∃ v, json_lookup j key = Some v ∧ test v = true.
Proof. unfold field_is. destruct (json_lookup j key); naive_solver. Qed.
End json.
