(* ===== verification/JsonRef.v ===== *)
(** * A JSON implementation

    A concrete instance of [JsonLib]: syntax trees and a recursive-descent
    parser for the subset of JSON that occurs in the program's inputs (no
    [\u] escapes, no exponents).  It shows that the laws assumed of the JSON
    library can hold, and lets the examples run on literal messages. *)

From S2P Require Import Prelude CString Json.

Inductive jval :=
  | JNull
  | JBool (b : bool)
  | JUnsigned (n : Z)
  | JInteger (n : Z)
  | JFloat (f : spec_float)
  | JString (s : string)
  | JArray (l : list jval)
  | JObject (l : list (string * jval)).

(** ** The parser *)

Module JsonText.

Definition is_ws (c : ascii) : bool := bool_decide (code c ∈ [9; 10; 13; 32]).

Fixpoint skip_ws (s : string) : string :=
  match s with
  | String c r => if is_ws c then skip_ws r else s
  | "" => ""
  end.

(** The rest of the text after an expected character. *)
Definition expect (c : ascii) (s : string) : option string :=
  match skip_ws s with
  | String c' r => if bool_decide (c' = c) then Some r else None
  | "" => None
  end.

Fixpoint expect_word (w s : string) : option string :=
  match w, s with
  | "", _ => Some s
  | String c w, String c' s => if bool_decide (c = c') then expect_word w s else None
  | _, _ => None
  end.

(** The characters of a string literal up to its closing quote. *)
Fixpoint lit_chars (s : string) : option (string * string) :=
  match s with
  | "" => None
  | String c r =>
      if bool_decide (code c = 34) then Some ("", r)
      else if bool_decide (code c = 92) then
        match r with
        | String e r => '(t, r) ← lit_chars r; Some (String e t, r)
        | "" => None
        end
      else '(t, r) ← lit_chars r; Some (String c t, r)
  end.

Fixpoint digits_of (s : string) : string * string :=
  match s with
  | String c r => if isdigit c then let '(d, r) := digits_of r in (String c d, r) else ("", s)
  | "" => ("", "")
  end.

Definition double_of_ratio (num den : Z) : spec_float :=
  SFdiv 53 1024 (binary_normalize 53 1024 num 0 false) (binary_normalize 53 1024 den 0 false).

Definition number (neg : bool) (s : string) : option (jval * string) :=
  let '(ip, r) := digits_of s in
  if bool_decide (ip = "") then None else
  match r with
  | String "." r =>
      let '(fp, r) := digits_of r in
      if bool_decide (fp = "") then None else
      let n := dec_value (dec_value 0 ip) fp in
      Some (JFloat (double_of_ratio (if neg then - n else n) (10 ^ slen fp)), r)
  | _ =>
      let n := dec_value 0 ip in
      Some (if neg then JInteger (- n)
            else if decide (in_u64 n) then JUnsigned n else JFloat (double_of_ratio n 1), r)
  end.

Fixpoint value (fuel : nat) (s : string) : option (jval * string) :=
  match fuel with
  | O => None
  | S fuel =>
      match skip_ws s with
      | "" => None
      | String c r =>
          if bool_decide (code c = 123) then
            match expect "}" r with
            | Some r => Some (JObject [], r)
            | None => '(ms, r) ← members fuel r; Some (JObject ms, r)
            end
          else if bool_decide (code c = 91) then
            match expect "]" r with
            | Some r => Some (JArray [], r)
            | None => '(vs, r) ← elements fuel r; Some (JArray vs, r)
            end
          else if bool_decide (code c = 34) then '(t, r) ← lit_chars r; Some (JString t, r)
          else if bool_decide (c = "t"%char) then r ← expect_word "rue" r; Some (JBool true, r)
          else if bool_decide (c = "f"%char) then r ← expect_word "alse" r; Some (JBool false, r)
          else if bool_decide (c = "n"%char) then r ← expect_word "ull" r; Some (JNull, r)
          else if bool_decide (c = "-"%char) then number true r
          else number false (String c r)
      end
  end
with members (fuel : nat) (s : string) : option (list (string * jval) * string) :=
  match fuel with
  | O => None
  | S fuel =>
      r ← expect (char_of 34) s;
      '(k, r) ← lit_chars r;
      r ← expect ":" r;
      '(v, r) ← value fuel r;
      match expect "," r with
      | Some r => '(ms, r) ← members fuel r; Some ((k, v) :: ms, r)
      | None => r ← expect "}" r; Some ([(k, v)], r)
      end
  end
with elements (fuel : nat) (s : string) : option (list jval * string) :=
  match fuel with
  | O => None
  | S fuel =>
      '(v, r) ← value fuel s;
      match expect "," r with
      | Some r => '(vs, r) ← elements fuel r; Some (v :: vs, r)
      | None => r ← expect "]" r; Some ([v], r)
      end
  end.

End JsonText.

(** Every level of the descent consumes a character, so the length of the
    text is enough fuel. *)
Definition ref_parse (s : string) : option jval :=
  '(v, r) ← JsonText.value (S (String.length s)) s;
  if bool_decide (JsonText.skip_ws r = "") then Some v else None.

(** Reading from a stream takes one value and leaves the rest. *)
Definition ref_read (s : string) : jval + string :=
  match JsonText.value (S (String.length s)) s with
  | Some (v, _) => inl v
  | None => inr "parse error"
  end.

(** The last value of a repeated key is the one kept. *)
Definition ref_lookup (j : jval) (key : string) : option jval :=
  match j with
  | JObject ms => snd <$> List.find (λ kv, bool_decide (kv.1 = key)) (rev ms)
  | _ => None
  end.

#[export] Instance ref_json : JsonLib := {|
  json := jval;
  json_parse := ref_parse;
  json_read := ref_read;
  is_object j := match j with JObject _ => true | _ => false end;
  is_array j := match j with JArray _ => true | _ => false end;
  is_string j := match j with JString _ => true | _ => false end;
  is_boolean j := match j with JBool _ => true | _ => false end;
  is_number j := match j with JUnsigned _ | JInteger _ | JFloat _ => true | _ => false end;
  is_number_unsigned j := match j with JUnsigned n => bool_decide (in_u64 n) | _ => false end;
  json_lookup := ref_lookup;
  json_elements j := match j with JArray l => l | _ => [] end;
  get_string j := match j with JString s => Some s | _ => None end;
  get_u64 j := match j with JUnsigned n => Some n | _ => None end;
  get_bool j := match j with JBool b => Some b | _ => None end;
  get_double j :=
    match j with
    | JUnsigned n | JInteger n => Some (JsonText.double_of_ratio n 1)
    | JFloat f => Some f
    | _ => None
    end
|}.

#[export] Instance ref_json_laws : JsonLaws ref_json.
Proof.
  split; intros []; cbn; try done; intros; eauto.
  exists n. split; [done|]. by apply bool_decide_eq_true in H.
Qed.

(** A character that cannot be written in a literal without escaping. *)
Definition quote : string := String (char_of 34) "".

(** Single quotes of a template become the double quotes of JSON. *)
Definition jtext (s : string) : string :=
  string_map (λ c, if bool_decide (c = "'"%char) then char_of 34 else c) s.
