(* ===== verification/TradeParser.v ===== *)
(** * [BinanceTradeParser]

    app/src/parse/BinanceTradeParser.cpp, over the JSON interface. *)

From S2P Require Import Prelude CString DecimalFp StdMap Aggregator Json JsonRef.

Section parser.
Context `{J : JsonLib}.

Definition unwrap_payload (root : json) : json :=
  match json_lookup root "data" with
  | Some data => data
  | None => root
  end.

Definition has_required_fields (payload : json) : bool :=
  field_is is_string payload "s" && field_is is_number_unsigned payload "t" &&
  field_is is_string payload "p" && field_is is_string payload "q" &&
  field_is is_number_unsigned payload "T" && field_is is_boolean payload "m".

Definition is_unsupported_event_type (payload : json) : outcome bool :=
  if field_is is_string payload "e" then
    v ← json_at payload "e";
    e ← json_get get_string v;
    Ret (negb (bool_decide (e = "trade")))
  else Ret false.

(** The [try] block around the two decimals: [std::invalid_argument] is
    caught, anything else escapes. *)
Definition parse_decimals (p q : string) : outcome (option (Decimal * Decimal)) :=
  match (price ← DecimalFp.parse p; quantity ← DecimalFp.parse q; Ret (price, quantity)) with
  | Ret pq => Ret (Some pq)
  | Throw (InvalidArgument _) => Ret None
  | Throw e => Throw e
  | Undef => Undef
  end.

(** The conversion of a checked payload. *)
Definition read_event (payload : json) : outcome (option TradeEvent) :=
  symbol ← (v ← json_at payload "s"; json_get get_string v);
  trade_id ← (v ← json_at payload "t"; json_get get_u64 v);
  trade_time_ms ← (v ← json_at payload "T"; json_get get_u64 v);
  buyer_is_maker ← (v ← json_at payload "m"; json_get get_bool v);
  p ← (v ← json_at payload "p"; json_get get_string v);
  q ← (v ← json_at payload "q"; json_get get_string v);
  decimals ← parse_decimals p q;
  Ret (match decimals with
       | None => None
       | Some (price, quantity) =>
           Some {| te_symbol := symbol; te_trade_id := trade_id; te_price := price;
                   te_quantity := quantity; te_trade_time_ms := trade_time_ms;
                   te_buyer_is_maker := buyer_is_maker |}
       end).

Definition parse_trade (raw_message : string) : outcome (option TradeEvent) :=
  match json_parse raw_message with
  | None => Ret None
  | Some root =>
      if negb (is_object root) then Ret None else
      let payload := unwrap_payload root in
      if negb (is_object payload) then Ret None else
      unsupported ← is_unsupported_event_type payload;
      if unsupported || negb (has_required_fields payload) then Ret None
      else read_event payload
  end.

(** ** Lemmas *)

Context `{!JsonLaws J}.

Lemma read_string payload key :
  field_is is_string payload key = true →
  ∃ v s, json_lookup payload key = Some v ∧ get_string v = Some s ∧
    (v ← json_at payload key; json_get get_string v) = Ret s.
Proof.
  intros (v & Hl & Hv)%field_is_true. destruct (get_string_typed v Hv) as [s Hs].
  exists v, s. unfold json_at, json_get. rewrite Hl. cbn. by rewrite Hs.
Qed.

Lemma read_u64 payload key :
  field_is is_number_unsigned payload key = true →
  ∃ v n, json_lookup payload key = Some v ∧ get_u64 v = Some n ∧ in_u64 n ∧
    (v ← json_at payload key; json_get get_u64 v) = Ret n.
Proof.
  intros (v & Hl & Hv)%field_is_true. destruct (get_u64_typed v Hv) as (n & Hn & Hr).
  exists v, n. unfold json_at, json_get. rewrite Hl. cbn. by rewrite Hn.
Qed.

Lemma read_bool payload key :
  field_is is_boolean payload key = true →
  ∃ v b, json_lookup payload key = Some v ∧ get_bool v = Some b ∧
    (v ← json_at payload key; json_get get_bool v) = Ret b.
Proof.
  intros (v & Hl & Hv)%field_is_true. destruct (get_bool_typed v Hv) as [b Hb].
  exists v, b. unfold json_at, json_get. rewrite Hl. cbn. by rewrite Hb.
Qed.

(** The value of a field. *)
Definition field {A} (get : json → option A) (payload : json) (key : string) : option A :=
  json_lookup payload key ≫= get.

(** The payload is a trade event, or does not say what it is. *)
Definition supported (payload : json) : bool :=
  negb (field_is is_string payload "e") || bool_decide (field get_string payload "e" = Some "trade").

Lemma is_unsupported_spec payload :
  is_unsupported_event_type payload = Ret (negb (supported payload)).
Proof.
  unfold is_unsupported_event_type, supported.
  destruct (field_is is_string payload "e") eqn:He; [|done]. cbn [negb orb].
  destruct (read_string payload "e" He) as (v & s & Hl & Hs & _).
  unfold json_at, json_get, field. rewrite Hl. cbn. rewrite Hs. cbn.
  f_equal. f_equal. apply bool_decide_ext. naive_solver.
Qed.

Lemma parse_decimals_spec p q :
  match parse_decimals p q with
  | Ret (Some (price, quantity)) => DecimalFp.parse p = Ret price ∧ DecimalFp.parse q = Ret quantity
  | Ret None => (∃ e, DecimalFp.parse p = Throw e) ∨ (∃ e, DecimalFp.parse q = Throw e)
  | Throw _ => False
  | Undef => DecimalFp.parse p = Undef ∨ DecimalFp.parse q = Undef
  end.
Proof.
  unfold parse_decimals.
  pose proof (parse_throws p) as Hp. pose proof (parse_throws q) as Hq.
  destruct (DecimalFp.parse p) as [pr|e|] eqn:Ep; cbn; [|destruct Hp as [? ->]; eauto|auto].
  destruct (DecimalFp.parse q) as [qu|e|] eqn:Eq; cbn; [done|destruct Hq as [? ->]; eauto|auto].
Qed.

(** What the checked payload is turned into. *)
Definition event_of (payload : json) (ev : TradeEvent) : Prop :=
  field get_string payload "s" = Some (te_symbol ev) ∧
  field get_u64 payload "t" = Some (te_trade_id ev) ∧
  field get_u64 payload "T" = Some (te_trade_time_ms ev) ∧
  field get_bool payload "m" = Some (te_buyer_is_maker ev) ∧
  (∃ p, field get_string payload "p" = Some p ∧ DecimalFp.parse p = Ret (te_price ev)) ∧
  (∃ q, field get_string payload "q" = Some q ∧ DecimalFp.parse q = Ret (te_quantity ev)).

Lemma read_event_spec payload :
  has_required_fields payload = true →
  (∃ e, read_event payload = Ret e ∧ ∀ ev, e = Some ev ↔ event_of payload ev) ∨
  (read_event payload = Undef ∧ ∀ ev, ¬ event_of payload ev).
Proof.
  unfold has_required_fields. rewrite !andb_true_iff. intros [[[[[Hs Ht] Hp] Hq] HT] Hm].
  destruct (read_string _ _ Hs) as (vs & s & Ls & Gs & Es).
  destruct (read_u64 _ _ Ht) as (vt & t & Lt & Gt & _ & Et).
  destruct (read_u64 _ _ HT) as (vT & T & LT & GT & _ & ET).
  destruct (read_bool _ _ Hm) as (vm & m & Lm & Gm & Em).
  destruct (read_string _ _ Hp) as (vp & p & Lp & Gp & Ep).
  destruct (read_string _ _ Hq) as (vq & q & Lq & Gq & Eq).
  unfold read_event. rewrite Es, Et, ET, Em, Ep, Eq. cbn [mbind outcome_bind].
  unfold event_of, field. rewrite Ls, Lt, LT, Lm, Lp, Lq. cbn.
  rewrite Gs, Gt, GT, Gm, Gp, Gq.
  pose proof (parse_decimals_spec p q) as Hd. destruct (parse_decimals p q) as [[[pr qu]|]|e|]; cbn.
  - left. eexists; split; [done|]. intros [ ]; cbn. naive_solver congruence.
  - left. eexists; split; [done|]. naive_solver congruence.
  - done.
  - right. split; [done|]. naive_solver congruence.
Qed.

(** The checks of the code passed: the payload and the event. *)
Definition checked_message (raw_message : string) (payload : json) (ev : TradeEvent) : Prop :=
  ∃ root, json_parse raw_message = Some root ∧ is_object root = true ∧
    payload = unwrap_payload root ∧ is_object payload = true ∧ supported payload = true ∧
    has_required_fields payload = true ∧ event_of payload ev.

Lemma parse_trade_cases raw :
  parse_trade raw = Ret None ∨
  ∃ root, json_parse raw = Some root ∧ is_object root = true ∧
    is_object (unwrap_payload root) = true ∧ supported (unwrap_payload root) = true ∧
    has_required_fields (unwrap_payload root) = true ∧
    parse_trade raw = read_event (unwrap_payload root).
Proof.
  unfold parse_trade. destruct (json_parse raw) as [root|]; [|auto].
  destruct (is_object root) eqn:Ho; [cbn [negb]|auto].
  destruct (is_object (unwrap_payload root)) eqn:Hp; [cbn [negb]|auto].
  rewrite is_unsupported_spec. cbn [mbind outcome_bind].
  destruct (supported (unwrap_payload root)) eqn:Hs; cbn [negb orb]; [|auto].
  destruct (has_required_fields (unwrap_payload root)) eqn:Hr; cbn [negb]; [|auto].
  right. exists root. done.
Qed.

Lemma parse_trade_no_throw raw e : parse_trade raw ≠ Throw e.
Proof.
  destruct (parse_trade_cases raw) as [->|(root & _ & _ & _ & _ & Hr & ->)]; [done|].
  destruct (read_event_spec _ Hr) as [(x & -> & _)|[-> _]]; done.
Qed.

Lemma parse_trade_Some raw ev :
  parse_trade raw = Ret (Some ev) ↔ ∃ payload, checked_message raw payload ev.
Proof.
  split.
  - destruct (parse_trade_cases raw) as [->|(root & ? & ? & ? & ? & Hr & ->)]; [done|].
    intros Hret. exists (unwrap_payload root), root. split_and!; [done..|].
    destruct (read_event_spec _ Hr) as [(x & Hx & Hev)|[Hx _]]; rewrite Hx in Hret; [|done].
    apply Hev. by apply Ret_inj in Hret.
  - intros (payload & root & Hj & Ho & -> & Hp & Hs & Hr & Hev).
    unfold parse_trade. rewrite Hj, Ho, Hp. cbn [negb].
    rewrite is_unsupported_spec, Hs, Hr. cbn.
    destruct (read_event_spec _ Hr) as [(x & -> & Hx)|[_ Hx]]; [|by apply Hx in Hev].
    f_equal. by apply Hx.
Qed.

Lemma parse_trade_ranges raw ev :
  parse_trade raw = Ret (Some ev) →
  in_u64 (te_trade_id ev) ∧ in_u64 (te_trade_time_ms ev) ∧
  in_i64 (DecimalFp.raw (te_price ev)) ∧ in_i64 (DecimalFp.raw (te_quantity ev)).
Proof.
  intros (payload & root & _ & _ & _ & _ & _ & Hr & Hev)%parse_trade_Some.
  destruct Hev as (_ & Ht & HT & _ & (p & _ & Hp) & (q & _ & Hq)).
  unfold has_required_fields in Hr. rewrite !andb_true_iff in Hr.
  destruct Hr as [[[[[_ Rt] _] _] RT] _].
  destruct (read_u64 _ _ Rt) as (vt & t & Lt & Gt & Ut & _).
  destruct (read_u64 _ _ RT) as (vT & T & LT & GT & UT & _).
  unfold field in Ht, HT. rewrite Lt in Ht. rewrite LT in HT. cbn in Ht, HT.
  split_and!; [congruence|congruence|by apply parse_in_i64 in Hp|by apply parse_in_i64 in Hq].
Qed.

(** ** The messages that carry a trade *)

(** The object that carries the event: what a combined stream wraps under
    ["data"], or the message itself. *)
Inductive carries (root : json) : json → Prop :=
  | carries_wrapped data : json_lookup root "data" = Some data → carries root data
  | carries_bare : json_lookup root "data" = None → carries root root.

(** The key is there, its value has the JSON type and converts to [x]. *)
Definition has_field {A} (type : json → bool) (get : json → option A) (payload : json) (key : string) (x : A) : Prop :=
  ∃ v, json_lookup payload key = Some v ∧ type v = true ∧ get v = Some x.

(** A decimal is a string that is a literal with that value. *)
Definition has_decimal (payload : json) (key : string) (d : Decimal) : Prop :=
  ∃ text, has_field is_string get_string payload key text ∧ denotes text d.

Record trade_message (raw : string) (ev : TradeEvent) : Prop := {
  tm_payload : ∃ root payload, json_parse raw = Some root ∧ is_object root = true ∧ carries root payload ∧
    is_object payload = true ∧
    (∀ name, has_field is_string get_string payload "e" name → name = "trade") ∧
    has_field is_string get_string payload "s" (te_symbol ev) ∧
    has_field is_number_unsigned get_u64 payload "t" (te_trade_id ev) ∧
    has_field is_number_unsigned get_u64 payload "T" (te_trade_time_ms ev) ∧
    has_field is_boolean get_bool payload "m" (te_buyer_is_maker ev) ∧
    has_decimal payload "p" (te_price ev) ∧ has_decimal payload "q" (te_quantity ev)
}.

Lemma carries_unwrap root payload : carries root payload ↔ payload = unwrap_payload root.
Proof.
  unfold unwrap_payload. split; [by intros [data ->| ->]|]. intros ->.
  destruct (json_lookup root "data") eqn:Hd; by constructor.
Qed.

Lemma has_field_iff {A} type (get : json → option A) payload key x :
  has_field type get payload key x ↔ field_is type payload key = true ∧ field get payload key = Some x.
Proof.
  unfold has_field, field_is, field. destruct (json_lookup payload key); cbn; naive_solver.
Qed.

Lemma has_decimal_iff payload key d :
  has_decimal payload key d ↔
  field_is is_string payload key = true ∧ ∃ p, field get_string payload key = Some p ∧ DecimalFp.parse p = Ret d.
Proof. unfold has_decimal. setoid_rewrite has_field_iff. setoid_rewrite parse_denotes. naive_solver. Qed.

Lemma supported_iff payload :
  supported payload = true ↔ ∀ name, has_field is_string get_string payload "e" name → name = "trade".
Proof.
  unfold supported. setoid_rewrite has_field_iff. destruct (field_is is_string payload "e") eqn:He; cbn; [|naive_solver].
  rewrite bool_decide_eq_true. destruct (read_string payload "e" He) as (v & s & Hl & Hs & _).
  unfold field. rewrite Hl. cbn. rewrite Hs. naive_solver.
Qed.

Lemma checked_message_iff raw ev : (∃ payload, checked_message raw payload ev) ↔ trade_message raw ev.
Proof.
  unfold checked_message, has_required_fields, event_of. setoid_rewrite andb_true_iff.
  setoid_rewrite andb_true_iff. setoid_rewrite andb_true_iff. setoid_rewrite andb_true_iff. setoid_rewrite andb_true_iff.
  setoid_rewrite supported_iff. split.
  - intros (payload & root & Hj & Ho & Hu & Hrest). split. exists root, payload.
    rewrite carries_unwrap, !has_field_iff, !has_decimal_iff. naive_solver.
  - intros [(root & payload & Hj & Ho & Hu%carries_unwrap & Hrest)]. exists payload, root.
    rewrite !has_field_iff, !has_decimal_iff in Hrest. naive_solver.
Qed.

(** ** Properties *)

(** C21: the parser returns an event exactly for the messages that carry a
    trade ([trade_message]): JSON objects that are, or hold under ["data"], an
    object whose ["e"], if it is a string, is ["trade"], and that has a string
    ["s"], unsigned numbers ["t"] and ["T"], a boolean ["m"] and strings ["p"]
    and ["q"] that are decimal literals; the event has the values of those
    fields, the price and the quantity the exact ones. *)
Theorem parse_trade_accepts raw ev : parse_trade raw = Ret (Some ev) ↔ trade_message raw ev.
Proof. rewrite parse_trade_Some. apply checked_message_iff. Qed.

(** A message never makes the parser throw: every exception of the JSON
    library and of [Decimal::parse] is avoided or caught.  The outcome is an
    event with all its numbers in range, [nullopt], or overflow of a price
    or quantity. *)
Theorem parse_trade_never_throws raw :
  match parse_trade raw with
  | Ret (Some ev) =>
      in_u64 (te_trade_id ev) ∧ in_u64 (te_trade_time_ms ev) ∧
      in_i64 (DecimalFp.raw (te_price ev)) ∧ in_i64 (DecimalFp.raw (te_quantity ev))
  | Ret None | Undef => True
  | Throw _ => False
  end.
Proof.
  destruct (parse_trade raw) as [[ev|]|e|] eqn:H; [|done| |done].
  - by apply (parse_trade_ranges raw).
  - by apply parse_trade_no_throw in H.
Qed.

(** The combined-stream envelope is transparent: a message whose
    ["data"] is an object without its own ["data"] key parses like that
    object sent on its own. *)
Theorem parse_trade_envelope wrapped bare root payload :
  json_parse wrapped = Some root → is_object root = true →
  json_lookup root "data" = Some payload → json_parse bare = Some payload →
  is_object payload = true → json_lookup payload "data" = None →
  parse_trade wrapped = parse_trade bare.
Proof.
  intros Hw Ho Hd Hb Hp Hn. unfold parse_trade. rewrite Hw, Hb, Ho, Hp. cbn [negb].
  unfold unwrap_payload. by rewrite Hd, Hn, Hp.
Qed.
End parser.

(** ** Evaluated examples *)

Definition bare_message : string :=
  jtext "{'e':'trade','s':'ETHUSDT','t':1,'p':'10.0','q':'5.0','T':1300,'m':false}".
Definition wrapped_message : string :=
  jtext "{'stream':'ethusdt@trade','data':{'e':'trade','s':'ETHUSDT','t':1,'p':'10.0','q':'5.0','T':1300,'m':false}}".

Lemma parse_trade_accepts_witness :
  ∃ ev, parse_trade wrapped_message = Ret (Some ev) ∧ trade_message wrapped_message ev.
Proof.
  eexists.
  match goal with |- ?A ∧ _ => assert A as H by (vm_compute; reflexivity) end.
  split; [exact H|exact (proj1 (parse_trade_accepts (JsonLaws0 := ref_json_laws) _ _) H)].
Defined.

Lemma parse_trade_never_throws_witness :
  match parse_trade bare_message with
  | Ret (Some ev) => in_u64 (te_trade_time_ms ev)
  | Ret None | Undef => True
  | Throw _ => False
  end.
Proof.
  pose proof (parse_trade_never_throws (JsonLaws0 := ref_json_laws) bare_message) as H.
  destruct (parse_trade bare_message) as [[ev|]|e|]; [apply H|exact I|destruct H|exact I].
Defined.

Lemma parse_trade_envelope_witness : parse_trade wrapped_message = parse_trade bare_message.
Proof. eapply parse_trade_envelope; vm_compute; reflexivity. Defined.

(** A well-formed message whose price has too many digits is not
    rejected: parsing it overflows a signed integer. *)
Lemma parse_trade_price_overflow :
  parse_trade (jtext "{'e':'trade','s':'BTCUSDT','t':1,'p':'99999999999999999999','q':'1','T':1,'m':true}")
  = Undef.
Proof. vm_compute. reflexivity. Qed.

(** The ["e"] field is only checked when it is a string: an event whose
    type is anything else is taken for a trade. *)
Lemma parse_trade_untyped_event :
  parse_trade (jtext "{'e':7,'s':'BTCUSDT','t':1,'p':'2.5','q':'1','T':1,'m':true}") =
  Ret (Some {| te_symbol := "BTCUSDT"; te_trade_id := 1; te_price := from_raw 250000000;
               te_quantity := from_raw 100000000; te_trade_time_ms := 1; te_buyer_is_maker := true |}).
Proof. vm_compute. reflexivity. Qed.
