(* ===== verification/ConfigLoader.v ===== *)
(** * [Config] and [ConfigLoader]

    app/include/agg/config/Config.hpp and app/src/config/ConfigLoader.cpp,
    over the JSON interface.  Doubles are the IEEE binary64 values of
    [SpecFloat]. *)

From S2P Require Import Prelude CString Json JsonRef.

(** ** Data *)

Record ReconnectConfig := {
  rc_initial_backoff_ms : Z;
  rc_max_backoff_ms : Z;
  rc_jitter_ratio : spec_float
}.

(** The double nearest to 0.2. *)
Definition double_0_2 : spec_float := S754_finite false 7205759403792794 (-55).
Definition double_0 : spec_float := S754_zero false.
Definition double_1 : spec_float := S754_finite false 4503599627370496 (-52).

Definition default_ReconnectConfig : ReconnectConfig :=
  {| rc_initial_backoff_ms := 500; rc_max_backoff_ms := 30000; rc_jitter_ratio := double_0_2 |}.

Record Config := {
  cf_symbols : list string;
  cf_window_ms : Z;
  cf_flush_interval_ms : Z;
  cf_aggregator_threads : Z;
  cf_output_file : string;
  cf_ws_host : string;
  cf_ws_port : string;
  cf_reconnect : ReconnectConfig
}.

(** ** The loader *)

Definition to_upper_ascii (value : string) : string := string_map toupper value.

Definition is_valid_symbol_char (ch : ascii) : bool := isalnum ch.

Section loader.
Context `{J : JsonLib}.

Definition require_field (root : json) (field : string) : outcome unit :=
  if contains root field then Ret ()
  else Throw (RuntimeError ("Config is missing required field: " +:+ field)).

(** The body of the loop over the elements of ["symbols"]. *)
Definition parse_symbol (item : json) : outcome string :=
  if negb (is_string item) then Throw (RuntimeError "Each symbol must be a string") else
  value ← json_get get_string item;
  let symbol := to_upper_ascii value in
  if bool_decide (symbol = "") then Throw (RuntimeError "Symbol must not be empty") else
  if negb (string_all is_valid_symbol_char symbol)
  then Throw (RuntimeError ("Symbol contains invalid characters: " +:+ symbol))
  else Ret symbol.

Definition parse_symbols (root : json) : outcome (list string) :=
  _ ← require_field root "symbols";
  v ← json_at root "symbols";
  if negb (is_array v) then Throw (RuntimeError "Config field 'symbols' must be an array") else
  symbols ← foldM (λ symbols item, symbol ← parse_symbol item; Ret (symbols ++ [symbol]))
              [] (json_elements v);
  match symbols with
  | [] => Throw (RuntimeError "Config field 'symbols' must not be empty")
  | _ => Ret symbols
  end.

Definition parse_positive_u64 (root : json) (field : string) : outcome Z :=
  _ ← require_field root field;
  v ← json_at root field;
  if negb (is_number_unsigned v)
  then Throw (RuntimeError ("Config field must be a positive integer: " +:+ field)) else
  value ← json_get get_u64 v;
  if value =? 0 then Throw (RuntimeError ("Config field must be greater than zero: " +:+ field))
  else Ret value.

Definition parse_required_string (root : json) (field : string) : outcome string :=
  _ ← require_field root field;
  v ← json_at root field;
  if negb (is_string v)
  then Throw (RuntimeError ("Config field must be a string: " +:+ field)) else
  value ← json_get get_string v;
  if bool_decide (value = "") then Throw (RuntimeError ("Config field must not be empty: " +:+ field))
  else Ret value.

Definition parse_aggregator_threads (root : json) : outcome Z :=
  if negb (contains root "aggregator_threads") then Ret 1
  else parse_positive_u64 root "aggregator_threads".

(** The assignment of an optional field. *)
Definition parse_optional_u64 (root : json) (field : string) (value : Z) : outcome Z :=
  if contains root field then parse_positive_u64 root field else Ret value.

Definition parse_jitter_ratio (reconnect_json : json) (value : spec_float) : outcome spec_float :=
  if negb (contains reconnect_json "jitter_ratio") then Ret value else
  v ← json_at reconnect_json "jitter_ratio";
  if negb (is_number v) then Throw (RuntimeError "Reconnect jitter_ratio must be a number") else
  jitter_ratio ← json_get get_double v;
  if SFltb jitter_ratio double_0 || SFltb double_1 jitter_ratio
  then Throw (RuntimeError "Reconnect jitter_ratio must be between 0.0 and 1.0")
  else Ret jitter_ratio.

Definition parse_reconnect_config (root : json) : outcome ReconnectConfig :=
  let reconnect := default_ReconnectConfig in
  if negb (contains root "reconnect") then Ret reconnect else
  reconnect_json ← json_at root "reconnect";
  if negb (is_object reconnect_json)
  then Throw (RuntimeError "Config field 'reconnect' must be an object") else
  initial_backoff_ms ← parse_optional_u64 reconnect_json "initial_backoff_ms"
                         (rc_initial_backoff_ms reconnect);
  max_backoff_ms ← parse_optional_u64 reconnect_json "max_backoff_ms" (rc_max_backoff_ms reconnect);
  if max_backoff_ms <? initial_backoff_ms
  then Throw (RuntimeError "Reconnect initial_backoff_ms must not be greater than max_backoff_ms") else
  jitter_ratio ← parse_jitter_ratio reconnect_json (rc_jitter_ratio reconnect);
  Ret {| rc_initial_backoff_ms := initial_backoff_ms; rc_max_backoff_ms := max_backoff_ms;
         rc_jitter_ratio := jitter_ratio |}.

Definition parse_config_json (root : json) : outcome Config :=
  if negb (is_object root) then Throw (RuntimeError "Config root must be a JSON object") else
  symbols ← parse_symbols root;
  window_ms ← parse_positive_u64 root "window_ms";
  flush_interval_ms ← parse_positive_u64 root "flush_interval_ms";
  aggregator_threads ← parse_aggregator_threads root;
  output_file ← parse_required_string root "output_file";
  ws_host ← parse_required_string root "ws_host";
  ws_port ← parse_required_string root "ws_port";
  reconnect ← parse_reconnect_config root;
  Ret {| cf_symbols := symbols; cf_window_ms := window_ms; cf_flush_interval_ms := flush_interval_ms;
         cf_aggregator_threads := aggregator_threads; cf_output_file := output_file;
         cf_ws_host := ws_host; cf_ws_port := ws_port; cf_reconnect := reconnect |}.

(** [file]: the contents of the file at [path], or [None] when it cannot be
    opened. *)
Definition load_from_file (path : string) (file : option string) : outcome Config :=
  match file with
  | None => Throw (RuntimeError ("Failed to open config file: " +:+ path))
  | Some text =>
      match json_read text with
      | inr what =>
          Throw (RuntimeError ("Failed to parse config file '" +:+ path +:+ "': " +:+ what))
      | inl root => parse_config_json root
      end
  end.

(** ** What a configuration file says *)

Definition get_field {A} (test : json → bool) (get : json → option A) (root : json) (field : string)
    (a : A) : Prop :=
  ∃ v, json_lookup root field = Some v ∧ test v = true ∧ get v = Some a.

Definition valid_symbol (s : string) : Prop := s ≠ "" ∧ string_all is_valid_symbol_char s = true.

Definition symbol_item (item : json) (s : string) : Prop :=
  is_string item = true ∧ ∃ value, get_string item = Some value ∧ s = to_upper_ascii value ∧ valid_symbol s.

Definition symbols_field (root : json) (symbols : list string) : Prop :=
  ∃ v, json_lookup root "symbols" = Some v ∧ is_array v = true ∧
    Forall2 symbol_item (json_elements v) symbols ∧ symbols ≠ [].

Definition positive_field (root : json) (field : string) (n : Z) : Prop :=
  get_field is_number_unsigned get_u64 root field n ∧ n ≠ 0.

Definition string_field (root : json) (field : string) (s : string) : Prop :=
  get_field is_string get_string root field s ∧ s ≠ "".

(** An optional field: its value, or the default when it is absent. *)
Definition optional {A} (P : json → string → A → Prop) (root : json) (field : string) (d a : A) : Prop :=
  P root field a ∨ (json_lookup root field = None ∧ a = d).

Definition ratio_ok (r : spec_float) : Prop := SFltb r double_0 = false ∧ SFltb double_1 r = false.

Definition ratio_field (root : json) (field : string) (r : spec_float) : Prop :=
  get_field is_number get_double root field r ∧ ratio_ok r.

Definition reconnect_fields (root : json) (field : string) (rc : ReconnectConfig) : Prop :=
  ∃ v, json_lookup root field = Some v ∧ is_object v = true ∧
    optional positive_field v "initial_backoff_ms" 500 (rc_initial_backoff_ms rc) ∧
    optional positive_field v "max_backoff_ms" 30000 (rc_max_backoff_ms rc) ∧
    rc_initial_backoff_ms rc ≤ rc_max_backoff_ms rc ∧
    optional ratio_field v "jitter_ratio" double_0_2 (rc_jitter_ratio rc).

Definition config_says (root : json) (c : Config) : Prop :=
  is_object root = true ∧
  symbols_field root (cf_symbols c) ∧
  positive_field root "window_ms" (cf_window_ms c) ∧
  positive_field root "flush_interval_ms" (cf_flush_interval_ms c) ∧
  optional positive_field root "aggregator_threads" 1 (cf_aggregator_threads c) ∧
  string_field root "output_file" (cf_output_file c) ∧
  string_field root "ws_host" (cf_ws_host c) ∧
  string_field root "ws_port" (cf_ws_port c) ∧
  optional reconnect_fields root "reconnect" default_ReconnectConfig (cf_reconnect c).
End loader.


(** ** Computations that return exactly what a relation allows

    and throw [std::runtime_error] otherwise. *)

Definition computes {A} (m : outcome A) (P : A → Prop) : Prop :=
  (∀ a, m = Ret a ↔ P a) ∧ throws_only is_runtime_error m ∧ m ≠ Undef.

Lemma computes_ret {A} (x : A) (P : A → Prop) : (∀ a, P a ↔ a = x) → computes (Ret x) P.
Proof. intros HP. split_and!; [|done..]. intros a. rewrite HP. naive_solver. Qed.

Lemma computes_throw {A} what (P : A → Prop) : (∀ a, ¬ P a) → computes (Throw (RuntimeError what)) P.
Proof. intros HP. split_and!; [|by exists what|done]. naive_solver. Qed.

Lemma computes_bind {A B} (m : outcome A) (f : A → outcome B) P Q :
  computes m P → (∀ a, P a → computes (f a) (Q a)) →
  computes (m ≫= f) (λ b, ∃ a, P a ∧ Q a b).
Proof.
  intros (Hm & Ht & Hu) Hf. destruct m as [a|e|]; cbn; [| |done].
  - assert (P a) as Ha by by apply Hm. destruct (Hf a Ha) as (Hfa & Hta & Hua). split_and!; [|done..].
    intros b. rewrite Hfa. split; [eauto|]. intros (a' & Ha'%Hm & Hq). by simplify_eq.
  - split_and!; [|done..]. intros b. split; [done|]. by intros (a & ?%Hm & _).
Qed.

Lemma computes_iff {A} (m : outcome A) (P Q : A → Prop) :
  computes m P → (∀ a, P a ↔ Q a) → computes m Q.
Proof. intros (Hm & Ht & Hu) HPQ. split_and!; [|done..]. intros a. by rewrite Hm. Qed.

(** A guard that throws. *)
Lemma computes_if_throw {A} (b : bool) what (m : outcome A) P :
  (b = false → computes m P) →
  computes (if b then Throw (RuntimeError what) else m) (λ a, b = false ∧ P a).
Proof.
  intros Hm. destruct b; [by apply computes_throw; intros ? [? _]|].
  eapply computes_iff; [by apply Hm|]. naive_solver.
Qed.

Section laws.
Context `{J : JsonLib} `{!JsonLaws J}.
Implicit Types (root : json) (field : string).

Lemma contains_spec root field : contains root field = bool_decide (is_Some (json_lookup root field)).
Proof. done. Qed.

(** Looking a required field up and checking it. *)
Lemma computes_field {A} (test : json → bool) (get : json → option A) (f : json → outcome A)
    root field (P : A → Prop) :
  (∀ v, json_lookup root field = Some v →
     computes (f v) (λ a, test v = true ∧ get v = Some a ∧ P a)) →
  computes (_ ← require_field root field; v ← json_at root field; f v)
    (λ a, get_field test get root field a ∧ P a).
Proof.
  intros Hf. unfold require_field, json_at. rewrite contains_spec.
  case_bool_decide as Hl; cbn.
  - destruct Hl as [v Hv]. rewrite Hv. cbn. eapply computes_iff; [by apply Hf|].
    intros a. unfold get_field. rewrite Hv. naive_solver.
  - apply computes_throw. intros a [(v & Hv & _) _]. naive_solver.
Qed.

Lemma parse_positive_u64_computes root field :
  computes (parse_positive_u64 root field) (positive_field root field).
Proof.
  apply (computes_field is_number_unsigned get_u64 _ root field (λ n, n ≠ 0)). intros v Hv.
  destruct (is_number_unsigned v) eqn:Ht; cbn [negb]; [|apply computes_throw; naive_solver].
  destruct (get_u64_typed v Ht) as (n & Hn & _). unfold json_get. rewrite Hn. cbn.
  destruct (Z.eqb_spec n 0); [apply computes_throw|apply computes_ret]; naive_solver.
Qed.

Lemma parse_required_string_computes root field :
  computes (parse_required_string root field) (string_field root field).
Proof.
  apply (computes_field is_string get_string _ root field (λ s, s ≠ "")). intros v Hv.
  destruct (is_string v) eqn:Ht; cbn [negb]; [|apply computes_throw; naive_solver].
  destruct (get_string_typed v Ht) as (s & Hs). unfold json_get. rewrite Hs. cbn.
  case_bool_decide; [apply computes_throw|apply computes_ret]; naive_solver.
Qed.

Lemma optional_computes {A} (P : json → string → A → Prop) (m : outcome A) root field d :
  (∀ v, json_lookup root field = Some v → computes m (P root field)) →
  (∀ a, P root field a → is_Some (json_lookup root field)) →
  computes (if contains root field then m else Ret d) (optional P root field d).
Proof.
  intros Hm Hsome. rewrite contains_spec. case_bool_decide as Hl.
  - destruct Hl as [v Hv]. eapply computes_iff; [by eapply Hm|]. intros a. unfold optional. split; [auto|]. intros [?|[Hn _]]; [done|].
    congruence.
  - apply computes_ret. intros a. unfold optional. split; [|rewrite <- eq_None_not_Some in Hl; auto].
    intros [HP%Hsome|[_ ?]]; done.
Qed.

Lemma get_field_Some {A} test (get : json → option A) root field a :
  get_field test get root field a → is_Some (json_lookup root field).
Proof. intros (v & -> & _). eauto. Qed.

Lemma if_negb {A} (b : bool) (x y : A) : (if negb b then x else y) = if b then y else x.
Proof. by destruct b. Qed.

Lemma parse_aggregator_threads_computes root :
  computes (parse_aggregator_threads root) (optional positive_field root "aggregator_threads" 1).
Proof.
  unfold parse_aggregator_threads. rewrite if_negb.
  apply optional_computes; [intros _ _; apply parse_positive_u64_computes|].
  intros a [? _]. by eapply get_field_Some.
Qed.

Lemma parse_optional_u64_computes root field d :
  computes (parse_optional_u64 root field d) (optional positive_field root field d).
Proof.
  apply optional_computes; [intros _ _; apply parse_positive_u64_computes|].
  intros a [? _]. by eapply get_field_Some.
Qed.

Lemma parse_jitter_ratio_computes root d :
  computes (parse_jitter_ratio root d) (optional ratio_field root "jitter_ratio" d).
Proof.
  unfold parse_jitter_ratio. rewrite if_negb. apply optional_computes.
  2: { intros a [? _]. by eapply get_field_Some. }
  intros v Hv. unfold json_at. rewrite Hv. cbn [mbind outcome_bind]. unfold ratio_field, get_field, ratio_ok.
  destruct (is_number v) eqn:Ht; cbn [negb]; [|apply computes_throw; intros a [(v' & ? & ? & ?) _]; congruence].
  destruct (get_double_typed v Ht) as (r & Hr). unfold json_get. rewrite Hr. cbn [mbind outcome_bind].
  destruct (SFltb r double_0) eqn:H0, (SFltb double_1 r) eqn:H1; cbn [orb];
    [apply computes_throw; intros a [(v' & ? & ? & ?) [? ?]]; congruence..|].
  apply computes_ret. naive_solver congruence.
Qed.

Lemma parse_reconnect_config_computes root :
  computes (parse_reconnect_config root)
    (optional reconnect_fields root "reconnect" default_ReconnectConfig).
Proof.
  unfold parse_reconnect_config. rewrite if_negb. apply optional_computes.
  2: { intros a (v & -> & _). eauto. }
  intros v Hv. unfold json_at. rewrite Hv. cbn [mbind outcome_bind].
  destruct (is_object v) eqn:Ho; cbn [negb].
  2: { apply computes_throw. intros rc (v' & ? & ? & _). congruence. }
  eapply computes_iff.
  - eapply computes_bind; [apply parse_optional_u64_computes|]. intros initial _.
    eapply computes_bind; [apply parse_optional_u64_computes|]. intros mx _.
    apply (computes_if_throw (mx <? initial)). intros _.
    eapply computes_bind; [apply parse_jitter_ratio_computes|]. intros jitter _.
    apply (computes_ret _ (λ rc, rc = {| rc_initial_backoff_ms := initial; rc_max_backoff_ms := mx;
                                         rc_jitter_ratio := jitter |})). done.
  - intros rc. unfold reconnect_fields. split.
    + intros (initial & Hi & mx & Hm & Hle & jitter & Hj & ->). apply Z.ltb_ge in Hle.
      exists v. by split_and!.
    + intros (v' & Hv' & _ & Hi & Hm & Hle & Hj). rewrite Hv in Hv'. simplify_eq.
      exists (rc_initial_backoff_ms rc). split; [done|]. exists (rc_max_backoff_ms rc). split; [done|].
      split; [by apply Z.ltb_ge|]. exists (rc_jitter_ratio rc). split; [done|]. by destruct rc.
Qed.

Lemma parse_symbol_computes item : computes (parse_symbol item) (symbol_item item).
Proof.
  unfold parse_symbol, symbol_item, valid_symbol.
  destruct (is_string item) eqn:Ht; cbn [negb]; [|apply computes_throw; naive_solver].
  destruct (get_string_typed item Ht) as (s & Hs). unfold json_get. rewrite Hs. cbn [mbind outcome_bind].
  case_bool_decide as He; [apply computes_throw; naive_solver|].
  destruct (string_all is_valid_symbol_char (to_upper_ascii s)) eqn:Ha; cbn [negb];
    [apply computes_ret|apply computes_throw]; naive_solver congruence.
Qed.

Lemma parse_symbols_loop items acc :
  computes (foldM (λ symbols item, symbol ← parse_symbol item; Ret (symbols ++ [symbol])) acc items)
    (λ l, ∃ l', l = acc ++ l' ∧ Forall2 symbol_item items l').
Proof.
  revert acc. induction items as [|item items IH]; intros acc; cbn [foldM].
  - apply computes_ret. intros a. split.
    + intros (l' & -> & Hl). apply Forall2_nil_inv_l in Hl as ->. by rewrite app_nil_r.
    + intros ->. exists []. by rewrite app_nil_r.
  - rewrite bind_assoc. eapply computes_iff.
    + eapply computes_bind; [apply parse_symbol_computes|]. intros symbol _. cbn [mbind outcome_bind]. apply IH.
    + intros l. cbn. split.
      * intros (s & Hs & l' & -> & Hl'). exists (s :: l'). split; [by rewrite <- app_assoc|by constructor].
      * intros (l' & -> & Hl'). apply Forall2_cons_inv_l in Hl' as (s & l'' & Hs & Hl'' & ->).
        exists s. split; [done|]. exists l''. by rewrite <- app_assoc.
Qed.

Lemma parse_symbols_computes root : computes (parse_symbols root) (symbols_field root).
Proof.
  unfold parse_symbols, require_field, json_at. rewrite contains_spec. unfold symbols_field.
  case_bool_decide as Hl; cbn [mbind outcome_bind]; [|apply computes_throw; intros ? (v & Hv & _); naive_solver].
  destruct Hl as [v Hv]. rewrite Hv. cbn [mbind outcome_bind].
  destruct (is_array v) eqn:Ha; cbn [negb];
    [|apply computes_throw; intros a (v' & ? & ? & _); congruence].
  eapply computes_iff.
  - eapply computes_bind; [apply parse_symbols_loop|]. intros l _.
    instantiate (1 := λ l r, r = l ∧ l ≠ []).
    destruct l; [apply computes_throw; naive_solver|apply computes_ret; naive_solver].
  - intros r. cbn. naive_solver.
Qed.

Lemma parse_config_json_computes root : computes (parse_config_json root) (config_says root).
Proof.
  unfold parse_config_json. rewrite if_negb.
  destruct (is_object root) eqn:Ho; [|apply computes_throw; intros c [? _]; congruence].
  eapply computes_iff.
  - eapply computes_bind; [apply parse_symbols_computes|]. intros symbols _.
    eapply computes_bind; [apply parse_positive_u64_computes|]. intros window _.
    eapply computes_bind; [apply parse_positive_u64_computes|]. intros flush _.
    eapply computes_bind; [apply parse_aggregator_threads_computes|]. intros threads _.
    eapply computes_bind; [apply parse_required_string_computes|]. intros file _.
    eapply computes_bind; [apply parse_required_string_computes|]. intros host _.
    eapply computes_bind; [apply parse_required_string_computes|]. intros port _.
    eapply computes_bind; [apply parse_reconnect_config_computes|]. intros rc _.
    apply (computes_ret _ (λ c, c = {| cf_symbols := symbols; cf_window_ms := window;
      cf_flush_interval_ms := flush; cf_aggregator_threads := threads; cf_output_file := file;
      cf_ws_host := host; cf_ws_port := port; cf_reconnect := rc |})). done.
  - intros c. unfold config_says. split.
    + intros (symbols & ? & window & ? & flush & ? & threads & ? & file & ? & host & ? & port & ? & rc & ? & ->).
      by split_and!.
    + intros (_ & ? & ? & ? & ? & ? & ? & ? & ?). destruct c. cbn in *.
      repeat (eexists; split; [eassumption|]). done.
Qed.

(** What every accepted configuration satisfies. *)
Definition positive_u64 (n : Z) : Prop := 1 ≤ n < two64.

Definition config_valid (c : Config) : Prop :=
  cf_symbols c ≠ [] ∧ Forall (λ s, valid_symbol s ∧ to_upper_ascii s = s) (cf_symbols c) ∧
  positive_u64 (cf_window_ms c) ∧ positive_u64 (cf_flush_interval_ms c) ∧
  positive_u64 (cf_aggregator_threads c) ∧
  cf_output_file c ≠ "" ∧ cf_ws_host c ≠ "" ∧ cf_ws_port c ≠ "" ∧
  positive_u64 (rc_initial_backoff_ms (cf_reconnect c)) ∧
  rc_initial_backoff_ms (cf_reconnect c) ≤ rc_max_backoff_ms (cf_reconnect c) < two64 ∧
  ratio_ok (rc_jitter_ratio (cf_reconnect c)).

Lemma positive_field_range root field n : positive_field root field n → positive_u64 n.
Proof.
  intros [(v & _ & Ht & Hn) Hne]. destruct (get_u64_typed v Ht) as (n' & Hn' & Hr).
  rewrite Hn in Hn'. simplify_eq. unfold positive_u64. range.
Qed.

Lemma optional_positive root field d n :
  positive_u64 d → optional positive_field root field d n → positive_u64 n.
Proof. intros Hd [?|[_ ->]]; [by eapply positive_field_range|done]. Qed.

Lemma to_upper_ascii_idemp s : to_upper_ascii (to_upper_ascii s) = to_upper_ascii s.
Proof.
  unfold to_upper_ascii. induction s as [|c s IH]; [done|]. cbn. by rewrite toupper_idemp, IH.
Qed.

Lemma config_says_valid root c : config_says root c → config_valid c.
Proof.
  intros (_ & (v & _ & _ & Hsy & Hne) & Hw & Hf & Ht & [_ Ho] & [_ Hh] & [_ Hp] & Hrc).
  assert (Forall (λ s, valid_symbol s ∧ to_upper_ascii s = s) (cf_symbols c)) as Hall.
  { clear Hne. induction Hsy as [|item s l l' (_ & value & _ & -> & Hs) _ IH]; constructor; [|done].
    split; [done|apply to_upper_ascii_idemp]. }
  assert (positive_u64 (rc_initial_backoff_ms (cf_reconnect c)) ∧
    positive_u64 (rc_max_backoff_ms (cf_reconnect c)) ∧
    rc_initial_backoff_ms (cf_reconnect c) ≤ rc_max_backoff_ms (cf_reconnect c) ∧
    ratio_ok (rc_jitter_ratio (cf_reconnect c))) as (? & ? & ? & ?).
  { destruct Hrc as [(v' & _ & _ & Hi & Hm & Hle & Hj)|[_ ->]].
    - split_and!; [by eapply (optional_positive _ _ 500)|by eapply (optional_positive _ _ 30000)|done|].
      destruct Hj as [[_ ?]|[_ ->]]; [done|]. by vm_compute.
    - by vm_compute. }
  unfold config_valid. split_and!; eauto using positive_field_range; try (unfold positive_u64 in *; lia).
  by eapply (optional_positive _ _ 1).
Qed.

(** ** Properties *)

(** C22: the loader returns a configuration exactly when the file can be opened
    and holds a JSON object that says it: all required fields present and of
    the right type, symbols non-empty and alphanumeric (upper-cased), numbers
    positive, strings non-empty, optional fields defaulted when absent, the
    back-off range not inverted, and the jitter ratio between 0 and 1. *)
Theorem load_from_file_spec path file c :
  load_from_file path file = Ret c ↔
  ∃ text root, file = Some text ∧ json_read text = inl root ∧ config_says root c.
Proof.
  unfold load_from_file. destruct file as [text|]; [|split; [done|by intros (? & ? & ? & _)]].
  destruct (json_read text) as [root|what] eqn:Hr.
  - destruct (parse_config_json_computes root) as [Hc _]. rewrite Hc. split; [eauto|].
    intros (? & ? & [= <-] & Hr' & ?). congruence.
  - split; [done|]. intros (? & ? & [= <-] & Hr' & _). congruence.
Qed.

(** Whatever the file contains, the loader returns a valid configuration
    or throws [std::runtime_error]: no other exception, no undefined
    behaviour. *)
Theorem load_from_file_total path file :
  match load_from_file path file with
  | Ret c => config_valid c
  | Throw e => is_runtime_error e
  | Undef => False
  end.
Proof.
  unfold load_from_file. destruct file as [text|]; [|by eexists].
  destruct (json_read text) as [root|what]; [|by eexists].
  destruct (parse_config_json_computes root) as (Hc & Ht & Hu).
  destruct (parse_config_json root) as [c|e|]; [|done..].
  apply (config_says_valid root). by apply Hc.
Qed.
End laws.

(** ** Evaluated examples *)

Definition example_config_text : string :=
  jtext "{'symbols':['btcusdt'],'window_ms':1000,'flush_interval_ms':500,'output_file':'out.txt','ws_host':'h','ws_port':'9443','reconnect':{'max_backoff_ms':1000,'jitter_ratio':0.5}}".

Definition example_config : Config :=
  {| cf_symbols := ["BTCUSDT"]; cf_window_ms := 1000; cf_flush_interval_ms := 500;
     cf_aggregator_threads := 1; cf_output_file := "out.txt"; cf_ws_host := "h"; cf_ws_port := "9443";
     cf_reconnect := {| rc_initial_backoff_ms := 500; rc_max_backoff_ms := 1000;
                        rc_jitter_ratio := S754_finite false 4503599627370496 (-53) |} |}.

Lemma load_from_file_spec_witness :
  load_from_file "config.json" (Some example_config_text) = Ret example_config ∧
  ∃ text root, Some example_config_text = Some text ∧ json_read text = inl root ∧
    config_says root example_config.
Proof.
  assert (load_from_file "config.json" (Some example_config_text) = Ret example_config) as H
    by (vm_compute; reflexivity).
  split; [exact H|]. exact (proj1 (load_from_file_spec "config.json" _ _) H).
Defined.

Lemma load_from_file_total_witness :
  match load_from_file "config.json" (Some (jtext "{'symbols':[]}")) with
  | Ret c => config_valid c
  | Throw e => is_runtime_error e
  | Undef => False
  end.
Proof. apply load_from_file_total. Defined.
