(* ===== verification/Cli.v ===== *)
(** * Command-line options

    app/include/agg/runtime/CliOptions.hpp and app/src/runtime/CliOptions.cpp. *)

From S2P Require Import Prelude CString.

Record CliOptions := { config_path : string }.

Definition kConfigFlag : string := "--config".
Definition kConfigFlagWithEquals : string := "--config=".

(** The text after a prefix: [arg.rfind(p, 0) == 0] and [arg.substr(p.size())]. *)
Fixpoint after_prefix (p arg : string) : option string :=
  match p, arg with
  | "", _ => Some arg
  | String c p, String c' arg => if bool_decide (c = c') then after_prefix p arg else None
  | _, _ => None
  end.

(** The loop over [argv[i]], [argv[i + 1]], ... *)
Fixpoint scan_args (options : CliOptions) (args : list string) : outcome CliOptions :=
  match args with
  | [] => Ret options
  | arg :: rest =>
      if bool_decide (arg = kConfigFlag) then
        match rest with
        | [] => Throw (InvalidArgument "--config requires a path argument")
        | path :: rest => scan_args {| config_path := path |} rest
        end
      else
        match after_prefix kConfigFlagWithEquals arg with
        | Some path => scan_args {| config_path := path |} rest
        | None => scan_args options rest
        end
  end.

(** [argv] includes the program name. *)
Definition parse_cli_options (argv : list string) : outcome CliOptions :=
  scan_args {| config_path := "config/config.json" |} (drop 1 argv).

(** ** Specification *)

(** A command line as its options: both spellings of the flag, and arguments
    that are ignored. *)
Inductive cli_arg :=
  | ConfigSpace (path : string)
  | ConfigEquals (path : string)
  | Ignored (arg : string).

Definition render_arg (a : cli_arg) : list string :=
  match a with
  | ConfigSpace path => [kConfigFlag; path]
  | ConfigEquals path => [kConfigFlagWithEquals +:+ path]
  | Ignored arg => [arg]
  end.

Definition render (l : list cli_arg) : list string := concat (render_arg <$> l).

Definition ignorable (a : cli_arg) : Prop :=
  match a with
  | Ignored arg => arg ≠ kConfigFlag ∧ after_prefix kConfigFlagWithEquals arg = None
  | _ => True
  end.

(** The last path given wins. *)
Definition last_path (d : string) (l : list cli_arg) : string :=
  foldl (λ d a, match a with ConfigSpace p | ConfigEquals p => p | Ignored _ => d end) d l.

Lemma after_prefix_app p s : after_prefix p (p +:+ s) = Some s.
Proof.
  induction p as [|c p IH]; [done|]. rewrite string_app_cons. cbn.
  by rewrite bool_decide_true.
Qed.

Lemma after_prefix_Some p arg s : after_prefix p arg = Some s → arg = p +:+ s.
Proof.
  revert arg. induction p as [|c p IH]; intros arg; cbn.
  - intros. simplify_eq. by rewrite string_app_nil_l.
  - destruct arg as [|c' arg]; [done|]. case_bool_decide; [|done]. subst. intros Hs.
    rewrite string_app_cons. f_equal. by apply IH.
Qed.

Lemma scan_args_render o l rest :
  Forall ignorable l →
  scan_args o (render l ++ rest) = scan_args {| config_path := last_path (config_path o) l |} rest.
Proof.
  intros Hl. revert o. induction Hl as [|a l Ha Hl IH]; intros o; [by destruct o|].
  destruct a as [p|p|arg]; unfold render; cbn [fmap list_fmap concat render_arg app].
  - cbn [scan_args]. rewrite bool_decide_true by done. apply IH.
  - cbn [scan_args]. rewrite bool_decide_false, after_prefix_app; [apply IH|].
    intros Heq. apply (f_equal String.length) in Heq. rewrite string_length_app in Heq. cbn in Heq. lia.
  - destruct Ha as [Hne Hnone]. cbn [scan_args]. rewrite bool_decide_false, Hnone by done. apply IH.
Qed.

(** Every list of arguments is a command line, possibly ending in a flag
    without its path. *)
Lemma args_render args :
  ∃ l, Forall ignorable l ∧ (args = render l ∨ args = render l ++ [kConfigFlag]).
Proof.
  remember (length args) as n eqn:Hn. revert args Hn.
  induction (lt_wf n) as [n _ IH]; intros [|arg args] ->; [by exists []; split; [constructor|left]|].
  assert (∀ a rest, arg :: args = render_arg a ++ rest → ignorable a → ∃ l, Forall ignorable l ∧
    (arg :: args = render l ∨ arg :: args = render l ++ [kConfigFlag])) as Hstep.
  { intros a rest Heq Ha. destruct (IH (length rest)) with (args := rest) as (l & Hl & Hr); [|done|].
    - rewrite Heq, length_app. destruct a; cbn; lia.
    - exists (a :: l). split; [by constructor|]. unfold render in *. cbn [fmap list_fmap concat].
      rewrite Heq, <- app_assoc. destruct Hr as [->| ->]; auto. }
  destruct (decide (arg = kConfigFlag)) as [->|Hne].
  - destruct args as [|path args]; [exists []; split; [constructor|by right]|].
    by apply (Hstep (ConfigSpace path) args).
  - destruct (after_prefix kConfigFlagWithEquals arg) as [p|] eqn:Hp.
    + apply (Hstep (ConfigEquals p) args); [|done]. by apply after_prefix_Some in Hp as ->.
    + by apply (Hstep (Ignored arg) args).
Qed.

(** ** Properties *)

