(* ===== verification/ConnectionError.v ===== *)
(** * Connection errors and the stream target

    app/include/agg/net/ConnectionError.hpp, app/src/net/ConnectionError.cpp
    and [build_combined_stream_target] of
    app/src/net/BinanceWebSocketClient.cpp. *)

From S2P Require Import Prelude CString Json ConfigLoader.

(** ** Classification *)

Inductive ConnectionStage := Resolve | TcpConnect | TlsHandshake | WebSocketHandshake | Read.

Inductive ConnectionErrorKind :=
  | DnsFailure
  | TcpConnectFailure
  | TlsHandshakeFailure
  | WebSocketHandshakeFailure
  | ReadFailure
  | Timeout
  | ServerDisconnect
  | Unknown.

#[export] Instance ConnectionStage_eq_dec : EqDecision ConnectionStage.
Proof. solve_decision. Defined.
#[export] Instance ConnectionErrorKind_eq_dec : EqDecision ConnectionErrorKind.
Proof. solve_decision. Defined.

(** What the program asks of a [boost::system::error_code]: whether it stands
    for an error, and the comparisons with three error conditions. *)
Class ErrorCode (E : Type) := {
  ec_failed : E → bool;
  ec_timed_out : E → bool;
  ec_eof : E → bool;
  ec_ws_closed : E → bool
}.

Definition classify_error `{ErrorCode E} (stage : ConnectionStage) (ec : E) : ConnectionErrorKind :=
  if negb (ec_failed ec) then Unknown
  else if ec_timed_out ec then Timeout
  else match stage with
       | Resolve => DnsFailure
       | TcpConnect => TcpConnectFailure
       | TlsHandshake => TlsHandshakeFailure
       | WebSocketHandshake => WebSocketHandshakeFailure
       | Read => if ec_eof ec || ec_ws_closed ec then ServerDisconnect else ReadFailure
       end.

(** The stage a kind of failure belongs to. *)
Definition kind_stage (kind : ConnectionErrorKind) : option ConnectionStage :=
  match kind with
  | DnsFailure => Some Resolve
  | TcpConnectFailure => Some TcpConnect
  | TlsHandshakeFailure => Some TlsHandshake
  | WebSocketHandshakeFailure => Some WebSocketHandshake
  | ReadFailure | ServerDisconnect => Some Read
  | Timeout | Unknown => None
  end.

(** ** The combined-stream target *)

Definition stream_name (symbol : string) : string := string_map tolower symbol +:+ "@trade".

(** The loop from index [i] on. *)
Fixpoint append_streams (target : string) (i : nat) (symbols : list string) : string :=
  match symbols with
  | [] => target
  | symbol :: symbols =>
      let target := match i with O => target | S _ => target +:+ "/" end in
      append_streams (target +:+ stream_name symbol) (S i) symbols
  end.

Definition build_combined_stream_target (symbols : list string) : string :=
  append_streams "/stream?streams=" 0 symbols.

(** ** Lemmas *)

Lemma append_streams_S target i symbols :
  append_streams target (S i) symbols =
  target +:+ string_concat ((λ s, "/" +:+ stream_name s) <$> symbols).
Proof.
  revert target i. induction symbols as [|s symbols IH]; intros target i; cbn [append_streams].
  - cbn. by rewrite string_app_nil_r.
  - rewrite IH. cbn [fmap list_fmap string_concat]. by rewrite !string_app_assoc.
Qed.

Lemma build_target_cons s symbols :
  build_combined_stream_target (s :: symbols) =
  "/stream?streams=" +:+ stream_name s +:+ string_concat ((λ s, "/" +:+ stream_name s) <$> symbols).
Proof.
  unfold build_combined_stream_target. cbn [append_streams]. rewrite append_streams_S.
  by rewrite string_app_assoc.
Qed.


Lemma isalnum_tolower c : isalnum c = true → isalnum (tolower c) = true.
Proof.
  unfold isalnum, isdigit, isupper, islower, tolower. destruct (isupper c) eqn:E; [|done]. intros _.
  unfold isupper in E. rewrite between_spec in E. rewrite !orb_true_iff. right.
  rewrite between_spec, code_char_of by lia. lia.
Qed.

Lemma lower_symbol_lacks s :
  string_all is_valid_symbol_char s = true → lacks "@" (string_map tolower s) = true.
Proof.
  intros Hs. apply (string_all_lacks isalnum); [done|].
  induction s as [|c s IH]; [done|]. cbn in *. apply andb_true_iff in Hs as [Hc Hs].
  by rewrite isalnum_tolower, IH.
Qed.

Lemma upper_lower s : to_upper_ascii s = s → to_upper_ascii (string_map tolower s) = s.
Proof.
  unfold to_upper_ascii. intros Hs. rewrite string_map_map, <- Hs at 1. rewrite string_map_map.
  rewrite <- Hs at 2. clear Hs. induction s as [|c s IH]; [done|]. cbn.
  by rewrite toupper_tolower, toupper_idemp, IH.
Qed.

(** A symbol as the configuration delivers it. *)
Definition config_symbol (s : string) : Prop := valid_symbol s ∧ to_upper_ascii s = s.

Lemma stream_name_inj s1 s2 r1 r2 :
  config_symbol s1 → config_symbol s2 → stream_name s1 +:+ r1 = stream_name s2 +:+ r2 → s1 = s2 ∧ r1 = r2.
Proof.
  intros [[_ Ha1] Hu1] [[_ Ha2] Hu2]. unfold stream_name. rewrite !string_app_assoc.
  change ("@trade" +:+ r1) with (String "@" ("trade" +:+ r1)).
  change ("@trade" +:+ r2) with (String "@" ("trade" +:+ r2)). intros Heq.
  apply split_at_char in Heq as [Hs Hr]; [|by apply lower_symbol_lacks..].
  apply string_app_inv_head in Hr. split; [|done]. by rewrite <- (upper_lower s1), Hs, upper_lower.
Qed.

Lemma streams_inj l1 l2 :
  Forall config_symbol l1 → Forall config_symbol l2 →
  string_concat ((λ s, "/" +:+ stream_name s) <$> l1) = string_concat ((λ s, "/" +:+ stream_name s) <$> l2) →
  l1 = l2.
Proof.
  intros H1. revert l2. induction H1 as [|s1 l1 Hs1 _ IH]; intros l2 H2; destruct H2 as [|s2 l2 Hs2 H2];
    cbn [fmap list_fmap string_concat]; [done|..]; rewrite ?string_app_assoc; intros Heq; [done..|].
  apply string_app_inv_head in Heq. apply stream_name_inj in Heq as [-> Heq]; [|done..].
  f_equal. by apply IH.
Qed.

(** ** Properties *)

(** Errors are classified faithfully: [Unknown] means that there was no
    error, [Timeout] that the operation timed out, and every other kind names
    the stage that failed; a read that ended because the peer closed the
    connection is told apart from other read failures. *)
Theorem classify_error_spec `{ErrorCode E} stage (ec : E) :
  (classify_error stage ec = Unknown ↔ ec_failed ec = false) ∧
  (classify_error stage ec = Timeout ↔ ec_failed ec = true ∧ ec_timed_out ec = true) ∧
  (ec_failed ec = true → ec_timed_out ec = false → kind_stage (classify_error stage ec) = Some stage) ∧
  (classify_error stage ec = ServerDisconnect ↔
     stage = Read ∧ ec_failed ec = true ∧ ec_timed_out ec = false ∧
     (ec_eof ec = true ∨ ec_ws_closed ec = true)).
Proof.
  unfold classify_error.
  destruct stage, (ec_failed ec), (ec_timed_out ec), (ec_eof ec), (ec_ws_closed ec); cbn; naive_solver.
Qed.

(** The subscription target names every configured symbol, in order and
    nothing else: two lists of symbols the configuration can deliver give the
    same target only if they are equal. *)
Theorem stream_target_injective l1 l2 :
  Forall config_symbol l1 → Forall config_symbol l2 →
  build_combined_stream_target l1 = build_combined_stream_target l2 → l1 = l2.
Proof.
  intros H1 H2. destruct H1 as [|s1 l1 Hs1 H1], H2 as [|s2 l2 Hs2 H2]; rewrite ?build_target_cons; [done|..].
  - intros Heq. apply (f_equal String.length) in Heq. unfold stream_name in Heq.
    rewrite !string_length_app in Heq. cbn in Heq. lia.
  - intros Heq. apply (f_equal String.length) in Heq. unfold stream_name in Heq.
    rewrite !string_length_app in Heq. cbn in Heq. lia.
  - intros Heq%string_app_inv_head. apply stream_name_inj in Heq as [-> Heq]; [|done..].
    f_equal. by apply streams_inj.
Qed.

Lemma stream_target_injective_witness :
  build_combined_stream_target ["BTCUSDT"; "ETHUSDT"] = "/stream?streams=btcusdt@trade/ethusdt@trade" ∧
  ["BTCUSDT"; "ETHUSDT"] = to_upper_ascii <$> ["btcusdt"; "ethusdt"].
Proof.
  split; [vm_compute; reflexivity|].
  apply (stream_target_injective ["BTCUSDT"; "ETHUSDT"] (to_upper_ascii <$> ["btcusdt"; "ethusdt"])).
  - repeat constructor; discriminate.
  - repeat constructor; discriminate.
  - vm_compute. reflexivity.
Defined.
