(* ===== verification/ReconnectPolicy.v ===== *)
(** * [ReconnectPolicy]

    app/include/agg/net/ReconnectPolicy.hpp and
    app/src/net/ReconnectPolicy.cpp.  The random generator and the
    distribution are the standard library's: [draw lo hi] is the value the
    distribution returns. *)

From S2P Require Import Prelude Json ConfigLoader.

Local Open Scope cpp_scope.

Abbreviation two32 := 4294967296 (only parsing).

(** The protected state: [attempt_] is an [unsigned]. *)
Record ReconnectPolicy := {
  rp_config : ReconnectConfig;
  rp_attempt : Z;
  rp_stop_requested : bool
}.

Definition new_policy (config : ReconnectConfig) : ReconnectPolicy :=
  {| rp_config := config; rp_attempt := 0; rp_stop_requested := false |}.

(** The doubling loop: at most [n] more turns. *)
Fixpoint double_delay (n : nat) (delay_ms max_backoff_ms : Z) : Z :=
  match n with
  | O => delay_ms
  | S n =>
      if delay_ms <? max_backoff_ms
      then double_delay n (to_u64 (delay_ms * 2)) max_backoff_ms
      else delay_ms
  end.

(** The count of the milliseconds returned, a signed 64-bit integer. *)
Definition base_delay_for_attempt (config : ReconnectConfig) (attempt : Z) : Z :=
  let delay_ms :=
    double_delay (Z.to_nat attempt) (rc_initial_backoff_ms config) (rc_max_backoff_ms config) in
  to_i64 (Z.min delay_ms (rc_max_backoff_ms config)).

(** [static_cast<std::int64_t>] of a double: truncation, undefined when the
    result does not fit. *)
Definition double_to_i64 (x : spec_float) : outcome Z :=
  match x with
  | S754_zero _ => Ret 0
  | S754_finite s m e =>
      let magnitude := if 0 <=? e then Zpos m * 2 ^ e else Zpos m / 2 ^ (- e) in
      i64_checked (if s then - magnitude else magnitude)
  | S754_infinity _ | S754_nan => Undef
  end.

Definition double_of_i64 (n : Z) : spec_float := binary_normalize 53 1024 n 0 false.

(** [std::max(a, b)] *)
Definition double_max (a b : spec_float) : spec_float := if SFltb a b then b else a.

Section policy.
Variable draw : spec_float → spec_float → spec_float.

Definition apply_jitter (config : ReconnectConfig) (base : Z) : outcome Z :=
  if SFleb (rc_jitter_ratio config) double_0 then Ret base else
  let base_ms := double_of_i64 base in
  let spread := SFmul 53 1024 base_ms (rc_jitter_ratio config) in
  let jittered_ms := draw (SFsub 53 1024 base_ms spread) (SFadd 53 1024 base_ms spread) in
  double_to_i64 (double_max double_0 jittered_ms).

(** The delay [wait_for_next_attempt] waits for. *)
Definition next_delay (p : ReconnectPolicy) : outcome Z :=
  apply_jitter (rp_config p) (base_delay_for_attempt (rp_config p) (rp_attempt p)).

(** [wait_for_next_attempt], entered at the reading [steady_ns] of the steady
    clock: [elapsed] says how the wait on the condition variable ends, by the
    timeout or by a notification; it cannot end by the timeout with
    [stop_requested_] set.  [None]: the call still waits. *)
Definition wait_for_next_attempt (p : ReconnectPolicy) (elapsed : bool) (steady_ns : Z) :
    option (outcome (bool * ReconnectPolicy)) :=
  if rp_stop_requested p then Some (delay ← next_delay p; _ ← wait_deadline steady_ns delay; Ret (false, p))
  else if elapsed then
    Some (delay ← next_delay p;
          _ ← wait_deadline steady_ns delay;
          Ret (true, {| rp_config := rp_config p; rp_attempt := (rp_attempt p + 1) mod two32;
                        rp_stop_requested := rp_stop_requested p |}))
  else None.

Definition stop_policy (p : ReconnectPolicy) : ReconnectPolicy :=
  {| rp_config := rp_config p; rp_attempt := rp_attempt p; rp_stop_requested := true |}.

Definition reset_policy (p : ReconnectPolicy) : ReconnectPolicy :=
  {| rp_config := rp_config p; rp_attempt := 0; rp_stop_requested := false |}.

Definition current_attempt (p : ReconnectPolicy) : Z := rp_attempt p.
End policy.

(** ** Lemmas *)

Lemma double_delay_spec n d m :
  0 < d → m < two63 → double_delay n d m = d ∧ m ≤ d ∨ Z.min (double_delay n d m) m = Z.min (d * 2 ^ Z.of_nat n) m.
Proof.
  revert d. induction n as [|n IH]; intros d Hd Hm; cbn [double_delay].
  - right. by rewrite Z.mul_1_r.
  - destruct (Z.ltb_spec d m); [|by left]. right. rewrite to_u64_id by range.
    rewrite Nat2Z.inj_succ, Z.pow_succ_r by lia.
    destruct (IH (d * 2)) as [[-> Hle]| ->]; [lia..| |f_equal; ring].
    rewrite Z.min_r by lia. symmetry. apply Z.min_r.
    assert (1 ≤ 2 ^ Z.of_nat n) by (apply (Z.pow_le_mono_r 2 0); lia). nia.
Qed.

Lemma base_delay_min config attempt :
  0 < rc_initial_backoff_ms config → rc_max_backoff_ms config < two63 → 0 ≤ attempt →
  0 ≤ rc_max_backoff_ms config →
  base_delay_for_attempt config attempt =
  Z.min (rc_initial_backoff_ms config * 2 ^ attempt) (rc_max_backoff_ms config).
Proof.
  intros Hi Hm Ha Hm0. unfold base_delay_for_attempt.
  set (i := rc_initial_backoff_ms config) in *. set (m := rc_max_backoff_ms config) in *.
  assert (Z.min (double_delay (Z.to_nat attempt) i m) m = Z.min (i * 2 ^ attempt) m) as ->.
  { destruct (double_delay_spec (Z.to_nat attempt) i m Hi Hm) as [[-> Hle]|Heq].
    - rewrite !Z.min_r; [done| |done].
      assert (1 ≤ 2 ^ attempt) by (apply (Z.pow_le_mono_r 2 0); lia). nia.
    - by rewrite Z2Nat.id in Heq by done. }
  apply to_i64_id. assert (0 < 2 ^ attempt) by (apply Z.pow_pos_nonneg; lia).
  unfold in_i64. assert (0 < i * 2 ^ attempt) by nia. lia.
Qed.

Lemma double_to_i64_nonneg x n :
  double_to_i64 (double_max double_0 x) = Ret n → 0 ≤ n.
Proof.
  unfold double_max, double_to_i64. destruct (SFltb double_0 x) eqn:Hlt; cbn; [|intros; by inv_ret].
  destruct x as [s|s| |s m e]; try done.
  destruct s; [done|]. intros [_ ->]%i64_checked_Ret.
  destruct (Z.leb_spec 0 e).
  - assert (0 < 2 ^ e) by (apply Z.pow_pos_nonneg; lia). nia.
  - apply Z.div_pos; [lia|]. apply Z.pow_pos_nonneg; lia.
Qed.

(** ** Properties *)

(** With a maximum back-off below 2^63 ms the base delay is the documented
    one, min(initial * 2^attempt, max): it starts at the initial back-off,
    never decreases from one attempt to the next, and never exceeds the
    maximum, whatever the attempt count. *)
Theorem base_delay_is_capped_exponential config attempt :
  positive_u64 (rc_initial_backoff_ms config) →
  rc_initial_backoff_ms config ≤ rc_max_backoff_ms config < two63 → 0 ≤ attempt →
  base_delay_for_attempt config attempt =
    Z.min (rc_initial_backoff_ms config * 2 ^ attempt) (rc_max_backoff_ms config) ∧
  base_delay_for_attempt config 0 = rc_initial_backoff_ms config ∧
  rc_initial_backoff_ms config ≤ base_delay_for_attempt config attempt ≤
    base_delay_for_attempt config (attempt + 1) ∧
  base_delay_for_attempt config (attempt + 1) ≤ rc_max_backoff_ms config.
Proof.
  intros [Hi _] [Hle Hm] Ha. rewrite !base_delay_min by lia.
  rewrite Z.pow_add_r, Z.pow_0_r, Z.pow_1_r by lia.
  assert (1 ≤ 2 ^ attempt) by (apply (Z.pow_le_mono_r 2 0); lia).
  set (i := rc_initial_backoff_ms config) in *. set (x := 2 ^ attempt) in *.
  assert (i ≤ i * x ≤ i * (x * 2)) by nia. split_and!; lia.
Qed.

Lemma base_delay_is_capped_exponential_witness :
  base_delay_for_attempt default_ReconnectConfig 10 = 30000.
Proof.
  rewrite (proj1 (base_delay_is_capped_exponential default_ReconnectConfig 10
    ltac:(unfold positive_u64; cbn; lia) ltac:(cbn; lia) ltac:(lia))). vm_compute. reflexivity.
Defined.

(** The maximum back-off may be configured up to 2^64 - 1 ms, and the
    doubling then wraps around: after 64 attempts the base delay of an initial
    back-off of 1 ms is 0, and at 63 attempts it is negative. *)
Lemma base_delay_wraps_around :
  let config := {| rc_initial_backoff_ms := 1; rc_max_backoff_ms := two64 - 1;
                   rc_jitter_ratio := double_0 |} in
  base_delay_for_attempt config 62 = 2 ^ 62 ∧ base_delay_for_attempt config 63 < 0 ∧
  base_delay_for_attempt config 64 = 0.
Proof. vm_compute. done. Qed.

(** Whatever the distribution draws, a jittered delay is never negative, and
    without jitter the delay is the base delay. *)
Lemma jitter_nonneg draw config base delay :
  0 ≤ base → apply_jitter draw config base = Ret delay →
  0 ≤ delay ∧ (SFleb (rc_jitter_ratio config) double_0 = true → delay = base).
Proof.
  intros Hb. unfold apply_jitter. destruct (SFleb (rc_jitter_ratio config) double_0).
  - intros. inv_ret. done.
  - intros Hd. split; [by eapply double_to_i64_nonneg|done].
Qed.

(** A policy that has been stopped does not wait: the call returns [false]
    whatever the clock does and leaves the policy as it is; only a reset makes
    it wait again. *)
Lemma stopped_policy_returns draw p elapsed steady_ns delay :
  next_delay draw p = Ret delay → is_ret (wait_deadline steady_ns delay) →
  wait_for_next_attempt draw (stop_policy p) elapsed steady_ns = Some (Ret (false, stop_policy p)) ∧
  wait_for_next_attempt draw (reset_policy (stop_policy p)) false steady_ns = None.
Proof.
  intros Hd [deadline Hw]. split; [|done]. unfold wait_for_next_attempt. cbn [stop_policy rp_stop_requested].
  unfold next_delay in *. cbn [stop_policy rp_config rp_attempt]. rewrite Hd. cbn. by rewrite Hw.
Qed.

(** A back-off of three centuries, which the configuration may ask for, does
    not fit the deadline: the wait is undefined behaviour. *)
Example wait_overflows :
  wait_for_next_attempt (λ lo _, lo)
    (new_policy {| rc_initial_backoff_ms := 10 ^ 13; rc_max_backoff_ms := 10 ^ 13; rc_jitter_ratio := double_0 |})
    true 0 = Some Undef.
Proof. vm_compute. reflexivity. Qed.

Example jittered_delay : apply_jitter (λ lo _, lo) default_ReconnectConfig 1000 = Ret 800.
Proof. vm_compute. reflexivity. Qed.
