(* ===== verification/Jitter.v ===== *)
(** * The jittered back-off delay

    [ReconnectPolicy::apply_jitter] (app/src/net/ReconnectPolicy.cpp, lines
    25-38) computes in double precision and truncates to milliseconds.  The
    delay stays within the documented ratio of the base delay, rounding
    included, and the cast to an integer is always defined. *)

From S2P Require Import Prelude Float64 Json ConfigLoader ReconnectPolicy.

(** What the documentation of [std::uniform_real_distribution] promises of a
    value drawn between two non-negative bounds. *)
Definition draws_within (draw : spec_float → spec_float → spec_float) : Prop :=
  ∀ lo hi a b, worth lo a → worth hi b → a ≤ b → ∃ v, worth (draw lo hi) v ∧ a ≤ v ≤ b.

(** A double as a number of the configuration file can give it. *)
Definition proper_double (x : spec_float) : Prop := d_valid x = true ∧ x ≠ S754_nan.

(** base * ratio, rounded up to whole milliseconds. *)
Definition jitter_spread (ratio : spec_float) (base : Z) : Z :=
  - ((- (base * default 0 (units ratio))) / unit_one).

(** ** Lemmas *)

Lemma unit_one_pos : 0 < unit_one.
Proof. done. Qed.

Lemma ratio_worth r :
  proper_double r → ratio_ok r → SFleb r double_0 = false → ∃ u, worth r u ∧ u ≤ unit_one.
Proof.
  intros [Hv Hn] [H0 H1] Hle. destruct r as [s|[]| |[] m e]; try done.
  exists (Zpos m * 2 ^ (e + 1074)). cbn [valid_binary] in Hv. unfold bounded, canonical_mantissa in Hv.
  apply andb_true_iff in Hv as [Hv%Z.eqb_eq _].
  change (d_fexp (Zpos (digits2_pos m) + e)) with (Z.max (Zpos (digits2_pos m) + e - 53) (-1074)) in Hv.
  assert (Zpos m < 2 ^ 53) as Hm.
  { pose proof (digits2_pos_bounds m). assert (2 ^ Zpos (digits2_pos m) ≤ 2 ^ 53) by (apply Z.pow_le_mono_r; lia). lia. }
  unfold SFltb, double_1 in H1. cbn [SFcompare] in H1. destruct (Z.compare_spec (-52) e) as [<-|Hlt|Hgt]; [|done|].
  - split; [cbn; lia|]. unfold unit_one. replace (2 ^ 1074) with (2 ^ 52 * 2 ^ (-52 + 1074)) by reflexivity.
    apply Z.mul_le_mono_nonneg_r; [apply Z.pow_nonneg; lia|].
    change (Pos.compare_cont Eq 4503599627370496 m) with (4503599627370496 ?= m)%positive in H1.
    apply Z.le_ngt. intros Hgt. assert ((4503599627370496 ?= m)%positive = Lt) as Hc
      by (apply Pos.compare_lt_iff; lia). by rewrite Hc in H1.
  - split; [cbn; lia|]. unfold unit_one. replace (2 ^ 1074) with (2 ^ 53 * 2 ^ 1021) by reflexivity.
    apply Z.mul_le_mono_nonneg; [lia..|apply Z.pow_nonneg; lia|apply Z.pow_le_mono_r; lia].
Qed.

(** Rounding does not cross a whole number of up to 2^53. *)
Lemma faithful_int x v n :
  faithful 1074 x v → 0 ≤ n ≤ 2 ^ 53 →
  (x ≤ n * unit_one → v ≤ n * unit_one) ∧ (n * unit_one ≤ x → n * unit_one ≤ v).
Proof. intros Hf Hn. apply (Hf n 0); lia. Qed.

Lemma double_of_i64_worth n : 0 ≤ n ≤ 2 ^ 53 → worth (double_of_i64 n) (n * unit_one).
Proof.
  intros Hn. destruct (binary_normalize_worth n 0) as (v & Hw & Hf); [lia..| |].
  { transitivity (2 ^ 53 * 2 ^ 1074); [|done]. apply Z.mul_le_mono_nonneg_r; [done|lia]. }
  change (2 ^ (0 + 1074)) with unit_one in Hf. destruct (faithful_int _ _ n Hf Hn) as [Hup Hlo].
  unfold double_of_i64. by replace (n * unit_one) with v by (apply Z.le_antisymm; auto with lia).
Qed.

Lemma double_to_i64_worth x v :
  worth x v → v < two63 * unit_one → double_to_i64 (double_max double_0 x) = Ret (v / unit_one).
Proof.
  intros Hw Hlt. destruct x as [s|s| |s m e]; try done.
  { destruct Hw as [-> ->]. reflexivity. }
  assert (0 ≤ v / unit_one < two63) as Hr.
  { split; [apply Z.div_pos; [by eapply worth_nonneg|done]|]. apply Z.div_lt_upper_bound; [done|]. lia. }
  destruct Hw as (-> & He & ->). change (double_max double_0 (S754_finite false m e)) with (S754_finite false m e).
  cbn [double_to_i64]. enough ((if 0 <=? e then Zpos m * 2 ^ e else Zpos m / 2 ^ (- e)) =
    Zpos m * 2 ^ (e + 1074) / unit_one) as -> by (apply i64_checked_in; range).
  unfold unit_one. destruct (Z.leb_spec 0 e).
  - rewrite pow2_split, Z.mul_assoc by lia. by rewrite Z.div_mul.
  - replace (2 ^ 1074) with (2 ^ (- e) * 2 ^ (e + 1074)) by (rewrite <- pow2_split by lia; f_equal; lia).
    symmetry. apply Z.div_mul_cancel_r; apply Z.pow_nonzero; lia.
Qed.

Lemma jitter_spread_spec ratio u base :
  worth ratio u → u ≤ unit_one → 0 ≤ base →
  0 ≤ jitter_spread ratio base ≤ base ∧ base * u ≤ jitter_spread ratio base * unit_one.
Proof.
  intros Hw Hu Hb. unfold jitter_spread. rewrite (worth_units _ _ Hw). cbn [default from_option id].
  pose proof (worth_nonneg _ _ Hw). pose proof unit_one_pos.
  pose proof (Z.div_mod (- (base * u)) unit_one ltac:(lia)).
  pose proof (Z.mod_pos_bound (- (base * u)) unit_one ltac:(lia)).
  generalize dependent unit_one. intros U. set (q := - (base * u) / U). intros ? ? ? ?. split; nia.
Qed.

(** The bounds of the distribution. *)
Lemma jitter_bounds ratio u base :
  worth ratio u → u ≤ unit_one → 0 ≤ base ≤ 2 ^ 52 →
  let base_ms := double_of_i64 base in
  let spread := SFmul 53 1024 base_ms ratio in
  ∃ a b, worth (SFsub 53 1024 base_ms spread) a ∧ worth (SFadd 53 1024 base_ms spread) b ∧ a ≤ b ∧
    (base - jitter_spread ratio base) * unit_one ≤ a ∧ b ≤ (base + jitter_spread ratio base) * unit_one.
Proof.
  intros Hw Hu Hb base_ms spread. destruct (jitter_spread_spec ratio u base Hw Hu ltac:(lia)) as [HC Hceil].
  set (C := jitter_spread ratio base) in *. assert (worth base_ms (base * unit_one)) as Hbase
    by (apply double_of_i64_worth; lia).
  assert (base * unit_one ≤ 2 ^ 53 * 2 ^ 1074) as Hmax by (apply Z.mul_le_mono_nonneg_r; [done|lia]).
  assert (∀ c, 0 ≤ c ≤ 2 ^ 53 → c * 2 ^ (0 + 2148) = c * unit_one * 2 ^ 1074) as Hsc
    by (intros; unfold unit_one; rewrite <- Z.mul_assoc, <- pow2_split by lia; done).
  destruct (SFmul_worth base_ms ratio _ u Hbase Hw) as (v & Hv & Hf); [unfold max_units; lia|done|].
  fold spread in Hv. pose proof (worth_nonneg _ _ Hv).
  assert (v ≤ C * unit_one) as HvC.
  { apply (Z.mul_le_mono_pos_r _ _ (2 ^ 1074)); [done|]. rewrite <- Hsc by lia. apply Hf; [lia..|].
    rewrite Hsc by lia. replace (base * unit_one * u) with (base * u * unit_one) by ring.
    by apply Z.mul_le_mono_nonneg_r. }
  assert (C * unit_one ≤ base * unit_one) by (apply Z.mul_le_mono_nonneg_r; [done|lia]).
  destruct (SFsub_worth base_ms spread _ v Hbase Hv) as (a & Ha & Hfa); [lia|unfold max_units; lia|].
  destruct (SFadd_worth base_ms spread _ v Hbase Hv) as (b & Hb' & Hfb); [unfold max_units; lia|].
  exists a, b. split_and!; [done..| | |].
  - transitivity (base * unit_one); [apply (faithful_int _ _ base Hfa)|apply (faithful_int _ _ base Hfb)]; lia.
  - apply (faithful_int _ _ (base - C) Hfa); lia.
  - apply (faithful_int _ _ (base + C) Hfb); lia.
Qed.

Lemma jitter_in_range draw config base :
  draws_within draw → proper_double (rc_jitter_ratio config) → ratio_ok (rc_jitter_ratio config) →
  0 ≤ base ≤ 2 ^ 52 →
  ∃ delay, apply_jitter draw config base = Ret delay ∧ 0 ≤ delay ≤ 2 * base ∧
    Z.abs (delay - base) ≤ jitter_spread (rc_jitter_ratio config) base.
Proof.
  intros Hdraw Hp Hr Hb. unfold apply_jitter. set (r := rc_jitter_ratio config) in *.
  destruct (SFleb r double_0) eqn:H0.
  { exists base. split; [done|]. split; [lia|]. rewrite Z.sub_diag. destruct Hr as [Hr _].
    destruct r as [s|[]| |[] m e]; try done. unfold jitter_spread. cbn [units default from_option id].
    by rewrite Z.mul_0_r. }
  destruct (ratio_worth r Hp Hr H0) as (u & Hw & Hu).
  destruct (jitter_spread_spec r u base Hw Hu ltac:(lia)) as [HC _].
  destruct (jitter_bounds r u base Hw Hu Hb) as (a & b & Ha & Hb' & Hab & Hlo & Hhi).
  destruct (Hdraw _ _ _ _ Ha Hb' Hab) as (v & Hv & Hva & Hvb).
  pose proof unit_one_pos as HU. set (C := jitter_spread r base) in *.
  assert (base - C ≤ v / unit_one) by (apply Z.div_le_lower_bound; [done|lia]).
  assert (v / unit_one < base + C + 1) by (apply Z.div_lt_upper_bound; [done|lia]).
  rewrite (double_to_i64_worth _ v Hv); [exists (v / unit_one); split; [done|lia]|].
  assert ((base + C) * unit_one < two63 * unit_one) by (apply Z.mul_lt_mono_pos_r; [done|lia]). lia.
Qed.

(** ** Properties *)

(** C39: jitter stays within the documented range.  For base delays of up to
    2^52 ms, whatever is drawn between the bounds passed to the distribution,
    the jittered delay is defined, not negative, and differs from the base
    delay by at most base * jitter_ratio rounded up to a millisecond, floating
    point and truncation included; the ratio being at most one, it is at most
    twice the base delay. *)
Theorem jitter_within_ratio draw config base :
  draws_within draw → proper_double (rc_jitter_ratio config) → ratio_ok (rc_jitter_ratio config) →
  0 ≤ base ≤ 2 ^ 52 →
  ∃ delay, apply_jitter draw config base = Ret delay ∧ 0 ≤ delay ≤ 2 * base ∧
    Z.abs (delay - base) ≤ jitter_spread (rc_jitter_ratio config) base.
Proof. apply jitter_in_range. Qed.

(** The default ratio is 0.2, as nearly as a double can be: at most 6001 ms of
    jitter on the longest default delay. *)
Lemma jitter_within_ratio_witness :
  jitter_spread double_0_2 30000 = 6001 ∧
  ∃ delay, apply_jitter (λ lo _, lo) default_ReconnectConfig 30000 = Ret delay ∧ 0 ≤ delay ≤ 2 * 30000 ∧
    Z.abs (delay - 30000) ≤ jitter_spread double_0_2 30000.
Proof.
  split; [vm_compute; reflexivity|]. apply (jitter_within_ratio (λ lo _, lo) default_ReconnectConfig 30000).
  - intros lo hi a b Ha _ Hab. exists a. split; [exact Ha|lia].
  - split; [reflexivity|discriminate].
  - split; reflexivity.
  - lia.
Defined.

(** The delay before every attempt, also after the attempt count has wrapped
    around, is defined when the back-off is configured below 2^52 ms. *)
Lemma next_delay_defined draw p :
  draws_within draw → proper_double (rc_jitter_ratio (rp_config p)) → ratio_ok (rc_jitter_ratio (rp_config p)) →
  0 < rc_initial_backoff_ms (rp_config p) → 0 ≤ rc_max_backoff_ms (rp_config p) ≤ 2 ^ 52 → 0 ≤ rp_attempt p →
  ∃ delay, next_delay draw p = Ret delay ∧ 0 ≤ delay ≤ 2 * rc_max_backoff_ms (rp_config p).
Proof.
  intros Hd Hp Hr Hi Hm Ha. pose proof (pow2_pos _ Ha). unfold next_delay. rewrite base_delay_min by lia.
  destruct (jitter_in_range draw (rp_config p)
    (Z.min (rc_initial_backoff_ms (rp_config p) * 2 ^ rp_attempt p) (rc_max_backoff_ms (rp_config p))))
    as (delay & -> & Hb & _); [done..|nia|]. exists delay. split; [done|]. lia.
Qed.

(** ** The sequence of delays *)

(** Waits that all elapse, entered at the readings [clock] of the steady clock:
    the delays waited for and the policy afterwards. *)
Fixpoint elapsed_waits (draw : spec_float → spec_float → spec_float) (clock : list Z) (p : ReconnectPolicy) :
    outcome (list Z * ReconnectPolicy) :=
  match clock with
  | [] => Ret ([], p)
  | steady_ns :: clock =>
      delay ← next_delay draw p;
      match wait_for_next_attempt draw p true steady_ns with
      | Some m =>
          '(_, p) ← m;
          '(delays, p) ← elapsed_waits draw clock p;
          Ret (delay :: delays, p)
      | None => Undef
      end
  end.

(** The documented delay before attempt [i], without jitter. *)
Definition documented_delay (config : ReconnectConfig) (i : Z) : Z :=
  Z.min (rc_initial_backoff_ms config * 2 ^ i) (rc_max_backoff_ms config).

(** Within the jitter of the documented delay. *)
Definition delay_ok (config : ReconnectConfig) (i delay : Z) : Prop :=
  Z.abs (delay - documented_delay config i) ≤ jitter_spread (rc_jitter_ratio config) (documented_delay config i) ∧
  (SFleb (rc_jitter_ratio config) double_0 = true → delay = documented_delay config i).

Lemma next_delay_ok draw config a stop :
  draws_within draw → proper_double (rc_jitter_ratio config) → ratio_ok (rc_jitter_ratio config) →
  0 < rc_initial_backoff_ms config → 0 ≤ rc_max_backoff_ms config ≤ 2 ^ 41 → 0 ≤ a →
  ∃ delay, next_delay draw {| rp_config := config; rp_attempt := a; rp_stop_requested := stop |} = Ret delay ∧
    delay_ok config a delay ∧ interval_ok delay.
Proof.
  intros Hd Hp Hr Hi Hm Ha. pose proof (pow2_pos _ Ha). unfold next_delay. cbn [rp_config rp_attempt].
  change (2 ^ 41) with 2199023255552 in Hm. rewrite base_delay_min by lia. fold (documented_delay config a).
  assert (0 ≤ documented_delay config a ≤ 2199023255552) as Hb by (unfold documented_delay; nia).
  destruct (jitter_in_range draw config (documented_delay config a)) as (delay & Hj & Hdb & Hs);
    [done..|change (2 ^ 52) with 4503599627370496; lia|].
  exists delay. split; [done|]. split; [|unfold interval_ok; change (2 ^ 42) with 4398046511104; lia].
  split; [done|]. by apply (jitter_nonneg draw config _ delay); [lia|].
Qed.

Lemma elapsed_waits_from draw config clock a :
  draws_within draw → proper_double (rc_jitter_ratio config) → ratio_ok (rc_jitter_ratio config) →
  0 < rc_initial_backoff_ms config → 0 ≤ rc_max_backoff_ms config ≤ 2 ^ 41 → Forall steady_ok clock →
  0 ≤ a → a + Z.of_nat (length clock) < two32 →
  ∃ delays, elapsed_waits draw clock {| rp_config := config; rp_attempt := a; rp_stop_requested := false |} =
      Ret (delays, {| rp_config := config; rp_attempt := a + Z.of_nat (length clock); rp_stop_requested := false |}) ∧
    length delays = length clock ∧
    ∀ i delay, delays !! i = Some delay → delay_ok config (a + Z.of_nat i) delay.
Proof.
  intros Hd Hp Hr Hi Hm Hc. revert a. induction Hc as [|st clock Hst _ IH]; intros a Ha Hk.
  { exists []. cbn. rewrite Z.add_0_r. done. }
  cbn [length] in Hk. destruct (next_delay_ok draw config a false Hd Hp Hr Hi Hm Ha) as (delay & Hdelay & Hok & Hint).
  destruct (wait_deadline_ok st delay Hst Hint) as [deadline Hdl].
  destruct (IH (a + 1) ltac:(lia) ltac:(lia)) as (delays & Hrest & Hlen & Hall).
  exists (delay :: delays). cbn [elapsed_waits]. unfold wait_for_next_attempt. cbn [rp_stop_requested].
  rewrite Hdelay. cbn [mbind outcome_bind]. rewrite Hdl. cbn [mbind outcome_bind rp_config rp_attempt].
  rewrite Z.mod_small, Hrest by lia. cbn [mbind outcome_bind length]. split_and!; [do 3 f_equal; lia|congruence|].
  intros [|i] d; cbn; [intros [= <-]; by rewrite Z.add_0_r|]. intros Hi'. apply Hall in Hi'.
  by replace (a + Z.of_nat (S i)) with (a + 1 + Z.of_nat i) by lia.
Qed.

(** C40: the waits of a connection that keeps failing form the documented
    sequence initial, 2 * initial, 4 * initial, ..., capped at the maximum,
    each within the configured jitter and exactly so when jitter is off; the
    attempt count is the number of waits.  This holds for back-offs of up to
    2^41 ms, for fewer than 2^32 attempts, and while the steady clock is below
    2^62 ns, so that the deadlines fit. *)
Theorem backoff_sequence draw config clock :
  draws_within draw → proper_double (rc_jitter_ratio config) → ratio_ok (rc_jitter_ratio config) →
  positive_u64 (rc_initial_backoff_ms config) →
  rc_initial_backoff_ms config ≤ rc_max_backoff_ms config ≤ 2 ^ 41 →
  Forall steady_ok clock → Z.of_nat (length clock) < two32 →
  ∃ delays p, elapsed_waits draw clock (new_policy config) = Ret (delays, p) ∧
    current_attempt p = Z.of_nat (length clock) ∧ length delays = length clock ∧
    ∀ i delay, delays !! i = Some delay →
      let base := Z.min (rc_initial_backoff_ms config * 2 ^ Z.of_nat i) (rc_max_backoff_ms config) in
      Z.abs (delay - base) ≤ jitter_spread (rc_jitter_ratio config) base ∧
      (SFleb (rc_jitter_ratio config) double_0 = true → delay = base).
Proof.
  intros Hd Hp Hr [Hi _] Hm Hc Hk.
  destruct (elapsed_waits_from draw config clock 0 Hd Hp Hr ltac:(lia) ltac:(lia) Hc ltac:(lia) ltac:(lia))
    as (delays & Hw & Hlen & Hall).
  exists delays. eexists. split; [exact Hw|]. split; [done|]. split; [done|]. intros i delay Hdelay. apply (Hall i delay Hdelay).
Qed.

(** The default configuration, with 20 percent of jitter. *)
Lemma backoff_sequence_witness :
  ∃ delays p, elapsed_waits (λ lo _, lo) [0; 1000000000; 3000000000] (new_policy default_ReconnectConfig) = Ret (delays, p) ∧
    current_attempt p = 3 ∧ length delays = 3%nat ∧
    ∀ i delay, delays !! i = Some delay →
      let base := Z.min (500 * 2 ^ Z.of_nat i) 30000 in
      Z.abs (delay - base) ≤ jitter_spread double_0_2 base ∧
      (SFleb double_0_2 double_0 = true → delay = base).
Proof.
  apply (backoff_sequence (λ lo _, lo) default_ReconnectConfig [0; 1000000000; 3000000000]).
  - intros lo hi a b Ha _ Hab. exists a. split; [exact Ha|lia].
  - split; [reflexivity|discriminate].
  - split; reflexivity.
  - unfold positive_u64. cbn. lia.
  - split; vm_compute; discriminate.
  - repeat constructor; vm_compute; discriminate.
  - cbn. lia.
Defined.

Example jittered_sequence :
  fst <$> elapsed_waits (λ lo _, lo) [0; 0; 0; 0] (new_policy default_ReconnectConfig) = Ret [400; 800; 1600; 3200].
Proof. vm_compute. reflexivity. Qed.
