(* ===== verification/Totals.v ===== *)
(** * Sums over lists

    Counting threads in a list of program counters. *)

From S2P Require Import Prelude.

Definition total {A} (f : A → Z) (l : list A) : Z := foldr (λ x z, f x + z) 0 l.

(** 1 for the elements that satisfy a test. *)
Definition ind (b : bool) : Z := if b then 1 else 0.

Section total.
Context {A : Type}.
Implicit Types (f g : A → Z) (l : list A).

Lemma total_cons f x l : total f (x :: l) = f x + total f l.
Proof. done. Qed.

Lemma total_app f l1 l2 : total f (l1 ++ l2) = total f l1 + total f l2.
Proof. unfold total. induction l1; cbn; lia. Qed.

Lemma total_insert f l i x y :
  l !! i = Some x → total f (<[i:=y]> l) = total f l - f x + f y.
Proof.
  intros Hi. rewrite insert_take_drop by eauto using lookup_lt_Some.
  rewrite <- (take_drop_middle l i x) at 3 by done.
  rewrite !total_app. cbn. lia.
Qed.

Lemma total_nonneg f l : (∀ x, 0 ≤ f x) → 0 ≤ total f l.
Proof. intros Hf. unfold total. induction l as [|x l IH]; cbn; [done|]. specialize (Hf x). lia. Qed.

Lemma total_elem f l x : (∀ x, 0 ≤ f x) → x ∈ l → f x ≤ total f l.
Proof.
  intros Hf. induction 1 as [|x y l _ IH]; unfold total in *; cbn.
  - pose proof (total_nonneg f l Hf). unfold total in *. lia.
  - specialize (Hf y). lia.
Qed.

Lemma total_zero f l : (∀ x, x ∈ l → f x = 0) → total f l = 0.
Proof.
  intros Hf. unfold total. induction l as [|x l IH]; cbn; [done|].
  rewrite (Hf x) by left. rewrite IH; [done|]. intros y Hy. apply Hf. by right.
Qed.

Lemma total_ext f g l : (∀ x, x ∈ l → f x = g x) → total f l = total g l.
Proof.
  intros Hfg. unfold total. induction l as [|x l IH]; cbn; [done|].
  rewrite (Hfg x) by left. rewrite IH; [done|]. intros y Hy. apply Hfg. by right.
Qed.

(** A pointwise change of the elements. *)
Lemma total_fmap f g (h : A → A) l :
  (∀ x, f (h x) = g x) → total f (h <$> l) = total g l.
Proof. intros Hh. unfold total. induction l as [|x l IH]; cbn; [done|]. by rewrite Hh, IH. Qed.

Lemma total_add f g h l : (∀ x, h x = f x + g x) → total h l = total f l + total g l.
Proof. intros Hh. unfold total. induction l as [|x l IH]; cbn; [done|]. rewrite Hh, IH. lia. Qed.

Lemma total_le f g l : (∀ x, f x ≤ g x) → total f l ≤ total g l.
Proof. intros Hfg. unfold total. induction l as [|x l IH]; cbn; [done|]. specialize (Hfg x). lia. Qed.

Lemma total_const c l : total (λ _, c) l = c * Z.of_nat (length l).
Proof. unfold total. induction l as [|x l IH]; cbn [foldr length]; lia. Qed.
End total.

Lemma total_map {A B} (f : B → Z) (h : A → B) l : total f (h <$> l) = total (λ x, f (h x)) l.
Proof. unfold total. induction l as [|x l IH]; cbn; [done|]. by rewrite IH. Qed.

Lemma ind_nonneg b : 0 ≤ ind b.
Proof. by destruct b. Qed.
#[export] Hint Resolve ind_nonneg total_nonneg : cpp.

#[global] Arguments total : simpl never.
