(* ===== verification/BoundedQueue.v ===== *)
(** * [BoundedQueue]

    app/include/agg/runtime/BoundedQueue.hpp, in two layers.

    - The critical sections as functions on the protected state, and from
      them the atomic operations [push], [pop] and [shutdown] ([None]: the
      caller blocks).  These are what the rest of the program is verified
      against.
    - The monitor: any number of threads that lock, wait on the two condition
      variables, notify after unlocking, and may wake up spuriously, as a step
      relation.  Every step is an atomic operation or invisible, no wake-up
      is lost, and a thread blocks only where the atomic operation does. *)

From S2P Require Import Prelude Totals.

(** ** The protected state and the critical sections *)

Record BoundedQueue (T : Type) := {
  bq_items : list T;
  bq_capacity : Z;
  bq_shutdown : bool
}.
Arguments bq_items {T} _.
Arguments bq_capacity {T} _.
Arguments bq_shutdown {T} _.

Section queue.
Context {T : Type}.
Implicit Types (q : BoundedQueue T) (item : T).

(** The constructor. *)
Definition new_queue (capacity : Z) : BoundedQueue T :=
  {| bq_items := []; bq_capacity := capacity; bq_shutdown := false |}.

Definition size q : Z := Z.of_nat (length (bq_items q)).

(** The predicate [push] waits for. *)
Definition not_full q : bool := bq_shutdown q || (size q <? bq_capacity q).

(** What [push] does once the wait is over, with the mutex held. *)
Definition push_locked q item : bool * BoundedQueue T :=
  if bq_shutdown q then (false, q)
  else (true, {| bq_items := bq_items q ++ [item]; bq_capacity := bq_capacity q;
                 bq_shutdown := bq_shutdown q |}).

(** The predicate [pop] waits for. *)
Definition not_empty q : bool :=
  bq_shutdown q || match bq_items q with [] => false | _ => true end.

Definition pop_locked q : option T * BoundedQueue T :=
  match bq_items q with
  | [] => (None, q)
  | item :: items =>
      (Some item, {| bq_items := items; bq_capacity := bq_capacity q; bq_shutdown := bq_shutdown q |})
  end.

Definition shutdown q : BoundedQueue T :=
  {| bq_items := bq_items q; bq_capacity := bq_capacity q; bq_shutdown := true |}.

(** The atomic operations. *)
Definition push q item : option (bool * BoundedQueue T) :=
  if not_full q then Some (push_locked q item) else None.

Definition pop q : option (option T * BoundedQueue T) :=
  if not_empty q then Some (pop_locked q) else None.

(** The invariant of the queue. *)
Definition queue_ok q : Prop := 0 ≤ size q ≤ bq_capacity q.

(** ** The monitor *)

Inductive cv := CvNotFull | CvNotEmpty.

#[export] Instance cv_eq_dec : EqDecision cv.
Proof. solve_decision. Defined.

(** Where a thread is in its call. *)
Inductive pc :=
  | Idle
  | PushLock (item : T)      (** about to take the mutex and test the predicate *)
  | PushWait (item : T)      (** in [not_full_.wait] *)
  | PushNotify               (** unlocked, about to call [not_empty_.notify_one] *)
  | PopLock
  | PopWait
  | PopNotify (item : T)
  | ShutdownLock
  | ShutdownNotifyFull
  | ShutdownNotifyEmpty.

(** The visible effect of a step: the operation that takes place. *)
Inductive label :=
  | Tau
  | EvPush (item : T) (pushed : bool)
  | EvPop (result : option T)
  | EvShutdown.

Inductive wake := WakeNone | WakeOne (c : cv) | WakeAll (c : cv).

(** A thread runs up to the end of its critical section, or does its
    notification; [None] when it is not in a call or waits. *)
Definition thread_step q (p : pc) : option (label * BoundedQueue T * pc * wake) :=
  match p with
  | Idle | PushWait _ | PopWait => None
  | PushLock item =>
      Some (if not_full q then
              let '(pushed, q') := push_locked q item in
              (EvPush item pushed, q', if pushed then PushNotify else Idle, WakeNone)
            else (Tau, q, PushWait item, WakeNone))
  | PushNotify => Some (Tau, q, Idle, WakeOne CvNotEmpty)
  | PopLock =>
      Some (if not_empty q then
              let '(result, q') := pop_locked q in
              (EvPop result, q',
               match result with Some item => PopNotify item | None => Idle end, WakeNone)
            else (Tau, q, PopWait, WakeNone))
  | PopNotify _ => Some (Tau, q, Idle, WakeOne CvNotFull)
  | ShutdownLock => Some (EvShutdown, shutdown q, ShutdownNotifyFull, WakeNone)
  | ShutdownNotifyFull => Some (Tau, q, ShutdownNotifyEmpty, WakeAll CvNotFull)
  | ShutdownNotifyEmpty => Some (Tau, q, Idle, WakeAll CvNotEmpty)
  end.

Definition waits_on (c : cv) (p : pc) : bool :=
  match c, p with
  | CvNotFull, PushWait _ | CvNotEmpty, PopWait => true
  | _, _ => false
  end.

(** A woken thread takes the mutex and tests its predicate again. *)
Definition wake_up (p : pc) : pc :=
  match p with
  | PushWait item => PushLock item
  | PopWait => PopLock
  | p => p
  end.

Definition wake_all (c : cv) (p : pc) : pc := if waits_on c p then wake_up p else p.

Inductive notify : wake → list pc → list pc → Prop :=
  | notify_none ts : notify WakeNone ts ts
  | notify_one_lost c ts : (∀ p, p ∈ ts → waits_on c p = false) → notify (WakeOne c) ts ts
  | notify_one c ts i p :
      ts !! i = Some p → waits_on c p = true → notify (WakeOne c) ts (<[i := wake_up p]> ts)
  | notify_all c ts : notify (WakeAll c) ts (wake_all c <$> ts).

Record monitor := { mon_queue : BoundedQueue T; mon_threads : list pc }.

Definition is_call (p : pc) : Prop :=
  match p with PushLock _ | PopLock | ShutdownLock => True | _ => False end.

(** A thread inside a call makes a step. *)
Inductive run_step : monitor → label → monitor → Prop :=
  | run_thread q ts i p l q' p' w ts' :
      ts !! i = Some p → thread_step q p = Some (l, q', p', w) →
      notify w (<[i := p']> ts) ts' →
      run_step {| mon_queue := q; mon_threads := ts |} l {| mon_queue := q'; mon_threads := ts' |}.

Inductive mon_step : monitor → label → monitor → Prop :=
  | mon_run m l m' : run_step m l m' → mon_step m l m'
  | mon_call q ts i p :
      ts !! i = Some Idle → is_call p →
      mon_step {| mon_queue := q; mon_threads := ts |} Tau
               {| mon_queue := q; mon_threads := <[i := p]> ts |}
  | mon_spurious q ts i c p :
      ts !! i = Some p → waits_on c p = true →
      mon_step {| mon_queue := q; mon_threads := ts |} Tau
               {| mon_queue := q; mon_threads := <[i := wake_up p]> ts |}.

(** Any number of idle threads around a new queue. *)
Definition new_monitor (capacity : Z) (threads : nat) : monitor :=
  {| mon_queue := new_queue capacity; mon_threads := replicate threads Idle |}.

(** Runs, with the operations that took place. *)
Inductive mon_run_star : monitor → list label → monitor → Prop :=
  | run_nil m : mon_run_star m [] m
  | run_snoc m ls m' l m'' :
      mon_run_star m ls m' → mon_step m' l m'' → mon_run_star m (ls ++ [l]) m''.

End queue.

Arguments pc : clear implicits.
Arguments label : clear implicits.
Arguments monitor : clear implicits.
