(* ===== verification/QueueProps.v ===== *)
(** * Properties of [BoundedQueue]

    The monitor implements the atomic queue; first in, first out; the
    capacity is never exceeded; no wake-up is lost, so that threads block
    only while the queue is full or empty, and never after a shutdown. *)

From stdpp Require Import relations.
From S2P Require Import Prelude Totals BoundedQueue.

Section queue_props.
Context {T : Type}.
Implicit Types (q : BoundedQueue T) (m : monitor T) (ts : list (pc T)) (p : pc T).

(** ** The atomic operations *)

Lemma push_Some q item b q' :
  push q item = Some (b, q') ↔
  (bq_shutdown q = true ∧ b = false ∧ q' = q) ∨
  (bq_shutdown q = false ∧ size q < bq_capacity q ∧ b = true ∧
   q' = {| bq_items := bq_items q ++ [item]; bq_capacity := bq_capacity q; bq_shutdown := false |}).
Proof.
  unfold push, not_full, push_locked. destruct (bq_shutdown q) eqn:Hs; cbn; [naive_solver|].
  destruct (Z.ltb_spec (size q) (bq_capacity q)); naive_solver lia.
Qed.

Lemma pop_Some q r q' :
  pop q = Some (r, q') ↔
  (bq_shutdown q = true ∧ bq_items q = [] ∧ r = None ∧ q' = q) ∨
  (∃ item items, bq_items q = item :: items ∧ r = Some item ∧
   q' = {| bq_items := items; bq_capacity := bq_capacity q; bq_shutdown := bq_shutdown q |}).
Proof.
  unfold pop, not_empty, pop_locked.
  destruct (bq_items q) eqn:Hi, (bq_shutdown q) eqn:Hs; cbn; naive_solver.
Qed.

Lemma push_None q item :
  push q item = None ↔ bq_shutdown q = false ∧ bq_capacity q ≤ size q.
Proof.
  unfold push, not_full. destruct (bq_shutdown q); cbn; [naive_solver|].
  destruct (Z.ltb_spec (size q) (bq_capacity q)); naive_solver lia.
Qed.

Lemma pop_None q : pop q = None ↔ bq_shutdown q = false ∧ bq_items q = [].
Proof. unfold pop, not_empty. destruct (bq_items q), (bq_shutdown q); naive_solver. Qed.

Lemma size_app q items :
  bq_items q = items → size q = Z.of_nat (length items).
Proof. unfold size. by intros ->. Qed.

Lemma push_ok q item b q' : queue_ok q → push q item = Some (b, q') → queue_ok q'.
Proof.
  unfold queue_ok. intros Hq [(_ & _ & ->)|(_ & ? & _ & ->)]%push_Some; [done|].
  unfold size in *. cbn. rewrite length_app. cbn. lia.
Qed.

Lemma pop_ok q r q' : queue_ok q → pop q = Some (r, q') → queue_ok q'.
Proof.
  unfold queue_ok, size. intros Hq [(_ & _ & _ & ->)|(x & l & Hi & _ & ->)]%pop_Some; [done|].
  rewrite Hi in Hq. cbn in *. lia.
Qed.

(** The operation a label stands for, on the atomic queue. *)
Definition atomic_step q (l : label T) q' : Prop :=
  match l with
  | Tau => q' = q
  | EvPush item b => push q item = Some (b, q')
  | EvPop r => pop q = Some (r, q')
  | EvShutdown => q' = shutdown q
  end.

Lemma thread_step_atomic q p l q' p' w :
  thread_step q p = Some (l, q', p', w) → atomic_step q l q'.
Proof.
  destruct p; cbn; intros Hstep; simplify_eq; try done; unfold atomic_step, push, pop.
  - destruct (not_full q); [destruct (push_locked q item) eqn:Hp |]; simplify_eq; by rewrite ?Hp.
  - destruct (not_empty q); [destruct (pop_locked q) eqn:Hp |]; simplify_eq; by rewrite ?Hp.
Qed.

Lemma mon_step_atomic m l m' : mon_step m l m' → atomic_step (mon_queue m) l (mon_queue m').
Proof. destruct 1 as [m l m' []| |]; cbn; eauto using thread_step_atomic. Qed.

Lemma atomic_step_ok q l q' : queue_ok q → atomic_step q l q' → queue_ok q'.
Proof. destruct l; cbn; [naive_solver|apply push_ok|apply pop_ok|intros ? ->; done]. Qed.

Lemma atomic_step_capacity q l q' : atomic_step q l q' → bq_capacity q' = bq_capacity q.
Proof.
  destruct l; cbn; [naive_solver|intros [(_&_&->)|(_&_&_&->)]%push_Some; done| |by intros ->].
  intros [(_ & _ & _ & ->)|(x & l & _ & _ & ->)]%pop_Some; done.
Qed.

(** ** No lost wake-ups *)

Definition at_push_lock p := ind match p with PushLock _ => true | _ => false end.
Definition at_push_wait p := ind match p with PushWait _ => true | _ => false end.
Definition at_push_notify p := ind match p with PushNotify => true | _ => false end.
Definition at_pop_lock p := ind match p with PopLock => true | _ => false end.
Definition at_pop_wait p := ind match p with PopWait => true | _ => false end.
Definition at_pop_notify p := ind match p with PopNotify _ => true | _ => false end.
Definition at_shut_full p := ind match p with ShutdownNotifyFull => true | _ => false end.
Definition at_shut_empty p := ind match p with ShutdownNotifyEmpty => true | _ => false end.

(** While a thread waits in [pop], every item in the queue is matched by a
    notification to come or by a popping thread that is awake; dually for
    [push] and the free slots, until a shutdown; after that, whoever still
    waits has a [notify_all] to come. *)
Record wakeups_ok q ts : Prop := {
  items_noticed :
    total at_pop_wait ts = 0 ∨ size q ≤ total at_push_notify ts + total at_pop_lock ts;
  slots_noticed :
    bq_shutdown q = false → total at_push_wait ts = 0 ∨
    bq_capacity q - size q ≤ total at_pop_notify ts + total at_push_lock ts;
  push_released : bq_shutdown q = true → total at_push_wait ts = 0 ∨ 1 ≤ total at_shut_full ts;
  pop_released :
    bq_shutdown q = true →
    total at_pop_wait ts = 0 ∨ 1 ≤ total at_shut_full ts + total at_shut_empty ts;
  no_early_notify :
    bq_shutdown q = false → total at_shut_full ts = 0 ∧ total at_shut_empty ts = 0
}.

Definition mon_ok m : Prop := queue_ok (mon_queue m) ∧ wakeups_ok (mon_queue m) (mon_threads m).

Lemma counter_elem (f : pc T → bool) ts i p :
  ts !! i = Some p → ind (f p) ≤ total (λ p, ind (f p)) ts.
Proof.
  intros Hi. apply (total_elem (λ p, ind (f p))); [auto with cpp|by eapply list_elem_of_lookup_2].
Qed.

(** The eight counters after one thread has moved. *)
Ltac counters H :=
  pose proof (counter_elem (λ p, match p with PopWait => true | _ => false end) _ _ _ H);
  pose proof (counter_elem (λ p, match p with PushWait _ => true | _ => false end) _ _ _ H);
  repeat match goal with
  | |- context [total ?f (<[_ := _]> _)] => rewrite (total_insert f _ _ _ _ H)
  | Hx : context [total ?f (<[_ := _]> _)] |- _ => rewrite (total_insert f _ _ _ _ H) in Hx
  end.

Ltac solve_counters :=
  repeat match goal with H : ?P → _, H' : ?P |- _ => specialize (H H') end;
  unfold at_push_lock, at_push_wait, at_push_notify, at_pop_lock, at_pop_wait, at_pop_notify,
    at_shut_full, at_shut_empty, size in *; cbn [ind wake_up length app bq_items bq_capacity bq_shutdown] in *;
  rewrite ?length_app in *; cbn [length] in *; try lia.

Lemma wakeups_call q ts i p :
  wakeups_ok q ts → ts !! i = Some Idle → is_call p → wakeups_ok q (<[i := p]> ts).
Proof.
  intros [H1 H2 H3 H4 H5] Hi Hp. split; intros; counters Hi; destruct p; try done; solve_counters.
Qed.

Lemma wakeups_wake q ts i c p :
  wakeups_ok q ts → ts !! i = Some p → waits_on c p = true → wakeups_ok q (<[i := wake_up p]> ts).
Proof.
  intros [H1 H2 H3 H4 H5] Hi Hp. split; intros; counters Hi; destruct c, p; try done; solve_counters.
Qed.
Lemma no_waiter (f : pc T → Z) c ts :
  (∀ p, waits_on c p = false → f p = 0) → (∀ p, p ∈ ts → waits_on c p = false) → total f ts = 0.
Proof. intros Hf Hts. apply total_zero. auto. Qed.

Lemma wakeups_push q ts i item b q' p' :
  wakeups_ok q ts → ts !! i = Some (PushLock item) → push q item = Some (b, q') →
  p' = (if b then PushNotify else Idle) → wakeups_ok q' (<[i := p']> ts).
Proof.
  intros [H1 H2 H3 H4 H5] Hi Hp ->. apply push_Some in Hp as [(Hs & -> & ->)|(Hs & Hlt & -> & ->)];
    split; intros; counters Hi; solve_counters; congruence.
Qed.

Lemma wakeups_push_wait q ts i item :
  wakeups_ok q ts → ts !! i = Some (PushLock item) → push q item = None →
  wakeups_ok q (<[i := PushWait item]> ts).
Proof.
  intros [H1 H2 H3 H4 H5] Hi [Hs Hfull]%push_None.
  pose proof (counter_elem (λ p, match p with PushLock _ => true | _ => false end) _ _ _ Hi).
  pose proof (total_nonneg at_pop_notify ts (λ p, ind_nonneg _)).
  split; intros; counters Hi; solve_counters; congruence.
Qed.

Lemma wakeups_pop q ts i r q' p' :
  wakeups_ok q ts → ts !! i = Some PopLock → pop q = Some (r, q') →
  p' = (match r with Some item => PopNotify item | None => Idle end) →
  wakeups_ok q' (<[i := p']> ts).
Proof.
  intros [H1 H2 H3 H4 H5] Hi Hp ->.
  pose proof (counter_elem (λ p, match p with PopLock => true | _ => false end) _ _ _ Hi).
  pose proof (total_nonneg at_push_notify ts (λ p, ind_nonneg _)).
  apply pop_Some in Hp as [(Hs & Hl & -> & ->)|(x & l & Hl & -> & ->)];
    split; intros; counters Hi; unfold size in *; rewrite Hl in *; solve_counters; congruence.
Qed.

Lemma wakeups_pop_wait q ts i :
  wakeups_ok q ts → ts !! i = Some PopLock → pop q = None → wakeups_ok q (<[i := PopWait]> ts).
Proof.
  intros [H1 H2 H3 H4 H5] Hi [Hs Hl]%pop_None.
  pose proof (counter_elem (λ p, match p with PopLock => true | _ => false end) _ _ _ Hi).
  pose proof (total_nonneg at_push_notify ts (λ p, ind_nonneg _)).
  split; intros; counters Hi; unfold size in *; rewrite Hl in *; solve_counters; congruence.
Qed.

(** A notification wakes a waiting thread or finds none. *)
Lemma wakeups_notify_one q ts i c p ts' :
  wakeups_ok q ts → ts !! i = Some p →
  match c, p with CvNotEmpty, PushNotify | CvNotFull, PopNotify _ => True | _, _ => False end →
  notify (WakeOne c) (<[i := Idle]> ts) ts' → wakeups_ok q ts'.
Proof.
  intros [H1 H2 H3 H4 H5] Hi Hcp Hn. inversion Hn as [|? ? Hno|? ? j pj Hj Hw|]; subst.
  - destruct c, p; try done.
    + pose proof (no_waiter at_push_wait CvNotFull _ ltac:(by intros []) Hno) as Hz.
      split; intros; [|left; exact Hz|left; exact Hz| |]; counters Hi; solve_counters.
    + pose proof (no_waiter at_pop_wait CvNotEmpty _ ltac:(by intros []) Hno) as Hz.
      split; intros; [left; exact Hz| | |left; exact Hz|]; counters Hi; solve_counters.
  - destruct c, p, pj; try done; split; intros; counters Hj; counters Hi; solve_counters.
Qed.

Lemma wakeups_shutdown q ts i :
  wakeups_ok q ts → ts !! i = Some ShutdownLock →
  wakeups_ok (shutdown q) (<[i := ShutdownNotifyFull]> ts).
Proof.
  intros [H1 H2 H3 H4 H5] Hi.
  pose proof (total_nonneg at_shut_full ts (λ p, ind_nonneg _)).
  pose proof (total_nonneg at_shut_empty ts (λ p, ind_nonneg _)).
  split; intros; unfold shutdown, size in *; cbn [bq_shutdown bq_items bq_capacity] in *;
    try congruence; counters Hi; solve_counters.
Qed.

(** [notify_all] empties the set of waiting threads. *)
Lemma total_wake_all_same (f : pc T → Z) c ts :
  (∀ p, f (wake_all c p) = f p) → total f (wake_all c <$> ts) = total f ts.
Proof. intros. by apply total_fmap. Qed.

Lemma total_wake_all_more (f : pc T → Z) c ts :
  (∀ p, f p ≤ f (wake_all c p)) → total f ts ≤ total f (wake_all c <$> ts).
Proof.
  intros Hf. rewrite (total_fmap f (λ p, f (wake_all c p))) by done. by apply total_le.
Qed.

Lemma wakeups_notify_all_full q ts i :
  bq_shutdown q = true → wakeups_ok q ts → ts !! i = Some ShutdownNotifyFull →
  wakeups_ok q (wake_all CvNotFull <$> <[i := ShutdownNotifyEmpty]> ts).
Proof.
  intros Hs [H1 H2 H3 H4 H5] Hi. split; intros; rewrite ?Hs in *; try congruence.
  - rewrite !total_wake_all_same by (by intros []). counters Hi; solve_counters.
  - left. rewrite (total_fmap at_push_wait (λ _, 0)) by (by intros []). rewrite total_const. lia.
  - rewrite !total_wake_all_same by (by intros []). counters Hi; solve_counters.
Qed.

Lemma wakeups_notify_all_empty q ts i :
  bq_shutdown q = true → wakeups_ok q ts → ts !! i = Some ShutdownNotifyEmpty →
  wakeups_ok q (wake_all CvNotEmpty <$> <[i := Idle]> ts).
Proof.
  intros Hs [H1 H2 H3 H4 H5] Hi.
  assert (∀ ts, total at_pop_wait (wake_all CvNotEmpty <$> ts) = 0) as Hz.
  { intros. rewrite (total_fmap at_pop_wait (λ _, 0)) by (by intros []). rewrite total_const. lia. }
  split; intros; rewrite ?Hs in *; try congruence; try (left; apply Hz).
  rewrite !total_wake_all_same by (by intros []). counters Hi; solve_counters.
Qed.

Lemma wakeups_run q ts i p l q' p' w ts' :
  wakeups_ok q ts → ts !! i = Some p → thread_step q p = Some (l, q', p', w) →
  notify w (<[i := p']> ts) ts' → wakeups_ok q' ts'.
Proof.
  intros Hok Hi Hstep Hn.
  assert (Hs : total at_shut_full ts + total at_shut_empty ts ≠ 0 → bq_shutdown q = true).
  { destruct (bq_shutdown q) eqn:Hs; [done|]. destruct (no_early_notify _ _ Hok Hs). lia. }
  pose proof (counter_elem (λ p, match p with ShutdownNotifyFull => true | _ => false end) _ _ _ Hi).
  pose proof (counter_elem (λ p, match p with ShutdownNotifyEmpty => true | _ => false end) _ _ _ Hi).
  pose proof (total_nonneg at_shut_full ts (λ p, ind_nonneg _)).
  pose proof (total_nonneg at_shut_empty ts (λ p, ind_nonneg _)).
  destruct p; cbn in Hstep; try done.
  - destruct (push q item) as [[b q1]|] eqn:Hp; unfold push in Hp;
      destruct (not_full q) eqn:Hf; simplify_eq.
    + rewrite Hp in Hstep. simplify_eq. inversion Hn; subst.
      eapply wakeups_push; [done..| |done]. unfold push. by rewrite Hf, Hp.
    + inversion Hn; subst. apply wakeups_push_wait; [done..|]. unfold push. by rewrite Hf.
  - simplify_eq. by apply (wakeups_notify_one _ _ _ CvNotEmpty _ _ Hok Hi I).
  - destruct (pop q) as [[r q1]|] eqn:Hp; unfold pop in Hp;
      destruct (not_empty q) eqn:Hf; simplify_eq.
    + rewrite Hp in Hstep. simplify_eq. inversion Hn; subst.
      eapply wakeups_pop; [done..| |done]. unfold pop. by rewrite Hf, Hp.
    + inversion Hn; subst. apply wakeups_pop_wait; [done..|]. unfold pop. by rewrite Hf.
  - simplify_eq. by apply (wakeups_notify_one _ _ _ CvNotFull _ _ Hok Hi I).
  - simplify_eq. inversion Hn; subst. by apply wakeups_shutdown.
  - simplify_eq. inversion Hn; subst. apply wakeups_notify_all_full; [|done..].
    apply Hs. solve_counters.
  - simplify_eq. inversion Hn; subst. apply wakeups_notify_all_empty; [|done..].
    apply Hs. solve_counters.
Qed.

Lemma mon_step_ok m l m' : mon_ok m → mon_step m l m' → mon_ok m'.
Proof.
  intros [Hq Hw] Hstep. split; [by eapply atomic_step_ok, mon_step_atomic|].
  destruct Hstep as [m l m' []| |]; cbn in *;
    eauto using wakeups_run, wakeups_call, wakeups_wake.
Qed.

Lemma new_monitor_ok capacity n : 0 ≤ capacity → mon_ok (new_monitor capacity n).
Proof.
  intros Hc. split; [by split|].
  assert (∀ f : pc T → Z, f Idle = 0 → total f (replicate n Idle) = 0) as Hz.
  { intros f Hf. apply total_zero. by intros ? [-> _]%elem_of_replicate. }
  split; unfold new_monitor; cbn [mon_queue mon_threads bq_shutdown new_queue]; intros; try done;
    rewrite ?Hz by done; auto.
Qed.

Lemma mon_run_ok m ls m' : mon_ok m → mon_run_star m ls m' → mon_ok m'.
Proof. induction 2; eauto using mon_step_ok. Qed.

(** ** Quiescent states *)

Lemma notify_total w ts : ∃ ts', notify w ts ts'.
Proof.
  destruct w as [|c|c]; [eexists; constructor| |eexists; constructor].
  destruct (decide (Exists (λ p, waits_on c p = true) ts)) as [Hex|Hno].
  - apply Exists_exists in Hex as (p & [i Hi]%list_elem_of_lookup & Hw). eexists. by eapply notify_one.
  - exists ts. apply notify_one_lost. intros p Hp. apply not_true_is_false. intros Hw.
    apply Hno, Exists_exists. eauto.
Qed.

(** No thread is inside a critical section or about to notify. *)
Definition quiescent m : Prop := ∀ l m', ¬ run_step m l m'.

Lemma quiescent_threads m p :
  quiescent m → p ∈ mon_threads m →
  match p with Idle | PushWait _ | PopWait => True | _ => False end.
Proof.
  destruct m as [q ts]. cbn. intros Hq [i Hi]%list_elem_of_lookup.
  destruct (thread_step q p) as [[[[l q'] p'] w]|] eqn:Hstep; [|by destruct p].
  destruct (notify_total w (<[i := p']> ts)) as [ts' Hn].
  exfalso. by eapply Hq, run_thread.
Qed.

Lemma quiescent_intro m :
  Forall (λ p, thread_step (mon_queue m) p = None) (mon_threads m) → quiescent m.
Proof.
  rewrite Forall_forall. intros Hm l m' Hstep. destruct Hstep as [q ts i p ? ? ? ? ? Hi Hs].
  specialize (Hm p). cbn in Hm. rewrite Hm in Hs; [done|]. by eapply list_elem_of_lookup_2.
Qed.

(** ** Settling

    Weights that decrease with every step of a thread that is inside a call;
    [n] bounds the number of threads a [notify_all] can wake. *)
Definition weight (n : Z) p : Z :=
  match p with
  | Idle => 0
  | PushWait _ | PopWait | PushNotify | PopNotify _ => 2
  | PushLock _ | PopLock => 3
  | ShutdownNotifyEmpty => n + 1
  | ShutdownNotifyFull => 2 * n + 2
  | ShutdownLock => 2 * n + 3
  end.

Definition settle_measure m : Z :=
  total (weight (Z.of_nat (length (mon_threads m)))) (mon_threads m).

Lemma wake_all_weight n c ts :
  total (weight n) (wake_all c <$> ts) ≤ total (weight n) ts + Z.of_nat (length ts).
Proof.
  rewrite (total_fmap _ (λ p, weight n (wake_all c p))) by done.
  rewrite <- (Z.mul_1_l (Z.of_nat (length ts))).
  rewrite <- (total_const 1), <- (total_add (weight n) (λ _, 1) (λ p, weight n p + 1)) by done.
  apply total_le. intros []; destruct c; cbn; lia.
Qed.

Lemma notify_weight n w ts ts' :
  notify w ts ts' → length ts' = length ts ∧
  total (weight n) ts' ≤ total (weight n) ts +
    match w with WakeNone => 0 | WakeOne _ => 1 | WakeAll _ => Z.of_nat (length ts) end.
Proof.
  destruct 1 as [|c ts _|c ts i p Hi Hw|c ts].
  - split; [done|lia].
  - split; [done|lia].
  - rewrite length_insert, (total_insert _ _ _ _ _ Hi). split; [done|].
    destruct c, p; try done; cbn; lia.
  - rewrite length_fmap. split; [done|apply wake_all_weight].
Qed.

Lemma thread_step_weight n q p l q' p' w :
  0 ≤ n → thread_step q p = Some (l, q', p', w) →
  weight n p' + match w with WakeNone => 0 | WakeOne _ => 1 | WakeAll _ => n end < weight n p.
Proof.
  intros Hn. destruct p; cbn; intros Hstep; simplify_eq; cbn; try lia.
  - destruct (not_full q); [destruct (push_locked q item) as [[] ?]|]; simplify_eq; cbn; lia.
  - destruct (not_empty q); [destruct (pop_locked q) as [[] ?]|]; simplify_eq; cbn; lia.
Qed.

Lemma run_step_measure m l m' :
  run_step m l m' → 0 ≤ settle_measure m' < settle_measure m.
Proof.
  destruct 1 as [q ts i p l q' p' w ts' Hi Hstep Hn]. unfold settle_measure. cbn [mon_threads].
  destruct (notify_weight (Z.of_nat (length ts)) _ _ _ Hn) as [Hlen Hw].
  rewrite length_insert in *. rewrite Hlen.
  rewrite (total_insert _ _ _ _ _ Hi) in Hw.
  apply (thread_step_weight (Z.of_nat (length ts))) in Hstep; [|lia].
  split; [|lia]. apply total_nonneg. intros []; cbn; lia.
Qed.

(** ** Histories *)

Definition pushes (ls : list (label T)) : list T :=
  omap (λ l, match l with EvPush item true => Some item | _ => None end) ls.
Definition pops (ls : list (label T)) : list T :=
  omap (λ l, match l with EvPop r => r | _ => None end) ls.

Lemma atomic_step_history q l q' ps :
  ps = bq_items q → atomic_step q l q' →
  ps ++ pushes [l] = pops [l] ++ bq_items q'.
Proof.
  intros ->. destruct l as [|x b|r|]; cbn; [intros ->; by rewrite app_nil_r| | |intros ->; by rewrite app_nil_r].
  - intros [(_ & -> & ->)|(_ & _ & -> & ->)]%push_Some; cbn; by rewrite ?app_nil_r.
  - intros [(_ & _ & -> & ->)|(x & l & -> & -> & ->)]%pop_Some; cbn; by rewrite ?app_nil_r.
Qed.

Lemma run_history q0 m ls m' :
  mon_queue m = q0 → mon_run_star m ls m' →
  bq_items q0 ++ pushes ls = pops ls ++ bq_items (mon_queue m').
Proof.
  intros Hq. induction 1 as [m|m ls m1 l m2 _ IH Hstep]; [subst; by rewrite app_nil_r|].
  unfold pushes, pops in *. rewrite !omap_app, app_assoc, (IH Hq), <- app_assoc, <- app_assoc. f_equal.
  eapply atomic_step_history; [done|]. by eapply mon_step_atomic.
Qed.

Lemma run_shutdown m ls m' :
  mon_run_star m ls m' →
  bq_shutdown (mon_queue m') = true ↔ bq_shutdown (mon_queue m) = true ∨ EvShutdown ∈ ls.
Proof.
  induction 1 as [m|m ls m1 l m2 _ IH Hstep]; [set_solver|].
  apply mon_step_atomic in Hstep.
  assert (bq_shutdown (mon_queue m2) = true ↔ bq_shutdown (mon_queue m1) = true ∨ l = EvShutdown) as ->.
  { destruct l; cbn in Hstep; [rewrite Hstep; naive_solver| | |rewrite Hstep; naive_solver].
    - apply push_Some in Hstep as [(? & _ & ->)|(? & _ & _ & ->)]; cbn; naive_solver.
    - apply pop_Some in Hstep as [(? & _ & _ & ->)|(x & l & _ & _ & ->)]; cbn; naive_solver. }
  rewrite IH, elem_of_app, list_elem_of_singleton. naive_solver.
Qed.

Lemma run_split m ls1 l ls2 m' :
  mon_run_star m (ls1 ++ l :: ls2) m' →
  ∃ m1 m2, mon_run_star m ls1 m1 ∧ mon_step m1 l m2 ∧ mon_run_star m2 ls2 m'.
Proof.
  intros Hrun. remember (ls1 ++ l :: ls2) as ls eqn:Hls. revert ls2 Hls.
  induction Hrun as [m|m ls m1 l' m2 Hrun IH Hstep]; intros ls2 Hls; [by destruct ls1|].
  destruct ls2 as [|l2 ls2 _] using rev_ind.
  - apply app_inj_tail in Hls as [-> ->]. exists m1, m2. split_and!; [done..|constructor].
  - rewrite app_comm_cons, app_assoc in Hls. apply app_inj_tail in Hls as [-> ->].
    destruct (IH ls2 eq_refl) as (ma & mb & ? & ? & ?). exists ma, mb.
    split_and!; [done..|]. by eapply run_snoc.
Qed.

(** After a shutdown no push succeeds. *)
Lemma no_push_after_shutdown m ls m' :
  bq_shutdown (mon_queue m) = true → mon_run_star m ls m' → pushes ls = [].
Proof.
  intros Hs. induction 1 as [m|m ls m1 l m2 Hrun IH Hstep]; [done|].
  unfold pushes in *. rewrite omap_app, IH by done. destruct l as [|x b| |]; try done.
  apply mon_step_atomic in Hstep. cbn in Hstep.
  apply push_Some in Hstep as [(_ & -> & _)|(Hf & _)]; [done|].
  assert (bq_shutdown (mon_queue m1) = true) by (apply (run_shutdown _ _ _ Hrun); auto). congruence.
Qed.

(** The runs of the atomic queue. *)
Inductive atomic_run q0 : list (label T) → BoundedQueue T → Prop :=
  | atomic_nil : atomic_run q0 [] q0
  | atomic_snoc ls q1 l q2 :
      atomic_run q0 ls q1 → atomic_step q1 l q2 → atomic_run q0 (ls ++ [l]) q2.

Lemma mon_run_atomic m ls m' :
  mon_run_star m ls m' → atomic_run (mon_queue m) ls (mon_queue m').
Proof. induction 1; econstructor; eauto using mon_step_atomic. Qed.

Lemma atomic_run_capacity q ls q' : atomic_run q ls q' → bq_capacity q' = bq_capacity q.
Proof.
  induction 1 as [|ls q1 l q2 _ IH Hstep]; [done|]. by rewrite (atomic_step_capacity _ _ _ Hstep).
Qed.

(** ** An executable scheduler

    The first waiting thread is the one notified. *)
Inductive choice := Call (i : nat) (p : pc T) | Run (i : nat) | Spurious (i : nat).

Definition notify_exec (w : wake) ts : list (pc T) :=
  match w with
  | WakeNone => ts
  | WakeOne c =>
      match list_find (λ p, waits_on c p = true) ts with
      | Some (i, p) => <[i := wake_up p]> ts
      | None => ts
      end
  | WakeAll c => wake_all c <$> ts
  end.

Definition mon_exec_step m (ch : choice) : option (label T * monitor T) :=
  let '{| mon_queue := q; mon_threads := ts |} := m in
  match ch with
  | Call i p =>
      match ts !! i, p with
      | Some Idle, (PushLock _ | PopLock | ShutdownLock) =>
          Some (Tau, {| mon_queue := q; mon_threads := <[i := p]> ts |})
      | _, _ => None
      end
  | Run i =>
      p ← ts !! i;
      '(l, q', p', w) ← thread_step q p;
      Some (l, {| mon_queue := q'; mon_threads := notify_exec w (<[i := p']> ts) |})
  | Spurious i =>
      match ts !! i with
      | Some ((PushWait _ | PopWait) as p) =>
          Some (Tau, {| mon_queue := q; mon_threads := <[i := wake_up p]> ts |})
      | _ => None
      end
  end.

Fixpoint mon_exec m (chs : list choice) : option (list (label T) * monitor T) :=
  match chs with
  | [] => Some ([], m)
  | ch :: chs =>
      '(l, m1) ← mon_exec_step m ch;
      '(ls, m2) ← mon_exec m1 chs;
      Some (l :: ls, m2)
  end.

Lemma notify_exec_sound w ts : notify w ts (notify_exec w ts).
Proof.
  destruct w as [|c|c]; cbn; [constructor| |constructor].
  destruct (list_find _ ts) as [[i p]|] eqn:Hf.
  - apply list_find_Some in Hf as (Hi & Hw & _). by eapply notify_one.
  - apply list_find_None in Hf. rewrite Forall_forall in Hf. apply notify_one_lost.
    intros p Hp. apply not_true_is_false. by apply Hf.
Qed.

Lemma mon_exec_step_sound m ch l m' : mon_exec_step m ch = Some (l, m') → mon_step m l m'.
Proof.
  destruct m as [q ts], ch as [i p|i|i]; cbn.
  - destruct (ts !! i) as [[]|] eqn:Hi; try done; destruct p; try done; intros; simplify_eq;
      by apply mon_call.
  - destruct (ts !! i) as [p|] eqn:Hi; cbn; [|done].
    destruct (thread_step q p) as [[[[l1 q1] p1] w]|] eqn:Hs; cbn; [|done]. intros ?. simplify_eq.
    apply mon_run. eauto using run_thread, notify_exec_sound.
  - destruct (ts !! i) as [[]|] eqn:Hi; try done; intros; simplify_eq.
    + by apply (mon_spurious _ _ _ CvNotFull).
    + by apply (mon_spurious _ _ _ CvNotEmpty _ Hi).
Qed.

Lemma mon_run_cons m l m1 ls m2 :
  mon_step m l m1 → mon_run_star m1 ls m2 → mon_run_star m (l :: ls) m2.
Proof.
  intros Hstep. induction 1 as [m1|m1 ls ma l' mb _ IH Hstep'].
  - eapply (run_snoc _ []); [constructor|done].
  - rewrite app_comm_cons. eapply run_snoc; [by apply IH|done].
Qed.

Lemma mon_exec_sound m chs ls m' : mon_exec m chs = Some (ls, m') → mon_run_star m ls m'.
Proof.
  revert m ls. induction chs as [|ch chs IH]; intros m ls; cbn; intros H; simplify_eq; [constructor|].
  destruct (mon_exec_step m ch) as [[l m1]|] eqn:Hs; cbn in H; [|done].
  destruct (mon_exec m1 chs) as [[ls1 m2]|] eqn:Hr; cbn in H; [|done]. simplify_eq.
  eauto using mon_run_cons, mon_exec_step_sound.
Qed.

(** ** Properties *)

(** C16: linearizability.  Whatever the interleaving of pushes, pops and
    shutdowns by any number of threads, with waiting, notification and
    spurious wake-ups, the operations take effect one after the other as on
    the atomic queue; the capacity is never exceeded; and the items popped so
    far, followed by the items in the queue, are the items pushed so far, in
    order. *)
Theorem monitor_refines_queue capacity n ls m :
  0 ≤ capacity → mon_run_star (new_monitor capacity n) ls m →
  atomic_run (new_queue capacity) ls (mon_queue m) ∧
  size (mon_queue m) ≤ capacity ∧
  pushes ls = pops ls ++ bq_items (mon_queue m).
Proof.
  intros Hc Hrun. pose proof (mon_run_atomic _ _ _ Hrun) as Ha. split_and!; [done| |].
  - destruct (mon_run_ok _ _ _ (new_monitor_ok capacity n Hc) Hrun) as [[_ Hle] _].
    by rewrite (atomic_run_capacity _ _ _ Ha) in Hle.
  - by apply (run_history (new_queue capacity) (new_monitor capacity n) ls m).
Qed.

(** Draining.  Once some [pop] has returned [nullopt], the queue had been
    shut down before, every item ever pushed had been handed out before, and
    no push succeeds and no pop returns an item afterwards. *)
Theorem pop_drains_before_nullopt capacity n ls1 ls2 m :
  mon_run_star (new_monitor capacity n) (ls1 ++ EvPop None :: ls2) m →
  EvShutdown ∈ ls1 ∧ pops ls1 = pushes (ls1 ++ EvPop None :: ls2) ∧ pushes ls2 = [] ∧ pops ls2 = [].
Proof.
  intros Hrun. destruct (run_split _ _ _ _ _ Hrun) as (m1 & m2 & Hr1 & Hs & Hr2).
  apply mon_step_atomic in Hs. cbn in Hs.
  apply pop_Some in Hs as [(Hs & Hi & _ & Hm)|(? & ? & _ & ? & _)]; [|done].
  pose proof (run_history _ _ _ _ eq_refl Hr1) as H1. cbn in H1. rewrite Hi, app_nil_r in H1.
  assert (pushes ls2 = []) as Hp2 by (eapply no_push_after_shutdown; [|done]; by rewrite Hm).
  pose proof (run_history _ _ _ _ eq_refl Hr2) as H2. rewrite Hm, Hi, Hp2 in H2.
  symmetry in H2. apply app_nil in H2 as [Hpop2 _]. split_and!; [|..|done|done].
  - apply (run_shutdown _ _ _ Hr1) in Hs as [?|?]; done.
  - unfold pushes in *. rewrite omap_app. cbn. by rewrite Hp2, app_nil_r.
Qed.

(** C17: no lost wake-up.  When no thread can run any more, a thread is still
    blocked in [pop] only if the queue is empty and not shut down, and in
    [push] only if it is full and not shut down. *)
Theorem no_lost_wakeup capacity n ls m :
  0 ≤ capacity → mon_run_star (new_monitor capacity n) ls m → quiescent m →
  (PopWait ∈ mon_threads m → bq_items (mon_queue m) = [] ∧ bq_shutdown (mon_queue m) = false) ∧
  (∀ item, PushWait item ∈ mon_threads m →
     size (mon_queue m) = bq_capacity (mon_queue m) ∧ bq_shutdown (mon_queue m) = false).
Proof.
  intros Hc Hrun Hq.
  destruct (mon_run_ok _ _ _ (new_monitor_ok capacity n Hc) Hrun) as [[_ Hle] [H1 H2 H3 H4 H5]].
  assert (∀ f : pc T → Z, f Idle = 0 → (∀ x, f (PushWait x) = 0) → f PopWait = 0 →
    total f (mon_threads m) = 0) as Hz.
  { intros f Hi Hpu Hpo. apply total_zero. intros p Hp.
    pose proof (quiescent_threads m p Hq Hp). by destruct p. }
  rewrite (Hz at_push_notify), (Hz at_pop_lock) in H1 by done.
  rewrite (Hz at_pop_notify), (Hz at_push_lock) in H2 by done.
  rewrite (Hz at_shut_full) in H3, H4 by done. rewrite (Hz at_shut_empty) in H4 by done.
  split.
  - intros Hin. pose proof (total_elem at_pop_wait _ _ (λ p, ind_nonneg _) Hin) as Hw. cbn in Hw.
    destruct (bq_shutdown (mon_queue m)); [specialize (H4 eq_refl); lia|]. split; [|done].
    unfold size in H1. apply nil_length_inv. lia.
  - intros item Hin.
    pose proof (total_elem at_push_wait _ _ (λ p, ind_nonneg _) Hin) as Hw. cbn in Hw.
    destruct (bq_shutdown (mon_queue m)); [specialize (H3 eq_refl); lia|]. split; [|done].
    specialize (H2 eq_refl). lia.
Qed.

(** Progress.  Threads that are inside calls cannot keep each other busy:
    a run in which no new call is made and no wake-up is spurious has a
    bounded number of steps, and so reaches a state where the previous
    property applies. *)
Theorem monitor_settles k m m' :
  nsteps (λ m m', ∃ l, run_step m l m') k m m' → Z.of_nat k ≤ settle_measure m.
Proof.
  induction 1 as [m|k m m1 m2 (l & Hstep) _ IH].
  - apply total_nonneg. intros []; cbn; lia.
  - apply run_step_measure in Hstep. lia.
Qed.

End queue_props.

(** ** Evaluated examples

    A consumer (thread 0) that has to wait, a producer (thread 1) and a
    thread that shuts the queue down (thread 2). *)
Definition example_labels : list (label Z) :=
  [Tau; Tau; Tau; EvPush 7 true; Tau; EvPop (Some 7); Tau; Tau; EvShutdown; Tau; Tau; Tau] ++
  [EvPop None].

Definition example_monitor : monitor Z :=
  {| mon_queue := {| bq_items := []; bq_capacity := 1; bq_shutdown := true |};
     mon_threads := [Idle; Idle; Idle] |}.

Lemma example_run : mon_run_star (new_monitor 1 3) example_labels example_monitor.
Proof.
  apply (mon_exec_sound _ [Call 0 PopLock; Run 0; Call 1 (PushLock 7); Run 1; Run 1; Run 0; Run 0;
    Call 2 ShutdownLock; Run 2; Run 2; Run 2; Call 0 PopLock; Run 0]).
  vm_compute. reflexivity.
Qed.

Lemma monitor_refines_queue_witness :
  atomic_run (new_queue 1) example_labels (mon_queue example_monitor) ∧
  size (mon_queue example_monitor) ≤ 1 ∧
  pushes example_labels = pops example_labels ++ bq_items (mon_queue example_monitor).
Proof. apply (monitor_refines_queue 1 3); [lia|apply example_run]. Defined.

Lemma pop_drains_before_nullopt_witness :
  pops [Tau; Tau; Tau; EvPush 7 true; Tau; EvPop (Some 7); Tau; Tau; EvShutdown; Tau; Tau; Tau] = [7].
Proof.
  apply (pop_drains_before_nullopt 1 3
    [Tau; Tau; Tau; EvPush 7 true; Tau; EvPop (Some 7); Tau; Tau; EvShutdown; Tau; Tau; Tau] []
    example_monitor), example_run.
Defined.

(** A consumer waits on the empty queue and nobody else is active. *)
Lemma no_lost_wakeup_witness :
  let m := {| mon_queue := new_queue 1; mon_threads := [PopWait; Idle] |} in
  PopWait ∈ mon_threads m ∧ bq_items (T := Z) (mon_queue m) = [].
Proof.
  split; [left|].
  apply (no_lost_wakeup 1 2 [Tau; Tau] {| mon_queue := new_queue 1; mon_threads := [PopWait; Idle] |}).
  - lia.
  - apply (mon_exec_sound _ [Call 0 PopLock; Run 0]). vm_compute. reflexivity.
  - apply quiescent_intro. repeat constructor.
  - left.
Defined.

Lemma monitor_settles_witness :
  ∃ m', nsteps (λ m m', ∃ l, run_step m l m') 1
          {| mon_queue := new_queue 1; mon_threads := [PopLock (T := Z)] |} m' ∧ 1 ≤ 3.
Proof.
  exists {| mon_queue := new_queue 1; mon_threads := [PopWait] |}.
  match goal with |- ?A ∧ _ => assert A as H end.
  { econstructor; [|constructor]. exists Tau.
    eapply (run_thread _ _ 0 PopLock); [reflexivity..|]. constructor. }
  split; [exact H|]. exact (monitor_settles 1 _ _ H).
Defined.
