(* ===== verification/NetworkStage.v ===== *)
(** * [BinanceWebSocketClient] and [NetworkStage]

    app/src/net/BinanceWebSocketClient.cpp and
    app/src/runtime/NetworkStage.cpp: the network thread, which runs one
    connection after the other, and the thread that calls [stop], as steps
    over the shared state.

    The resolver, the sockets and the TLS and WebSocket layers are Boost's and
    OpenSSL's: each blocking call on them ends with an event that the
    environment chooses.  A call on a socket that has been closed fails, and
    connecting opens the socket again, as their documentation says. *)

From stdpp Require Import relations.
From S2P Require Import Prelude BoundedQueue Json ConfigLoader ConnectionError ReconnectPolicy.

(** ** State *)

(** The client: its stop flag, and its stream, once created; [true] when
    [stop] has closed the socket. *)
Record ws_client := {
  wc_stop_requested : bool;
  wc_ws : option bool
}.

Definition new_client : ws_client := {| wc_stop_requested := false; wc_ws := None |}.

(** Where [BinanceWebSocketClient::run] is. *)
Inductive run_pc :=
  | RunStart
  | RunResolve
  | RunCheckStop
  | RunEmplace
  | RunSni
  | RunConnect
  | RunTls
  | RunHandshake
  | RunRead
  | RunPush (message : string).

(** Where [NetworkStage::run] is. *)
Inductive net_pc :=
  | NetWhile
  | NetCreate
  | NetRun (p : run_pc)
  | NetDestroy (had_successful_read : bool)
  | NetCheck (had_successful_read : bool)
  | NetReset
  | NetWait
  | NetDone.

(** Where [NetworkStage::stop] is; [NsClose] is inside [client_->stop()], with
    [client_mutex_] held. *)
Inductive net_stop_pc := NsIdle | NsPolicy | NsClient | NsClose | NsJoin.

Record NetworkStage (E : Type) := {
  ns_queue : BoundedQueue string;
  ns_policy : ReconnectPolicy;
  ns_client : option ws_client;
  ns_stop_requested : bool;
  ns_thread : option net_pc;
  ns_stop : net_stop_pc;
  ns_reports : list (ConnectionStage * ConnectionErrorKind * E)
}.
Arguments ns_queue {E} _.
Arguments ns_policy {E} _.
Arguments ns_client {E} _.
Arguments ns_stop_requested {E} _.
Arguments ns_thread {E} _.
Arguments ns_stop {E} _.
Arguments ns_reports {E} _.

(** How a blocking call ends. *)
Inductive net_event (E : Type) :=
  | EvOk
  | EvMessage (message : string)
  | EvFail (ec : E).
Arguments EvOk {E}.
Arguments EvMessage {E} _.
Arguments EvFail {E} _.

(** ** [BinanceWebSocketClient] *)

Section client.
Context `{ErrorCode E}.

(** The result of a step of [run]: where it goes on, or what it returns with:
    the error it reports, if any. *)
Definition run_result : Type := run_pc + option (ConnectionStage * E).

(** A call that fails in [stage] or goes on at [next]; on a closed socket it
    can only fail. *)
Definition blocking_call (closed : bool) (stage : ConnectionStage) (next : run_pc) (ev : net_event E) :
    option run_result :=
  match ev with
  | EvOk => if closed then None else Some (inl next)
  | EvFail ec => if ec_failed ec then Some (inr (Some (stage, ec))) else None
  | EvMessage _ => None
  end.

(** Setting the server name; when that fails the error code is the oldest
    entry of OpenSSL's error queue, which need not stand for an error. *)
Definition set_server_name (ev : net_event E) : option run_result :=
  match ev with
  | EvOk => Some (inl RunConnect)
  | EvFail ec => Some (inr (Some (TlsHandshake, ec)))
  | EvMessage _ => None
  end.

Definition ws_closed (c : ws_client) : bool := default false (wc_ws c).

Definition client_run (q : BoundedQueue string) (c : ws_client) (p : run_pc) (ev : net_event E) :
    option (BoundedQueue string * ws_client * run_result) :=
  match p with
  | RunStart =>
      Some (q, {| wc_stop_requested := false; wc_ws := wc_ws c |}, inl RunResolve)
  | RunResolve => r ← blocking_call false Resolve RunCheckStop ev; Some (q, c, r)
  | RunCheckStop => Some (q, c, if wc_stop_requested c then inr None else inl RunEmplace)
  | RunEmplace =>
      Some (q, {| wc_stop_requested := wc_stop_requested c; wc_ws := Some false |}, inl RunSni)
  | RunSni => r ← set_server_name ev; Some (q, c, r)
  | RunConnect =>
      r ← blocking_call false TcpConnect RunTls ev;
      Some (q, {| wc_stop_requested := wc_stop_requested c; wc_ws := Some false |}, r)
  | RunTls => r ← blocking_call (ws_closed c) TlsHandshake RunHandshake ev; Some (q, c, r)
  | RunHandshake => r ← blocking_call (ws_closed c) WebSocketHandshake RunRead ev; Some (q, c, r)
  | RunRead =>
      match ev with
      | EvMessage message => if ws_closed c then None else Some (q, c, inl (RunPush message))
      | EvFail ec => if ec_failed ec then Some (q, c, inr (Some (Read, ec))) else None
      | EvOk => None
      end
  | RunPush message => '(_, q) ← push q message; Some (q, c, inl RunRead)
  end.

(** [BinanceWebSocketClient::stop], in its two steps. *)
Definition client_request_stop (c : ws_client) : ws_client :=
  {| wc_stop_requested := true; wc_ws := wc_ws c |}.
Definition client_close (c : ws_client) : ws_client :=
  {| wc_stop_requested := wc_stop_requested c;
     wc_ws := match wc_ws c with Some _ => Some true | None => None end |}.
End client.

(** ** [NetworkStage] *)

Section stage.
Context `{ErrorCode E}.
Variable draw : spec_float → spec_float → spec_float.
Implicit Types (s : NetworkStage E).

Definition new_stage (q : BoundedQueue string) (config : ReconnectConfig) : NetworkStage E :=
  {| ns_queue := q; ns_policy := new_policy config; ns_client := None; ns_stop_requested := false;
     ns_thread := None; ns_stop := NsIdle; ns_reports := [] |}.

Definition set_thread s (p : net_pc) : NetworkStage E :=
  {| ns_queue := ns_queue s; ns_policy := ns_policy s; ns_client := ns_client s;
     ns_stop_requested := ns_stop_requested s; ns_thread := Some p; ns_stop := ns_stop s;
     ns_reports := ns_reports s |}.
Definition set_client s (c : option ws_client) : NetworkStage E :=
  {| ns_queue := ns_queue s; ns_policy := ns_policy s; ns_client := c;
     ns_stop_requested := ns_stop_requested s; ns_thread := ns_thread s; ns_stop := ns_stop s;
     ns_reports := ns_reports s |}.
Definition set_policy s (p : ReconnectPolicy) : NetworkStage E :=
  {| ns_queue := ns_queue s; ns_policy := p; ns_client := ns_client s;
     ns_stop_requested := ns_stop_requested s; ns_thread := ns_thread s; ns_stop := ns_stop s;
     ns_reports := ns_reports s |}.
Definition set_net_stop s (p : net_stop_pc) : NetworkStage E :=
  {| ns_queue := ns_queue s; ns_policy := ns_policy s; ns_client := ns_client s;
     ns_stop_requested := ns_stop_requested s; ns_thread := ns_thread s; ns_stop := p;
     ns_reports := ns_reports s |}.

(** The effect of a step of [client_->run], with the error handler passed to
    it: a failed read counts as a connection that had been read from. *)
Definition run_returned s (q : BoundedQueue string) (c : ws_client) (r : run_result) : NetworkStage E :=
  let s := {| ns_queue := q; ns_policy := ns_policy s; ns_client := Some c;
              ns_stop_requested := ns_stop_requested s; ns_thread := ns_thread s; ns_stop := ns_stop s;
              ns_reports := match r with
                            | inr (Some (stage, ec)) =>
                                ns_reports s ++ [(stage, classify_error stage ec, ec)]
                            | _ => ns_reports s
                            end |} in
  set_thread s (match r with
                | inl p => NetRun p
                | inr (Some (stage, _)) => NetDestroy (bool_decide (stage = Read))
                | inr None => NetDestroy false
                end).

(** [client_mutex_] is free. *)
Definition client_unlocked s : bool := match ns_stop s with NsClose => false | _ => true end.

(** A step of [NetworkStage::run]. *)
Definition run_stage s (ev : net_event E) (elapsed : bool) (steady_ns : Z) : option (outcome (NetworkStage E)) :=
  match ns_thread s with
  | None | Some NetDone => None
  | Some NetWhile =>
      Some (Ret (set_thread s (if ns_stop_requested s then NetDone else NetCreate)))
  | Some NetCreate =>
      if client_unlocked s
      then Some (Ret (set_thread (set_client s (Some new_client)) (NetRun RunStart)))
      else None
  | Some (NetRun p) =>
      c ← ns_client s;
      '(q, c, r) ← client_run (ns_queue s) c p ev;
      Some (Ret (run_returned s q c r))
  | Some (NetDestroy had_successful_read) =>
      if client_unlocked s
      then Some (Ret (set_thread (set_client s None) (NetCheck had_successful_read)))
      else None
  | Some (NetCheck had_successful_read) =>
      Some (Ret (set_thread s (if ns_stop_requested s then NetDone
                               else if had_successful_read then NetReset else NetWait)))
  | Some NetReset => Some (Ret (set_thread (set_policy s (reset_policy (ns_policy s))) NetWait))
  | Some NetWait =>
      match wait_for_next_attempt draw (ns_policy s) elapsed steady_ns with
      | Some m =>
          Some ('(again, policy) ← m;
                Ret (set_thread (set_policy s policy) (if again : bool then NetWhile else NetDone)))
      | None => None
      end
  end.

(** [NetworkStage::start]: the system grants the thread, *)
Definition start_stage s : option (NetworkStage E) :=
  match ns_thread s with
  | None => Some (set_thread s NetWhile)
  | Some _ => None
  end.

(** ... or refuses it, and the constructor of [std::thread] throws ([net_step]
    has both). *)
Definition start_stage_refused s : option (outcome (NetworkStage E)) :=
  match start_stage s with
  | Some _ => Some (Throw (SystemError "Resource temporarily unavailable"))
  | None => None
  end.

(** A step of [NetworkStage::stop]. *)
Definition stop_stage s : option (NetworkStage E) :=
  match ns_stop s with
  | NsIdle =>
      Some {| ns_queue := ns_queue s; ns_policy := ns_policy s; ns_client := ns_client s;
              ns_stop_requested := true; ns_thread := ns_thread s; ns_stop := NsPolicy;
              ns_reports := ns_reports s |}
  | NsPolicy => Some (set_net_stop (set_policy s (stop_policy (ns_policy s))) NsClient)
  | NsClient =>
      Some (match ns_client s with
            | Some c => set_net_stop (set_client s (Some (client_request_stop c))) NsClose
            | None => set_net_stop s NsJoin
            end)
  | NsClose => Some (set_net_stop (set_client s (client_close <$> ns_client s)) NsJoin)
  | NsJoin =>
      match ns_thread s with
      | None | Some NetDone =>
          Some {| ns_queue := ns_queue s; ns_policy := ns_policy s; ns_client := ns_client s;
                  ns_stop_requested := ns_stop_requested s; ns_thread := None; ns_stop := NsIdle;
                  ns_reports := ns_reports s |}
      | Some _ => None
      end
  end.

(** ** Schedules *)

Inductive net_action :=
  | NetStart
  | NetStop
  | NetThread (ev : net_event E) (elapsed : bool) (steady_ns : Z)
  | NetStartRefused.

Definition net_step s (a : net_action) : option (outcome (NetworkStage E)) :=
  match a with
  | NetStart => Ret <$> start_stage s
  | NetStop => Ret <$> stop_stage s
  | NetThread ev elapsed steady_ns => run_stage s ev elapsed steady_ns
  | NetStartRefused => start_stage_refused s
  end.

Inductive net_run s0 : list net_action → NetworkStage E → Prop :=
  | net_refl : net_run s0 [] s0
  | net_next acts s a s' :
      net_run s0 acts s → net_step s a = Some (Ret s') → net_run s0 (acts ++ [a]) s'.

Fixpoint net_exec s (acts : list net_action) : option (NetworkStage E) :=
  match acts with
  | [] => Some s
  | a :: acts =>
      match net_step s a with
      | Some (Ret s') => net_exec s' acts
      | _ => None
      end
  end.

Lemma start_stage_refused_Throw s o : start_stage_refused s = Some o → ∃ e, o = Throw e.
Proof. unfold start_stage_refused. destruct (start_stage s); naive_solver. Qed.

Lemma start_stage_refused_Ret s s' : start_stage_refused s ≠ Some (Ret s').
Proof. by intros [e ?]%start_stage_refused_Throw. Qed.
End stage.

Arguments net_action : clear implicits.
