(* ===== verification/NetworkProps.v ===== *)
(** * Properties of [NetworkStage]

    When a call of [stop] reaches the connection in progress, and when it does
    not. *)

From stdpp Require Import relations.
From S2P Require Import Prelude Totals BoundedQueue QueueProps Json ConfigLoader ConnectionError.
From S2P Require Import ReconnectPolicy NetworkStage.

Section props.
Context `{ErrorCode E}.
Variable draw : spec_float → spec_float → spec_float.
Implicit Types (s : NetworkStage E).

(** ** What the network thread has *)

Definition past_emplace (p : run_pc) : bool :=
  match p with RunStart | RunResolve | RunCheckStop | RunEmplace => false | _ => true end.

(** The thread runs a client only while there is one, with a stream once it
    has been created. *)
Definition thread_ok s : Prop :=
  match ns_thread s with
  | Some (NetRun p) =>
      ∃ c, ns_client s = Some c ∧ (past_emplace p = true → is_Some (wc_ws c))
  | Some (NetDestroy _) => is_Some (ns_client s)
  | _ => ns_client s = None
  end.

Lemma new_stage_ok q config : thread_ok (new_stage q config).
Proof. done. Qed.

Lemma client_run_ok q c p ev q' c' r :
  (past_emplace p = true → is_Some (wc_ws c)) → client_run q c p ev = Some (q', c', r) →
  ∀ p', r = inl p' → past_emplace p' = true → is_Some (wc_ws c').
Proof.
  intros Hws Hrun p' ->. unfold client_run, blocking_call in Hrun.
  destruct p, ev; cbn in Hrun; try destruct (push q message) as [[]|];
    repeat (case_match; cbn in Hrun); simplify_eq; cbn in *; simplify_eq; cbn; eauto.
Qed.

Lemma thread_ok_step s a s' : thread_ok s → net_step draw s a = Some (Ret s') → thread_ok s'.
Proof.
  intros Hok Hs. destruct a as [| |ev elapsed st|]; cbn in Hs.
  - unfold start_stage, thread_ok in *. destruct (ns_thread s); cbn in Hs; simplify_eq. done.
  - unfold stop_stage, thread_ok in *. destruct (ns_stop s); cbn in Hs; simplify_eq; cbn; try done.
    + destruct (ns_client s) as [c|] eqn:Hc; cbn; rewrite ?Hc; [|done].
      destruct (ns_thread s) as [[]|]; try (done || by eauto). destruct Hok as (c' & [= <-] & Hws).
      exists (client_request_stop c). done.
    + destruct (ns_client s) as [c|] eqn:Hc; cbn; [|done].
      destruct (ns_thread s) as [[]|]; try (done || by eauto). destruct Hok as (c' & [= <-] & Hws).
      exists (client_close c). split; [done|]. intros Hp. destruct (Hws Hp) as [b Hb].
      cbn. rewrite Hb. eauto.
    + destruct (ns_thread s) as [[]|]; cbn in Hs; simplify_eq; done.
  - unfold run_stage in Hs. unfold thread_ok in Hok.
    destruct (ns_thread s) as [[| |p|had|had| | |]|] eqn:Ht; try done.
    + simplify_eq. unfold thread_ok. cbn. by destruct (ns_stop_requested s).
    + destruct (client_unlocked s); simplify_eq. unfold thread_ok. cbn. exists new_client. done.
    + destruct Hok as (c & Hc & Hws). rewrite Hc in Hs. cbn in Hs.
      destruct (client_run (ns_queue s) c p ev) as [[[q c'] r]|] eqn:Hr; cbn in Hs; [|done]. simplify_eq.
      pose proof (client_run_ok _ _ _ _ _ _ _ Hws Hr). unfold thread_ok, run_returned. cbn.
      destruct r as [p'|[[stage ec]|]]; cbn; eauto.
    + destruct (client_unlocked s); simplify_eq. done.
    + simplify_eq. unfold thread_ok. cbn. by destruct (ns_stop_requested s), had.
    + simplify_eq. done.
    + destruct (wait_for_next_attempt draw (ns_policy s) elapsed st) as [m|]; [|done]. injection Hs as Hs.
      apply bind_Ret in Hs as ([again p] & _ & ?). inv_ret. unfold thread_ok. cbn. by destruct again.
  - apply start_stage_refused_Throw in Hs as [e He]. done.
Qed.

Lemma thread_ok_run q config acts s : net_run draw (new_stage q config) acts s → thread_ok s.
Proof. induction 1; eauto using new_stage_ok, thread_ok_step. Qed.

(** ** Noticed stops *)

(** The states in which a stop has reached whatever the thread is doing: the
    socket the thread works on is closed, or the thread is about to test a
    flag that is set. *)
Definition stop_noticed s : Prop :=
  ns_stop_requested s = true ∧
  match ns_thread s with
  | Some NetCreate => False
  | Some (NetRun p) =>
      match ns_client s with
      | Some c =>
          match p with
          | RunResolve | RunCheckStop => wc_stop_requested c = true
          | RunTls | RunHandshake | RunRead | RunPush _ => wc_ws c = Some true
          | RunStart | RunEmplace | RunSni | RunConnect => False
          end
      | None => False
      end
  | _ => True
  end.

(** The steps of the thread during which a stop is not seen: it is about to
    create a client, to clear the flag, or to open the socket. *)
Definition in_race_window s : bool :=
  match ns_thread s with
  | Some NetCreate | Some (NetRun (RunStart | RunEmplace | RunSni | RunConnect)) => true
  | _ => false
  end.

Definition thread_weight (p : option net_pc) : Z :=
  match p with
  | None | Some NetDone => 0
  | Some NetWhile => 1
  | Some NetWait => 2
  | Some NetReset => 3
  | Some (NetCheck _) => 4
  | Some (NetDestroy _) => 5
  | Some (NetRun (RunPush _ | RunResolve)) => 7
  | Some (NetRun _) => 6
  | Some NetCreate => 7
  end.

Definition is_thread_step (a : net_action E) : Z :=
  ind match a with NetThread _ _ _ => true | _ => false end.

Lemma noticed_client_run q c p ev q' c' r s :
  match p with
  | RunResolve | RunCheckStop => wc_stop_requested c = true
  | RunTls | RunHandshake | RunRead | RunPush _ => wc_ws c = Some true
  | _ => False
  end → ns_stop_requested s = true →
  client_run q c p ev = Some (q', c', r) →
  stop_noticed (run_returned s q' c' r) ∧
  thread_weight (ns_thread (run_returned s q' c' r)) < thread_weight (Some (NetRun p)).
Proof.
  intros Hp Hr Hrun. unfold client_run, blocking_call, ws_closed in Hrun. unfold stop_noticed.
  destruct p, ev; try done; cbn in Hrun; rewrite ?Hp in Hrun; cbn in Hrun;
    try destruct (push q message) as [[]|]; cbn in Hrun;
    repeat (case_match; cbn in Hrun); simplify_eq; cbn in *; simplify_eq; (split; [split; done|lia]).
Qed.

Lemma noticed_step s a s' :
  stop_noticed s → a ≠ NetStart → net_step draw s a = Some (Ret s') →
  stop_noticed s' ∧ thread_weight (ns_thread s') + is_thread_step a ≤ thread_weight (ns_thread s).
Proof.
  intros [Hr Hn] Ha Hs. destruct a as [| |ev elapsed st|]; [done| | |]; cbn in Hs.
  - cbn. unfold stop_stage in Hs. destruct (ns_stop s); cbn in Hs; simplify_eq; cbn; rewrite ?Z.add_0_r.
    + by split; [split|].
    + by split; [split|].
    + split; [|by destruct (ns_client s)]. destruct (ns_client s) as [c|] eqn:Hc; cbn; (split; [done|]);
        cbn; rewrite ?Hc; destruct (ns_thread s) as [[| |[]| | | | |]|]; done.
    + split; [|done]. split; [done|]. cbn. destruct (ns_thread s) as [[| |p| | | | |]|]; try done.
      destruct (ns_client s) as [c|]; [|done]. cbn. destruct p; try done; by rewrite Hn.
    + destruct (ns_thread s) as [[]|]; cbn in Hs; simplify_eq; done.
  - unfold run_stage in Hs. destruct (ns_thread s) as [[| |p|had|had| | |]|] eqn:Ht; try done.
    + rewrite Hr in Hs. simplify_eq. cbn. split; [by split|lia].
    + destruct (ns_client s) as [c|]; [|done]. cbn in Hs.
      destruct (client_run (ns_queue s) c p ev) as [[[q c'] r]|] eqn:Hrun; cbn in Hs; [|done]. simplify_eq.
      assert (match p with
        | RunResolve | RunCheckStop => wc_stop_requested c = true
        | RunTls | RunHandshake | RunRead | RunPush _ => wc_ws c = Some true
        | _ => False end) as Hp by by destruct p.
      destruct (noticed_client_run _ _ _ _ _ _ _ s Hp Hr Hrun) as [Hn' Hw]. split; [done|]. cbn in Hw |- *. lia.
    + destruct (client_unlocked s); simplify_eq. cbn. split; [by split|lia].
    + rewrite Hr in Hs. simplify_eq. cbn. split; [by split|lia].
    + simplify_eq. cbn. split; [by split|lia].
    + destruct (wait_for_next_attempt draw (ns_policy s) elapsed st) as [m|]; [|done]. injection Hs as Hs.
      apply bind_Ret in Hs as ([again p] & _ & ?). inv_ret. cbn.
      destruct again; (split; [by split|cbn; lia]).
  - apply start_stage_refused_Throw in Hs as [e He]. done.
Qed.

Lemma net_exec_app s acts1 acts2 :
  net_exec draw s (acts1 ++ acts2) = net_exec draw s acts1 ≫= λ s1, net_exec draw s1 acts2.
Proof.
  revert s. induction acts1 as [|a acts1 IH]; intros s; [done|]. cbn.
  destruct (net_step draw s a) as [[]|]; cbn; [apply IH|done..].
Qed.

Lemma net_run_cons s a s1 acts s2 :
  net_step draw s a = Some (Ret s1) → net_run draw s1 acts s2 → net_run draw s (a :: acts) s2.
Proof.
  intros Hs. induction 1 as [|acts s2 b s3 _ IH Hb].
  - eapply (net_next draw s []); [constructor|done].
  - eapply (net_next draw s (a :: acts)); done.
Qed.

Lemma net_exec_sound s acts s' : net_exec draw s acts = Some s' → net_run draw s acts s'.
Proof.
  revert s. induction acts as [|a acts IH]; intros s Hs; cbn in Hs; [simplify_eq; constructor|].
  destruct (net_step draw s a) as [[s1| |]|] eqn:Ha; try done. eauto using net_run_cons.
Qed.

Lemma noticed_run s acts s' :
  stop_noticed s → Forall (λ a, a ≠ NetStart) acts → net_run draw s acts s' →
  stop_noticed s' ∧ total is_thread_step acts ≤ 7.
Proof.
  intros Hn Hacts Hrun.
  enough (stop_noticed s' ∧
    thread_weight (ns_thread s') + total is_thread_step acts ≤ thread_weight (ns_thread s)) as [? Hw].
  { split; [done|]. assert (∀ p, 0 ≤ thread_weight p ≤ 7) as Hb by (intros [[| |[]| | | | |]|]; cbn; lia).
    pose proof (Hb (ns_thread s)). pose proof (Hb (ns_thread s')). lia. }
  induction Hrun as [|acts s1 a s2 _ IH Hs]; [split; [done|]; unfold total; cbn; lia|].
  apply Forall_app in Hacts as [Hacts Ha]. rewrite Forall_singleton in Ha.
  destruct (IH Hacts) as [Hn1 Hw1]. destruct (noticed_step _ _ _ Hn1 Ha Hs) as [Hn2 Hw2]. split; [done|].
  rewrite total_app. unfold total at 2. cbn. lia.
Qed.

(** The thread is over. *)
Definition ended s : Prop := match ns_thread s with None | Some NetDone => True | _ => False end.

(** The thread waits for room in the queue. *)
Definition push_blocked s : Prop :=
  ∃ message, ns_thread s = Some (NetRun (RunPush message)) ∧ push (ns_queue s) message = None.

(** The thread can make a step: the call it is in can return. *)
Definition thread_goes_on s : Prop := ∃ ev elapsed steady_ns o, run_stage draw s ev elapsed steady_ns = Some o.

(** [stop] holds [client_mutex_], and its next step releases it. *)
Definition mutex_held_briefly s : Prop :=
  client_unlocked s = false ∧ ∃ s1, stop_stage s = Some s1 ∧ client_unlocked s1 = true.

(** A stop that has been noticed leaves the thread waiting for nothing but room
    in the queue: the socket that it reads from is closed, [client_mutex_] is
    released before the join, and a wait ends with its timeout. *)
Lemma noticed_progress s ec :
  ec_failed ec = true → thread_ok s → stop_noticed s →
  ended s ∨ push_blocked s ∨ thread_goes_on s ∨ mutex_held_briefly s.
Proof.
  intros Hec Hok [_ Hn]. unfold ended, push_blocked, thread_goes_on, mutex_held_briefly.
  destruct (client_unlocked s) eqn:Hu.
  2:{ right; right; right. split; [done|]. unfold client_unlocked in Hu. unfold stop_stage.
      destruct (ns_stop s); try done. eauto. }
  unfold thread_ok, run_stage in *. destruct (ns_thread s) as [[| |p|had|had| | |]|] eqn:Ht; try tauto; right.
  - right; left. exists EvOk, true, 0. eauto.
  - destruct Hok as (c & Hc & _). rewrite Hc in Hn |- *. cbn [mbind option_bind].
    destruct p; try done; try (right; left; exists EvOk, true, 0; eauto; fail).
    + right; left. exists (EvFail ec), true, 0. cbn. rewrite Hec. cbn. eauto.
    + right; left. exists (EvFail ec), true, 0. cbn. rewrite Hec. cbn. eauto.
    + right; left. exists (EvFail ec), true, 0. cbn. rewrite Hec. cbn. eauto.
    + destruct (push (ns_queue s) message) as [[b q]|] eqn:Hp; [|left; eauto].
      right; left. exists EvOk, true, 0. cbn. rewrite Hp. cbn. eauto.
  - right; left. exists EvOk, true, 0. rewrite Hu. eauto.
  - right; left. exists EvOk, true, 0. eauto.
  - right; left. exists EvOk, true, 0. eauto.
  - right; left. exists EvOk, true, 0. unfold wait_for_next_attempt. destruct (rp_stop_requested (ns_policy s)); eauto.
Qed.

(** ** Properties *)

(** C25: a stop that has been noticed ends the network thread.  Whatever the
    network and the clock then do, the thread makes at most seven more steps;
    until it is over it can always make its next one (the call it is in can
    return, or fail), unless [stop] holds [client_mutex_], which it releases
    with its next step, or the thread waits for room in the queue; and once it
    is over [stop] can go on to its return. *)
Theorem noticed_stop_ends q config acts0 s acts s' ec :
  net_run draw (new_stage q config) acts0 s → stop_noticed s → ec_failed ec = true →
  Forall (λ a, a ≠ NetStart) acts → net_run draw s acts s' →
  total is_thread_step acts ≤ 7 ∧
  (ended s' ∨ push_blocked s' ∨ thread_goes_on s' ∨ mutex_held_briefly s') ∧
  (ended s' → is_Some (stop_stage s')).
Proof.
  intros Hok%thread_ok_run Hn Hec Hacts Hrun. destruct (noticed_run _ _ _ Hn Hacts Hrun) as [Hn' Hle].
  split; [done|]. split.
  - apply (noticed_progress s' ec Hec); [|done]. clear -Hok Hrun. induction Hrun; eauto using thread_ok_step.
  - unfold ended, stop_stage. destruct (ns_stop s'); eauto. destruct (ns_thread s') as [[]|]; try done; eauto.
Qed.

(** [stop] up to the join, while the thread stands still. *)
Definition stop_at_once s : option (NetworkStage E) :=
  net_exec draw s (replicate (match ns_client s with Some _ => 4 | None => 3 end) NetStop).

(** The thread reads from a connection that is open. *)
Definition receiving s : Prop :=
  ns_thread s = Some (NetRun RunRead) ∧ ∃ c, ns_client s = Some c ∧ wc_ws c = Some false.

Lemma noticed_not_receiving s : stop_noticed s → ¬ receiving s.
Proof. intros [_ Hn] (Ht & c & Hc & Hw). rewrite Ht, Hc in Hn. congruence. Qed.

(** In the race window the stop changes nothing that the thread looks at before
    it reads. *)
Lemma raced_receives s s' :
  thread_ok s → ns_stop s = NsIdle → in_race_window s = true → stop_at_once s = Some s' →
  ∃ k s'', net_exec draw s' (replicate k (NetThread EvOk true 0)) = Some s'' ∧ receiving s''.
Proof.
  intros Hok Hst Hrace Hs. unfold stop_at_once, in_race_window, thread_ok in *.
  destruct s as [q policy client requested thread stop reports]. cbn in Hst, Hok, Hrace, Hs. subst stop.
  destruct thread as [[| |p| | | | |]|]; try done.
  - subst client. cbn in Hs. simplify_eq. exists 9%nat. eexists. split; [vm_compute; reflexivity|]. split; [done|]. eexists. done.
  - destruct Hok as (c & -> & Hws). cbn in Hs. simplify_eq.
    destruct p; try done; [exists 8%nat|exists 5%nat|exists 4%nat|exists 3%nat];
      (eexists; split; [vm_compute; reflexivity|]; split; [done|]; eexists; done).
Qed.

(** C26: a stop is seen exactly when it does not fall into the race window.  If
    [stop] runs up to its join while the thread stands still, then the thread
    can afterwards read from an open connection if and only if it was just
    about to create a client, to clear the client's flag, or to open its
    socket; otherwise it makes at most seven more steps. *)
Theorem stop_noticed_unless_raced q config acts s :
  net_run draw (new_stage q config) acts s → ns_stop s = NsIdle →
  ∃ s', stop_at_once s = Some s' ∧ ns_stop s' = NsJoin ∧
    ((∃ acts' s'', Forall (λ a, a ≠ NetStart) acts' ∧ net_run draw s' acts' s'' ∧ receiving s'') ↔
       in_race_window s = true) ∧
    (in_race_window s = false → ∀ acts' s'', Forall (λ a, a ≠ NetStart) acts' → net_run draw s' acts' s'' →
       total is_thread_step acts' ≤ 7).
Proof.
  intros Hok%thread_ok_run Hst.
  assert (∃ s', stop_at_once s = Some s' ∧ ns_stop s' = NsJoin ∧
    (in_race_window s = false → stop_noticed s')) as (s' & Hs & Hj & Hn).
  { unfold stop_at_once, thread_ok in *.
    destruct s as [q1 policy client requested thread stop reports]. cbn in Hst, Hok. subst stop.
    destruct client as [c|]; cbn; eexists; (split; [done|]); (split; [done|]);
      unfold stop_noticed, in_race_window; cbn.
    - destruct thread as [[| |p| | | | |]|]; try naive_solver. destruct Hok as (c' & [= <-] & Hws).
      destruct p; cbn in *; try naive_solver; destruct (Hws eq_refl) as [b ->]; naive_solver.
    - destruct thread as [[| |p| | | | |]|]; naive_solver. }
  exists s'. split; [done|]. split; [done|]. split; [split|].
  - intros (acts' & s'' & Hf & Hrun & Hrec). destruct (in_race_window s); [done|]. exfalso.
    destruct (noticed_run _ _ _ (Hn eq_refl) Hf Hrun) as [Hn'' _]. by apply noticed_not_receiving in Hn''.
  - intros Hrace. destruct (raced_receives _ _ Hok Hst Hrace Hs) as (k & s'' & Hex & Hrec).
    exists (replicate k (NetThread EvOk true 0)), s''. split; [|split; [by apply net_exec_sound|done]].
    apply Forall_replicate. done.
  - intros Hrace acts' s'' Hf Hrun. by apply (noticed_run _ _ _ (Hn Hrace) Hf Hrun).
Qed.

(** The schedule of a lost stop: [stop] runs to its join just after the thread
    has created the client, whose [run] then clears the flag and connects. *)
Definition lost_stop : list (net_action E) :=
  [NetStart; NetThread EvOk false 0; NetThread EvOk false 0; NetStop; NetStop; NetStop; NetStop] ++
  replicate 8 (NetThread EvOk false 0).

(** The connection stays up and delivers messages. *)
Definition deliver (messages : list string) : list (net_action E) :=
  concat ((λ m, [NetThread (EvMessage m) false 0; NetThread EvOk false 0]) <$> messages).

Definition lost_state q config : NetworkStage E :=
  {| ns_queue := q; ns_policy := stop_policy (new_policy config);
     ns_client := Some {| wc_stop_requested := false; wc_ws := Some false |};
     ns_stop_requested := true; ns_thread := Some (NetRun RunRead); ns_stop := NsJoin; ns_reports := [] |}.

Lemma lost_stop_exec q config :
  net_exec draw (new_stage q config) lost_stop = Some (lost_state q config).
Proof. done. Qed.

Lemma deliver_exec config messages q :
  bq_shutdown q = false → size q + Z.of_nat (length messages) ≤ bq_capacity q →
  net_exec draw (lost_state q config) (deliver messages) =
  Some (lost_state {| bq_items := bq_items q ++ messages; bq_capacity := bq_capacity q;
                      bq_shutdown := false |} config).
Proof.
  revert q. induction messages as [|m messages IH]; intros q Hs Hc.
  - cbn. rewrite app_nil_r. destruct q as [items cap sd]. cbn in Hs. by subst.
  - unfold deliver. cbn [fmap list_fmap concat app]. fold (deliver messages). cbn [length] in Hc.
    assert (push q m = Some (true, {| bq_items := bq_items q ++ [m]; bq_capacity := bq_capacity q;
      bq_shutdown := false |})) as Hp by (apply push_Some; right; split_and!; [done|lia|done..]).
    cbn. rewrite Hp. cbn.
    pose proof (IH {| bq_items := bq_items q ++ [m]; bq_capacity := bq_capacity q; bq_shutdown := false |}
      eq_refl) as Hrec. cbn in Hrec. rewrite <- app_assoc in Hrec. apply Hrec.
    unfold size in *. cbn. rewrite length_app. cbn. lia.
Qed.

(** In the race window a stop is lost: there is a schedule in which [stop]
    has set every flag and closed what there was to close, and waits to join a
    thread that then connects and goes on receiving any number of messages
    (as many as the queue has room for) on an open socket. *)
Theorem stop_can_be_lost capacity config messages :
  Z.of_nat (length messages) ≤ capacity →
  ∃ s, net_run draw (new_stage (new_queue capacity) config) (lost_stop ++ deliver messages) s ∧
    ns_stop s = NsJoin ∧ stop_stage s = None ∧ ns_thread s = Some (NetRun RunRead) ∧
    (ws_closed <$> ns_client s) = Some false ∧ bq_items (ns_queue s) = messages.
Proof.
  intros Hc. eexists. split.
  - apply net_exec_sound. rewrite net_exec_app, lost_stop_exec. cbn [mbind option_bind].
    apply deliver_exec; [done|]. unfold size. cbn. lia.
  - done.
Qed.
(** The schedule of a delayed stop: a connection that was being read from
    ends, the thread finds no stop requested, [stop] runs to its join, and the
    thread then resets the policy. *)
Definition connect_and_read : list (net_action E) := NetStart :: replicate 10 (NetThread EvOk false 0).
Definition delayed_stop (ec : E) : list (net_action E) :=
  connect_and_read ++ NetThread (EvFail ec) false 0 ::
  [NetThread EvOk false 0; NetThread EvOk false 0; NetStop; NetStop; NetStop; NetThread EvOk false 0].

Definition delayed_state q (ec : E) (p : net_pc) (policy : ReconnectPolicy) : NetworkStage E :=
  {| ns_queue := q; ns_policy := policy; ns_client := None; ns_stop_requested := true;
     ns_thread := Some p; ns_stop := NsJoin; ns_reports := [(Read, classify_error Read ec, ec)] |}.

Definition reading_state q config (p : net_pc) reports : NetworkStage E :=
  {| ns_queue := q; ns_policy := new_policy config;
     ns_client := Some {| wc_stop_requested := false; wc_ws := Some false |};
     ns_stop_requested := false; ns_thread := Some p; ns_stop := NsIdle; ns_reports := reports |}.

Lemma connect_and_read_exec q config :
  net_exec draw (new_stage q config) connect_and_read = Some (reading_state q config (NetRun RunRead) []).
Proof. done. Qed.

Lemma read_fails q config ec :
  ec_failed ec = true →
  net_step draw (reading_state q config (NetRun RunRead) []) (NetThread (EvFail ec) false 0) =
  Some (Ret (reading_state q config (NetDestroy true) [(Read, classify_error Read ec, ec)])).
Proof.
  intros Hec. cbn [net_step run_stage reading_state ns_thread ns_client ns_queue mbind option_bind client_run].
  rewrite Hec. done.
Qed.

Lemma delayed_stop_exec q config ec :
  ec_failed ec = true →
  net_exec draw (new_stage q config) (delayed_stop ec) = Some (delayed_state q ec NetWait (new_policy config)).
Proof.
  intros Hec. unfold delayed_stop. rewrite net_exec_app, connect_and_read_exec. cbn [mbind option_bind].
  cbn [net_exec]. rewrite (read_fails _ _ _ Hec). done.
Qed.

Lemma delayed_wait q config ec delay st :
  next_delay draw (new_policy config) = Ret delay → is_ret (wait_deadline st delay) →
  net_step draw (delayed_state q ec NetWait (new_policy config)) (NetThread EvOk true st) =
  Some (Ret (delayed_state q ec NetWhile
    {| rp_config := config; rp_attempt := (0 + 1) mod 4294967296; rp_stop_requested := false |})).
Proof.
  intros Hd [deadline Hw]. unfold delayed_state. cbn [net_step run_stage ns_thread ns_policy].
  unfold wait_for_next_attempt. rewrite Hd. cbn [rp_stop_requested new_policy mbind outcome_bind]. rewrite Hw. reflexivity.
Qed.

(** C27: a stop can wait out a back-off: [reset] clears the stop of the policy,
    so that there is a schedule in which [stop] has stopped the policy and
    waits to join a thread that then sleeps for the whole reconnect delay;
    only when the delay has elapsed does the thread see the stop and end. *)
Theorem stop_can_wait_out_backoff q config ec delay st :
  ec_failed ec = true → next_delay draw (new_policy config) = Ret delay → is_ret (wait_deadline st delay) →
  ∃ s s', net_run draw (new_stage q config) (delayed_stop ec) s ∧
    ns_stop s = NsJoin ∧ stop_stage s = None ∧ (∀ ev st', run_stage draw s ev false st' = None) ∧
    net_run draw s [NetThread EvOk true st; NetThread EvOk true st] s' ∧ ns_thread s' = Some NetDone.
Proof.
  intros Hec Hd Hst. exists (delayed_state q ec NetWait (new_policy config)). eexists.
  split; [by apply net_exec_sound, delayed_stop_exec|]. split; [done|]. split; [done|]. split; [done|].
  split; [|shelve]. eapply net_run_cons; [by apply (delayed_wait _ _ _ _ _ Hd Hst)|].
  eapply net_run_cons; [reflexivity|constructor]. Unshelve. reflexivity.
Qed.

End props.

(** ** Evaluated examples *)

(** Error codes of the examples: an operation that was cancelled. *)
Inductive example_error := OperationAborted.

#[export] Instance example_errors : ErrorCode example_error :=
  {| ec_failed _ := true; ec_timed_out _ := false; ec_eof _ := false; ec_ws_closed _ := false |}.

(** Connected and reading. *)
Definition connect_actions : list (net_action example_error) :=
  NetStart :: replicate 10 (NetThread EvOk false 0).

Definition example_stage : NetworkStage example_error := new_stage (new_queue 4) default_ReconnectConfig.

Definition reading_stage : NetworkStage example_error :=
  default example_stage (net_exec (λ lo _, lo) example_stage connect_actions).

(** The stop closes the socket and the read fails; the thread is over. *)
Definition stop_and_fail : list (net_action example_error) :=
  [NetThread (EvFail OperationAborted) false 0; NetThread EvOk false 0; NetThread EvOk false 0].

Definition net_result s (acts : list (net_action example_error)) : NetworkStage example_error :=
  default s (net_exec (λ lo _, lo) s acts).

Lemma net_result_ok s acts :
  (if net_exec (λ lo _, lo) s acts then true else false) = true → net_run (λ lo _, lo) s acts (net_result s acts).
Proof.
  intros Hs. apply net_exec_sound. unfold net_result. by destruct (net_exec (λ lo _, lo) s acts).
Qed.

Abbreviation stopped_stage := (net_result reading_stage (replicate 4 NetStop)).

Lemma noticed_stop_ends_witness :
  let s' := net_result stopped_stage stop_and_fail in
  ns_thread s' = Some NetDone ∧ 3 ≤ 7 ∧
  (ended s' ∨ push_blocked s' ∨ thread_goes_on (λ lo _, lo) s' ∨ mutex_held_briefly s') ∧
  (ended s' → is_Some (stop_stage s')).
Proof.
  split; [vm_compute; reflexivity|].
  apply (noticed_stop_ends (λ lo _, lo) (new_queue 4) default_ReconnectConfig
    (connect_actions ++ replicate 4 NetStop) stopped_stage stop_and_fail (net_result stopped_stage stop_and_fail)
    OperationAborted).
  - apply net_exec_sound. vm_compute. reflexivity.
  - vm_compute. split; reflexivity.
  - reflexivity.
  - repeat constructor; discriminate.
  - apply net_result_ok. vm_compute. reflexivity.
Defined.

Lemma stop_noticed_unless_raced_witness :
  ∃ s', stop_at_once (λ lo _, lo) reading_stage = Some s' ∧ ns_stop s' = NsJoin ∧
    ((∃ acts' s'', Forall (λ a, a ≠ NetStart) acts' ∧ net_run (λ lo _, lo) s' acts' s'' ∧ receiving s'') ↔
       in_race_window reading_stage = true) ∧
    (in_race_window reading_stage = false → ∀ acts' s'', Forall (λ a, a ≠ NetStart) acts' →
       net_run (λ lo _, lo) s' acts' s'' → total is_thread_step acts' ≤ 7).
Proof.
  apply (stop_noticed_unless_raced (λ lo _, lo) (new_queue 4) default_ReconnectConfig connect_actions).
  - apply net_exec_sound. vm_compute. reflexivity.
  - vm_compute. reflexivity.
Defined.

Lemma stop_can_be_lost_witness :
  ∃ s : NetworkStage example_error,
    net_run (λ lo _, lo) (new_stage (new_queue 2) default_ReconnectConfig) (lost_stop ++ deliver ["a"; "b"]) s ∧
    ns_stop s = NsJoin ∧ stop_stage s = None ∧ ns_thread s = Some (NetRun RunRead) ∧
    (ws_closed <$> ns_client s) = Some false ∧ bq_items (ns_queue s) = ["a"; "b"].
Proof. apply (stop_can_be_lost (λ lo _, lo) 2 default_ReconnectConfig ["a"; "b"]). cbn. lia. Defined.

Lemma stop_can_wait_out_backoff_witness :
  ∃ s s', net_run (λ lo _, lo) example_stage (delayed_stop OperationAborted) s ∧
    ns_stop s = NsJoin ∧ stop_stage s = None ∧ (∀ ev st', run_stage (λ lo _, lo) s ev false st' = None) ∧
    net_run (λ lo _, lo) s [NetThread EvOk true 1000; NetThread EvOk true 1000] s' ∧ ns_thread s' = Some NetDone.
Proof.
  apply (stop_can_wait_out_backoff (λ lo _, lo) (new_queue 4) default_ReconnectConfig OperationAborted 400 1000).
  - reflexivity.
  - vm_compute. reflexivity.
  - eexists. vm_compute. reflexivity.
Defined.
