(* ===== verification/Snapshots.v ===== *)
(** * [MarketDataPipeline::write_windows]

    app/src/runtime/MarketDataPipeline.cpp, lines 177-205: the windows taken
    from the shards are grouped by window start in a [std::map], each group is
    sorted by symbol, serialised and written to the sink.  What is written
    depends only on the set of windows, not on the order in which the shards
    handed them over. *)

From S2P Require Import Prelude CString DecimalFp StdMap Aggregator AggregatorSpec AggregatorProps Output.

(** ** Definitions *)

(** One turn of the first loop. *)
Definition group_window (snapshots_by_window : stdmap Z StatsSnapshot) (window : WindowStats) :
    stdmap Z StatsSnapshot :=
  let snapshot := default {| ss_window_start_ms := 0; ss_windows := [] |}
                    (map_find snapshots_by_window (ws_window_start_ms window)) in
  map_insert snapshots_by_window (ws_window_start_ms window)
    {| ss_window_start_ms := ws_window_start_ms window;
       ss_windows := ss_windows snapshot ++ [window] |}.

Definition group_windows (windows : list WindowStats) : stdmap Z StatsSnapshot :=
  foldl group_window [] windows.

(** The comparison passed to [std::sort] is [lhs.symbol < rhs.symbol]; a sorted
    range has no element before one with a smaller symbol. *)
Definition symbol_le (lhs rhs : WindowStats) : Prop := ¬ klt (ws_symbol rhs) (ws_symbol lhs).

#[export] Instance symbol_le_dec : RelDecision symbol_le.
Proof. intros ? ?. unfold symbol_le. apply _. Defined.

(** [std::sort] does not specify the order of equivalent elements; this is one
    of the permitted results, and [sort_windows_unique] shows it is the only
    one when the symbols differ. *)
Definition sort_windows : list WindowStats → list WindowStats := merge_sort symbol_le.

Definition sort_snapshot (snapshot : StatsSnapshot) : StatsSnapshot :=
  {| ss_window_start_ms := ss_window_start_ms snapshot;
     ss_windows := sort_windows (ss_windows snapshot) |}.

(** The snapshots in the order they are written. *)
Definition snapshots (windows : list WindowStats) : list StatsSnapshot :=
  sort_snapshot <$> map_values (group_windows windows).

Section write.
Context {S : Type} `{OutputSink S}.

(** One turn of the second loop. *)
Definition write_snapshot (sink : S) (snapshot : StatsSnapshot) : outcome S :=
  text ← serialize snapshot;
  if bool_decide (text = "") then Ret sink else sink_write sink text.

Definition write_windows (sink : S) (windows : list WindowStats) : outcome S :=
  match windows with
  | [] => Ret sink
  | _ => foldM write_snapshot sink (snapshots windows)
  end.
End write.

(** ** Sorting *)

#[export] Instance klt_trans_string : Transitive (klt (K := string)).
Proof. intros ???. apply kcompare_trans. Qed.

Lemma klt_total_string (a b : string) : klt a b ∨ a = b ∨ klt b a.
Proof.
  unfold klt. destruct (kcompare a b) eqn:E; [right; left; by apply kcompare_eq|auto|].
  right. right. by apply kcompare_gt.
Qed.

#[export] Instance symbol_le_total : Total symbol_le.
Proof.
  intros x y. unfold symbol_le.
  destruct (decide (klt (ws_symbol y) (ws_symbol x))) as [Hyx|]; [|by left].
  right. intros Hxy. apply (klt_irrefl (ws_symbol x)). by transitivity (ws_symbol y).
Qed.

#[export] Instance symbol_le_trans : Transitive symbol_le.
Proof.
  intros x y z Hxy Hyz Hzx. unfold symbol_le in *.
  destruct (klt_total_string (ws_symbol x) (ws_symbol y)) as [H|[H|H]]; [|congruence|done].
  apply Hyz. by transitivity (ws_symbol x).
Qed.

Lemma symbol_le_antisymm x y : symbol_le x y → symbol_le y x → ws_symbol x = ws_symbol y.
Proof.
  unfold symbol_le. intros H1 H2.
  by destruct (klt_total_string (ws_symbol x) (ws_symbol y)) as [?|[?|?]].
Qed.

(** The windows of a snapshot are told apart by their symbols. *)
Definition distinct_symbols (ws : list WindowStats) : Prop :=
  ∀ w1 w2, w1 ∈ ws → w2 ∈ ws → ws_symbol w1 = ws_symbol w2 → w1 = w2.

Lemma sorted_symbols_unique ws1 ws2 :
  distinct_symbols ws1 → ws1 ≡ₚ ws2 →
  StronglySorted symbol_le ws1 → StronglySorted symbol_le ws2 → ws1 = ws2.
Proof.
  intros Hd Hp H1 H2. apply (StronglySorted_unique_strong symbol_le); [|done..].
  intros x1 x2 Hx1 Hx2 H12 H21. apply Hd; [done|by rewrite Hp|by apply symbol_le_antisymm].
Qed.

Lemma distinct_symbols_perm ws1 ws2 : ws1 ≡ₚ ws2 → distinct_symbols ws1 → distinct_symbols ws2.
Proof. intros Hp Hd w1 w2. rewrite <- Hp. apply Hd. Qed.

Lemma sort_windows_perm ws : sort_windows ws ≡ₚ ws.
Proof. apply merge_sort_Permutation. Qed.

(** Any result [std::sort] may produce is the one of [sort_windows]. *)
Lemma sort_windows_unique ws ws' :
  distinct_symbols ws → ws' ≡ₚ ws → StronglySorted symbol_le ws' → ws' = sort_windows ws.
Proof.
  intros Hd Hp Hs. apply sorted_symbols_unique; [by apply (distinct_symbols_perm ws)| |done|].
  - by rewrite Hp, sort_windows_perm.
  - apply StronglySorted_merge_sort; apply _.
Qed.

Lemma sort_windows_ext ws1 ws2 :
  distinct_symbols ws1 → ws1 ≡ₚ ws2 → sort_windows ws1 = sort_windows ws2.
Proof.
  intros Hd Hp. apply sort_windows_unique; [by apply (distinct_symbols_perm ws1)| |].
  - by rewrite sort_windows_perm.
  - apply StronglySorted_merge_sort; apply _.
Qed.

(** ** Grouping *)

Definition at_window (k : Z) (ws : list WindowStats) : list WindowStats :=
  filter (λ w, ws_window_start_ms w = k) ws.

Lemma at_window_snoc k ws w :
  at_window k (ws ++ [w]) =
  if decide (ws_window_start_ms w = k) then at_window k ws ++ [w] else at_window k ws.
Proof.
  unfold at_window. rewrite filter_app, filter_cons, filter_nil. case_decide; [done|apply app_nil_r].
Qed.

Lemma group_windows_spec ws :
  map_ok (group_windows ws) ∧
  ∀ k, map_find (group_windows ws) k =
    match at_window k ws with
    | [] => None
    | l => Some {| ss_window_start_ms := k; ss_windows := l |}
    end.
Proof.
  unfold group_windows. induction ws as [|w ws [Hok IH]] using rev_ind; [by split; [apply map_ok_nil|]|].
  rewrite foldl_app. cbn [foldl]. unfold group_window at 1 3.
  split; [by apply map_insert_ok|]. intros k. rewrite at_window_snoc. case_decide as Hk; subst.
  - rewrite map_find_insert_eq, IH.
    by destruct (at_window (ws_window_start_ms w) ws).
  - by rewrite map_find_insert_ne, IH.
Qed.

(** The windows are told apart by symbol and window start. *)
Definition distinct_windows (ws : list WindowStats) : Prop :=
  ∀ w1 w2, w1 ∈ ws → w2 ∈ ws → ws_symbol w1 = ws_symbol w2 →
    ws_window_start_ms w1 = ws_window_start_ms w2 → w1 = w2.

Lemma at_window_distinct k ws : distinct_windows ws → distinct_symbols (at_window k ws).
Proof.
  intros Hd w1 w2 [H1 ?]%list_elem_of_filter [H2 ?]%list_elem_of_filter ?. apply Hd; congruence.
Qed.

Lemma sort_snapshot_ext ws1 ws2 k :
  distinct_windows ws1 → ws1 ≡ₚ ws2 →
  sort_snapshot <$> map_find (group_windows ws1) k = sort_snapshot <$> map_find (group_windows ws2) k.
Proof.
  intros Hd Hp. rewrite !(proj2 (group_windows_spec _)).
  assert (at_window k ws1 ≡ₚ at_window k ws2) as Hk by (unfold at_window; by rewrite Hp).
  pose proof (sort_windows_ext _ _ (at_window_distinct k _ Hd) Hk) as Hs.
  destruct (at_window k ws1), (at_window k ws2); [done|..].
  - by apply Permutation_nil_cons in Hk.
  - symmetry in Hk. by apply Permutation_nil_cons in Hk.
  - cbn [fmap option_fmap option_map]. unfold sort_snapshot. cbn [ss_windows ss_window_start_ms].
    by rewrite Hs.
Qed.

(** What is written depends on the set of windows only. *)
Lemma snapshots_perm ws1 ws2 :
  distinct_windows ws1 → ws1 ≡ₚ ws2 → snapshots ws1 = snapshots ws2.
Proof.
  intros Hd Hp. unfold snapshots, map_values.
  assert (∀ m : stdmap Z StatsSnapshot,
    sort_snapshot <$> m.*2 = (map_filter_map (λ _ s, Some (sort_snapshot s)) m).*2) as Hm.
  { intros m. induction m as [|[k s] m IH]; [done|]. cbn. f_equal. apply IH. }
  rewrite !Hm. f_equal. destruct (group_windows_spec ws1) as [Hok1 _], (group_windows_spec ws2) as [Hok2 _].
  apply map_ext; [by apply map_filter_map_ok..|]. intros k. rewrite !map_find_filter_map by done.
  pose proof (sort_snapshot_ext ws1 ws2 k Hd Hp) as Hk.
  destruct (map_find (group_windows ws1) k), (map_find (group_windows ws2) k); cbn in *; congruence.
Qed.

(** The snapshots in order, and what they hold. *)
Lemma snapshots_spec ws :
  StronglySorted (λ s1 s2, ss_window_start_ms s1 < ss_window_start_ms s2) (snapshots ws) ∧
  (∀ snap, snap ∈ snapshots ws →
     ss_windows snap ≠ [] ∧ StronglySorted symbol_le (ss_windows snap) ∧
     ss_windows snap ≡ₚ at_window (ss_window_start_ms snap) ws) ∧
  (∀ w, w ∈ ws → ∃ snap, snap ∈ snapshots ws ∧ w ∈ ss_windows snap).
Proof.
  destruct (group_windows_spec ws) as [Hok Hfind].
  assert (∀ k s, (k, s) ∈ group_windows ws →
    at_window k ws ≠ [] ∧ s = {| ss_window_start_ms := k; ss_windows := at_window k ws |}) as Hin.
  { intros k s Hs. apply map_find_elem in Hs; [|done]. rewrite Hfind in Hs.
    destruct (at_window k ws); naive_solver. }
  split_and!.
  - unfold snapshots, map_values. clear Hfind. induction (group_windows ws) as [|[k s] m IH];
      [apply SSorted_nil|]. apply map_ok_cons in Hok as [Hm Hlt]. cbn. apply SSorted_cons.
    + apply IH; [done|]. intros. apply Hin. by right.
    + apply Forall_forall. intros s' (s1 & -> & ([k2 s2] & -> & H2)%list_elem_of_fmap)%list_elem_of_fmap.
      destruct (Hin k s) as [_ ->]; [left|]. destruct (Hin k2 s2) as [_ ->]; [by right|]. cbn.
      apply Z.compare_lt_iff. by eapply Hlt.
  - intros snap (s & -> & ([k s'] & -> & Hs)%list_elem_of_fmap)%list_elem_of_fmap. cbn [snd].
    destruct (Hin k s' Hs) as [Hne ->]. unfold sort_snapshot. cbn [ss_windows ss_window_start_ms].
    split_and!; [|apply StronglySorted_merge_sort; apply _|apply sort_windows_perm].
    intros Hnil. apply Hne, Permutation_nil_r. by rewrite <- sort_windows_perm, Hnil.
  - intros w Hw. assert (w ∈ at_window (ws_window_start_ms w) ws) as Hat by by apply list_elem_of_filter.
    specialize (Hfind (ws_window_start_ms w)).
    destruct (at_window (ws_window_start_ms w) ws) as [|w0 l] eqn:Hl; [by apply not_elem_of_nil in Hat|].
    apply map_find_Some_elem in Hfind. eexists. split.
    + apply list_elem_of_fmap. eexists. split; [reflexivity|].
      apply list_elem_of_fmap. eexists (_, _). split; [|exact Hfind]. done.
    + cbn [sort_snapshot ss_windows]. by rewrite sort_windows_perm.
Qed.

(** ** The text written *)

Definition snapshots_text (snaps : list StatsSnapshot) : outcome string :=
  texts ← mapM serialize snaps; Ret (string_concat texts).

Definition windows_text (ws : list WindowStats) : outcome string := snapshots_text (snapshots ws).

Section write_text.
Context {S : Type} `{OutputSink S}.
Implicit Types (sink : S).

Lemma write_snapshot_text sink snap sink' :
  write_snapshot sink snap = Ret sink' →
  ∃ text, serialize snap = Ret text ∧ sink_text sink' = sink_text sink +:+ text.
Proof.
  unfold write_snapshot. intros (text & Ht & Hw)%bind_Ret. exists text. split; [done|].
  case_bool_decide; [|by apply sink_write_verbatim]. inv_ret. by rewrite string_app_nil_r.
Qed.

Lemma write_snapshots_text sink snaps sink' :
  foldM write_snapshot sink snaps = Ret sink' →
  ∃ text, snapshots_text snaps = Ret text ∧ sink_text sink' = sink_text sink +:+ text.
Proof.
  revert sink. induction snaps as [|snap snaps IH]; intros sink; cbn.
  { intros. inv_ret. eexists; split; [done|]. by rewrite string_app_nil_r. }
  intros (sink1 & H1 & H2)%bind_Ret.
  apply write_snapshot_text in H1 as (t1 & -> & Ht1).
  apply IH in H2 as (t2 & Hs2 & Ht2). unfold snapshots_text in *. cbn.
  apply bind_Ret in Hs2 as (ts & -> & ?). inv_ret. cbn. eexists; split; [done|].
  by rewrite Ht2, Ht1, string_app_assoc.
Qed.

Lemma write_windows_text sink ws sink' :
  write_windows sink ws = Ret sink' →
  ∃ text, windows_text ws = Ret text ∧ sink_text sink' = sink_text sink +:+ text.
Proof.
  unfold write_windows, windows_text. destruct ws as [|w ws]; [|apply write_snapshots_text].
  intros. inv_ret. eexists; split; [done|]. by rewrite string_app_nil_r.
Qed.

Lemma write_windows_perm sink ws1 ws2 :
  distinct_windows ws1 → ws1 ≡ₚ ws2 → write_windows sink ws1 = write_windows sink ws2.
Proof.
  intros Hd Hp. unfold write_windows. rewrite (snapshots_perm _ _ Hd Hp).
  destruct ws1, ws2; [done|by apply Permutation_nil_cons in Hp| |done].
  symmetry in Hp. by apply Permutation_nil_cons in Hp.
Qed.
End write_text.

Lemma windows_text_perm ws1 ws2 :
  distinct_windows ws1 → ws1 ≡ₚ ws2 → windows_text ws1 = windows_text ws2.
Proof. intros. unfold windows_text. by rewrite (snapshots_perm ws1 ws2). Qed.

(** ** The windows of a set of trades *)

Definition trade_key (W : Z) (t : TradeEvent) : string * Z := (te_symbol t, start_of W t).

(** The statistics of every non-empty bucket. *)
Definition ref_windows (W : Z) (ts : list TradeEvent) : list WindowStats :=
  omap (λ sk, ref_window W sk.1 sk.2 ts) (remove_dups (trade_key W <$> ts)).

(** The text that reports a set of trades. *)
Definition batch_text (W : Z) (ts : list TradeEvent) : outcome string :=
  windows_text (ref_windows W ts).

Lemma ref_window_key W s k ts st :
  ref_window W s k ts = Some st → (s, k) ∈ trade_key W <$> ts.
Proof.
  unfold ref_window. destruct (bucket W s k ts) as [|t b] eqn:Hb; [done|]. intros _.
  assert (t ∈ bucket W s k ts) as Ht by (rewrite Hb; left).
  apply list_elem_of_filter in Ht as [[<- <-] Ht]. apply list_elem_of_fmap. by exists t.
Qed.

Lemma elem_of_ref_windows W ts st :
  st ∈ ref_windows W ts ↔ ∃ s k, ref_window W s k ts = Some st.
Proof.
  unfold ref_windows. rewrite list_elem_of_omap. split.
  - intros ([s k] & _ & H). eauto.
  - intros (s & k & H). exists (s, k). split; [|done]. apply elem_of_remove_dups. by eapply ref_window_key.
Qed.

Lemma omap_NoDup {A B} (f : A → option B) (l : list A) :
  NoDup l → (∀ x y b, f x = Some b → f y = Some b → x = y) → NoDup (omap f l).
Proof.
  intros Hl Hf. induction Hl as [|x l Hx _ IH]; cbn; [constructor|].
  destruct (f x) as [b|] eqn:Hb; [|done]. constructor; [|done].
  intros (y & Hy & Hfy)%list_elem_of_omap. apply Hx. by rewrite (Hf x y b).
Qed.

Lemma ref_windows_NoDup W ts : NoDup (ref_windows W ts).
Proof.
  apply omap_NoDup; [apply NoDup_remove_dups|]. intros [s1 k1] [s2 k2] st H1 H2. cbn in *.
  apply ref_window_keys in H1 as [<- <-]. by apply ref_window_keys in H2 as [<- <-].
Qed.

(** Windows computed from trades are told apart by their keys. *)
Lemma windows_of_distinct W ts ws :
  (∀ st, st ∈ ws → ∃ s k, ref_window W s k ts = Some st) → distinct_windows ws.
Proof.
  intros Hws w1 w2 (s1 & k1 & H1)%Hws (s2 & k2 & H2)%Hws Hs Hk.
  destruct (ref_window_keys _ _ _ _ _ H1), (ref_window_keys _ _ _ _ _ H2). congruence.
Qed.

Lemma ref_windows_unique W ts ws :
  NoDup ws → (∀ st, st ∈ ws ↔ ∃ s k, ref_window W s k ts = Some st) → ws ≡ₚ ref_windows W ts.
Proof.
  intros Hnd Hws. apply NoDup_Permutation; [done|apply ref_windows_NoDup|].
  intros st. by rewrite Hws, elem_of_ref_windows.
Qed.

Lemma batch_text_unique W ts ws :
  NoDup ws → (∀ st, st ∈ ws ↔ ∃ s k, ref_window W s k ts = Some st) →
  windows_text ws = batch_text W ts.
Proof.
  intros Hnd Hws. apply windows_text_perm; [|by apply ref_windows_unique].
  apply (windows_of_distinct W ts). intros st. apply Hws.
Qed.

#[export] Instance batch_text_perm W : Proper ((≡ₚ) ==> (=)) (batch_text W).
Proof.
  intros ts1 ts2 Hp. symmetry. apply batch_text_unique; [apply ref_windows_NoDup|].
  intros st. rewrite elem_of_ref_windows. by setoid_rewrite Hp.
Qed.

(** ** Properties *)

(** C33: what [write_windows] writes depends on the set of windows only.  Let no
    two of them have the same symbol and start ([distinct_windows]; it holds of
    windows computed from one batch of trades, [windows_of_distinct]).  Then any two orders
    in which they were collected from the shards give the same writes to the
    sink; and a call that returns has appended to what the sink held one block
    for each window start, in increasing order of the starts, each block
    serialised from exactly the windows with that start, sorted by symbol, and
    no window is left out. *)
Theorem write_windows_order_irrelevant {S} `{OutputSink S} (sink : S) ws1 ws2 :
  distinct_windows ws1 → ws1 ≡ₚ ws2 →
  write_windows sink ws1 = write_windows sink ws2 ∧
  ∀ sink', write_windows sink ws1 = Ret sink' →
    ∃ snaps texts, mapM serialize snaps = Ret texts ∧ sink_text sink' = sink_text sink +:+ string_concat texts ∧
      StronglySorted (λ s1 s2, ss_window_start_ms s1 < ss_window_start_ms s2) snaps ∧
      (∀ snap, snap ∈ snaps → StronglySorted symbol_le (ss_windows snap) ∧
         ss_windows snap ≡ₚ filter (λ w, ws_window_start_ms w = ss_window_start_ms snap) ws2) ∧
      (∀ w, w ∈ ws2 → ∃ snap, snap ∈ snaps ∧ w ∈ ss_windows snap).
Proof.
  intros Hd Hp. split; [by apply write_windows_perm|]. intros sink' Hw.
  apply write_windows_text in Hw as (text & Ht & Hs). unfold windows_text, snapshots_text in Ht.
  apply bind_Ret in Ht as (texts & Ht & ?). inv_ret.
  destruct (snapshots_spec ws1) as (Hsorted & Hsnap & Hall). exists (snapshots ws1), texts. split_and!; [done..| |].
  - intros snap (_ & Hsym & Hperm)%Hsnap. split; [done|]. by rewrite <- Hp.
  - intros w. rewrite <- Hp. apply Hall.
Qed.

(** The snapshots are written in strictly increasing order of window
    start; each holds, sorted by symbol, exactly the windows with that start,
    and no window is left out. *)
Theorem snapshots_partition ws :
  StronglySorted (λ s1 s2, ss_window_start_ms s1 < ss_window_start_ms s2) (snapshots ws) ∧
  (∀ snap, snap ∈ snapshots ws →
     ss_windows snap ≠ [] ∧ StronglySorted symbol_le (ss_windows snap) ∧
     ss_windows snap ≡ₚ at_window (ss_window_start_ms snap) ws) ∧
  (∀ w, w ∈ ws → ∃ snap, snap ∈ snapshots ws ∧ w ∈ ss_windows snap).
Proof. apply snapshots_spec. Qed.

Lemma write_windows_order_irrelevant_witness :
  let sink := {| fos_file := ""; fos_good := true; fos_os := [] |} in
  write_windows sink [example_window "ETHUSDT"; example_window "BTCUSDT"] =
  write_windows sink [example_window "BTCUSDT"; example_window "ETHUSDT"].
Proof.
  cbv zeta. apply (write_windows_order_irrelevant {| fos_file := ""; fos_good := true; fos_os := [] |}
    [example_window "ETHUSDT"; example_window "BTCUSDT"]
    [example_window "BTCUSDT"; example_window "ETHUSDT"]); [|apply Permutation_swap].
  intros w1 w2 H1 H2. apply elem_of_cons in H1, H2. rewrite list_elem_of_singleton in H1, H2.
  destruct H1 as [->| ->], H2 as [->| ->]; [reflexivity|discriminate|discriminate|reflexivity].
Defined.
