(* ===== verification/Pipeline.v ===== *)
(** * [MarketDataPipeline]

    app/include/agg/runtime/MarketDataPipeline.hpp and
    app/src/runtime/MarketDataPipeline.cpp: the parser thread, one aggregation
    thread per shard, the writer thread, the threads that submit messages and
    the thread that calls [start] and [stop], over the atomic queue operations
    of [BoundedQueue] and an arbitrary [OutputSink].

    A program counter per thread says which blocking or locked operation it
    performs next.  [pipe_step] executes that operation together with the
    thread-local code up to the next one; [None] means that the thread is
    blocked (or has no such step).  An exception that leaves a thread function
    ends the process, so it is the outcome of the whole step. *)

From S2P Require Import Prelude CString DecimalFp StdMap Aggregator Output Json.
From S2P Require Import TradeParser BoundedQueue Snapshots.

(** ** State *)

Record Shard := {
  sh_queue : BoundedQueue TradeEvent;
  sh_aggregator : MarketDataAggregator
}.

Inductive parser_pc :=
  | ParserPop
  | ParserPush (trade : TradeEvent)
  | ParserDone.

Inductive agg_pc :=
  | AggPop
  | AggAdd (trade : TradeEvent)
  | AggDone.

Inductive writer_pc :=
  | WriterWait
  | WriterExtract (current_window_start_ms : Z) (i : nat) (windows : list WindowStats)
  | WriterDone.

(** Where the thread that calls [stop] is. *)
Inductive stop_pc :=
  | NotStopping
  | StopJoinWriter
  | StopJoinParser
  | StopShutdownShards (i : nat)
  | StopJoinShards (i : nat)
  | StopFlush.

(** A thread object is joinable when it holds a thread ([Some]). *)
Record pipeline (S : Type) := {
  pl_window_ms : Z;
  pl_flush_interval_ms : Z;
  pl_raw_queue : BoundedQueue string;
  pl_shards : list Shard;
  pl_sink : S;
  pl_parser : option parser_pc;
  pl_aggs : list (option agg_pc);
  pl_writer : option writer_pc;
  pl_stop_requested : bool;
  pl_stop : stop_pc
}.
Arguments pl_window_ms {S} _.
Arguments pl_flush_interval_ms {S} _.
Arguments pl_raw_queue {S} _.
Arguments pl_shards {S} _.
Arguments pl_sink {S} _.
Arguments pl_parser {S} _.
Arguments pl_aggs {S} _.
Arguments pl_writer {S} _.
Arguments pl_stop_requested {S} _.
Arguments pl_stop {S} _.

Section pipeline.
Context {S : Type} `{OutputSink S} `{J : JsonLib}.

(** [std::hash<std::string>], which the implementation of the standard library
    chooses. *)
Variable hash : string → Z.

Definition new_shard (window_ms queue_capacity : Z) : Shard :=
  {| sh_queue := new_queue queue_capacity; sh_aggregator := new_aggregator window_ms |}.

Definition per_shard_capacity (queue_capacity shard_count : Z) : Z :=
  Z.max (queue_capacity / shard_count) 1.

(** The object that the constructor makes, *)
Definition new_pipeline (window_ms flush_interval_ms queue_capacity : Z) (sink : S) (aggregator_threads : Z) :
    pipeline S :=
  let shard_count := Z.max aggregator_threads 1 in
  {| pl_window_ms := window_ms;
     pl_flush_interval_ms := flush_interval_ms;
     pl_raw_queue := new_queue queue_capacity;
     pl_shards := replicate (Z.to_nat shard_count)
                    (new_shard window_ms (per_shard_capacity queue_capacity shard_count));
     pl_sink := sink;
     pl_parser := None;
     pl_aggs := replicate (Z.to_nat shard_count) None;
     pl_writer := None;
     pl_stop_requested := false;
     pl_stop := NotStopping |}.

(** ... unless there are to be more shards than a vector can hold pointers:
    [shards_.reserve] then throws. *)
Definition max_shards : Z := (two63 - 1) / 8.

Definition construct_pipeline (window_ms flush_interval_ms queue_capacity : Z) (sink : S)
    (aggregator_threads : Z) : outcome (pipeline S) :=
  if max_shards <? Z.max aggregator_threads 1 then Throw (LengthError "vector::reserve")
  else Ret (new_pipeline window_ms flush_interval_ms queue_capacity sink aggregator_threads).

(** ** Updates of single fields *)

Definition set_raw_queue (s : pipeline S) q : pipeline S :=
  {| pl_window_ms := pl_window_ms s; pl_flush_interval_ms := pl_flush_interval_ms s;
     pl_raw_queue := q; pl_shards := pl_shards s;
     pl_sink := pl_sink s; pl_parser := pl_parser s; pl_aggs := pl_aggs s; pl_writer := pl_writer s;
     pl_stop_requested := pl_stop_requested s; pl_stop := pl_stop s |}.
Definition set_shard (s : pipeline S) (i : nat) (sh : Shard) : pipeline S :=
  {| pl_window_ms := pl_window_ms s; pl_flush_interval_ms := pl_flush_interval_ms s;
     pl_raw_queue := pl_raw_queue s;
     pl_shards := <[i := sh]> (pl_shards s);
     pl_sink := pl_sink s; pl_parser := pl_parser s; pl_aggs := pl_aggs s; pl_writer := pl_writer s;
     pl_stop_requested := pl_stop_requested s; pl_stop := pl_stop s |}.
Definition set_parser (s : pipeline S) p : pipeline S :=
  {| pl_window_ms := pl_window_ms s; pl_flush_interval_ms := pl_flush_interval_ms s;
     pl_raw_queue := pl_raw_queue s; pl_shards := pl_shards s;
     pl_sink := pl_sink s; pl_parser := p; pl_aggs := pl_aggs s; pl_writer := pl_writer s;
     pl_stop_requested := pl_stop_requested s; pl_stop := pl_stop s |}.
Definition set_agg (s : pipeline S) (i : nat) p : pipeline S :=
  {| pl_window_ms := pl_window_ms s; pl_flush_interval_ms := pl_flush_interval_ms s;
     pl_raw_queue := pl_raw_queue s; pl_shards := pl_shards s;
     pl_sink := pl_sink s; pl_parser := pl_parser s; pl_aggs := <[i := p]> (pl_aggs s);
     pl_writer := pl_writer s; pl_stop_requested := pl_stop_requested s; pl_stop := pl_stop s |}.
Definition set_writer (s : pipeline S) w : pipeline S :=
  {| pl_window_ms := pl_window_ms s; pl_flush_interval_ms := pl_flush_interval_ms s;
     pl_raw_queue := pl_raw_queue s; pl_shards := pl_shards s;
     pl_sink := pl_sink s; pl_parser := pl_parser s; pl_aggs := pl_aggs s; pl_writer := w;
     pl_stop_requested := pl_stop_requested s; pl_stop := pl_stop s |}.
Definition set_sink (s : pipeline S) (sink : S) : pipeline S :=
  {| pl_window_ms := pl_window_ms s; pl_flush_interval_ms := pl_flush_interval_ms s;
     pl_raw_queue := pl_raw_queue s; pl_shards := pl_shards s;
     pl_sink := sink; pl_parser := pl_parser s; pl_aggs := pl_aggs s; pl_writer := pl_writer s;
     pl_stop_requested := pl_stop_requested s; pl_stop := pl_stop s |}.
Definition set_stop (s : pipeline S) p : pipeline S :=
  {| pl_window_ms := pl_window_ms s; pl_flush_interval_ms := pl_flush_interval_ms s;
     pl_raw_queue := pl_raw_queue s; pl_shards := pl_shards s;
     pl_sink := pl_sink s; pl_parser := pl_parser s; pl_aggs := pl_aggs s; pl_writer := pl_writer s;
     pl_stop_requested := pl_stop_requested s; pl_stop := p |}.

Definition set_queue (sh : Shard) q : Shard := {| sh_queue := q; sh_aggregator := sh_aggregator sh |}.
Definition set_aggregator (sh : Shard) a : Shard := {| sh_queue := sh_queue sh; sh_aggregator := a |}.

(** ** The stages *)

Definition shard_index_for_symbol (s : pipeline S) (symbol : string) : nat :=
  Z.to_nat (hash symbol mod Z.of_nat (length (pl_shards s))).

(** [submit_raw_message]: the result and the new state. *)
Definition submit_raw_message (s : pipeline S) (raw_message : string) :
    option (bool * pipeline S) :=
  '(pushed, q) ← push (pl_raw_queue s) raw_message; Some (pushed, set_raw_queue s q).

(** [run_parser_stage]: the pop at the head of the loop, with the parsing of
    the message; the push into the shard of the trade. *)
Definition run_parser_stage (s : pipeline S) : option (outcome (pipeline S)) :=
  match pl_parser s with
  | Some ParserPop =>
      '(raw, q) ← pop (pl_raw_queue s);
      let s := set_raw_queue s q in
      Some (match raw with
            | None => Ret (set_parser s (Some ParserDone))
            | Some raw =>
                trade ← parse_trade raw;
                Ret (set_parser s (Some (match trade with
                                         | Some trade => ParserPush trade
                                         | None => ParserPop
                                         end)))
            end)
  | Some (ParserPush trade) =>
      let i := shard_index_for_symbol s (te_symbol trade) in
      sh ← pl_shards s !! i;
      '(_, q) ← push (sh_queue sh) trade;
      Some (Ret (set_parser (set_shard s i (set_queue sh q)) (Some ParserPop)))
  | _ => None
  end.

(** [run_aggregation_stage] of the thread of shard [i]. *)
Definition run_aggregation_stage (s : pipeline S) (i : nat) : option (outcome (pipeline S)) :=
  sh ← pl_shards s !! i;
  match pl_aggs s !! i with
  | Some (Some AggPop) =>
      '(trade, q) ← pop (sh_queue sh);
      Some (Ret (set_agg (set_shard s i (set_queue sh q)) i
                   (Some (match trade with Some trade => AggAdd trade | None => AggDone end))))
  | Some (Some (AggAdd trade)) =>
      Some (a ← add_trade (sh_aggregator sh) trade;
            Ret (set_agg (set_shard s i (set_aggregator sh a)) i (Some AggPop)))
  | _ => None
  end.

(** The deadline of [wait_for], when it is entered at the reading [steady_ns]
    of the steady clock; [flush_interval_ms_] is converted to the signed count
    of [std::chrono::milliseconds]. *)
Definition writer_deadline (s : pipeline S) (steady_ns : Z) : outcome Z :=
  wait_deadline steady_ns (to_i64 (pl_flush_interval_ms s)).

(** [run_writer_stage]: the wait ends with [stop_requested_] set, *)
Definition writer_wait (s : pipeline S) (steady_ns : Z) : option (outcome (pipeline S)) :=
  match pl_writer s with
  | Some WriterWait =>
      if pl_stop_requested s
      then Some (_ ← writer_deadline s steady_ns; Ret (set_writer s (Some WriterDone)))
      else None
  | _ => None
  end.

(** ... or with the timeout, when [flush_completed_windows] reads the clock, *)
Definition writer_timeout (s : pipeline S) (now_ms steady_ns : Z) : option (outcome (pipeline S)) :=
  match pl_writer s with
  | Some WriterWait =>
      if pl_stop_requested s then None
      else Some (_ ← writer_deadline s steady_ns;
                 if pl_window_ms s =? 0 then Undef
                 else Ret (set_writer s (Some (WriterExtract
                                                 (window_start_of (pl_window_ms s) (to_u64 now_ms)) 0 []))))
  | _ => None
  end.

(** ... takes the completed windows of one shard after the other, and writes
    them. *)
Definition flush_completed_windows (s : pipeline S) : option (outcome (pipeline S)) :=
  match pl_writer s with
  | Some (WriterExtract current_window_start_ms i windows) =>
      match pl_shards s !! i with
      | Some sh =>
          let '(shard_windows, a) :=
            extract_completed_windows (sh_aggregator sh) current_window_start_ms in
          Some (Ret (set_writer (set_shard s i (set_aggregator sh a))
                       (Some (WriterExtract current_window_start_ms (Datatypes.S i)
                                (windows ++ shard_windows)))))
      | None =>
          Some (sink ← write_windows (pl_sink s) windows;
                Ret (set_writer (set_sink s sink) (Some WriterWait)))
      end
  | _ => None
  end.

(** The loop of [flush_remaining_windows] over the shards. *)
Fixpoint take_remaining (shards : list Shard) : list WindowStats * list Shard :=
  match shards with
  | [] => ([], [])
  | sh :: shards =>
      let '(shard_windows, a) := extract_all_windows (sh_aggregator sh) in
      let '(windows, shards) := take_remaining shards in
      (shard_windows ++ windows, set_aggregator sh a :: shards)
  end.

Definition flush_remaining_windows (s : pipeline S) : outcome (pipeline S) :=
  let '(windows, shards) := take_remaining (pl_shards s) in
  sink ← write_windows (pl_sink s) windows;
  Ret {| pl_window_ms := pl_window_ms s; pl_flush_interval_ms := pl_flush_interval_ms s;
    pl_raw_queue := pl_raw_queue s; pl_shards := shards;
         pl_sink := sink; pl_parser := pl_parser s; pl_aggs := pl_aggs s;
         pl_writer := pl_writer s; pl_stop_requested := pl_stop_requested s; pl_stop := pl_stop s |}.

(** [start] for the first time, before any call of [stop]: the system grants
    every thread, *)
Definition start (s : pipeline S) : option (outcome (pipeline S)) :=
  match pl_parser s, pl_stop_requested s, pl_stop s with
  | None, false, NotStopping =>
      Some (Ret {| pl_window_ms := pl_window_ms s; pl_flush_interval_ms := pl_flush_interval_ms s;
    pl_raw_queue := pl_raw_queue s;
                   pl_shards := pl_shards s; pl_sink := pl_sink s;
                   pl_parser := Some ParserPop;
                   pl_aggs := replicate (length (pl_shards s)) (Some AggPop);
                   pl_writer := Some WriterWait;
                   pl_stop_requested := pl_stop_requested s; pl_stop := pl_stop s |})
  | _, _, _ => None
  end.

(** ... or it refuses one of them, and the constructor of [std::thread] throws
    ([pipe_step] has both); neither [start] nor [main] catches that.  (A call on
    a pipeline that runs or has been stopped is [start_call] in [Lifecycle].) *)
Definition thread_refused : exn := SystemError "Resource temporarily unavailable".

Definition start_refused (s : pipeline S) : option (outcome (pipeline S)) :=
  match start s with Some _ => Some (Throw thread_refused) | None => None end.

(** The call of [stop]: the flag is set and the writer notified. *)
Definition stop_request (s : pipeline S) : option (outcome (pipeline S)) :=
  match pl_stop s with
  | NotStopping =>
      Some (Ret {| pl_window_ms := pl_window_ms s; pl_flush_interval_ms := pl_flush_interval_ms s;
    pl_raw_queue := pl_raw_queue s;
                   pl_shards := pl_shards s; pl_sink := pl_sink s; pl_parser := pl_parser s;
                   pl_aggs := pl_aggs s; pl_writer := pl_writer s;
                   pl_stop_requested := true; pl_stop := StopJoinWriter |})
  | _ => None
  end.

(** Joining a thread: at once when there is none, else when it has finished. *)
Definition can_join_writer (s : pipeline S) : bool :=
  match pl_writer s with None | Some WriterDone => true | _ => false end.
Definition can_join_parser (s : pipeline S) : bool :=
  match pl_parser s with None | Some ParserDone => true | _ => false end.

(** The rest of [stop]. *)
Definition stop (s : pipeline S) : option (outcome (pipeline S)) :=
  match pl_stop s with
  | NotStopping => None
  | StopJoinWriter =>
      if can_join_writer s then
        Some (Ret (set_stop (set_raw_queue (set_writer s None) (shutdown (pl_raw_queue s)))
                     StopJoinParser))
      else None
  | StopJoinParser =>
      if can_join_parser s then Some (Ret (set_stop (set_parser s None) (StopShutdownShards 0)))
      else None
  | StopShutdownShards i =>
      Some (Ret (match pl_shards s !! i with
                 | Some sh => set_stop (set_shard s i (set_queue sh (shutdown (sh_queue sh))))
                                (StopShutdownShards (Datatypes.S i))
                 | None => set_stop s (StopJoinShards 0)
                 end))
  | StopJoinShards i =>
      match pl_aggs s !! i with
      | None => Some (Ret (set_stop s StopFlush))
      | Some (None | Some AggDone) =>
          Some (Ret (set_stop (set_agg s i None) (StopJoinShards (Datatypes.S i))))
      | Some _ => None
      end
  | StopFlush => Some (s ← flush_remaining_windows s; Ret (set_stop s NotStopping))
  end.

(** ** Schedules *)

Inductive action :=
  | ActSubmit (raw_message : string)
  | ActStart
  | ActTimeout (now_ms steady_ns : Z)
  | ActStopRequest
  | ActParser
  | ActAgg (i : nat)
  | ActWriterWait (steady_ns : Z)
  | ActWriterFlush
  | ActStop
  | ActStartRefused.

(** The timer has ticked at the reading [now_ms] of the system clock. *)
Definition ticked (acts : list action) (now_ms : Z) : Prop := ∃ steady_ns, ActTimeout now_ms steady_ns ∈ acts.

Lemma ticked_app acts1 acts2 now_ms : ticked (acts1 ++ acts2) now_ms ↔ ticked acts1 now_ms ∨ ticked acts2 now_ms.
Proof. unfold ticked. setoid_rewrite elem_of_app. naive_solver. Qed.

Definition pipe_step (s : pipeline S) (a : action) : option (outcome (pipeline S)) :=
  match a with
  | ActSubmit raw_message => '(_, s) ← submit_raw_message s raw_message; Some (Ret s)
  | ActStart => start s
  | ActTimeout now_ms steady_ns => writer_timeout s now_ms steady_ns
  | ActStopRequest => stop_request s
  | ActParser => run_parser_stage s
  | ActAgg i => run_aggregation_stage s i
  | ActWriterWait steady_ns => writer_wait s steady_ns
  | ActWriterFlush => flush_completed_windows s
  | ActStop => stop s
  | ActStartRefused => start_refused s
  end.

(** The message a step accepts: the one of a submission that returned
    [true]. *)
Definition accepted_by (s : pipeline S) (a : action) : list string :=
  match a with
  | ActSubmit raw_message =>
      match submit_raw_message s raw_message with
      | Some (true, _) => [raw_message]
      | _ => []
      end
  | _ => []
  end.

(** Steps of threads inside the pipeline, as opposed to calls from outside and
    the timer. *)
Definition internal (a : action) : bool :=
  match a with
  | ActSubmit _ | ActStart | ActTimeout _ _ | ActStopRequest | ActStartRefused => false
  | _ => true
  end.

(** Runs, with the messages accepted. *)
Inductive pipe_run (s0 : pipeline S) : list action → list string → pipeline S → Prop :=
  | pipe_refl : pipe_run s0 [] [] s0
  | pipe_next acts msgs s a s' :
      pipe_run s0 acts msgs s → pipe_step s a = Some (Ret s') →
      pipe_run s0 (acts ++ [a]) (msgs ++ accepted_by s a) s'.

(** ** Steps that return *)

Implicit Types (s : pipeline S).

Lemma writer_wait_Ret s steady_ns s' :
  writer_wait s steady_ns = Some (Ret s') ↔
  pl_writer s = Some WriterWait ∧ pl_stop_requested s = true ∧ is_ret (writer_deadline s steady_ns) ∧
  s' = set_writer s (Some WriterDone).
Proof.
  unfold writer_wait, is_ret. destruct (pl_writer s) as [[]|]; try (split; [done|naive_solver]).
  destruct (pl_stop_requested s); [|split; [done|naive_solver]].
  destruct (writer_deadline s steady_ns); cbn; naive_solver.
Qed.

Lemma writer_timeout_Ret s now_ms steady_ns s' :
  writer_timeout s now_ms steady_ns = Some (Ret s') ↔
  pl_writer s = Some WriterWait ∧ pl_stop_requested s = false ∧ is_ret (writer_deadline s steady_ns) ∧
  pl_window_ms s ≠ 0 ∧
  s' = set_writer s (Some (WriterExtract (window_start_of (pl_window_ms s) (to_u64 now_ms)) 0 [])).
Proof.
  unfold writer_timeout, is_ret. destruct (pl_writer s) as [[]|]; try (split; [done|naive_solver]).
  destruct (pl_stop_requested s); [split; [done|naive_solver]|].
  destruct (writer_deadline s steady_ns); cbn; [|naive_solver..].
  destruct (Z.eqb_spec (pl_window_ms s) 0); naive_solver.
Qed.

Lemma start_refused_Throw s o : start_refused s = Some o → o = Throw thread_refused.
Proof. unfold start_refused. destruct (start s); naive_solver. Qed.

Lemma start_refused_Ret s s' : start_refused s ≠ Some (Ret s').
Proof. by intros ?%start_refused_Throw. Qed.

(** No step changes the flush interval. *)
Lemma flush_interval_step s a s' :
  pipe_step s a = Some (Ret s') → pl_flush_interval_ms s' = pl_flush_interval_ms s.
Proof.
  intros Hs. destruct a as [m| |now ck| | |i|ck| | |]; cbn [pipe_step] in Hs.
  - unfold submit_raw_message in Hs. destruct (push _ _) as [[]|]; cbn in Hs; by simplify_eq.
  - unfold start in Hs. by destruct (pl_parser s), (pl_stop_requested s), (pl_stop s); simplify_eq.
  - by apply writer_timeout_Ret in Hs as (_ & _ & _ & _ & ->).
  - unfold stop_request in Hs. by destruct (pl_stop s); simplify_eq.
  - unfold run_parser_stage in Hs. destruct (pl_parser s) as [[|t|]|]; try done.
    + destruct (pop _) as [[[raw|] q]|]; cbn in Hs; simplify_eq; [|done].
      destruct (parse_trade raw); cbn in *; by simplify_eq.
    + destruct (pl_shards s !! _) as [sh|]; cbn in Hs; [|done]. destruct (push _ _) as [[]|]; cbn in Hs; by simplify_eq.
  - unfold run_aggregation_stage in Hs. destruct (pl_shards s !! i) as [sh|]; cbn in Hs; [|done].
    destruct (pl_aggs s !! i) as [[[|t|]|]|]; try done; [destruct (pop _) as [[]|]; cbn in Hs; by simplify_eq|].
    injection Hs as Hs. by inv_ret.
  - by apply writer_wait_Ret in Hs as (_ & _ & _ & ->).
  - unfold flush_completed_windows in Hs. destruct (pl_writer s) as [[|cur i ws|]|]; try done.
    destruct (pl_shards s !! i) as [sh|]; [by destruct (extract_completed_windows _ cur); simplify_eq|].
    injection Hs as Hs. by inv_ret.
  - unfold stop in Hs. destruct (pl_stop s) as [| | |j|j|]; [done|..].
    + by destruct (can_join_writer s); simplify_eq.
    + by destruct (can_join_parser s); simplify_eq.
    + by destruct (pl_shards s !! j); simplify_eq.
    + by destruct (pl_aggs s !! j) as [[[]|]|]; simplify_eq.
    + injection Hs as Hs. apply bind_Ret in Hs as (s1 & Hf & ?). inv_ret. unfold flush_remaining_windows in Hf.
      destruct (take_remaining (pl_shards s)). by inv_ret.
  - by apply start_refused_Ret in Hs.
Qed.

Lemma flush_interval_run s acts msgs s' :
  pipe_run s acts msgs s' → pl_flush_interval_ms s' = pl_flush_interval_ms s.
Proof. induction 1 as [|acts msgs s1 a s2 _ IH Hs]; [done|]. by rewrite (flush_interval_step _ _ _ Hs). Qed.

(** The deadline of the wait does not depend on the state of the queues. *)
Lemma writer_waits s steady_ns :
  pl_writer s = Some WriterWait → pl_stop_requested s = true → is_Some (writer_wait s steady_ns).
Proof. intros Hw Hr. unfold writer_wait. rewrite Hw, Hr. eauto. Qed.
End pipeline.

(** A flush interval above 2^43 ms: the deadline of the wait overflows. *)
Example flush_wait_overflows :
  writer_timeout (set_writer (new_pipeline 1000 (10 ^ 13) 16
    {| fos_file := ""; fos_good := true; fos_os := [] |} 1) (Some WriterWait)) 0 0 = Some Undef.
Proof. vm_compute. reflexivity. Qed.
