(* ===== verification/PipelineInv.v ===== *)
(** * The invariant of the pipeline

    Where every trade of an accepted message is at any time, that the shards'
    aggregators hold what they should, and what the sink has received. *)

From S2P Require Import Prelude CString DecimalFp StdMap Aggregator AggregatorSpec AggregatorProps.
From S2P Require Import Output Json TradeParser Totals BoundedQueue QueueProps Snapshots.
From S2P Require Import Pipeline.

(** ** Counting trades *)

Definition cnt (t : TradeEvent) (l : list TradeEvent) : Z := total (λ t', ind (bool_decide (t' = t))) l.

Lemma cnt_app t l1 l2 : cnt t (l1 ++ l2) = cnt t l1 + cnt t l2.
Proof. apply total_app. Qed.

Lemma cnt_nil t : cnt t [] = 0.
Proof. done. Qed.

Lemma cnt_cons t x l : cnt t (x :: l) = cnt t [x] + cnt t l.
Proof. apply (cnt_app t [x]). Qed.

Lemma cnt_nonneg t l : 0 ≤ cnt t l.
Proof. apply total_nonneg. auto with cpp. Qed.

Lemma cnt_perm l1 l2 : l1 ≡ₚ l2 ↔ ∀ t, cnt t l1 = cnt t l2.
Proof.
  split.
  - intros Hp t. unfold cnt, total. induction Hp; cbn; lia.
  - revert l2. induction l1 as [|x l1 IH]; intros l2 Hc.
    + destruct l2 as [|y l2]; [done|]. specialize (Hc y). rewrite cnt_nil, cnt_cons in Hc.
      pose proof (cnt_nonneg y l2). unfold cnt at 1, total in Hc. cbn in Hc.
      rewrite bool_decide_true in Hc by done. cbn in Hc. lia.
    + assert (x ∈ l2) as Hx.
      { destruct (decide (x ∈ l2)) as [|Hno]; [done|]. specialize (Hc x). rewrite cnt_cons in Hc.
        pose proof (cnt_nonneg x l1). unfold cnt at 3 in Hc. rewrite (total_zero _ l2) in Hc.
        - unfold cnt at 1, total in Hc. cbn in Hc. rewrite bool_decide_true in Hc by done. cbn in Hc. lia.
        - intros y Hy. rewrite bool_decide_false; [done|]. by intros ->. }
      apply list_elem_of_split in Hx as (la & lb & ->). rewrite <- Permutation_middle. f_equiv.
      apply IH. intros t. specialize (Hc t). rewrite cnt_app, (cnt_cons t x l1), (cnt_cons t x lb) in Hc.
      rewrite cnt_app. lia.
Qed.

Lemma cnt_concat t (l : list (list TradeEvent)) : cnt t (concat l) = total (cnt t) l.
Proof. induction l as [|x l IH]; [done|]. cbn [concat]. by rewrite cnt_app, IH. Qed.

#[global] Arguments cnt : simpl never.

Section inv.
Context {S : Type} `{OutputSink S} `{J : JsonLib}.
Variables (hash : string → Z) (W : Z) (n : nat) (text0 : string).

(** The trades a list of messages carries. *)
Definition trades_of (msgs : list string) : list TradeEvent :=
  omap (λ m, match parse_trade m with Ret (Some t) => Some t | _ => None end) msgs.

(** The shard of a trade. *)
Definition idx (t : TradeEvent) : nat := Z.to_nat (hash (te_symbol t) mod Z.of_nat n).

(** The trade a thread holds between its pop and its push or add. *)
Definition parser_hold (p : option parser_pc) : list TradeEvent :=
  match p with Some (ParserPush t) => [t] | _ => [] end.
Definition agg_hold (p : option agg_pc) : list TradeEvent :=
  match p with Some (AggAdd t) => [t] | _ => [] end.
Definition queued (sh : Shard) : list TradeEvent := bq_items (sh_queue sh).

(** The history of a run: the messages parsed, the batches of trades written,
    the trades extracted but not yet written, and the trades pending in each
    shard. *)
Record ghost := {
  g_consumed : list string;
  g_batches : list (list TradeEvent);
  g_open : list TradeEvent;
  g_pending : list (list TradeEvent)
}.

Record shard_ok (i : nat) (sh : Shard) (pending : list TradeEvent) : Prop := {
  sh_models : agg_models (sh_aggregator sh) pending;
  sh_window : agg_window_ms (sh_aggregator sh) = W;
  sh_pending_routed t : t ∈ pending → idx t = i;
  sh_queued_routed t : t ∈ queued sh → idx t = i
}.

(** The windows collected so far are those of the trades extracted so far,
    which come from the first [i] shards. *)
Record extracted (cur : Z) (i : nat) (windows : list WindowStats) (ts : list TradeEvent) : Prop := {
  ex_nodup : NoDup windows;
  ex_windows st : st ∈ windows ↔ ∃ s k, ref_window W s k ts = Some st;
  ex_routed t : t ∈ ts → (idx t < i)%nat;
  ex_before t : t ∈ ts → start_of W t < cur
}.

Record pipe_ok (g : ghost) (msgs : list string) (s : pipeline S) : Prop := {
  ok_window : pl_window_ms s = W;
  ok_msgs : msgs = g_consumed g ++ bq_items (pl_raw_queue s);
  ok_shards_length : length (pl_shards s) = n;
  ok_aggs_length : length (pl_aggs s) = n;
  ok_pending_length : length (g_pending g) = n;
  ok_flow t :
    cnt t (trades_of (g_consumed g)) =
    cnt t (concat (g_batches g)) + cnt t (g_open g) + total (cnt t) (g_pending g) +
    total (λ sh, cnt t (queued sh)) (pl_shards s) +
    total (λ p, cnt t (agg_hold p)) (pl_aggs s) + cnt t (parser_hold (pl_parser s));
  ok_shards i sh p : pl_shards s !! i = Some sh → g_pending g !! i = Some p → shard_ok i sh p;
  ok_holds i t : pl_aggs s !! i = Some (Some (AggAdd t)) → idx t = i;
  ok_text : ∃ texts, mapM (batch_text W) (g_batches g) = Ret texts ∧
    sink_text (pl_sink s) = text0 +:+ string_concat texts;
  ok_writer :
    match pl_writer s with
    | Some (WriterExtract cur i windows) => extracted cur i windows (g_open g)
    | _ => g_open g = []
    end
}.
(** The trades of the windows before a watermark. *)
Definition trades_before (w : Z) (ts : list TradeEvent) : list TradeEvent :=
  filter (λ t, ¬ w ≤ start_of W t) ts.

Definition with_consumed (g : ghost) (consumed : list string) : ghost :=
  {| g_consumed := consumed; g_batches := g_batches g; g_open := g_open g; g_pending := g_pending g |}.
Definition with_pending (g : ghost) (i : nat) (p : list TradeEvent) : ghost :=
  {| g_consumed := g_consumed g; g_batches := g_batches g; g_open := g_open g;
     g_pending := <[i := p]> (g_pending g) |}.
Definition pending_of (g : ghost) (i : nat) : list TradeEvent := default [] (g_pending g !! i).

(** How a step extends the history. *)
Definition ghost_next (s : pipeline S) (a : action) (g : ghost) : ghost :=
  match a with
  | ActParser =>
      match pl_parser s, pop (pl_raw_queue s) with
      | Some ParserPop, Some (Some raw, _) => with_consumed g (g_consumed g ++ [raw])
      | _, _ => g
      end
  | ActAgg i =>
      match pl_aggs s !! i with
      | Some (Some (AggAdd t)) => with_pending g i (pending_of g i ++ [t])
      | _ => g
      end
  | ActWriterFlush =>
      match pl_writer s with
      | Some (WriterExtract cur i _) =>
          match pl_shards s !! i with
          | Some _ =>
              {| g_consumed := g_consumed g; g_batches := g_batches g;
                 g_open := g_open g ++ trades_before cur (pending_of g i);
                 g_pending := <[i := pending_after W cur (pending_of g i)]> (g_pending g) |}
          | None =>
              {| g_consumed := g_consumed g; g_batches := g_batches g ++ [g_open g]; g_open := [];
                 g_pending := g_pending g |}
          end
      | _ => g
      end
  | ActStop =>
      match pl_stop s with
      | StopFlush =>
          {| g_consumed := g_consumed g; g_batches := g_batches g ++ [concat (g_pending g)];
             g_open := g_open g; g_pending := replicate n [] |}
      | _ => g
      end
  | _ => g
  end.

(** ** Every step preserves it *)

Lemma trades_of_app ms1 ms2 : trades_of (ms1 ++ ms2) = trades_of ms1 ++ trades_of ms2.
Proof. apply omap_app. Qed.

Lemma queued_set_queue sh q : queued (set_queue sh q) = bq_items q.
Proof. done. Qed.

Lemma queued_set_aggregator sh a : queued (set_aggregator sh a) = queued sh.
Proof. done. Qed.

(** Rewrites the counters of a goal about [ok_flow]. *)
Ltac flow :=
  repeat match goal with
  | Hi : ?l !! ?i = Some _ |- context [total ?f (<[?i := _]> ?l)] =>
      rewrite (total_insert f l i _ _ Hi)
  end;
  cbn [parser_hold agg_hold concat];
  rewrite ?queued_set_queue, ?queued_set_aggregator, ?trades_of_app, ?concat_app; cbn [concat];
  rewrite ?app_nil_r, ?cnt_app, ?cnt_nil.

Lemma push_items {T} (q : BoundedQueue T) x b q' :
  push q x = Some (b, q') → bq_items q' = bq_items q ++ (if b then [x] else []).
Proof.
  intros [(_ & -> & ->)|(_ & _ & -> & ->)]%push_Some; cbn; [by rewrite app_nil_r|done].
Qed.

Lemma pop_items {T} (q : BoundedQueue T) r q' :
  pop q = Some (r, q') → bq_items q = match r with Some x => [x] | None => [] end ++ bq_items q'.
Proof.
  intros [(_ & _ & -> & ->)|(x & l & -> & -> & ->)]%pop_Some; done.
Qed.

Lemma submit_ok g msgs s m b s' :
  pipe_ok g msgs s → submit_raw_message s m = Some (b, s') →
  pipe_ok g (msgs ++ if b then [m] else []) s'.
Proof.
  intros [] Hs. unfold submit_raw_message in Hs.
  destruct (push (pl_raw_queue s) m) as [[b' q]|] eqn:Hp; cbn in Hs; [|done]. simplify_eq.
  split; try done. cbn. by rewrite (push_items _ _ _ _ Hp), app_assoc.
Qed.

Lemma parser_pop_ok g msgs s raw q e :
  pipe_ok g msgs s → pl_parser s = Some ParserPop → pop (pl_raw_queue s) = Some (Some raw, q) →
  parse_trade raw = Ret e →
  pipe_ok (with_consumed g (g_consumed g ++ [raw])) msgs
    (set_parser (set_raw_queue s q) (Some (match e with Some t => ParserPush t | None => ParserPop end))).
Proof.
  intros [] Hp Hq He. apply pop_items in Hq. split; try done; cbn.
  - rewrite ok_msgs0, Hq. by rewrite <- app_assoc.
  - intros t. flow. rewrite ok_flow0, Hp. cbn [trades_of omap list_omap]. rewrite He.
    destruct e; cbn [parser_hold]; rewrite ?cnt_nil; lia.
Qed.

Lemma parser_push_ok g msgs s t sh q :
  pipe_ok g msgs s → pl_parser s = Some (ParserPush t) →
  pl_shards s !! idx t = Some sh → push (sh_queue sh) t = Some (true, q) →
  pipe_ok g msgs (set_parser (set_shard s (idx t) (set_queue sh q)) (Some ParserPop)).
Proof.
  intros [] Hp Hsh Hq. apply push_items in Hq. fold (queued sh) in Hq. split; try done; cbn [set_parser set_shard pl_window_ms
    pl_raw_queue pl_shards pl_sink pl_parser pl_aggs pl_writer].
  - by rewrite length_insert.
  - intros t'. flow. rewrite ok_flow0, Hp, Hq. flow. lia.
  - intros i sh' p Hi Hpi. apply list_lookup_insert_Some in Hi as [(<- & <- & _)|[Hne Hi]]; [|by eauto].
    destruct (ok_shards0 _ _ _ Hsh Hpi). split; try done.
    intros t'. unfold queued. cbn. rewrite Hq, elem_of_app, list_elem_of_singleton.
    intros [?| ->]; [eauto|done].
Qed.

Lemma pending_at g msgs s i sh :
  pipe_ok g msgs s → pl_shards s !! i = Some sh → ∃ p, g_pending g !! i = Some p ∧ shard_ok i sh p.
Proof.
  intros Hg Hsh. assert (is_Some (g_pending g !! i)) as [p Hp].
  { apply lookup_lt_is_Some. rewrite (ok_pending_length _ _ _ Hg), <- (ok_shards_length _ _ _ Hg).
    by eapply lookup_lt_Some. }
  exists p. split; [done|]. by eapply ok_shards.
Qed.

Lemma agg_pop_ok g msgs s i sh r q :
  pipe_ok g msgs s → pl_shards s !! i = Some sh → pl_aggs s !! i = Some (Some AggPop) →
  pop (sh_queue sh) = Some (r, q) →
  pipe_ok g msgs (set_agg (set_shard s i (set_queue sh q)) i
                    (Some (match r with Some t => AggAdd t | None => AggDone end))).
Proof.
  intros Hg Hsh Ha Hq. destruct (pending_at _ _ _ _ _ Hg Hsh) as (p & Hp & Hok). destruct Hg.
  apply pop_items in Hq. fold (queued sh) in Hq.
  split; try done; cbn [set_agg set_shard pl_window_ms pl_raw_queue pl_shards pl_sink pl_parser
    pl_aggs pl_writer].
  - by rewrite length_insert.
  - by rewrite length_insert.
  - intros t. flow. rewrite ok_flow0, Hq. destruct r; flow; lia.
  - intros i' sh' p' Hi Hpi. apply list_lookup_insert_Some in Hi as [(<- & <- & _)|[Hne Hi]]; [|by eauto].
    simplify_eq. destruct Hok as [? ? ? Hr]. split; try done. intros t Ht. apply Hr.
    rewrite Hq. apply elem_of_app. by right.
  - intros i' t Hi. apply list_lookup_insert_Some in Hi as [(<- & Ht & _)|[Hne Hi]]; [|by eauto].
    destruct r as [t'|]; simplify_eq. apply (sh_queued_routed _ _ _ Hok). rewrite Hq. left.
Qed.

Lemma agg_add_ok g msgs s i sh t a :
  pipe_ok g msgs s → pl_shards s !! i = Some sh → pl_aggs s !! i = Some (Some (AggAdd t)) →
  add_trade (sh_aggregator sh) t = Ret a →
  pipe_ok (with_pending g i (pending_of g i ++ [t])) msgs
    (set_agg (set_shard s i (set_aggregator sh a)) i (Some AggPop)).
Proof.
  intros Hg Hsh Ha Hadd. destruct (pending_at _ _ _ _ _ Hg Hsh) as (p & Hp & [Hm Hw Hr1 Hr2]).
  destruct Hg.
  pose proof (add_trade_models _ _ t Hm) as Hm'. cbn zeta in Hm'. rewrite Hadd in Hm'.
  destruct Hm' as (Hm' & Hw' & _).
  unfold with_pending, pending_of. rewrite Hp. cbn [default from_option id].
  split; try done; cbn [set_agg set_shard pl_window_ms pl_raw_queue pl_shards pl_sink pl_parser
    pl_aggs pl_writer g_consumed g_batches g_open g_pending].
  - by rewrite length_insert.
  - by rewrite length_insert.
  - by rewrite length_insert.
  - intros t'. flow. rewrite ok_flow0. lia.
  - intros i' sh' p' Hi Hpi. apply list_lookup_insert_Some in Hi as [(<- & <- & Hlt)|[Hne Hi]].
    + rewrite list_lookup_insert_eq in Hpi by (rewrite ok_pending_length0; lia). simplify_eq.
      split; cbn; [done|congruence| |done].
      intros t'. rewrite elem_of_app, list_elem_of_singleton. intros [?| ->]; eauto.
    + rewrite list_lookup_insert_ne in Hpi by done. eauto.
  - intros i' t' Hi. apply list_lookup_insert_Some in Hi as [(<- & Ht & _)|[Hne Hi]]; [done|eauto].
Qed.

(** ** The writer *)

Lemma ref_window_app_disjoint s k ts1 ts2 st :
  (∀ t1 t2, t1 ∈ ts1 → t2 ∈ ts2 → te_symbol t1 ≠ te_symbol t2) →
  ref_window W s k (ts1 ++ ts2) = Some st ↔
  ref_window W s k ts1 = Some st ∨ ref_window W s k ts2 = Some st.
Proof.
  intros Hd. unfold ref_window. rewrite bucket_app.
  destruct (bucket W s k ts1) as [|t1 b1] eqn:H1; [naive_solver|].
  assert (bucket W s k ts2 = []) as ->; [|rewrite app_nil_r; naive_solver].
  destruct (bucket W s k ts2) as [|t2 b2] eqn:H2; [done|].
  assert (t1 ∈ bucket W s k ts1) as Ht1 by (rewrite H1; left).
  assert (t2 ∈ bucket W s k ts2) as Ht2 by (rewrite H2; left).
  apply list_elem_of_filter in Ht1 as [[Hs1 _] Ht1], Ht2 as [[Hs2 _] Ht2].
  destruct (Hd t1 t2 Ht1 Ht2). congruence.
Qed.

Lemma trades_split w t ts :
  cnt t ts = cnt t (trades_before w ts) + cnt t (pending_after W w ts).
Proof.
  unfold trades_before, pending_after. induction ts as [|x l IH]; [done|].
  rewrite cnt_cons, !filter_cons.
  repeat case_decide; try done; rewrite ?(cnt_cons t x (filter _ _)); lia.
Qed.

Lemma ref_window_before w s k ts st :
  ref_window W s k (trades_before w ts) = Some st ↔ k < w ∧ ref_window W s k ts = Some st.
Proof.
  unfold ref_window. assert (bucket W s k (trades_before w ts) =
    if decide (k < w) then bucket W s k ts else []) as ->.
  { unfold bucket, trades_before. rewrite list_filter_filter. case_decide as Hk.
    - apply list_filter_iff. unfold in_bucket. naive_solver lia.
    - induction ts as [|t ts IH]; [done|]. rewrite filter_cons, decide_False; [done|].
      unfold in_bucket. naive_solver lia. }
  case_decide; naive_solver.
Qed.

Lemma ref_window_symbol s k ts st :
  ref_window W s k ts = Some st → ∃ t, t ∈ ts ∧ te_symbol t = ws_symbol st.
Proof.
  intros Hst. destruct (ref_window_keys _ _ _ _ _ Hst) as [Hs _].
  apply ref_window_key, list_elem_of_fmap in Hst as (t & Hk & Ht). exists t.
  unfold trade_key in Hk. split; congruence.
Qed.

Lemma extracted_next cur i windows ts sh p :
  extracted cur i windows ts → shard_ok i sh p →
  extracted cur (Datatypes.S i) (windows ++ (extract_completed_windows (sh_aggregator sh) cur).1)
    (ts ++ trades_before cur p).
Proof.
  intros [Hnd Hws Hr Hb] [Hm Hw Hp _].
  assert (∀ t, t ∈ trades_before cur p → idx t = i ∧ start_of W t < cur) as Hin.
  { intros t [Hlt Ht]%list_elem_of_filter. split; [eauto|lia]. }
  assert (∀ t1 t2, t1 ∈ ts → t2 ∈ trades_before cur p → te_symbol t1 ≠ te_symbol t2) as Hd.
  { intros t1 t2 H1 [H2 _]%Hin Hs. specialize (Hr _ H1). unfold idx in *. rewrite Hs in Hr. lia. }
  destruct (extract_completed_result _ _ cur Hm) as [Hso Hel]. rewrite Hw in Hel.
  setoid_rewrite <- ref_window_before in Hel. split.
  - apply NoDup_app. split_and!; [done| |by apply (strict_sorted_NoDup win_before)].
    intros st (s1 & k1 & (t1 & Ht1 & Hs1)%ref_window_symbol)%Hws
      (s2 & k2 & (t2 & Ht2 & Hs2)%ref_window_symbol)%Hel. apply (Hd t1 t2); congruence.
  - intros st. rewrite elem_of_app, Hws, Hel. setoid_rewrite (ref_window_app_disjoint _ _ _ _ _ Hd).
    naive_solver.
  - intros t [Ht|[Ht _]%Hin]%elem_of_app; [apply Hr in Ht; lia|lia].
  - intros t [Ht|[_ Ht]%Hin]%elem_of_app; [by apply Hb|done].
Qed.

Lemma timeout_ok g msgs s now ck s' :
  pipe_ok g msgs s → writer_timeout s now ck = Some (Ret s') → pipe_ok g msgs s'.
Proof.
  intros [] (Hw & _ & _ & _ & ->)%writer_timeout_Ret. rewrite Hw in *.
  split; try done. cbn [set_writer pl_writer]. rewrite ok_writer0.
  split; [constructor| |by intros t ?%not_elem_of_nil..].
  intros st. split; [by intros ?%not_elem_of_nil|]. by intros (s' & k & ?).
Qed.

Lemma writer_extract_ok g msgs s cur i windows sh :
  pipe_ok g msgs s → pl_writer s = Some (WriterExtract cur i windows) → pl_shards s !! i = Some sh →
  let '(ws, a) := extract_completed_windows (sh_aggregator sh) cur in
  pipe_ok {| g_consumed := g_consumed g; g_batches := g_batches g;
             g_open := g_open g ++ trades_before cur (pending_of g i);
             g_pending := <[i := pending_after W cur (pending_of g i)]> (g_pending g) |} msgs
    (set_writer (set_shard s i (set_aggregator sh a))
       (Some (WriterExtract cur (Datatypes.S i) (windows ++ ws)))).
Proof.
  intros Hg Hwr Hsh. destruct (pending_at _ _ _ _ _ Hg Hsh) as (p & Hp & Hok). destruct Hg.
  rewrite Hwr in ok_writer0. pose proof (extracted_next _ _ _ _ _ _ ok_writer0 Hok) as Hex.
  destruct Hok as [Hm Hw Hr1 Hr2].
  destruct (extract_completed_windows (sh_aggregator sh) cur) as [ws a] eqn:He.
  destruct (extract_completed_models _ _ _ _ _ Hm He) as [Hm' Hw'].
  unfold pending_of. rewrite Hp. cbn [default from_option id].
  split; try done; cbn [set_writer set_shard pl_window_ms pl_raw_queue pl_shards pl_sink pl_parser
    pl_aggs pl_writer g_consumed g_batches g_open g_pending].
  - by rewrite length_insert.
  - by rewrite length_insert.
  - intros t. flow. rewrite ok_flow0.
    pose proof (trades_split cur t p). lia.
  - intros i' sh' p' Hi Hpi. apply list_lookup_insert_Some in Hi as [(<- & <- & Hlt)|[Hne Hi]].
    + rewrite list_lookup_insert_eq in Hpi by (rewrite ok_pending_length0; lia). simplify_eq.
      split; cbn; [by rewrite Hw in Hm'|congruence| |done].
      intros t [_ ?]%list_elem_of_filter. eauto.
    + rewrite list_lookup_insert_ne in Hpi by done. eauto.
Qed.

Lemma mapM_snoc {A B} (f : A → outcome B) l ys x y :
  mapM f l = Ret ys → f x = Ret y → mapM f (l ++ [x]) = Ret (ys ++ [y]).
Proof.
  intros Hl Hx. revert ys Hl. induction l as [|z l IH]; intros ys; cbn.
  - intros. inv_ret. by rewrite Hx.
  - destruct (f z); cbn; [|done..]. destruct (mapM f l) as [ys'| |]; cbn; [|done..].
    intros. inv_ret. by rewrite (IH ys').
Qed.

(** A batch is written. *)
Lemma text_snoc (batches : list (list TradeEvent)) (sink sink' : S) windows ts :
  (∃ texts, mapM (batch_text W) batches = Ret texts ∧ sink_text sink = text0 +:+ string_concat texts) →
  write_windows sink windows = Ret sink' →
  NoDup windows → (∀ st, st ∈ windows ↔ ∃ s k, ref_window W s k ts = Some st) →
  ∃ texts, mapM (batch_text W) (batches ++ [ts]) = Ret texts ∧
    sink_text sink' = text0 +:+ string_concat texts.
Proof.
  intros (texts & Ht & Hs) Hw Hnd Hws. apply write_windows_text in Hw as (text & Htext & Hw).
  rewrite (batch_text_unique W ts) in Htext by done.
  exists (texts ++ [text]). split; [by apply mapM_snoc|].
  rewrite Hw, Hs, string_concat_app. cbn [string_concat].
  by rewrite string_app_nil_r, string_app_assoc.
Qed.

Lemma writer_write_ok g msgs s cur i windows sink :
  pipe_ok g msgs s → pl_writer s = Some (WriterExtract cur i windows) →
  write_windows (pl_sink s) windows = Ret sink →
  pipe_ok {| g_consumed := g_consumed g; g_batches := g_batches g ++ [g_open g]; g_open := [];
             g_pending := g_pending g |} msgs (set_writer (set_sink s sink) (Some WriterWait)).
Proof.
  intros [] Hwr Hw. rewrite Hwr in ok_writer0. destruct ok_writer0 as [Hnd Hws _ _].
  split; try done; cbn [set_writer set_sink pl_window_ms pl_raw_queue pl_shards pl_sink pl_parser
    pl_aggs pl_writer g_consumed g_batches g_open g_pending].
  - intros t. flow. rewrite ok_flow0. lia.
  - by eapply text_snoc.
Qed.

(** ** The final flush *)

Lemma take_remaining_spec i shards pending :
  length shards = length pending →
  (∀ j sh p, shards !! j = Some sh → pending !! j = Some p → shard_ok (i + j) sh p) →
  NoDup (take_remaining shards).1 ∧
  (∀ st, st ∈ (take_remaining shards).1 ↔ ∃ s k, ref_window W s k (concat pending) = Some st).
Proof.
  revert i pending. induction shards as [|sh shards IH]; intros i [|p pending] Hlen Hok; try done.
  { split; [constructor|]. intros st. split; [by intros ?%not_elem_of_nil|]. by intros (? & ? & ?). }
  destruct (IH (Datatypes.S i) pending) as [Hnd Hws]; [cbn in Hlen; lia| |].
  { intros j sh' p' Hj Hp. replace (Datatypes.S i + j)%nat with (i + Datatypes.S j)%nat by lia. eauto. }
  destruct (Hok 0%nat sh p) as [Hm Hw Hr _]; [done..|].
  pose proof (extract_all_result _ _ Hm) as [Hso Hel]. rewrite Hw in Hel.
  cbn [take_remaining]. destruct (extract_all_windows (sh_aggregator sh)) as [ws a].
  destruct (take_remaining shards) as [ws' shards']. cbn [fst] in *.
  assert (∀ t1 t2, t1 ∈ p → t2 ∈ concat pending → te_symbol t1 ≠ te_symbol t2) as Hd.
  { intros t1 t2 H1 H2 Hs. apply list_elem_of_In, in_concat in H2 as (p' & Hp' & H2).
    apply list_elem_of_In in H2, Hp'. apply list_elem_of_lookup in Hp' as [j Hj].
    assert (is_Some (shards !! j)) as [sh' Hsh'].
    { apply lookup_lt_is_Some. apply lookup_lt_Some in Hj. cbn in Hlen. lia. }
    destruct (Hok (Datatypes.S j) sh' p') as [_ _ Hr' _]; [done..|].
    specialize (Hr _ H1). specialize (Hr' _ H2). unfold idx in *. rewrite Hs in Hr. lia. }
  split.
  - apply NoDup_app. split_and!; [by apply (strict_sorted_NoDup win_before)| |done].
    intros st (s1 & k1 & (t1 & Ht1 & Hs1)%ref_window_symbol)%Hel
      (s2 & k2 & (t2 & Ht2 & Hs2)%ref_window_symbol)%Hws. apply (Hd t1 t2); congruence.
  - intros st. cbn [concat]. rewrite elem_of_app, Hws, Hel.
    setoid_rewrite (ref_window_app_disjoint _ _ _ _ _ Hd). naive_solver.
Qed.

Lemma take_remaining_shards shards :
  (take_remaining shards).2 =
  (λ sh, set_aggregator sh (extract_all_windows (sh_aggregator sh)).2) <$> shards.
Proof.
  induction shards as [|sh shards IH]; [done|]. cbn [take_remaining fmap list_fmap]. rewrite <- IH.
  destruct (extract_all_windows (sh_aggregator sh)), (take_remaining shards). done.
Qed.

Lemma flush_remaining_ok g msgs s s' :
  pipe_ok g msgs s → flush_remaining_windows s = Ret s' →
  pipe_ok {| g_consumed := g_consumed g; g_batches := g_batches g ++ [concat (g_pending g)];
             g_open := g_open g; g_pending := replicate n [] |} msgs s'.
Proof.
  intros [] Hf. unfold flush_remaining_windows in Hf.
  destruct (take_remaining_spec 0 (pl_shards s) (g_pending g)) as [Hnd Hws]; [congruence|eauto|].
  pose proof (take_remaining_shards (pl_shards s)) as Hsh.
  destruct (take_remaining (pl_shards s)) as [ws shards]. cbn [fst snd] in *.
  apply bind_Ret in Hf as (sink & Hw & ?). inv_ret.
  split; try done; cbn [pl_window_ms pl_raw_queue pl_shards pl_sink pl_parser
    pl_aggs pl_writer g_consumed g_batches g_open g_pending].
  - by rewrite length_fmap.
  - by rewrite length_replicate.
  - intros t. flow. rewrite ok_flow0, !cnt_concat.
    rewrite (total_zero _ (replicate n [])) by (by intros ? [-> _]%elem_of_replicate).
    rewrite (total_fmap _ (λ sh, cnt t (queued sh)) (λ sh, set_aggregator sh _)) by done. lia.
  - intros i sh p Hi Hp. apply list_lookup_fmap_Some in Hi as (sh0 & -> & Hi).
    apply lookup_replicate in Hp as [-> Hlt].
    assert (is_Some (g_pending g !! i)) as [p Hp] by (apply lookup_lt_is_Some; lia).
    destruct (ok_shards0 _ _ _ Hi Hp) as [Hm Hwin _ Hr].
    split; [by eapply extract_all_models|done|by intros t ?%not_elem_of_nil|done].
  - by eapply text_snoc.
Qed.

(** ** All steps *)

Context `{!JsonLaws J}.

Lemma idx_lt t : n ≠ 0%nat → (idx t < n)%nat.
Proof.
  intros Hn. unfold idx. pose proof (Z.mod_pos_bound (hash (te_symbol t)) (Z.of_nat n)). lia.
Qed.

(** The states in which the parser can still push: no shard is shut down. *)
Definition shards_open (s : pipeline S) : Prop :=
  pl_parser s ≠ None →
  ∀ i sh, pl_shards s !! i = Some sh → bq_shutdown (sh_queue sh) = false.

Lemma parser_stage_ok g msgs s s' :
  pipe_ok g msgs s → shards_open s → run_parser_stage hash s = Some (Ret s') →
  pipe_ok (ghost_next s ActParser g) msgs s'.
Proof.
  intros Hg Hopen Hs. unfold run_parser_stage in Hs. cbn [ghost_next].
  destruct (pl_parser s) as [[|t|]|] eqn:Hp; try done.
  - destruct (pop (pl_raw_queue s)) as [[[raw|] q]|] eqn:Hq; cbn in Hs; [| |done].
    + injection Hs as Hs. apply bind_Ret in Hs as (e & He & ?). inv_ret.
      by eapply parser_pop_ok.
    + simplify_eq. apply pop_items in Hq. destruct Hg. split; try done; cbn.
      * by rewrite ok_msgs0, Hq.
      * intros t. rewrite ok_flow0, Hp. done.
  - unfold shard_index_for_symbol in Hs. rewrite (ok_shards_length _ _ _ Hg) in Hs. fold (idx t) in Hs.
    destruct (pl_shards s !! idx t) as [sh|] eqn:Hsh; cbn in Hs; [|done].
    destruct (push (sh_queue sh) t) as [[b q]|] eqn:Hq; cbn in Hs; [|done]. simplify_eq.
    destruct b; [by eapply parser_push_ok|].
    apply push_Some in Hq as [(Hsd & _)|(_ & _ & ? & _)]; [|done].
    rewrite (Hopen ltac:(by rewrite Hp) _ _ Hsh) in Hsd. done.
Qed.

Lemma parser_frame (s s' : pipeline S) :
  run_parser_stage hash s = Some (Ret s') → pl_writer s' = pl_writer s ∧ pl_stop s' = pl_stop s.
Proof.
  intros Hs. unfold run_parser_stage in Hs. destruct (pl_parser s) as [[|t|]|]; try done.
  - destruct (pop _) as [[[raw|] q]|]; cbn in Hs; [| |done]; injection Hs as Hs; inv_ret; subst; by split.
  - destruct (pl_shards s !! _) as [sh|]; cbn in Hs; [|done].
    destruct (push _ _) as [[]|]; cbn in Hs; by simplify_eq.
Qed.

Lemma parser_frame_threads (s s' : pipeline S) :
  run_parser_stage hash s = Some (Ret s') →
  pl_aggs s' = pl_aggs s ∧ pl_stop_requested s' = pl_stop_requested s.
Proof.
  intros Hs. unfold run_parser_stage in Hs. destruct (pl_parser s) as [[|t|]|]; try done.
  - destruct (pop _) as [[[raw|] q]|]; cbn in Hs; [| |done]; injection Hs as Hs; inv_ret; subst; by split.
  - destruct (pl_shards s !! _) as [sh|]; cbn in Hs; [|done].
    destruct (push _ _) as [[]|]; cbn in Hs; by simplify_eq.
Qed.

Lemma parser_frame_sink (s s' : pipeline S) :
  run_parser_stage hash s = Some (Ret s') → pl_sink s' = pl_sink s.
Proof.
  intros Hs. unfold run_parser_stage in Hs. destruct (pl_parser s) as [[|t|]|]; try done.
  - destruct (pop _) as [[[raw|] q]|]; cbn in Hs; [| |done]; injection Hs as Hs; by inv_ret; subst.
  - destruct (pl_shards s !! _) as [sh|]; cbn in Hs; [|done].
    destruct (push _ _) as [[]|]; cbn in Hs; by simplify_eq.
Qed.

Lemma agg_frame_sink (s : pipeline S) i s' :
  run_aggregation_stage s i = Some (Ret s') → pl_sink s' = pl_sink s.
Proof.
  intros Hs. unfold run_aggregation_stage in Hs. destruct (pl_shards s !! i) as [sh|]; cbn in Hs; [|done].
  destruct (pl_aggs s !! i) as [[[|t|]|]|]; try done; [|injection Hs as Hs; by inv_ret].
  destruct (pop _) as [[]|]; cbn in Hs; by simplify_eq.
Qed.

Lemma stop_frame (s s' : pipeline S) :
  stop s = Some (Ret s') →
  (pl_writer s' = None ∨ pl_writer s' = pl_writer s) ∧ pl_stop_requested s' = pl_stop_requested s ∧
  (∀ i p, pl_aggs s' !! i = Some (Some p) → pl_aggs s !! i = Some (Some p)).
Proof.
  intros Hs. unfold stop in Hs. destruct (pl_stop s) as [| | |j|j|]; [done|..].
  - destruct (can_join_writer s); simplify_eq. cbn. auto.
  - destruct (can_join_parser s); simplify_eq. cbn. auto.
  - destruct (pl_shards s !! j); simplify_eq; cbn; auto.
  - destruct (pl_aggs s !! j) as [[[]|]|]; simplify_eq; cbn; split_and!; auto;
      by intros i p [(_ & ? & _)|[_ ?]]%list_lookup_insert_Some.
  - injection Hs as Hs. apply bind_Ret in Hs as (s1 & Hf & ?). inv_ret. unfold flush_remaining_windows in Hf.
    destruct (take_remaining (pl_shards s)). inv_ret. cbn. auto.
Qed.

Lemma agg_frame (s : pipeline S) i s' :
  run_aggregation_stage s i = Some (Ret s') → pl_writer s' = pl_writer s ∧ pl_stop s' = pl_stop s.
Proof.
  intros Hs. unfold run_aggregation_stage in Hs. destruct (pl_shards s !! i) as [sh|]; cbn in Hs; [|done].
  destruct (pl_aggs s !! i) as [[[|t|]|]|]; try done.
  - destruct (pop _) as [[]|]; cbn in Hs; by simplify_eq.
  - injection Hs as Hs. by inv_ret.
Qed.

Lemma agg_stage_ok g msgs s i s' :
  pipe_ok g msgs s → run_aggregation_stage s i = Some (Ret s') →
  pipe_ok (ghost_next s (ActAgg i) g) msgs s'.
Proof.
  intros Hg Hs. unfold run_aggregation_stage in Hs. cbn [ghost_next].
  destruct (pl_shards s !! i) as [sh|] eqn:Hsh; cbn in Hs; [|done].
  destruct (pl_aggs s !! i) as [[[|t|]|]|] eqn:Ha; try done.
  - destruct (pop (sh_queue sh)) as [[r q]|] eqn:Hq; cbn in Hs; [|done]. simplify_eq.
    by eapply agg_pop_ok.
  - injection Hs as Hs. apply bind_Ret in Hs as (a & Hadd & ?). inv_ret. by eapply agg_add_ok.
Qed.

Lemma writer_flush_ok g msgs s s' :
  pipe_ok g msgs s → flush_completed_windows s = Some (Ret s') →
  pipe_ok (ghost_next s ActWriterFlush g) msgs s'.
Proof.
  intros Hg Hs. unfold flush_completed_windows in Hs. cbn [ghost_next].
  destruct (pl_writer s) as [[|cur i ws|]|] eqn:Hw; try done.
  destruct (pl_shards s !! i) as [sh|] eqn:Hsh.
  - pose proof (writer_extract_ok _ _ _ _ _ _ _ Hg Hw Hsh) as Hg'.
    destruct (extract_completed_windows (sh_aggregator sh) cur). by simplify_eq.
  - injection Hs as Hs. apply bind_Ret in Hs as (sink & Hwr & ?). inv_ret. by eapply writer_write_ok.
Qed.

Lemma writer_wait_ok g msgs s ck s' :
  pipe_ok g msgs s → writer_wait s ck = Some (Ret s') → pipe_ok g msgs s'.
Proof. intros [] (Hw & _ & _ & ->)%writer_wait_Ret. rewrite Hw in *. by split. Qed.

(** The states in which no thread has been started. *)
Definition threads_fresh (s : pipeline S) : Prop :=
  pl_writer s = None ∧ ∀ i p, pl_aggs s !! i = Some p → p = None.

Lemma start_ok g msgs s s' :
  pipe_ok g msgs s → threads_fresh s → start s = Some (Ret s') → pipe_ok g msgs s'.
Proof.
  intros [] [Hw Ha] Hs. unfold start in Hs.
  destruct (pl_parser s) eqn:Hp, (pl_stop_requested s), (pl_stop s); try done.
  simplify_eq. rewrite Hw in ok_writer0. split; try done; cbn [pl_aggs pl_parser].
  - by rewrite length_replicate.
  - intros t. rewrite ok_flow0, ?Hp. cbn [parser_hold].
    rewrite (total_zero _ (pl_aggs s)), (total_zero _ (replicate _ _)); [done| |].
    + by intros ? [-> _]%elem_of_replicate.
    + intros p [i Hi]%list_elem_of_lookup. by apply Ha in Hi as ->.
  - intros i t [? _]%lookup_replicate. simplify_eq.
Qed.

Lemma stop_request_ok g msgs s s' :
  pipe_ok g msgs s → stop_request s = Some (Ret s') → pipe_ok g msgs s'.
Proof. intros [] Hs. unfold stop_request in Hs. destruct (pl_stop s); simplify_eq. by split. Qed.

Lemma set_stop_ok g msgs s p : pipe_ok g msgs s → pipe_ok g msgs (set_stop s p).
Proof. intros []. by split. Qed.

Lemma join_shard_ok g msgs s i p :
  pipe_ok g msgs s → pl_aggs s !! i = Some p → agg_hold p = [] → pipe_ok g msgs (set_agg s i None).
Proof.
  intros [] Hi Hp. split; try done; cbn [set_agg pl_aggs pl_shards pl_parser].
  - by rewrite length_insert.
  - intros t. flow. rewrite ok_flow0, Hp, cnt_nil. cbn. lia.
  - intros i' t Hi'. apply list_lookup_insert_Some in Hi' as [(_ & ? & _)|[_ ?]]; [done|eauto].
Qed.

Lemma shutdown_shard_ok g msgs s i sh :
  pipe_ok g msgs s → pl_shards s !! i = Some sh →
  pipe_ok g msgs (set_shard s i (set_queue sh (shutdown (sh_queue sh)))).
Proof.
  intros [] Hi. split; try done; cbn [set_shard pl_shards pl_aggs pl_parser].
  - by rewrite length_insert.
  - intros t. flow. rewrite ok_flow0. change (bq_items (shutdown (sh_queue sh))) with (queued sh). lia.
  - intros i' sh' p Hi' Hp. apply list_lookup_insert_Some in Hi' as [(<- & <- & _)|[_ ?]]; [|eauto].
    destruct (ok_shards0 _ _ _ Hi Hp). by split.
Qed.

Lemma stop_ok g msgs s s' :
  pipe_ok g msgs s → stop s = Some (Ret s') → pipe_ok (ghost_next s ActStop g) msgs s'.
Proof.
  intros Hg Hs. unfold stop in Hs. cbn [ghost_next]. destruct (pl_stop s) as [| | |i|i|].
  - done.
  - unfold can_join_writer in Hs. destruct Hg.
    destruct (pl_writer s) as [[]|] eqn:Hw; simplify_eq; by split.
  - unfold can_join_parser in Hs. destruct Hg.
    destruct (pl_parser s) as [[]|] eqn:Hp; simplify_eq; split; try done; intros t; by rewrite ok_flow0, ?Hp.
  - destruct (pl_shards s !! i) eqn:Hi; simplify_eq; apply set_stop_ok; [|done]. by apply shutdown_shard_ok.
  - destruct (pl_aggs s !! i) as [[[]|]|] eqn:Hi; simplify_eq; apply set_stop_ok; [by eapply join_shard_ok..|done].
  - injection Hs as Hs. apply bind_Ret in Hs as (s1 & Hf & ?). inv_ret.
    by eapply set_stop_ok, flush_remaining_ok.
Qed.

Lemma pipe_step_ok g msgs s a s' :
  pipe_ok g msgs s → shards_open s → (pl_parser s = None → pl_stop_requested s = false → threads_fresh s) →
  pipe_step hash s a = Some (Ret s') → pipe_ok (ghost_next s a g) (msgs ++ accepted_by s a) s'.
Proof.
  intros Hg Hopen Hfresh Hs. destruct a as [m| |now ck| | |i|ck| | |]; cbn [pipe_step accepted_by] in *;
    rewrite ?app_nil_r;
    eauto using timeout_ok, stop_request_ok, parser_stage_ok, agg_stage_ok, writer_wait_ok, writer_flush_ok, stop_ok.
  - destruct (submit_raw_message s m) as [[b s1]|] eqn:Hm; cbn in Hs; [|done]. simplify_eq.
    pose proof (submit_ok _ _ _ _ _ _ Hg Hm). by destruct b.
  - assert (threads_fresh s) as Hf; [|by eapply start_ok].
    unfold start in Hs. destruct (pl_parser s), (pl_stop_requested s), (pl_stop s); try done. by apply Hfresh.
  - by apply start_refused_Ret in Hs.
Qed.
End inv.
