(* ===== verification/PipelineLive.v ===== *)
(** * Shutting the pipeline down

    The order in which [stop] takes the stages down, that it cannot block
    forever, and that everything accepted has been drained when it returns. *)

From stdpp Require Import relations.
From S2P Require Import Prelude CString DecimalFp StdMap Aggregator Output Json.
From S2P Require Import TradeParser Totals BoundedQueue QueueProps Snapshots Pipeline PipelineInv.

Section live.
Context {S : Type} `{OutputSink S} `{J : JsonLib}.
Variables (hash : string → Z).
Implicit Types (s : pipeline S).

(** A queue that will never hold an item again. *)
Definition drained {T} (q : BoundedQueue T) : Prop := bq_shutdown q = true ∧ bq_items q = [].

(** What holds of shard [i], [p] being its thread. *)
Record shard_phase (started : bool) s (sh : Shard) (p : option agg_pc) : Prop := {
  sp_capacity : 1 ≤ bq_capacity (sh_queue sh);
  sp_shutdown : bq_shutdown (sh_queue sh) = true → pl_parser s = None ∧ pl_stop_requested s = true;
  sp_done : p = Some AggDone → drained (sh_queue sh);
  sp_joined : started = true → p = None → drained (sh_queue sh)
}.

Definition all_down s : Prop :=
  bq_shutdown (pl_raw_queue s) = true ∧ pl_parser s = None ∧
  (∀ i sh, pl_shards s !! i = Some sh → bq_shutdown (sh_queue sh) = true) ∧
  (∀ i p, pl_aggs s !! i = Some p → p = None).

(** No aggregator holds a window. *)
Definition emptied s : Prop :=
  ∀ i sh, pl_shards s !! i = Some sh → agg_windows (sh_aggregator sh) = [].

Definition stop_phase s : Prop :=
  match pl_stop s with
  | NotStopping => pl_stop_requested s = true → all_down s ∧ emptied s
  | StopJoinWriter => pl_stop_requested s = true
  | StopJoinParser => bq_shutdown (pl_raw_queue s) = true
  | StopShutdownShards j =>
      bq_shutdown (pl_raw_queue s) = true ∧ pl_parser s = None ∧
      ∀ i sh, (i < j)%nat → pl_shards s !! i = Some sh → bq_shutdown (sh_queue sh) = true
  | StopJoinShards j =>
      bq_shutdown (pl_raw_queue s) = true ∧ pl_parser s = None ∧
      (∀ i sh, pl_shards s !! i = Some sh → bq_shutdown (sh_queue sh) = true) ∧
      ∀ i p, (i < j)%nat → pl_aggs s !! i = Some p → p = None
  | StopFlush => all_down s
  end.

Record phase_ok (started : bool) s : Prop := {
  ph_length : length (pl_aggs s) = length (pl_shards s);
  ph_shards i sh p :
    pl_shards s !! i = Some sh → pl_aggs s !! i = Some p → shard_phase started s sh p;
  ph_raw : bq_shutdown (pl_raw_queue s) = true → pl_writer s = None ∧ pl_stop_requested s = true;
  ph_parser_done : pl_parser s = Some ParserDone → drained (pl_raw_queue s);
  ph_parser_joined : started = true → pl_parser s = None → drained (pl_raw_queue s);
  ph_fresh : started = false →
    pl_parser s = None ∧ pl_writer s = None ∧ ∀ i p, pl_aggs s !! i = Some p → p = None;
  ph_stop : stop_phase s
}.

Lemma phase_new W FI cap (sink : S) threads : phase_ok false (new_pipeline W FI cap sink threads).
Proof.
  split; try done.
  - cbn. by rewrite !length_replicate.
  - cbn. intros i sh p [-> _]%lookup_replicate [-> _]%lookup_replicate.
    split; try done. cbn. unfold per_shard_capacity. lia.
  - intros _. split_and!; [done..|]. by intros i p [-> _]%lookup_replicate.
Qed.

Lemma phase_shard st s i sh :
  phase_ok st s → pl_shards s !! i = Some sh →
  ∃ p, pl_aggs s !! i = Some p ∧ shard_phase st s sh p.
Proof.
  intros Hs Hi. assert (is_Some (pl_aggs s !! i)) as [p Hp].
  { apply lookup_lt_is_Some. rewrite (ph_length _ _ Hs). by eapply lookup_lt_Some. }
  exists p. split; [done|]. by eapply ph_shards.
Qed.

Lemma phase_shards_open st s : phase_ok st s → shards_open s.
Proof.
  intros Hs Hp i sh Hi. destruct (phase_shard _ _ _ _ Hs Hi) as (p & _ & Hsp).
  apply not_true_is_false. intros Hsd. by apply (sp_shutdown _ _ _ _ Hsp) in Hsd as [? _].
Qed.

Lemma phase_threads_fresh st s :
  phase_ok st s → pl_parser s = None → pl_stop_requested s = false → threads_fresh s.
Proof.
  intros Hs Hp Hr. destruct st.
  - destruct (ph_parser_joined _ _ Hs eq_refl Hp) as [Hsd _].
    apply (ph_raw _ _ Hs) in Hsd as [_ ?]. congruence.
  - by destruct (ph_fresh _ _ Hs eq_refl) as (_ & ? & ?).
Qed.

(** ** Every step keeps the order *)

Lemma push_drained {T} (q : BoundedQueue T) x b q' : push q x = Some (b, q') → drained q → q' = q.
Proof. intros [(_ & _ & ->)|(Hs & _)]%push_Some [Hd _]; congruence. Qed.

Lemma push_static {T} (q : BoundedQueue T) x b q' :
  push q x = Some (b, q') → bq_shutdown q' = bq_shutdown q ∧ bq_capacity q' = bq_capacity q.
Proof. intros [(_ & _ & ->)|(-> & _ & _ & ->)]%push_Some; done. Qed.

Lemma pop_static {T} (q : BoundedQueue T) r q' :
  pop q = Some (r, q') → bq_shutdown q' = bq_shutdown q ∧ bq_capacity q' = bq_capacity q.
Proof. intros [(_ & _ & _ & ->)|(x & l & _ & _ & ->)]%pop_Some; done. Qed.

Lemma pop_none_drained {T} (q q' : BoundedQueue T) : pop q = Some (None, q') → drained q'.
Proof. intros [(? & ? & _ & ->)|(x & l & _ & ? & _)]%pop_Some; done. Qed.

Lemma phase_submit st s m b s' :
  phase_ok st s → submit_raw_message s m = Some (b, s') → phase_ok st s'.
Proof.
  intros [] Hm. unfold submit_raw_message in Hm.
  destruct (push (pl_raw_queue s) m) as [[b' q]|] eqn:Hp; cbn in Hm; [|done]. simplify_eq.
  destruct (push_static _ _ _ _ Hp) as [Hsd _].
  split; cbn; try done.
  - intros i sh p Hi Ha. by destruct (ph_shards0 i sh p Hi Ha).
  - by rewrite Hsd.
  - intros Hd. specialize (ph_parser_done0 Hd). by rewrite (push_drained _ _ _ _ Hp).
  - intros Hst Hd. specialize (ph_parser_joined0 Hst Hd). by rewrite (push_drained _ _ _ _ Hp).
  - unfold stop_phase, all_down in *. cbn in *. by rewrite Hsd.
Qed.
(** A shard is unaffected by what the rest of the pipeline does. *)
Lemma shard_phase_frame st s s' sh p :
  shard_phase st s sh p → (pl_parser s = None → pl_parser s' = None) →
  (pl_stop_requested s = true → pl_stop_requested s' = true) → shard_phase st s' sh p.
Proof. intros [] ? ?. split; naive_solver. Qed.

(** Frames every shard of a state whose shards did not change. *)
Ltac frame_shards Hsh :=
  intros ? ? ? ? ?; eapply shard_phase_frame; [eapply Hsh; eassumption|cbn; try done..].

Lemma phase_parser st s s' :
  phase_ok st s → run_parser_stage hash s = Some (Ret s') → phase_ok st s'.
Proof.
  intros Hph Hs. pose proof (phase_shards_open _ _ Hph) as Hopen. destruct Hph.
  unfold run_parser_stage in Hs. destruct (pl_parser s) as [[|t|]|] eqn:Hp; try done.
  - destruct (pop (pl_raw_queue s)) as [[r q]|] eqn:Hq; cbn in Hs; [|done]. injection Hs as Hs.
    destruct (pop_static _ _ _ Hq) as [Hsd _].
    assert (∃ p, s' = set_parser (set_raw_queue s q) (Some p) ∧ (p = ParserDone → drained q)) as (p & -> & Hd).
    { destruct r as [raw|]; [apply bind_Ret in Hs as (e & _ & Hs)|]; inv_ret; eexists; (split; [done|]).
      - by destruct e.
      - intros _. by apply (pop_none_drained (pl_raw_queue s)). }
    split; cbn; try done.
    + frame_shards ph_shards0. congruence.
    + by rewrite Hsd.
    + naive_solver.
    + naive_solver.
    + unfold stop_phase, all_down in *. cbn in *. rewrite Hsd, Hp in *. by destruct (pl_stop s); naive_solver.
  - set (i := shard_index_for_symbol hash s (te_symbol t)) in *. clearbody i.
    destruct (pl_shards s !! i) as [sh|] eqn:Hsh; cbn in Hs; [|done].
    destruct (push (sh_queue sh) t) as [[b q]|] eqn:Hq; cbn in Hs; [|done]. simplify_eq.
    destruct (push_static _ _ _ _ Hq) as [Hsd Hcap].
    pose proof (Hopen ltac:(by rewrite Hp) _ _ Hsh) as Hnsd.
    split; cbn; try done.
    + by rewrite length_insert.
    + intros i' sh' p Hi Ha. apply list_lookup_insert_Some in Hi as [(<- & <- & _)|[_ Hi]].
      * destruct (ph_shards0 _ _ _ Hsh Ha). split; cbn; [by rewrite Hcap|congruence|..].
        -- intros Hd. destruct (sp_done0 Hd). congruence.
        -- intros Hst Hj. destruct (sp_joined0 Hst Hj). congruence.
      * eapply shard_phase_frame; [by eapply ph_shards0|..]; cbn; [congruence|done].
    + naive_solver.
    + unfold stop_phase, all_down in *. cbn in *. rewrite Hp in *. by destruct (pl_stop s); naive_solver.
Qed.

Lemma phase_agg st s i s' :
  phase_ok st s → run_aggregation_stage s i = Some (Ret s') → phase_ok st s'.
Proof.
  intros [] Hs. unfold run_aggregation_stage in Hs.
  destruct (pl_shards s !! i) as [sh|] eqn:Hsh; cbn in Hs; [|done].
  assert (∃ sh' p' p, s' = set_agg (set_shard s i sh') i (Some p') ∧ pl_aggs s !! i = Some (Some p) ∧
    bq_shutdown (sh_queue sh') = bq_shutdown (sh_queue sh) ∧
    bq_capacity (sh_queue sh') = bq_capacity (sh_queue sh) ∧
    (p' = AggDone → drained (sh_queue sh'))) as (sh' & p' & p & -> & Ha & Hsd & Hcap & Hd).
  { destruct (pl_aggs s !! i) as [[[|t|]|]|] eqn:Ha; try done.
    - destruct (pop (sh_queue sh)) as [[r q]|] eqn:Hq; cbn in Hs; [|done]. simplify_eq.
      destruct (pop_static _ _ _ Hq). do 3 eexists. split_and!; [done..|].
      destruct r; [done|]. intros _. by apply (pop_none_drained (sh_queue sh)).
    - injection Hs as Hs. apply bind_Ret in Hs as (a & _ & ?). inv_ret.
      do 3 eexists. by split_and!. }
  pose proof (ph_shards0 _ _ _ Hsh Ha) as [].
  split; cbn; try done.
  - by rewrite !length_insert.
  - intros j sh1 p1 Hj Hp1. apply list_lookup_insert_Some in Hj as [(<- & <- & _)|[Hne Hj]].
    + rewrite list_lookup_insert_eq in Hp1 by (by eapply lookup_lt_Some). simplify_eq.
      split; cbn; [by rewrite Hcap|by rewrite Hsd|naive_solver|done].
    + rewrite list_lookup_insert_ne in Hp1 by done.
      by eapply shard_phase_frame; [eapply ph_shards0|..].
  - intros Hst. destruct (ph_fresh0 Hst) as (_ & _ & Hf). by specialize (Hf _ _ Ha).
  - assert (∀ j sh1, <[i := sh']> (pl_shards s) !! j = Some sh1 →
      ∃ sh0, pl_shards s !! j = Some sh0 ∧ bq_shutdown (sh_queue sh1) = bq_shutdown (sh_queue sh0)) as Hsame.
    { intros j sh1 [(<- & <- & _)|[_ Hj]]%list_lookup_insert_Some; eauto. }
    unfold stop_phase, all_down in *. cbn [set_agg set_shard pl_stop pl_raw_queue pl_parser pl_shards pl_aggs
      pl_stop_requested].
    destruct (pl_stop s) as [| | |j|j|]; try done.
    + intros Hr. destruct (ph_stop0 Hr) as [(_ & _ & _ & Hn) _]. by specialize (Hn _ _ Ha).
    + destruct ph_stop0 as (? & ? & Hn). split_and!; [done..|].
      intros j' sh1 Hlt (sh0 & Hsh0 & ->)%Hsame. eauto.
    + destruct ph_stop0 as (? & ? & Hn & Hj). split_and!; [done..| |].
      * intros j' sh1 (sh0 & Hsh0 & ->)%Hsame. eauto.
      * intros j' p1 Hlt [(<- & _ & _)|[_ Hp1]]%list_lookup_insert_Some; [|eauto].
        by specialize (Hj _ _ Hlt Ha).
    + destruct ph_stop0 as (_ & _ & _ & Hn). by specialize (Hn _ _ Ha).
Qed.

(** The writer changes neither the queues nor the other threads. *)
Lemma phase_writer st s s' :
  phase_ok st s → pl_writer s ≠ None →
  pl_raw_queue s' = pl_raw_queue s → sh_queue <$> pl_shards s' = sh_queue <$> pl_shards s →
  pl_parser s' = pl_parser s → pl_aggs s' = pl_aggs s → pl_stop_requested s' = pl_stop_requested s →
  pl_stop s' = pl_stop s → phase_ok st s'.
Proof.
  intros [] Hw Hraw Hq Hp Ha Hr Hst.
  assert (length (pl_shards s') = length (pl_shards s)) as Hlen.
  { by rewrite <- (length_fmap sh_queue), Hq, length_fmap. }
  assert (∀ i sh, pl_shards s' !! i = Some sh →
    ∃ sh0, pl_shards s !! i = Some sh0 ∧ sh_queue sh = sh_queue sh0) as Hsame.
  { intros i sh Hi. apply (f_equal (.!! i)) in Hq. rewrite !list_lookup_fmap, Hi in Hq. cbn in Hq.
    destruct (pl_shards s !! i); naive_solver. }
  split; rewrite ?Hraw, ?Hp, ?Ha; try done.
  - congruence.
  - intros i sh p (sh0 & Hi & Hsq)%Hsame Hi'. destruct (ph_shards0 _ _ _ Hi Hi').
    split; rewrite ?Hsq, ?Hp, ?Hr; done.
  - intros Hsd. by destruct (ph_raw0 Hsd).
  - intros Hst'. by destruct (ph_fresh0 Hst') as (_ & ? & _).
  - unfold stop_phase, all_down in *. rewrite Hst, Hraw, Hp, Ha, Hr.
    destruct (pl_stop s); try done.
    + intros Hr'. destruct (ph_stop0 Hr') as [(Hsd & _) _]. by apply ph_raw0 in Hsd as [? _].
    + destruct ph_stop0 as (Hsd & _). by apply ph_raw0 in Hsd as [? _].
    + destruct ph_stop0 as (Hsd & _). by apply ph_raw0 in Hsd as [? _].
    + destruct ph_stop0 as (Hsd & _). by apply ph_raw0 in Hsd as [? _].
Qed.

Lemma phase_writer_steps st s s' :
  phase_ok st s →
  (∃ ck, writer_wait s ck = Some (Ret s')) ∨ (∃ now ck, writer_timeout s now ck = Some (Ret s')) ∨
    flush_completed_windows s = Some (Ret s') →
  phase_ok st s'.
Proof.
  intros Hph Hs.
  assert (pl_writer s ≠ None) as Hw.
  { intros Hw. unfold writer_wait, writer_timeout, flush_completed_windows in Hs. rewrite Hw in Hs.
    naive_solver. }
  destruct Hs as [[ck (Hw' & Hr & _ & ->)%writer_wait_Ret]|[(now & ck & (Hw' & Hr & _ & _ & ->)%writer_timeout_Ret)|Hs]].
  - eapply (phase_writer _ s); done || congruence.
  - eapply (phase_writer _ s); done || congruence.
  - unfold flush_completed_windows in Hs. destruct (pl_writer s) as [[|cur i ws|]|] eqn:Hw'; try done.
    destruct (pl_shards s !! i) as [sh|] eqn:Hsh.
    + destruct (extract_completed_windows (sh_aggregator sh) cur) as [ws' a]. simplify_eq.
      eapply (phase_writer _ s); try (done || congruence). cbn.
      rewrite list_fmap_insert. cbn. apply list_insert_id. by rewrite list_lookup_fmap, Hsh.
    + injection Hs as Hs. apply bind_Ret in Hs as (sink & _ & ?). inv_ret.
      eapply (phase_writer _ s); done || congruence.
Qed.

Lemma phase_start st s s' : phase_ok st s → start s = Some (Ret s') → phase_ok true s'.
Proof.
  intros Hph Hs. unfold start in Hs.
  destruct (pl_parser s) eqn:Hp, (pl_stop_requested s) eqn:Hr, (pl_stop s) eqn:Hst; try done. simplify_eq.
  assert (bq_shutdown (pl_raw_queue s) = false) as Hsd.
  { apply not_true_is_false. intros Hsd. apply (ph_raw _ _ Hph) in Hsd as [_ ?]. congruence. }
  assert (∀ i sh, pl_shards s !! i = Some sh → bq_shutdown (sh_queue sh) = false) as Hshs.
  { intros i sh Hi. destruct (phase_shard _ _ _ _ Hph Hi) as (p & _ & Hsp). apply not_true_is_false.
    intros Hsd'. apply (sp_shutdown _ _ _ _ Hsp) in Hsd' as [_ ?]. congruence. }
  split; cbn; try done; [by rewrite length_replicate| |congruence].
  - intros i sh p Hi [-> _]%lookup_replicate. destruct (phase_shard _ _ _ _ Hph Hi) as (p & _ & []).
    split; try done. rewrite (Hshs _ _ Hi). done.
Qed.

Lemma phase_stop_request st s s' : phase_ok st s → stop_request s = Some (Ret s') → phase_ok st s'.
Proof.
  intros [] Hs. unfold stop_request in Hs. destruct (pl_stop s); simplify_eq.
  split; cbn; try done.
  - by frame_shards ph_shards0.
  - intros Hsd. by destruct (ph_raw0 Hsd).
Qed.

Lemma phase_join_writer st s :
  phase_ok st s → pl_stop s = StopJoinWriter →
  phase_ok st (set_stop (set_raw_queue (set_writer s None) (shutdown (pl_raw_queue s))) StopJoinParser).
Proof.
  intros [] Hst. unfold stop_phase in ph_stop0. rewrite Hst in ph_stop0. split; cbn; try done.
  - by frame_shards ph_shards0.
  - intros Hd. by destruct (ph_parser_done0 Hd).
  - intros Ht Hj. by destruct (ph_parser_joined0 Ht Hj).
  - naive_solver.
Qed.

Lemma phase_join_parser st s :
  phase_ok st s → pl_stop s = StopJoinParser → can_join_parser s = true →
  phase_ok st (set_stop (set_parser s None) (StopShutdownShards 0)).
Proof.
  intros [] Hst Hj. unfold stop_phase in ph_stop0. rewrite Hst in ph_stop0.
  unfold can_join_parser in Hj. split; cbn; try done.
  - by frame_shards ph_shards0.
  - intros Ht _. destruct (pl_parser s) as [[]|]; try done; auto.
  - naive_solver.
  - unfold stop_phase. cbn. split_and!; [done..|]. intros i sh Hlt. lia.
Qed.

Lemma phase_shutdown_shard st s i sh :
  phase_ok st s → pl_stop s = StopShutdownShards i → pl_shards s !! i = Some sh →
  phase_ok st (set_stop (set_shard s i (set_queue sh (shutdown (sh_queue sh))))
                 (StopShutdownShards (Datatypes.S i))).
Proof.
  intros [] Hst Hsh. unfold stop_phase in ph_stop0. rewrite Hst in ph_stop0.
  destruct ph_stop0 as (Hraw & Hp & Hlow). destruct (ph_raw0 Hraw) as [_ Hr].
  split; cbn; try done.
  - by rewrite length_insert.
  - intros j sh' p Hj Ha. apply list_lookup_insert_Some in Hj as [(<- & <- & _)|[_ Hj]].
    + destruct (ph_shards0 _ _ _ Hsh Ha). split; cbn; [done..| |].
      * intros Hd. by destruct (sp_done0 Hd).
      * intros Ht Hd. by destruct (sp_joined0 Ht Hd).
    + by eapply shard_phase_frame; [by eapply ph_shards0|..].
  - unfold stop_phase. cbn. split_and!; [done..|].
    intros j sh' Hlt [(<- & <- & _)|[Hne Hj]]%list_lookup_insert_Some; [done|].
    apply (Hlow j sh'); [lia|done].
Qed.

Lemma phase_shards_down st s i :
  phase_ok st s → pl_stop s = StopShutdownShards i → pl_shards s !! i = None →
  phase_ok st (set_stop s (StopJoinShards 0)).
Proof.
  intros [] Hst Hi. unfold stop_phase in ph_stop0. rewrite Hst in ph_stop0.
  destruct ph_stop0 as (Hraw & Hp & Hlow). split; try done.
  - by frame_shards ph_shards0.
  - unfold stop_phase. cbn. split_and!; [done..| |intros; lia].
    intros j sh Hj. apply (Hlow j sh); [|done]. apply lookup_ge_None in Hi. apply lookup_lt_Some in Hj. lia.
Qed.

Lemma phase_join_shard st s i p :
  phase_ok st s → pl_stop s = StopJoinShards i → pl_aggs s !! i = Some p →
  p = None ∨ p = Some AggDone →
  phase_ok st (set_stop (set_agg s i None) (StopJoinShards (Datatypes.S i))).
Proof.
  intros [] Hst Hi Hpd. unfold stop_phase in ph_stop0. rewrite Hst in ph_stop0.
  destruct ph_stop0 as (Hraw & Hp & Hall & Hlow). split; cbn; try done.
  - by rewrite length_insert.
  - intros j sh p' Hj Hp'. apply list_lookup_insert_Some in Hp' as [(<- & <- & _)|[_ Hp']].
    + destruct (ph_shards0 _ _ _ Hj Hi). split; try done. intros Ht _. destruct Hpd; auto.
    + by eapply shard_phase_frame; [by eapply ph_shards0|..].
  - intros Ht. destruct (ph_fresh0 Ht) as (? & ? & Hf). split_and!; [done..|].
    intros j p' [(_ & <- & _)|[_ ?]]%list_lookup_insert_Some; [done|eauto].
  - unfold stop_phase. cbn. split_and!; [done..|].
    intros j p' Hlt [(_ & <- & _)|[Hne Hj]]%list_lookup_insert_Some; [done|].
    apply (Hlow j p'); [lia|done].
Qed.

Lemma phase_shards_joined st s i :
  phase_ok st s → pl_stop s = StopJoinShards i → pl_aggs s !! i = None →
  phase_ok st (set_stop s StopFlush).
Proof.
  intros [] Hst Hi. unfold stop_phase in ph_stop0. rewrite Hst in ph_stop0.
  destruct ph_stop0 as (Hraw & Hp & Hall & Hlow). split; try done.
  - by frame_shards ph_shards0.
  - unfold stop_phase, all_down. cbn. split_and!; [done..|].
    intros j p Hj. apply (Hlow j p); [|done]. apply lookup_ge_None in Hi. apply lookup_lt_Some in Hj. lia.
Qed.

Lemma phase_flush_remaining st s s1 :
  phase_ok st s → pl_stop s = StopFlush → flush_remaining_windows s = Ret s1 →
  phase_ok st (set_stop s1 NotStopping).
Proof.
  intros [] Hst Hf. unfold flush_remaining_windows in Hf.
  pose proof (take_remaining_shards (pl_shards s)) as Hsh.
  destruct (take_remaining (pl_shards s)) as [ws shards]. cbn [snd] in Hsh.
  apply bind_Ret in Hf as (sink & _ & ?). inv_ret.
  unfold stop_phase in ph_stop0. rewrite Hst in ph_stop0. destruct ph_stop0 as (Hraw & Hp & Hall & Hn).
  split; cbn; try done.
  - by rewrite length_fmap.
  - intros i sh p Hi Ha. apply list_lookup_fmap_Some in Hi as (sh0 & -> & Hi).
    by destruct (ph_shards0 _ _ _ Hi Ha).
  - intros _. unfold all_down, emptied. cbn. split_and!; [done..| |done|];
      intros i sh Hi; apply list_lookup_fmap_Some in Hi as (sh0 & -> & Hi); cbn; eauto.
Qed.

Lemma phase_stop st s s' : phase_ok st s → stop s = Some (Ret s') → phase_ok st s'.
Proof.
  intros Hph Hs. unfold stop in Hs. destruct (pl_stop s) as [| | |i|i|] eqn:Hst; [done|..].
  - destruct (can_join_writer s); simplify_eq. by apply phase_join_writer.
  - destruct (can_join_parser s) eqn:Hj; simplify_eq. by apply phase_join_parser.
  - destruct (pl_shards s !! i) as [sh|] eqn:Hi; simplify_eq;
      [by apply phase_shutdown_shard|by eapply phase_shards_down].
  - destruct (pl_aggs s !! i) as [[[]|]|] eqn:Hi; simplify_eq;
      [eapply phase_join_shard; eauto..|by eapply phase_shards_joined].
  - injection Hs as Hs. apply bind_Ret in Hs as (s1 & Hf & ?). inv_ret. by eapply phase_flush_remaining.
Qed.

Definition is_start (a : action) : bool := match a with ActStart => true | _ => false end.

Lemma phase_step st s a s' :
  phase_ok st s → pipe_step hash s a = Some (Ret s') → phase_ok (st || is_start a) s'.
Proof.
  intros Hph Hs. destruct a as [m| |now ck| | |i|ck| | |]; cbn in Hs |- *;
    rewrite ?orb_false_r, ?orb_true_r; eauto 7 using phase_stop_request, phase_parser, phase_agg,
    phase_start, phase_stop, phase_writer_steps.
  - destruct (submit_raw_message s m) as [[b s1]|] eqn:Hm; cbn in Hs; [|done]. simplify_eq.
    by eapply phase_submit.
  - by apply start_refused_Ret in Hs.
Qed.

(** ** Progress *)

Lemma shard_index_lt s symbol :
  pl_shards s ≠ [] → is_Some (pl_shards s !! shard_index_for_symbol hash s symbol).
Proof.
  intros Hne. apply lookup_lt_is_Some. unfold shard_index_for_symbol.
  assert (0 < Z.of_nat (length (pl_shards s))) by (destruct (pl_shards s); cbn; [done|lia]).
  pose proof (Z.mod_pos_bound (hash symbol) (Z.of_nat (length (pl_shards s)))). lia.
Qed.

Lemma pop_ready {T} (q : BoundedQueue T) :
  bq_shutdown q = true ∨ bq_items q ≠ [] → ∃ r q', pop q = Some (r, q').
Proof.
  intros Hq. destruct (pop q) as [[r q']|] eqn:Hp; [eauto|]. apply pop_None in Hp as [? ?].
  destruct Hq; congruence.
Qed.

(** An aggregation thread with something to pop, or that may exit, can run. *)
Lemma agg_enabled s i sh p :
  pl_shards s !! i = Some sh → pl_aggs s !! i = Some (Some p) → p ≠ AggDone →
  bq_shutdown (sh_queue sh) = true ∨ bq_items (sh_queue sh) ≠ [] →
  is_Some (pipe_step hash s (ActAgg i)).
Proof.
  intros Hsh Ha Hp Hq. cbn. unfold run_aggregation_stage. rewrite Hsh, Ha. cbn.
  destruct p; [|eauto|done]. destruct (pop_ready _ Hq) as (r & q' & ->). cbn. eauto.
Qed.

(** The parser can push, or the shard it pushes to can make room. *)
Lemma parser_push_enabled st s t :
  phase_ok st s → pl_shards s ≠ [] → pl_parser s = Some (ParserPush t) →
  ∃ a, internal a = true ∧ is_Some (pipe_step hash s a).
Proof.
  intros Hph Hne Hp. destruct (shard_index_lt s (te_symbol t) Hne) as [sh Hsh].
  set (i := shard_index_for_symbol hash s (te_symbol t)) in *.
  destruct (push (sh_queue sh) t) as [[b q]|] eqn:Hq.
  { exists ActParser. split; [done|]. cbn. unfold run_parser_stage. rewrite Hp. fold i.
    rewrite Hsh. cbn. rewrite Hq. cbn. eauto. }
  apply push_None in Hq as [Hnsd Hfull].
  destruct (phase_shard _ _ _ _ Hph Hsh) as (pa & Ha & [Hcap _ Hdone Hjoined]).
  assert (st = true) as ->.
  { destruct st; [done|]. destruct (ph_fresh _ _ Hph eq_refl) as (? & _). congruence. }
  destruct pa as [pa|]; [|destruct (Hjoined eq_refl eq_refl); congruence].
  exists (ActAgg i). split; [done|]. apply (agg_enabled _ _ sh pa); try done.
  - intros ->. destruct (Hdone eq_refl). congruence.
  - right. intros Hnil. unfold size in Hfull. rewrite Hnil in Hfull. cbn in Hfull. lia.
Qed.

(** The parser can run, or the shard it pushes to can make room. *)
Lemma parser_enabled st s p :
  phase_ok st s → pl_shards s ≠ [] → bq_shutdown (pl_raw_queue s) = true ∨ bq_items (pl_raw_queue s) ≠ [] →
  pl_parser s = Some p → p ≠ ParserDone → ∃ a, internal a = true ∧ is_Some (pipe_step hash s a).
Proof.
  intros Hph Hne Hraw Hp Hnd. destruct p as [|t|]; [|by eapply parser_push_enabled|done].
  exists ActParser. split; [done|]. cbn. unfold run_parser_stage. rewrite Hp.
  destruct (pop_ready (pl_raw_queue s) Hraw) as (r & q' & ->). cbn. eauto.
Qed.

(** A full raw queue is never stuck: the parser, or the shard it pushes to, can
    run. *)
Lemma raw_queue_drains s :
  phase_ok true s → pl_shards s ≠ [] → bq_shutdown (pl_raw_queue s) = false → bq_items (pl_raw_queue s) ≠ [] →
  ∃ a, internal a = true ∧ is_Some (pipe_step hash s a).
Proof.
  intros Hph Hne Hsd Hq. destruct (pl_parser s) as [p|] eqn:Hp.
  - apply (parser_enabled _ _ _ Hph Hne (or_intror Hq) Hp). intros ->.
    destruct (ph_parser_done _ _ Hph Hp). congruence.
  - destruct (ph_parser_joined _ _ Hph eq_refl Hp). congruence.
Qed.

Lemma stop_enabled st s :
  phase_ok st s → pl_shards s ≠ [] → pl_stop s ≠ NotStopping →
  ∃ a, internal a = true ∧ is_Some (pipe_step hash s a).
Proof.
  intros Hph Hne Hst. pose proof (ph_stop _ _ Hph) as Hphase. unfold stop_phase in Hphase.
  destruct (pl_stop s) as [| | |i|i|] eqn:Hstop; [done|..].
  - destruct (can_join_writer s) eqn:Hj.
    { exists ActStop. split; [done|]. cbn. unfold stop. rewrite Hstop, Hj. eauto. }
    unfold can_join_writer in Hj. destruct (pl_writer s) as [[|cur i ws|]|] eqn:Hw; try done.
    + exists (ActWriterWait 0). split; [done|]. cbn. unfold writer_wait. rewrite Hw, Hphase. eauto.
    + exists ActWriterFlush. split; [done|]. cbn. unfold flush_completed_windows. rewrite Hw.
      destruct (pl_shards s !! i) as [sh|]; [|eauto].
      destruct (extract_completed_windows (sh_aggregator sh) cur). eauto.
  - destruct (can_join_parser s) eqn:Hj.
    { exists ActStop. split; [done|]. cbn. unfold stop. rewrite Hstop, Hj. eauto. }
    unfold can_join_parser in Hj. destruct (pl_parser s) as [p|] eqn:Hp; [|done].
    apply (parser_enabled _ _ _ Hph Hne (or_introl Hphase) Hp). by destruct p.
  - exists ActStop. split; [done|]. cbn. unfold stop. rewrite Hstop. destruct (pl_shards s !! i); eauto.
  - destruct Hphase as (_ & _ & Hall & _).
    destruct (pl_aggs s !! i) as [p|] eqn:Ha.
    + assert (is_Some (pl_shards s !! i)) as [sh Hsh].
      { apply lookup_lt_is_Some. rewrite <- (ph_length _ _ Hph). by eapply lookup_lt_Some. }
      destruct p as [[|t|]|];
        [exists (ActAgg i); split; [done|]; eapply agg_enabled; eauto..| |];
        (exists ActStop; split; [done|]; cbn; unfold stop; rewrite Hstop, Ha; eauto).
    + exists ActStop. split; [done|]. cbn. unfold stop. rewrite Hstop, Ha. eauto.
  - exists ActStop. split; [done|]. cbn. unfold stop. rewrite Hstop. eauto.
Qed.

(** ** Termination

    Every step of a thread of the pipeline uses up work that is queued, or
    takes the shutdown further. *)
Definition parser_weight (p : option parser_pc) : Z :=
  match p with Some ParserPop => 1 | Some (ParserPush _) => 4 | _ => 0 end.
Definition agg_weight (p : option agg_pc) : Z :=
  match p with Some AggPop => 1 | Some (AggAdd _) => 2 | _ => 0 end.
Definition writer_weight (shards : Z) (w : option writer_pc) : Z :=
  match w with
  | Some WriterWait => 1
  | Some (WriterExtract _ i _) => Z.max 0 (shards - Z.of_nat i) + 2
  | _ => 0
  end.
Definition stop_weight (shards : Z) (p : stop_pc) : Z :=
  match p with
  | NotStopping => 0
  | StopJoinWriter => 2 * shards + 6
  | StopJoinParser => 2 * shards + 5
  | StopShutdownShards i => Z.max 0 (shards - Z.of_nat i) + shards + 4
  | StopJoinShards i => Z.max 0 (shards - Z.of_nat i) + 2
  | StopFlush => 1
  end.

Definition pipe_measure s : Z :=
  let shards := Z.of_nat (length (pl_shards s)) in
  4 * size (pl_raw_queue s) + parser_weight (pl_parser s) +
  2 * total (λ sh, size (sh_queue sh)) (pl_shards s) + total agg_weight (pl_aggs s) +
  writer_weight shards (pl_writer s) + stop_weight shards (pl_stop s).

Lemma pipe_measure_nonneg s : 0 ≤ pipe_measure s.
Proof.
  unfold pipe_measure. cbn zeta.
  assert (0 ≤ total (λ sh, size (sh_queue sh)) (pl_shards s)) by (apply total_nonneg; unfold size; lia).
  assert (0 ≤ total agg_weight (pl_aggs s)) by (apply total_nonneg; intros [[]|]; cbn; lia).
  assert (0 ≤ parser_weight (pl_parser s)) by (destruct (pl_parser s) as [[]|]; cbn; lia).
  assert (0 ≤ writer_weight (Z.of_nat (length (pl_shards s))) (pl_writer s))
    by (destruct (pl_writer s) as [[]|]; cbn; lia).
  assert (0 ≤ stop_weight (Z.of_nat (length (pl_shards s))) (pl_stop s))
    by (destruct (pl_stop s); cbn; lia).
  assert (0 ≤ size (pl_raw_queue s)) by (unfold size; lia). lia.
Qed.

Lemma push_size {T} (q : BoundedQueue T) x b q' :
  push q x = Some (b, q') → size q' = size q + (if b then 1 else 0).
Proof.
  intros Hq. apply push_items in Hq. unfold size. rewrite Hq, length_app. destruct b; cbn; lia.
Qed.

Lemma pop_size {T} (q : BoundedQueue T) r q' :
  pop q = Some (r, q') → size q = size q' + (if r then 1 else 0).
Proof.
  intros Hq. apply pop_items in Hq. unfold size. rewrite Hq, length_app. destruct r; cbn; lia.
Qed.

(** Evaluates the weights that a step changes. *)
Ltac weigh :=
  repeat match goal with
  | Hi : ?l !! ?i = Some _ |- context [total ?f (<[?i := _]> ?l)] =>
      rewrite (total_insert f l i _ _ Hi)
  end;
  cbn [set_raw_queue set_shard set_parser set_agg set_writer set_sink set_stop set_queue set_aggregator
    pl_window_ms pl_raw_queue pl_shards pl_sink pl_parser pl_aggs pl_writer pl_stop_requested pl_stop
    sh_queue sh_aggregator parser_weight agg_weight writer_weight stop_weight] in *;
  rewrite ?length_insert in *; try lia.

Lemma parser_decreases s s' :
  run_parser_stage hash s = Some (Ret s') → pipe_measure s' < pipe_measure s.
Proof.
  intros Hs. unfold run_parser_stage in Hs. unfold pipe_measure.
  destruct (pl_parser s) as [[|t|]|] eqn:Hp; try done.
  - destruct (pop (pl_raw_queue s)) as [[r q]|] eqn:Hq; cbn in Hs; [|done]. injection Hs as Hs.
    apply pop_size in Hq. rewrite Hq.
    destruct r as [raw|]; [apply bind_Ret in Hs as ([t|] & _ & Hs)|]; inv_ret; weigh.
  - set (i := shard_index_for_symbol hash s (te_symbol t)) in *. clearbody i.
    destruct (pl_shards s !! i) as [sh|] eqn:Hsh; cbn in Hs; [|done].
    destruct (push (sh_queue sh) t) as [[b q]|] eqn:Hq; cbn in Hs; [|done]. simplify_eq.
    apply push_size in Hq. weigh. rewrite (total_insert _ _ _ _ _ Hsh). weigh. destruct b; lia.
Qed.

Lemma agg_decreases s i s' :
  run_aggregation_stage s i = Some (Ret s') → pipe_measure s' < pipe_measure s.
Proof.
  intros Hs. unfold run_aggregation_stage in Hs. unfold pipe_measure.
  destruct (pl_shards s !! i) as [sh|] eqn:Hsh; cbn in Hs; [|done].
  destruct (pl_aggs s !! i) as [[[|t|]|]|] eqn:Ha; try done.
  - destruct (pop (sh_queue sh)) as [[r q]|] eqn:Hq; cbn in Hs; [|done]. simplify_eq.
    apply pop_size in Hq. weigh. rewrite (total_insert _ _ _ _ _ Hsh), (total_insert _ _ _ _ _ Ha). weigh.
    destruct r; weigh.
  - injection Hs as Hs. apply bind_Ret in Hs as (a & _ & ?). inv_ret. weigh.
    rewrite (total_insert _ _ _ _ _ Hsh), (total_insert _ _ _ _ _ Ha). weigh.
Qed.

Lemma writer_decreases s s' :
  (∃ ck, writer_wait s ck = Some (Ret s')) ∨ flush_completed_windows s = Some (Ret s') →
  pipe_measure s' < pipe_measure s.
Proof.
  intros [[ck (Hw & _ & _ & ->)%writer_wait_Ret]|Hs]; unfold pipe_measure.
  - cbn. rewrite Hw. weigh.
  - unfold flush_completed_windows in Hs. destruct (pl_writer s) as [[|cur i ws|]|] eqn:Hw; try done.
    destruct (pl_shards s !! i) as [sh|] eqn:Hsh.
    + destruct (extract_completed_windows (sh_aggregator sh) cur). simplify_eq. weigh.
      rewrite (total_insert _ _ _ _ _ Hsh). apply lookup_lt_Some in Hsh. weigh.
    + injection Hs as Hs. apply bind_Ret in Hs as (sink & _ & ?). inv_ret. weigh.
Qed.

Lemma stop_decreases st s s' :
  phase_ok st s → stop s = Some (Ret s') → pipe_measure s' < pipe_measure s.
Proof.
  intros Hph Hs. unfold stop in Hs. pose proof (ph_length _ _ Hph) as Hlen. unfold pipe_measure.
  destruct (pl_stop s) as [| | |i|i|] eqn:Hst; [done|..].
  - unfold can_join_writer in Hs.
    destruct (pl_writer s) as [[]|] eqn:Hw; simplify_eq; weigh; unfold size; cbn [shutdown bq_items]; lia.
  - unfold can_join_parser in Hs. destruct (pl_parser s) as [[]|] eqn:Hp; simplify_eq; weigh.
  - destruct (pl_shards s !! i) as [sh|] eqn:Hi; simplify_eq; weigh.
    rewrite (total_insert _ _ _ _ _ Hi). apply lookup_lt_Some in Hi.
    change (size (sh_queue (set_queue sh (shutdown (sh_queue sh))))) with (size (sh_queue sh)). weigh.
  - destruct (pl_aggs s !! i) as [[[]|]|] eqn:Hi; simplify_eq; weigh;
      rewrite ?(total_insert _ _ _ _ _ Hi); apply lookup_lt_Some in Hi; weigh.
  - injection Hs as Hs. apply bind_Ret in Hs as (s1 & Hf & ?). inv_ret.
    unfold flush_remaining_windows in Hf. pose proof (take_remaining_shards (pl_shards s)) as Hsh.
    destruct (take_remaining (pl_shards s)) as [ws shards]. cbn [snd] in Hsh.
    apply bind_Ret in Hf as (sink & _ & ?). inv_ret. weigh. rewrite length_fmap.
    rewrite (total_fmap _ (λ sh, size (sh_queue sh)) (λ sh, set_aggregator sh _)) by done. weigh.
Qed.

Lemma internal_decreases st s a s' :
  phase_ok st s → internal a = true → pipe_step hash s a = Some (Ret s') →
  pipe_measure s' < pipe_measure s.
Proof.
  intros Hph Ha Hs. destruct a; try done; cbn in Hs;
    eauto using parser_decreases, agg_decreases, writer_decreases, stop_decreases.
Qed.

(** ** Runs *)

Lemma phase_run st s acts msgs s' :
  phase_ok st s → pipe_run hash s acts msgs s' → phase_ok (st || existsb is_start acts) s'.
Proof.
  intros Hph. induction 1 as [|acts msgs s1 a s2 _ IH Hs]; [by rewrite orb_false_r|].
  rewrite existsb_app, orb_assoc. cbn. rewrite orb_false_r. by eapply phase_step.
Qed.

End live.
