(* ===== verification/PipelineProps.v ===== *)
(** * Properties of [MarketDataPipeline]

    For every schedule of the threads of the pipeline, the callers and the
    clock. *)

From stdpp Require Import relations.
From S2P Require Import Prelude CString DecimalFp StdMap Aggregator AggregatorSpec AggregatorProps.
From S2P Require Import Output Json JsonRef TradeParser Totals BoundedQueue QueueProps.
From S2P Require Import Snapshots Pipeline PipelineInv PipelineLive.

Section runs.
Context {S : Type} `{OutputSink S} `{J : JsonLib} `{!JsonLaws J}.
Variables (hash : string → Z) (W FI cap : Z) (sink : S) (threads : Z).
Hypothesis HW : W ≠ 0.

Notation s0 := (new_pipeline W FI cap sink threads).
Notation shards := (Z.to_nat (Z.max threads 1)).
Notation ok := (pipe_ok hash W shards (sink_text sink)).

Lemma new_pipeline_ok :
  ok {| g_consumed := []; g_batches := []; g_open := []; g_pending := replicate shards [] |} [] s0.
Proof.
  split; try done; cbn.
  - by rewrite length_replicate.
  - by rewrite length_replicate.
  - by rewrite length_replicate.
  - intros t. rewrite !total_zero; [done|..]; by intros ? [-> _]%elem_of_replicate.
  - intros i sh p [-> _]%lookup_replicate [-> _]%lookup_replicate.
    split; cbn; [by apply agg_models_new|done|by intros ? ?%not_elem_of_nil..].
  - by intros i t [? _]%lookup_replicate.
  - exists []. split; [done|]. cbn. by rewrite string_app_nil_r.
Qed.

Lemma run_ok acts msgs s :
  pipe_run hash s0 acts msgs s → ∃ g, ok g msgs s ∧ phase_ok (existsb is_start acts) s.
Proof.
  induction 1 as [|acts msgs s a s' Hrun (g & Hg & Hph) Hs].
  { eexists. split; [apply new_pipeline_ok|apply phase_new]. }
  eexists. split.
  - by eapply pipe_step_ok; [|eapply phase_shards_open|eapply phase_threads_fresh|].
  - rewrite existsb_app. cbn. rewrite orb_false_r. by eapply phase_step.
Qed.

Lemma run_shards_nonempty acts msgs s : pipe_run hash s0 acts msgs s → pl_shards s ≠ [].
Proof.
  intros (g & Hg & _)%run_ok Hnil. apply ok_shards_length in Hg. rewrite Hnil in Hg. cbn in Hg. lia.
Qed.

(** An aggregator without windows has no trades pending. *)
Lemma agg_models_empty a ts : agg_models a ts → agg_windows a = [] → ts = [].
Proof.
  intros (_ & _ & Hst) Hnil. destruct ts as [|t ts]; [done|].
  specialize (Hst (te_symbol t) (start_of (agg_window_ms a) t)).
  unfold window_stats, ref_window in Hst. rewrite Hnil in Hst. cbn [map_find] in Hst.
  unfold bucket in Hst. rewrite filter_cons, decide_True in Hst by done. done.
Qed.

(** [stop] has returned. *)
Definition stopped (s : pipeline S) : Prop := pl_stop s = NotStopping ∧ pl_stop_requested s = true.

(** Everything accepted has reached the sink. *)
Lemma final_flow g msgs s :
  ok g msgs s → phase_ok true s → stopped s →
  g_consumed g = msgs ∧ concat (g_batches g) ≡ₚ trades_of msgs.
Proof.
  intros Hg Hph [Hns Hr]. pose proof (ph_stop _ _ Hph) as Hphase. unfold stop_phase in Hphase. rewrite Hns in Hphase.
  destruct (Hphase Hr) as [(Hraw & Hp & Hshut & Haggs) Hempty].
  destruct (ph_parser_joined _ _ Hph eq_refl Hp) as [_ Hitems].
  destruct (ph_raw _ _ Hph Hraw) as [Hw _].
  assert (g_consumed g = msgs) as Hc.
  { rewrite (ok_msgs _ _ _ _ _ _ _ Hg), Hitems. by rewrite app_nil_r. }
  split; [done|]. apply cnt_perm. intros t. rewrite <- Hc, (ok_flow _ _ _ _ _ _ _ Hg t).
  pose proof (ok_writer _ _ _ _ _ _ _ Hg) as Hopen. rewrite Hw in Hopen. rewrite Hopen, Hp.
  rewrite (total_zero _ (g_pending g)), (total_zero _ (pl_shards s)), (total_zero _ (pl_aggs s));
    [cbn; rewrite !cnt_nil; lia|..].
  - intros p [i Hi]%list_elem_of_lookup. by apply Haggs in Hi as ->.
  - intros sh [i Hi]%list_elem_of_lookup.
    destruct (phase_shard _ _ _ _ Hph Hi) as (p & Hpi & Hsp). apply Haggs in Hpi as ->.
    destruct (sp_joined _ _ _ _ Hsp eq_refl eq_refl) as [_ Hq]. unfold queued. by rewrite Hq.
  - intros p [i Hi]%list_elem_of_lookup.
    assert (is_Some (pl_shards s !! i)) as [sh Hsh].
    { apply lookup_lt_is_Some. rewrite (ok_shards_length _ _ _ _ _ _ _ Hg),
        <- (ok_pending_length _ _ _ _ _ _ _ Hg). by eapply lookup_lt_Some. }
    destruct (ok_shards _ _ _ _ _ _ _ Hg _ _ _ Hsh Hi) as [Hm _ _ _].
    apply agg_models_empty in Hm; [by subst|]. by eapply Hempty.
Qed.

Lemma stopped_drained acts msgs s :
  pipe_run hash s0 acts msgs s → existsb is_start acts = true → stopped s →
  ∃ g, ok g msgs s ∧ concat (g_batches g) ≡ₚ trades_of msgs.
Proof.
  intros (g & Hg & Hph)%run_ok Hst Hs. rewrite Hst in Hph. exists g. split; [done|].
  by apply (final_flow _ _ _ Hg Hph Hs).
Qed.

(** ** What has been written so far *)

(** The trades accepted and not yet written: held by the writer, pending in
    the shards, queued, held by a thread, or in a message not yet parsed. *)
Definition unwritten (g : ghost) (s : pipeline S) : list TradeEvent :=
  g_open g ++ concat (g_pending g) ++ concat (queued <$> pl_shards s) ++
  concat (agg_hold <$> pl_aggs s) ++ parser_hold (pl_parser s) ++ trades_of (bq_items (pl_raw_queue s)).

Lemma written_and_unwritten g msgs s :
  ok g msgs s → concat (g_batches g) ++ unwritten g s ≡ₚ trades_of msgs.
Proof.
  intros Hg. apply cnt_perm. intros t. rewrite (ok_msgs _ _ _ _ _ _ _ Hg), trades_of_app. unfold unwritten.
  rewrite !cnt_app, (ok_flow _ _ _ _ _ _ _ Hg t), !cnt_concat, !total_map. lia.
Qed.


(** ** After [stop] *)

Definition final (s : pipeline S) : Prop :=
  all_down s ∧ emptied s ∧ pl_writer s = None ∧ pl_stop_requested s = true.

Lemma stopped_final st s : phase_ok st s → stopped s → final s.
Proof.
  intros Hph [Hns Hr]. pose proof (ph_stop _ _ Hph) as Hphase. unfold stop_phase in Hphase.
  rewrite Hns in Hphase. destruct (Hphase Hr) as [Hd He]. split_and!; try done.
  by destruct (ph_raw _ _ Hph (proj1 Hd)).
Qed.

Lemma take_remaining_emptied (l : list Shard) :
  (∀ i sh, l !! i = Some sh → agg_windows (sh_aggregator sh) = []) →
  take_remaining l = ([], l).
Proof.
  induction l as [|sh l IH]; intros Hl; [done|]. cbn [take_remaining].
  pose proof (Hl 0%nat sh eq_refl) as Hsh.
  rewrite IH by (intros i sh' Hi; by apply (Hl (Datatypes.S i))).
  destruct sh as [q [w m]]. cbn in Hsh. by subst.
Qed.

Lemma final_stop s s' : final s → stop s = Some (Ret s') → final s' ∧ pl_sink s' = pl_sink s.
Proof.
  intros ((Hraw & Hp & Hsh & Ha) & He & Hw & Hr) Hs. unfold stop in Hs.
  unfold can_join_writer, can_join_parser in Hs. rewrite Hw, Hp in Hs.
  unfold final, all_down, emptied.
  destruct (pl_stop s) as [| | |i|i|]; [done|..].
  - simplify_eq. by split_and!.
  - simplify_eq. by split_and!.
  - destruct (pl_shards s !! i) as [sh|] eqn:Hi; simplify_eq; [|by split_and!].
    cbn. split_and!; try done; intros j sh' [(<- & <- & _)|[_ Hj]]%list_lookup_insert_Some; cbn; eauto.
  - destruct (pl_aggs s !! i) as [p|] eqn:Hi; [|simplify_eq; by split_and!].
    rewrite (Ha _ _ Hi) in Hs. simplify_eq. cbn. split_and!; try done.
    intros j p' [(_ & <- & _)|[_ Hj]]%list_lookup_insert_Some; eauto.
  - unfold flush_remaining_windows in Hs. rewrite (take_remaining_emptied _ He) in Hs. cbn in Hs.
    simplify_eq. by split_and!.
Qed.

Lemma final_step s a s' :
  final s → pipe_step hash s a = Some (Ret s') → final s' ∧ pl_sink s' = pl_sink s ∧ accepted_by s a = [].
Proof.
  intros Hf Hs. destruct a as [m| |now ck| | |i|ck| | |]; cbn [pipe_step accepted_by] in *.
  - destruct Hf as ((Hraw & Hd) & Hrest). destruct (submit_raw_message s m) as [[b s1]|] eqn:Hm; cbn in Hs; [|done].
    simplify_eq. unfold submit_raw_message in Hm.
    destruct (push (pl_raw_queue s) m) as [[b' q]|] eqn:Hq; cbn in Hm; [|done]. simplify_eq.
    apply push_Some in Hq as [(_ & -> & ->)|(? & _)]; [|congruence]. done.
  - destruct Hf as (_ & _ & _ & Hr). unfold start in Hs. rewrite Hr in Hs. by destruct (pl_parser s).
  - destruct Hf as (_ & _ & Hw & _). apply writer_timeout_Ret in Hs as [Hw' _]. congruence.
  - destruct Hf as (? & ? & ? & ?). unfold stop_request in Hs. destruct (pl_stop s); simplify_eq. done.
  - destruct Hf as ((_ & Hp & _) & _). unfold run_parser_stage in Hs. by rewrite Hp in Hs.
  - destruct Hf as ((_ & _ & _ & Ha) & _). unfold run_aggregation_stage in Hs.
    destruct (pl_shards s !! i) as [sh|]; cbn in Hs; [|done].
    destruct (pl_aggs s !! i) as [p|] eqn:Hi; [|done]. by rewrite (Ha _ _ Hi) in Hs.
  - destruct Hf as (_ & _ & Hw & _). apply writer_wait_Ret in Hs as [Hw' _]. congruence.
  - destruct Hf as (_ & _ & Hw & _). unfold flush_completed_windows in Hs. by rewrite Hw in Hs.
  - by destruct (final_stop _ _ Hf Hs).
  - by apply start_refused_Ret in Hs.
Qed.

(** ** What the writer has collected *)

Definition is_tick (a : action) : bool := match a with ActTimeout _ _ => true | _ => false end.

(** A flush that is going on was started by the last tick of the timer. *)
Lemma run_watermark acts msgs s cur i ws :
  pipe_run hash s0 acts msgs s → pl_writer s = Some (WriterExtract cur i ws) →
  ∃ acts1 now ck acts2, acts = acts1 ++ ActTimeout now ck :: acts2 ∧ existsb is_tick acts2 = false ∧
    cur = window_start_of W (to_u64 now).
Proof.
  intros Hrun. revert cur i ws. induction Hrun as [|acts msgs s a s' Hrun IH Hs]; intros cur i ws Hw; [done|].
  assert ((∃ now ck, a = ActTimeout now ck ∧ cur = window_start_of W (to_u64 now)) ∨
    is_tick a = false ∧ ∃ i' ws', pl_writer s = Some (WriterExtract cur i' ws'))
    as [(now & ck & -> & ->)|(Ha & i' & ws' & Hw')].
  2: { by exists acts, now, ck, []. }
  2: { destruct (IH _ _ _ Hw') as (acts1 & now & ck & acts2 & -> & Ht & ->). exists acts1, now, ck, (acts2 ++ [a]).
    split; [by rewrite <- app_assoc|]. split; [|done]. rewrite existsb_app, Ht. cbn. by rewrite Ha. }
  apply run_ok in Hrun as (g & Hg & Hph).
  destruct a as [m| |now ck| | |j|ck| | |]; cbn [pipe_step] in Hs.
  - right. unfold submit_raw_message in Hs. destruct (push _ _) as [[]|]; cbn in Hs; simplify_eq. eauto.
  - unfold start in Hs. destruct (pl_parser s), (pl_stop_requested s), (pl_stop s); simplify_eq.
  - left. apply writer_timeout_Ret in Hs as (_ & _ & _ & _ & ->). cbn in Hw. simplify_eq. rewrite (ok_window _ _ _ _ _ _ _ Hg). eauto.
  - right. unfold stop_request in Hs. destruct (pl_stop s); simplify_eq. eauto.
  - right. apply parser_frame in Hs as [<- _]. eauto.
  - right. apply agg_frame in Hs as [<- _]. eauto.
  - by apply writer_wait_Ret in Hs as (_ & _ & _ & ->).
  - right. unfold flush_completed_windows in Hs. destruct (pl_writer s) as [[|c j ws0|]|]; try done.
    destruct (pl_shards s !! j) as [sh|].
    + destruct (extract_completed_windows (sh_aggregator sh) c). simplify_eq. cbn in Hw. simplify_eq. eauto.
    + injection Hs as Hs. apply bind_Ret in Hs as (sk & _ & ?). inv_ret. done.
  - right. split; [done|]. unfold stop in Hs. exists i, ws. destruct (pl_stop s) as [| | |j|j|]; [done|..].
    + destruct (can_join_writer s); by simplify_eq.
    + destruct (can_join_parser s); by simplify_eq.
    + destruct (pl_shards s !! j); by simplify_eq.
    + destruct (pl_aggs s !! j) as [[[]|]|]; by simplify_eq.
    + injection Hs as Hs. apply bind_Ret in Hs as (s1 & Hf & ?). inv_ret. unfold flush_remaining_windows in Hf.
      destruct (take_remaining (pl_shards s)). by inv_ret.
  - by apply start_refused_Ret in Hs.
Qed.

(** ** Exceptions *)

Lemma writer_deadline_no_throw (s : pipeline S) ck e : writer_deadline s ck ≠ Throw e.
Proof. apply wait_deadline_no_throw. Qed.

Lemma writer_wait_no_throw (s : pipeline S) ck e : writer_wait s ck ≠ Some (Throw e).
Proof.
  unfold writer_wait. destruct (pl_writer s) as [[]|]; try done. destruct (pl_stop_requested s); [|done].
  intros [= Hs]. apply bind_Throw in Hs as [Hs|(? & _ & ?)]; [by apply writer_deadline_no_throw in Hs|done].
Qed.

Lemma writer_timeout_no_throw (s : pipeline S) now ck e : writer_timeout s now ck ≠ Some (Throw e).
Proof.
  unfold writer_timeout. destruct (pl_writer s) as [[]|]; try done. destruct (pl_stop_requested s); [done|].
  intros [= Hs]. apply bind_Throw in Hs as [Hs|(? & _ & ?)]; [by apply writer_deadline_no_throw in Hs|].
  by destruct (pl_window_ms s =? 0).
Qed.

Lemma serialize_no_throw snap : throws_only (λ _, False) (serialize snap).
Proof.
  assert (∀ d, throws_only (λ _, False) (DecimalFp.to_string d)) as Hd.
  { intros d. unfold DecimalFp.to_string. throws. }
  assert (∀ w, throws_only (λ _, False) (serialize_window w)) as Hw.
  { intros w. unfold serialize_window. throws. }
  assert (∀ l o, throws_only (λ _, False)
    (foldM (λ output window, line ← serialize_window window; Ret (output +:+ line)) o l)) as Hf.
  { intros l. induction l as [|w l IH]; intros o; [done|]. cbn. throws. }
  unfold serialize, format_iso8601_utc. destruct (ss_windows snap) as [|w l]; [done|]. throws.
Qed.

Lemma write_windows_throws (sk : S) ws e :
  write_windows sk ws = Throw e → ∃ sk' text, sink_write sk' text = Throw e.
Proof.
  assert (∀ snaps sk, foldM write_snapshot sk snaps = Throw e → ∃ sk' text, sink_write sk' text = Throw e) as Hf.
  { intros snaps. induction snaps as [|snap snaps IH]; intros sk1; cbn; [done|].
    intros [Hs|(sk2 & _ & Hs)]%bind_Throw; [|by eapply IH].
    unfold write_snapshot in Hs. apply bind_Throw in Hs as [Hs|(text & _ & Hs)].
    - pose proof (serialize_no_throw snap) as Hn. by rewrite Hs in Hn.
    - case_bool_decide; [done|]. eauto. }
  unfold write_windows. destruct ws; [done|]. apply Hf.
Qed.

Lemma step_throws acts msgs s a e :
  pipe_run hash s0 acts msgs s → pipe_step hash s a = Some (Throw e) →
  (a = ActStartRefused ∧ e = thread_refused) ∨ ∃ sk text, sink_write sk text = Throw e.
Proof.
  intros (g & Hg & _)%run_ok Hs. destruct a as [m| |now ck| | |i|ck| | |]; cbn [pipe_step] in Hs.
  - destruct (submit_raw_message s m) as [[]|]; cbn in Hs; done.
  - unfold start in Hs. by destruct (pl_parser s), (pl_stop_requested s), (pl_stop s).
  - by apply writer_timeout_no_throw in Hs.
  - unfold stop_request in Hs. by destruct (pl_stop s).
  - unfold run_parser_stage in Hs. destruct (pl_parser s) as [[|t|]|]; try done.
    + destruct (pop _) as [[[raw|] q]|]; cbn in Hs; try done. injection Hs as Hs.
      apply bind_Throw in Hs as [Hs|(x & _ & Hs)]; [by apply parse_trade_no_throw in Hs|done].
    + destruct (pl_shards s !! _) as [sh|]; cbn in Hs; [|done]. destruct (push _ _) as [[]|]; cbn in Hs; done.
  - unfold run_aggregation_stage in Hs. destruct (pl_shards s !! i) as [sh|] eqn:Hsh; cbn in Hs; [|done].
    destruct (pl_aggs s !! i) as [[[|t|]|]|]; try done.
    + destruct (pop _) as [[]|]; cbn in Hs; done.
    + injection Hs as Hs. destruct (pending_at _ _ _ _ _ _ _ _ _ Hg Hsh) as (p & _ & [Hm _ _ _]).
      pose proof (add_trade_models _ _ t Hm) as Ha. cbn zeta in Ha.
      destruct (add_trade (sh_aggregator sh) t); done.
  - by apply writer_wait_no_throw in Hs.
  - unfold flush_completed_windows in Hs. destruct (pl_writer s) as [[|cur i ws|]|]; try done.
    destruct (pl_shards s !! i) as [sh|].
    + by destruct (extract_completed_windows (sh_aggregator sh) cur).
    + injection Hs as Hs. apply bind_Throw in Hs as [Hs|(x & _ & Hs)]; [|done]. right. by eapply write_windows_throws.
  - unfold stop in Hs. destruct (pl_stop s) as [| | |j|j|]; [done|..].
    + by destruct (can_join_writer s).
    + by destruct (can_join_parser s).
    + by destruct (pl_shards s !! j).
    + by destruct (pl_aggs s !! j) as [[[]|]|].
    + injection Hs as Hs. apply bind_Throw in Hs as [Hs|(x & _ & Hs)]; [|done].
      unfold flush_remaining_windows in Hs. destruct (take_remaining (pl_shards s)) as [ws shs].
      apply bind_Throw in Hs as [Hs|(x & _ & Hs)]; [|done]. right. by eapply write_windows_throws.
  - left. split; [done|]. apply start_refused_Throw in Hs. congruence.
Qed.

(** ** Properties *)

(** C8: no trade is lost or duplicated.  When a started pipeline has been
    stopped, whatever the schedule, the sink has received the reports of some
    batches of trades, and the batches together are exactly the trades of the
    messages that [submit_raw_message] accepted; each report states the
    reference statistics of its batch. *)
Theorem stop_writes_every_trade acts msgs s :
  pipe_run hash s0 acts msgs s → existsb is_start acts = true → stopped s →
  ∃ batches texts, concat batches ≡ₚ trades_of msgs ∧
    mapM (batch_text W) batches = Ret texts ∧
    sink_text (pl_sink s) = sink_text sink +:+ string_concat texts.
Proof.
  intros Hrun Hst Hs. destruct (stopped_drained _ _ _ Hrun Hst Hs) as (g & Hg & Hp).
  destruct (ok_text _ _ _ _ _ _ _ Hg) as (texts & Ht & Htext). eauto.
Qed.

(** C29: once [stop] has returned nothing more happens: no message is accepted
    and the sink is not written to again, also when [stop] is called again. *)
Theorem stop_is_final acts msgs s acts' msgs' s' :
  pipe_run hash s0 acts msgs s → stopped s → pipe_run hash s acts' msgs' s' →
  msgs' = [] ∧ pl_sink s' = pl_sink s.
Proof.
  intros (g & _ & Hph)%run_ok Hs Hrun. apply (stopped_final _ _ Hph) in Hs.
  enough (final s' ∧ msgs' = [] ∧ pl_sink s' = pl_sink s) by naive_solver.
  induction Hrun as [|acts1 msgs1 s1 a s2 _ (Hf & Hm & Hsk) Hstep]; [done|].
  destruct (final_step _ _ _ Hf Hstep) as (Hf' & Hsk' & ->). by rewrite Hm, Hsk', Hsk.
Qed.

(** [stop] cannot deadlock.  In every reachable state in which [stop] has
    been called and has not returned, some thread of the pipeline or the
    stopping thread itself can make a step. *)
Theorem stop_cannot_deadlock acts msgs s :
  pipe_run hash s0 acts msgs s → pl_stop s ≠ NotStopping →
  ∃ a, internal a = true ∧ is_Some (pipe_step hash s a).
Proof.
  intros Hrun. pose proof (run_shards_nonempty _ _ _ Hrun).
  apply run_ok in Hrun as (g & _ & Hph). by eapply stop_enabled.
Qed.

(** [stop] terminates.  From every reachable state the threads of the
    pipeline and the stopping thread can only make a bounded number of steps
    before a caller or the timer acts, so that with the previous property a
    [stop] that has been called returns. *)
Theorem internal_steps_bounded acts msgs s acts' msgs' s' :
  pipe_run hash s0 acts msgs s → pipe_run hash s acts' msgs' s' →
  forallb internal acts' = true → Z.of_nat (length acts') ≤ pipe_measure s.
Proof.
  intros (g & _ & Hph)%run_ok Hrun Hint.
  enough (Z.of_nat (length acts') + pipe_measure s' ≤ pipe_measure s)
    by (pose proof (pipe_measure_nonneg s'); lia).
  induction Hrun as [|acts1 msgs1 s1 a s2 Hrun IH Hs]; [done|].
  rewrite forallb_app in Hint. apply andb_true_iff in Hint as [Hi Ha]. cbn in Ha. rewrite andb_true_r in Ha.
  specialize (IH Hi). pose proof (phase_run hash _ _ _ _ _ Hph Hrun) as Hph1.
  pose proof (internal_decreases hash _ _ _ _ Hph1 Ha Hs). rewrite length_app. cbn [length]. lia.
Qed.

(** C31: a timer flush never touches the window in progress: every window the
    writer has collected ended before the clock reading of the flush that is
    going on, which is that of the last tick of the timer. *)
Theorem flush_withholds_current_window acts msgs s cur i ws st :
  0 < W → pipe_run hash s0 acts msgs s → pl_writer s = Some (WriterExtract cur i ws) → st ∈ ws →
  ∃ acts1 now ck acts2, acts = acts1 ++ ActTimeout now ck :: acts2 ∧ existsb is_tick acts2 = false ∧
    ws_window_start_ms st + W ≤ to_u64 now.
Proof.
  intros HW0 Hrun Hw Hst. destruct (run_watermark _ _ _ _ _ _ Hrun Hw) as (acts1 & now & ck & acts2 & Hacts & Htick & ->).
  exists acts1, now, ck, acts2. split; [done|]. split; [done|]. clear Hacts Htick. apply run_ok in Hrun as (g & Hg & _).
  pose proof (ok_writer _ _ _ _ _ _ _ Hg) as Hex. rewrite Hw in Hex. destruct Hex as [_ Hws _ Hb].
  apply Hws in Hst as (sy & k & Href). destruct (ref_window_keys _ _ _ _ _ Href) as [_ ->].
  apply ref_window_key, list_elem_of_fmap in Href as (t & [= -> ->] & Ht). specialize (Hb _ Ht).
  unfold start_of, window_start_of in *. pose proof (Z.mod_pos_bound (to_u64 now) W HW0).
  pose proof (Z.div_mod (to_u64 now) W HW). pose proof (Z.div_mod (te_trade_time_ms t) W HW).
  assert (te_trade_time_ms t / W < to_u64 now / W) by nia. nia.
Qed.

(** The only exceptions that can end the process from inside the pipeline
    are those thrown by the sink, and by [start] when a thread is refused. *)
Theorem only_the_sink_throws acts msgs s a e :
  pipe_run hash s0 acts msgs s → pipe_step hash s a = Some (Throw e) →
  (a = ActStartRefused ∧ e = thread_refused) ∨ ∃ sk text, sink_write sk text = Throw e.
Proof. apply step_throws. Qed.

End runs.

(** C32: the report of a batch is what a single aggregator, fed with the trades
    of the batch one after the other and emptied once, would have written. *)
Theorem batch_text_sequential W ts a :
  W ≠ 0 → add_trades (new_aggregator W) ts = Ret a →
  windows_text (extract_all_windows a).1 = batch_text W ts.
Proof.
  intros HW Ha. destruct (add_trades_models _ [] ts a (agg_models_new W HW) Ha) as [Hm Hw].
  cbn in Hm, Hw. destruct (extract_all_result _ _ Hm) as [Hs Hin]. rewrite Hw in Hin.
  apply batch_text_unique; [by apply (strict_sorted_NoDup win_before)|done].
Qed.

(** ** Evaluated schedules *)

Section exec.
Context {S : Type} `{OutputSink S} `{J : JsonLib}.
Variable hash : string → Z.

Fixpoint pipe_exec (s : pipeline S) (acts : list action) : option (list string * pipeline S) :=
  match acts with
  | [] => Some ([], s)
  | a :: acts =>
      match pipe_step hash s a with
      | Some (Ret s') => '(msgs, s'') ← pipe_exec s' acts; Some (accepted_by s a ++ msgs, s'')
      | _ => None
      end
  end.

Lemma pipe_run_cons s a s' acts msgs s'' :
  pipe_step hash s a = Some (Ret s') → pipe_run hash s' acts msgs s'' →
  pipe_run hash s (a :: acts) (accepted_by s a ++ msgs) s''.
Proof.
  intros Hs. induction 1 as [|acts msgs s1 b s2 _ IH Hb].
  - rewrite app_nil_r. apply (pipe_next hash s [] [] s a s'); [constructor|done].
  - rewrite app_assoc. eapply (pipe_next hash s (a :: acts)); done.
Qed.

Lemma pipe_exec_sound s acts msgs s' :
  pipe_exec s acts = Some (msgs, s') → pipe_run hash s acts msgs s'.
Proof.
  revert s msgs. induction acts as [|a acts IH]; intros s msgs Hs; cbn [pipe_exec] in Hs.
  { simplify_eq. constructor. }
  destruct (pipe_step hash s a) as [[s1| |]|] eqn:Hstep; try done.
  destruct (pipe_exec s1 acts) as [[msgs1 s2]|] eqn:Hex; cbn in Hs; [|done]. simplify_eq.
  eauto using pipe_run_cons.
Qed.

(** The messages accepted and the state reached. *)
Definition run_result (s : pipeline S) (acts : list action) : list string * pipeline S :=
  default ([], s) (pipe_exec s acts).

Lemma run_result_ok s acts :
  (if pipe_exec s acts then true else false) = true →
  pipe_run hash s acts (run_result s acts).1 (run_result s acts).2.
Proof.
  unfold run_result. destruct (pipe_exec s acts) as [[msgs s']|] eqn:Hex; [|done]. intros _.
  by apply pipe_exec_sound.
Qed.
End exec.

(** Two shards, chosen by the first letter of the symbol. *)
Definition example_hash (symbol : string) : Z :=
  match symbol with String c _ => code c | "" => 0 end.

Definition btc_message : string :=
  jtext "{'e':'trade','s':'BTCUSDT','t':2,'p':'100.5','q':'2','T':1400,'m':true}".

Definition empty_file : FileOutputSink := {| fos_file := ""; fos_good := true; fos_os := [] |}.

Definition example_start (threads : Z) : pipeline FileOutputSink := new_pipeline 1000 500 4 empty_file threads.

Definition example_messages : list string := [bare_message; btc_message].

(** The messages are parsed and aggregated by two shards; a timer flush, then
    [stop]. *)
Definition two_shards_flush : list action :=
  [ActStart; ActSubmit bare_message; ActParser; ActSubmit btc_message; ActParser; ActAgg 1; ActAgg 1;
   ActTimeout 2500 0; ActWriterFlush; ActWriterFlush].
Definition two_shards_stop : list action :=
  [ActStart; ActSubmit bare_message; ActParser; ActSubmit btc_message; ActParser; ActStopRequest;
   ActWriterWait 0; ActStop; ActParser; ActParser; ActParser; ActStop; ActStop; ActAgg 1; ActAgg 1;
   ActAgg 0; ActAgg 0; ActStop; ActStop; ActAgg 0; ActAgg 1; ActStop; ActStop; ActStop; ActStop].
(** The same with one shard and the messages in the other order. *)
Definition one_shard_stop : list action :=
  [ActStart; ActSubmit btc_message; ActSubmit bare_message; ActStopRequest; ActWriterWait 0; ActStop;
   ActParser; ActParser; ActParser; ActParser; ActParser; ActStop; ActStop; ActAgg 0; ActAgg 0;
   ActAgg 0; ActAgg 0; ActStop; ActAgg 0; ActStop; ActStop; ActStop].

Abbreviation after2 acts := (run_result example_hash (example_start 2) acts).
Abbreviation after1 acts := (run_result example_hash (example_start 1) acts).

Lemma stop_writes_every_trade_witness :
  (after2 two_shards_stop).1 = example_messages ∧
  ∃ batches texts, concat batches ≡ₚ trades_of (after2 two_shards_stop).1 ∧
    mapM (batch_text 1000) batches = Ret texts ∧
    sink_text (pl_sink (after2 two_shards_stop).2) = sink_text empty_file +:+ string_concat texts.
Proof.
  split; [vm_compute; reflexivity|].
  apply (stop_writes_every_trade example_hash 1000 500 4 empty_file 2 ltac:(lia)
    two_shards_stop (after2 two_shards_stop).1 (after2 two_shards_stop).2).
  - apply run_result_ok. vm_compute. reflexivity.
  - reflexivity.
  - split; vm_compute; reflexivity.
Defined.

Lemma stop_is_final_witness :
  (run_result example_hash (after2 two_shards_stop).2 [ActSubmit btc_message; ActStopRequest; ActStop]).1 = [].
Proof.
  apply (stop_is_final example_hash 1000 500 4 empty_file 2 ltac:(lia)
    two_shards_stop (after2 two_shards_stop).1 (after2 two_shards_stop).2
    [ActSubmit btc_message; ActStopRequest; ActStop] _
    (run_result example_hash (after2 two_shards_stop).2 [ActSubmit btc_message; ActStopRequest; ActStop]).2).
  - apply run_result_ok. vm_compute. reflexivity.
  - split; vm_compute; reflexivity.
  - apply run_result_ok. vm_compute. reflexivity.
Defined.

Lemma stop_cannot_deadlock_witness :
  ∃ a, internal a = true ∧
    is_Some (pipe_step example_hash (after2 [ActStart; ActSubmit bare_message; ActStopRequest]).2 a).
Proof.
  apply (stop_cannot_deadlock example_hash 1000 500 4 empty_file 2 ltac:(lia)
    [ActStart; ActSubmit bare_message; ActStopRequest] (after2 [ActStart; ActSubmit bare_message; ActStopRequest]).1).
  - apply run_result_ok. vm_compute. reflexivity.
  - vm_compute. discriminate.
Defined.

Lemma internal_steps_bounded_witness :
  2 ≤ pipe_measure (after2 [ActStart; ActSubmit bare_message]).2.
Proof.
  apply (internal_steps_bounded example_hash 1000 500 4 empty_file 2 ltac:(lia)
    [ActStart; ActSubmit bare_message] (after2 [ActStart; ActSubmit bare_message]).1 _ [ActParser; ActParser]
    (run_result example_hash (after2 [ActStart; ActSubmit bare_message]).2 [ActParser; ActParser]).1
    (run_result example_hash (after2 [ActStart; ActSubmit bare_message]).2 [ActParser; ActParser]).2).
  - apply run_result_ok. vm_compute. reflexivity.
  - apply run_result_ok. vm_compute. reflexivity.
  - reflexivity.
Defined.

Lemma flush_withholds_current_window_witness :
  ∃ acts1 now ck acts2, two_shards_flush = acts1 ++ ActTimeout now ck :: acts2 ∧ existsb is_tick acts2 = false ∧
    1000 + 1000 ≤ to_u64 now.
Proof.
  apply (flush_withholds_current_window example_hash 1000 500 4 empty_file 2 ltac:(lia)
    two_shards_flush (after2 two_shards_flush).1 (after2 two_shards_flush).2 2000 2
    [ref_stats "ETHUSDT" 1000
       [{| te_symbol := "ETHUSDT"; te_trade_id := 1; te_price := from_raw 1000000000;
           te_quantity := from_raw 500000000; te_trade_time_ms := 1300; te_buyer_is_maker := false |}]]
    (ref_stats "ETHUSDT" 1000
       [{| te_symbol := "ETHUSDT"; te_trade_id := 1; te_price := from_raw 1000000000;
           te_quantity := from_raw 500000000; te_trade_time_ms := 1300; te_buyer_is_maker := false |}])).
  - lia.
  - apply run_result_ok. vm_compute. reflexivity.
  - vm_compute. reflexivity.
  - left.
Defined.

(** A disk that is full makes the writer thread throw. *)
Lemma only_the_sink_throws_witness :
  (ActWriterFlush = ActStartRefused ∧ RuntimeError "Failed to write to output file" = thread_refused) ∨
  ∃ (sk : FileOutputSink) text,
    sink_write sk text = Throw (RuntimeError "Failed to write to output file").
Proof.
  apply (only_the_sink_throws example_hash 1000 500 4
    {| fos_file := ""; fos_good := true; fos_os := [Some 3%nat] |} 2 ltac:(lia)
    two_shards_flush
    (run_result example_hash (new_pipeline 1000 500 4 {| fos_file := ""; fos_good := true; fos_os := [Some 3%nat] |} 2)
       two_shards_flush).1
    (run_result example_hash (new_pipeline 1000 500 4 {| fos_file := ""; fos_good := true; fos_os := [Some 3%nat] |} 2)
       two_shards_flush).2 ActWriterFlush).
  - apply run_result_ok. vm_compute. reflexivity.
  - vm_compute. reflexivity.
Defined.

Lemma batch_text_sequential_witness :
  ∃ a, add_trades (new_aggregator 1000) (trades_of example_messages) = Ret a ∧
    windows_text (extract_all_windows a).1 = batch_text 1000 (trades_of example_messages).
Proof.
  eexists. match goal with |- ?A ∧ _ => assert A as Ha by (vm_compute; reflexivity) end.
  split; [exact Ha|]. exact (batch_text_sequential 1000 _ _ ltac:(lia) Ha).
Defined.
