(* ===== verification/Punctual.v ===== *)
(** * Timer flushes without late trades

    When no trade reaches its shard after a timer flush has passed the end of
    the trade's window, splitting the output into timer flushes and a final
    flush is invisible: the sink has received the report of all trades at
    once, so that no window is written twice and the blocks are in increasing
    order over the whole life of the pipeline. *)

From S2P Require Import Prelude CString DecimalFp StdMap Aggregator AggregatorSpec AggregatorProps.
From S2P Require Import Output Json JsonRef TradeParser Totals BoundedQueue QueueProps.
From S2P Require Import Snapshots Pipeline PipelineInv PipelineLive PipelineProps.

(** ** Reports of successive batches *)

Lemma map_ok_app {V} (m1 m2 : stdmap Z V) :
  map_ok m1 → map_ok m2 →
  (∀ k1 v1 k2 v2, (k1, v1) ∈ m1 → (k2, v2) ∈ m2 → k1 < k2) → map_ok (m1 ++ m2).
Proof.
  intros H1 H2 Hlt. induction m1 as [|[k v] m1 IH]; [done|]. cbn.
  apply map_ok_cons in H1 as [H1 Hk]. apply map_ok_cons. split.
  - apply IH; [done|]. intros k1 v1 k2 v2 Hin. apply (Hlt k1 v1). by right.
  - intros k' v' [?|Hin]%elem_of_app; [eauto|]. apply Z.compare_lt_iff.
    apply (Hlt k v k' v'); [left|done].
Qed.

Lemma map_find_app {V} (m1 m2 : stdmap Z V) k :
  map_find (m1 ++ m2) k = match map_find m1 k with Some v => Some v | None => map_find m2 k end.
Proof. induction m1 as [|[k' v] m1 IH]; [done|]. cbn. rewrite IH. by destruct (k ?= k'). Qed.

(** The windows of [ws1] all start before those of [ws2]. *)
Definition windows_before (ws1 ws2 : list WindowStats) : Prop :=
  ∀ w1 w2, w1 ∈ ws1 → w2 ∈ ws2 → ws_window_start_ms w1 < ws_window_start_ms w2.

Lemma at_window_elem k ws w : w ∈ at_window k ws ↔ ws_window_start_ms w = k ∧ w ∈ ws.
Proof. unfold at_window. by rewrite list_elem_of_filter. Qed.

Lemma group_windows_elem ws k snap :
  (k, snap) ∈ group_windows ws → ∃ w, w ∈ ws ∧ ws_window_start_ms w = k.
Proof.
  destruct (group_windows_spec ws) as [Hok Hfind]. intros Hin%map_find_elem; [|done].
  rewrite Hfind in Hin. destruct (at_window k ws) as [|w l] eqn:Hl; [done|].
  exists w. assert (w ∈ at_window k ws) as Hw by (rewrite Hl; left). apply at_window_elem in Hw. naive_solver.
Qed.

Lemma group_windows_app ws1 ws2 :
  windows_before ws1 ws2 → group_windows (ws1 ++ ws2) = group_windows ws1 ++ group_windows ws2.
Proof.
  intros Hlt. destruct (group_windows_spec ws1) as [Hok1 Hf1], (group_windows_spec ws2) as [Hok2 Hf2],
    (group_windows_spec (ws1 ++ ws2)) as [Hok Hf].
  apply map_ext; [done| |].
  - apply map_ok_app; [done..|].
    intros k1 v1 k2 v2 (w1 & ? & <-)%group_windows_elem (w2 & ? & <-)%group_windows_elem. by apply Hlt.
  - intros k. rewrite map_find_app, Hf, Hf1, Hf2. unfold at_window. rewrite filter_app.
    fold (at_window k ws1) (at_window k ws2).
    destruct (at_window k ws1) as [|w1 l1] eqn:H1; [done|].
    destruct (at_window k ws2) as [|w2 l2] eqn:H2; [by rewrite app_nil_r|].
    assert (w1 ∈ at_window k ws1) as [Hk1 ?]%at_window_elem by (rewrite H1; left).
    assert (w2 ∈ at_window k ws2) as [Hk2 ?]%at_window_elem by (rewrite H2; left).
    specialize (Hlt w1 w2 ltac:(done) ltac:(done)). lia.
Qed.

Lemma snapshots_app ws1 ws2 :
  windows_before ws1 ws2 → snapshots (ws1 ++ ws2) = snapshots ws1 ++ snapshots ws2.
Proof.
  intros Hlt. unfold snapshots, map_values. by rewrite (group_windows_app _ _ Hlt), !fmap_app.
Qed.

Lemma mapM_app {A B} (f : A → outcome B) l1 l2 ys1 ys2 :
  mapM f l1 = Ret ys1 → mapM f l2 = Ret ys2 → mapM f (l1 ++ l2) = Ret (ys1 ++ ys2).
Proof.
  revert ys1. induction l1 as [|x l1 IH]; intros ys1 H1 H2; cbn in *; [by inv_ret|].
  apply bind_Ret in H1 as (y & -> & (ys & Hys & ?)%bind_Ret). inv_ret. cbn. by rewrite (IH ys).
Qed.

Lemma windows_text_app ws1 ws2 text1 text2 :
  windows_before ws1 ws2 → windows_text ws1 = Ret text1 → windows_text ws2 = Ret text2 →
  windows_text (ws1 ++ ws2) = Ret (text1 +:+ text2).
Proof.
  unfold windows_text, snapshots_text. intros Hlt.
  intros (ts1 & H1 & ?)%bind_Ret (ts2 & H2 & ?)%bind_Ret. inv_ret.
  rewrite (snapshots_app _ _ Hlt), (mapM_app _ _ _ _ _ H1 H2). cbn. by rewrite string_concat_app.
Qed.

(** The trades of [b1] all fall into windows before those of [b2]. *)
Definition trades_precede (W : Z) (b1 b2 : list TradeEvent) : Prop :=
  ∀ t1 t2, t1 ∈ b1 → t2 ∈ b2 → start_of W t1 < start_of W t2.

Lemma ref_window_app_precede W s k b1 b2 st :
  trades_precede W b1 b2 →
  ref_window W s k (b1 ++ b2) = Some st ↔ ref_window W s k b1 = Some st ∨ ref_window W s k b2 = Some st.
Proof.
  intros Hlt. unfold ref_window. rewrite bucket_app.
  destruct (bucket W s k b1) as [|t1 l1] eqn:H1; [naive_solver|].
  destruct (bucket W s k b2) as [|t2 l2] eqn:H2; [rewrite app_nil_r; naive_solver|].
  assert (t1 ∈ bucket W s k b1) as [[_ Hk1] Ht1]%list_elem_of_filter by (rewrite H1; left).
  assert (t2 ∈ bucket W s k b2) as [[_ Hk2] Ht2]%list_elem_of_filter by (rewrite H2; left).
  specialize (Hlt t1 t2 Ht1 Ht2). lia.
Qed.

Lemma ref_windows_start W ts st :
  st ∈ ref_windows W ts → ∃ t, t ∈ ts ∧ start_of W t = ws_window_start_ms st.
Proof.
  intros (s & k & Hst)%elem_of_ref_windows. destruct (ref_window_keys _ _ _ _ _ Hst) as [_ Hk].
  apply ref_window_key, list_elem_of_fmap in Hst as (t & [= -> ->] & Ht). by exists t.
Qed.

(** The report of two batches, the first before the second, is the report of
    the first followed by that of the second. *)
Lemma batch_text_app W b1 b2 text1 text2 :
  trades_precede W b1 b2 → batch_text W b1 = Ret text1 → batch_text W b2 = Ret text2 →
  batch_text W (b1 ++ b2) = Ret (text1 +:+ text2).
Proof.
  intros Hlt H1 H2. assert (windows_before (ref_windows W b1) (ref_windows W b2)) as Hb.
  { intros w1 w2 (t1 & Ht1 & <-)%ref_windows_start (t2 & Ht2 & <-)%ref_windows_start. by apply Hlt. }
  rewrite <- (windows_text_app _ _ _ _ Hb H1 H2). symmetry. apply batch_text_unique.
  - apply NoDup_app. split_and!; [apply ref_windows_NoDup| |apply ref_windows_NoDup].
    intros w Hw1 Hw2. specialize (Hb w w Hw1 Hw2). lia.
  - intros st. rewrite elem_of_app, !elem_of_ref_windows.
    setoid_rewrite (ref_window_app_precede _ _ _ _ _ _ Hlt). naive_solver.
Qed.

Lemma batch_text_concat W batches texts :
  StronglySorted (trades_precede W) batches → mapM (batch_text W) batches = Ret texts →
  batch_text W (concat batches) = Ret (string_concat texts).
Proof.
  intros Hs. revert texts. induction Hs as [|b batches _ IH Hb]; intros texts; cbn; [intros; by inv_ret|].
  intros (text & Ht & (texts' & Hts & ?)%bind_Ret)%bind_Ret. inv_ret. cbn.
  apply batch_text_app; [|done|by apply IH]. rewrite Forall_forall in Hb.
  intros t1 t2 Ht1 Ht2. apply list_elem_of_In, in_concat in Ht2 as (b2 & Hb2 & Ht2).
  apply list_elem_of_In in Hb2, Ht2. by apply (Hb b2).
Qed.

(** ** Runs without late trades *)

Lemma elem_of_concat {A} (x : A) ls : x ∈ concat ls ↔ ∃ i l, ls !! i = Some l ∧ x ∈ l.
Proof.
  rewrite list_elem_of_In, in_concat. split.
  - intros (l & Hl & Hx). apply list_elem_of_In, list_elem_of_lookup in Hl as [i Hi].
    exists i, l. by rewrite list_elem_of_In.
  - intros (i & l & Hi & Hx). exists l. rewrite <- !list_elem_of_In. split; [|done].
    by eapply list_elem_of_lookup_2.
Qed.

Lemma elem_of_concat_insert {A} (x : A) i l ls :
  x ∈ concat (<[i := l]> ls) → x ∈ l ∨ x ∈ concat ls.
Proof.
  rewrite !elem_of_concat. intros (j & l' & Hj & Hx).
  apply list_lookup_insert_Some in Hj as [(<- & <- & _)|[_ Hj]]; eauto.
Qed.

Section punctual.
Context {S : Type} `{OutputSink S} `{J : JsonLib} `{!JsonLaws J}.
Variables (hash : string → Z) (W FI cap : Z) (sink : S) (threads : Z).
Hypothesis HW : W ≠ 0.

Notation s0 := (new_pipeline W FI cap sink threads).
Notation shards := (Z.to_nat (Z.max threads 1)).
Notation ok := (pipe_ok hash W shards (sink_text sink)).
Notation watermark now := (window_start_of W (to_u64 now)).
Notation next := (ghost_next W shards).

(** A trade is added in time when no timer flush has begun after the end of
    its window. *)
Definition on_time (acts : list action) (s : pipeline S) (a : action) : bool :=
  match a with
  | ActAgg i =>
      match pl_aggs s !! i with
      | Some (Some (AggAdd t)) =>
          forallb (λ a, match a with ActTimeout now ck => watermark now <=? start_of W t | _ => true end) acts
      | _ => true
      end
  | _ => true
  end.

(** Runs in which every trade is added in time. *)
Inductive punctual_run : list action → list string → pipeline S → Prop :=
  | punctual_refl : punctual_run [] [] s0
  | punctual_next acts msgs s a s' :
      punctual_run acts msgs s → on_time acts s a = true → pipe_step hash s a = Some (Ret s') →
      punctual_run (acts ++ [a]) (msgs ++ accepted_by s a) s'.

Lemma punctual_pipe_run acts msgs s : punctual_run acts msgs s → pipe_run hash s0 acts msgs s.
Proof. induction 1; econstructor; eauto. Qed.

Lemma on_time_add acts s i t now :
  on_time acts s (ActAgg i) = true → pl_aggs s !! i = Some (Some (AggAdd t)) → ticked acts now →
  watermark now ≤ start_of W t.
Proof.
  unfold on_time. intros Hon Ha Hnow. rewrite Ha, forallb_forall in Hon.
  destruct Hnow as [ck Hnow%list_elem_of_In]. specialize (Hon _ Hnow). cbn in Hon. lia.
Qed.

(** Trades can still be added to a shard. *)
Definition adding (s : pipeline S) : Prop :=
  pl_stop_requested s = false ∨ ∃ i p, pl_aggs s !! i = Some (Some p).

(** The watermark of a flush in progress came from the timer, and the shards
    that it has visited hold nothing before it. *)
Definition visited (acts : list action) (g : ghost) (w : option writer_pc) : Prop :=
  match w with
  | Some (WriterExtract cur i _) =>
      (∃ now, ticked acts now ∧ cur = watermark now) ∧
      ∀ j p t, (j < i)%nat → g_pending g !! j = Some p → t ∈ p → cur ≤ start_of W t
  | _ => True
  end.

Record punctual_ok (acts : list action) (g : ghost) (s : pipeline S) : Prop := {
  po_written t : adding s → t ∈ concat (g_batches g) →
    ∃ now, ticked acts now ∧ start_of W t < watermark now;
  po_before : trades_precede W (concat (g_batches g)) (g_open g ++ concat (g_pending g));
  po_sorted : StronglySorted (trades_precede W) (g_batches g);
  po_visited : visited acts g (pl_writer s)
}.

Lemma punctual_frame acts a g g' s s' :
  punctual_ok acts g s → g_batches g' = g_batches g → g_open g' = g_open g →
  g_pending g' = g_pending g → visited (acts ++ [a]) g (pl_writer s') → (adding s' → adding s) →
  punctual_ok (acts ++ [a]) g' s'.
Proof.
  intros [Hw Hb Hs Hv] Eb Eo Ep Hv' Ha. split; rewrite ?Eb, ?Eo, ?Ep; try done.
  - intros t Ht Hin. destruct (Hw t (Ha Ht) Hin) as (now & ? & ?). exists now. rewrite ticked_app. auto.
  - unfold visited in *. rewrite Ep. done.
Qed.

Lemma visited_mono acts a g w : visited acts g w → visited (acts ++ [a]) g w.
Proof.
  destruct w as [[]|]; cbn; try done. intros [(now & ? & ?) ?]. split; [|done].
  exists now. rewrite ticked_app. auto.
Qed.

Lemma trades_precede_snoc batches b rest :
  StronglySorted (trades_precede W) batches → trades_precede W (concat batches) (b ++ rest) →
  StronglySorted (trades_precede W) (batches ++ [b]).
Proof.
  intros Hs Hb. apply StronglySorted_app_2; [|done|repeat constructor].
  intros b1 b2 Hb1 ->%list_elem_of_singleton t1 t2 Ht1 Ht2. apply Hb; [|apply elem_of_app; by left].
  apply list_elem_of_lookup in Hb1 as [i Hi]. apply elem_of_concat. eauto.
Qed.
(** ** Every punctual step keeps the order *)

Lemma punctual_add acts g msgs s i t s' :
  punctual_ok acts g s → ok g msgs s → pl_aggs s !! i = Some (Some (AggAdd t)) →
  on_time acts s (ActAgg i) = true → pl_writer s' = pl_writer s →
  punctual_ok (acts ++ [ActAgg i]) (with_pending g i (pending_of g i ++ [t])) s'.
Proof.
  intros [Hw Hb Hs Hv] Hg Ha Hon Hwr.
  assert (adding s) as Hadd by (right; eauto).
  assert (is_Some (g_pending g !! i)) as [p Hp].
  { apply lookup_lt_is_Some. rewrite (ok_pending_length _ _ _ _ _ _ _ Hg),
      <- (ok_aggs_length _ _ _ _ _ _ _ Hg). by eapply lookup_lt_Some. }
  unfold pending_of. rewrite Hp. cbn [default from_option id]. split; cbn [with_pending g_batches g_open g_pending].
  - intros t' _ Hin. destruct (Hw t' Hadd Hin) as (now & ? & ?). exists now. rewrite ticked_app. auto.
  - intros t1 t2 H1 H2. rewrite elem_of_app in H2. destruct H2 as [H2|[H2|H2]%elem_of_concat_insert].
    + apply Hb; [done|]. apply elem_of_app. by left.
    + apply elem_of_app in H2 as [H2| ->%list_elem_of_singleton].
      * apply Hb; [done|]. apply elem_of_app. right. apply elem_of_concat. eauto.
      * destruct (Hw t1 Hadd H1) as (now & Hnow & ?). pose proof (on_time_add _ _ _ _ _ Hon Ha Hnow). lia.
    + apply Hb; [done|]. apply elem_of_app. by right.
  - done.
  - rewrite Hwr. apply visited_mono. unfold visited in *. destruct (pl_writer s) as [[|cur k ws|]|]; try done.
    destruct Hv as [(now & Hnow & ->) Hv]. split; [eauto|]. cbn [with_pending g_pending].
    intros j p' t' Hj Hp' Ht'. apply list_lookup_insert_Some in Hp' as [(<- & <- & _)|[_ Hp']]; [|eauto].
    apply elem_of_app in Ht' as [Ht'| ->%list_elem_of_singleton]; [eauto|].
    by apply (on_time_add _ _ _ _ _ Hon Ha).
Qed.

Lemma punctual_extract acts g s s' cur i ws ws' p :
  punctual_ok acts g s → pl_writer s = Some (WriterExtract cur i ws) → g_pending g !! i = Some p →
  pl_writer s' = Some (WriterExtract cur (Datatypes.S i) ws') → (adding s' → adding s) →
  punctual_ok (acts ++ [ActWriterFlush])
    {| g_consumed := g_consumed g; g_batches := g_batches g; g_open := g_open g ++ trades_before W cur p;
       g_pending := <[i := pending_after W cur p]> (g_pending g) |} s'.
Proof.
  intros [Hw Hb Hs Hv] Hwr Hp Hwr' Ha. split; cbn [g_batches g_open g_pending]; [|..|done|].
  - intros t Ht Hin. destruct (Hw t (Ha Ht) Hin) as (now & ? & ?). exists now. rewrite ticked_app. auto.
  - assert (∀ t, t ∈ p → t ∈ concat (g_pending g)) as Hin by (intros t ?; apply elem_of_concat; eauto).
    intros t1 t2 H1 H2. apply Hb; [done|]. rewrite !elem_of_app in *.
    destruct H2 as [[?|[_ ?]%list_elem_of_filter]|[[_ ?]%list_elem_of_filter|?]%elem_of_concat_insert]; auto.
  - rewrite Hwr'. apply visited_mono. rewrite Hwr in Hv. destruct Hv as [? Hv]. split; [done|].
    cbn [g_pending]. intros j p' t Hj Hp' Ht.
    apply list_lookup_insert_Some in Hp' as [(<- & <- & _)|[Hne Hp']].
    + by apply list_elem_of_filter in Ht as [? _].
    + apply (Hv j p' t); [lia|done..].
Qed.

Lemma punctual_write acts g msgs s s' cur i ws :
  punctual_ok acts g s → ok g msgs s → pl_writer s = Some (WriterExtract cur i ws) →
  pl_shards s !! i = None → pl_writer s' = Some WriterWait → (adding s' → adding s) →
  punctual_ok (acts ++ [ActWriterFlush])
    {| g_consumed := g_consumed g; g_batches := g_batches g ++ [g_open g]; g_open := [];
       g_pending := g_pending g |} s'.
Proof.
  intros [Hw Hb Hs Hv] Hg Hwr Hsh Hwr' Ha. rewrite Hwr in Hv. destruct Hv as [(now & Hnow & Hcur) Hv].
  pose proof (ok_writer _ _ _ _ _ _ _ Hg) as Hex. rewrite Hwr in Hex. destruct Hex as [_ _ _ Hlt].
  split; cbn [g_batches g_open g_pending]; rewrite ?concat_app; cbn [concat]; rewrite ?app_nil_r.
  - intros t Ht [Hin|Hin]%elem_of_app.
    + destruct (Hw t (Ha Ht) Hin) as (now' & ? & ?). exists now'. rewrite ticked_app. auto.
    + exists now. rewrite <- Hcur, ticked_app. auto.
  - intros t1 t2 [H1|H1]%elem_of_app H2; [apply Hb; [done|]; apply elem_of_app; by right|].
    apply Z.lt_le_trans with cur; [auto|]. apply elem_of_concat in H2 as (j & p & Hj & H2).
    apply (Hv j p t2); [|done..]. apply lookup_lt_Some in Hj. apply lookup_ge_None in Hsh.
    rewrite (ok_pending_length _ _ _ _ _ _ _ Hg) in Hj. rewrite (ok_shards_length _ _ _ _ _ _ _ Hg) in Hsh. lia.
  - by eapply trades_precede_snoc.
  - by rewrite Hwr'.
Qed.

Lemma punctual_final acts g msgs s s' :
  punctual_ok acts g s → ok g msgs s → pl_writer s = None → pl_writer s' = None → ¬ adding s' →
  punctual_ok (acts ++ [ActStop])
    {| g_consumed := g_consumed g; g_batches := g_batches g ++ [concat (g_pending g)];
       g_open := g_open g; g_pending := replicate shards [] |} s'.
Proof.
  intros [Hw Hb Hs Hv] Hg Hwr Hwr' Ha. pose proof (ok_writer _ _ _ _ _ _ _ Hg) as Ho. rewrite Hwr in Ho.
  rewrite Ho in *. split; cbn [g_batches g_open g_pending].
  - done.
  - intros t1 t2 _ H2. cbn in H2. apply elem_of_concat in H2 as (j & p & [-> _]%lookup_replicate & H2).
    by apply not_elem_of_nil in H2.
  - eapply trades_precede_snoc; [done|]. rewrite app_nil_r. apply Hb.
  - by rewrite Hwr'.
Qed.


Lemma adding_frame (s s' : pipeline S) :
  pl_stop_requested s' = pl_stop_requested s →
  (∀ i p, pl_aggs s' !! i = Some (Some p) → pl_aggs s !! i = Some (Some p)) → adding s' → adding s.
Proof. intros Hr Ha [?|(i & p & ?)]; [left; congruence|right; eauto]. Qed.

Lemma punctual_step acts g msgs st s a s' :
  punctual_ok acts g s → ok g msgs s → phase_ok st s → on_time acts s a = true →
  pipe_step hash s a = Some (Ret s') → punctual_ok (acts ++ [a]) (next s a g) s'.
Proof.
  intros Hpo Hg Hph Hon Hs. pose proof (po_visited _ _ _ Hpo) as Hv. pose proof (visited_mono _ a _ _ Hv) as Hv'.
  destruct a as [m| |now ck| | |i|ck| | |]; cbn [pipe_step ghost_next] in *.
  - destruct (submit_raw_message s m) as [[b s1]|] eqn:Hm; cbn in Hs; [|done]. simplify_eq.
    unfold submit_raw_message in Hm. destruct (push _ _) as [[]|]; cbn in Hm; simplify_eq.
    by eapply punctual_frame.
  - unfold start in Hs. destruct (pl_parser s), (pl_stop_requested s) eqn:Hr, (pl_stop s); simplify_eq.
    eapply punctual_frame; try done. by left.
  - apply writer_timeout_Ret in Hs as (_ & Hr & _ & _ & ->).
    eapply punctual_frame; try done. cbn. rewrite (ok_window _ _ _ _ _ _ _ Hg). split; [|lia].
    exists now. split; [|done]. exists ck. apply elem_of_app. right. left.
  - unfold stop_request in Hs. destruct (pl_stop s); simplify_eq. eapply punctual_frame; try done.
    intros [?|?]; [done|by right].
  - destruct (parser_frame _ _ _ Hs) as [Hw _]. destruct (parser_frame_threads _ _ _ Hs) as [Ha Hr].
    eapply punctual_frame; try done; [by repeat case_match..|by rewrite Hw|].
    apply adding_frame; [done|]. by rewrite Ha.
  - destruct (agg_frame _ _ _ Hs) as [Hw _]. unfold run_aggregation_stage in Hs.
    destruct (pl_shards s !! i) as [sh|]; cbn in Hs; [|done].
    destruct (pl_aggs s !! i) as [[[|t|]|]|] eqn:Ha; try done.
    + eapply punctual_frame; try done; [by rewrite Hw|]. intros _. right. eauto.
    + by eapply punctual_add.
  - apply writer_wait_Ret in Hs as (_ & Hr & _ & ->). by eapply punctual_frame.
  - unfold flush_completed_windows in Hs. destruct (pl_writer s) as [[|cur i ws|]|] eqn:Hwr; try done.
    destruct (pl_shards s !! i) as [sh|] eqn:Hsh.
    + destruct (pending_at _ _ _ _ _ _ _ _ _ Hg Hsh) as (p & Hp & _).
      destruct (extract_completed_windows (sh_aggregator sh) cur). simplify_eq.
      unfold pending_of. rewrite Hp. by eapply punctual_extract.
    + injection Hs as Hs. apply bind_Ret in Hs as (sk & _ & ?). inv_ret. by eapply punctual_write.
  - destruct (stop_frame _ _ Hs) as (Hw & Hr & Ha). destruct (pl_stop s) eqn:Hst;
      try (eapply punctual_frame; try done; [destruct Hw as [->| ->]; done|by apply adding_frame]).
    pose proof (ph_stop _ _ Hph) as Hphase. unfold stop_phase in Hphase. rewrite Hst in Hphase.
    destruct Hphase as (Hraw & _ & _ & Hnone). destruct (ph_raw _ _ Hph Hraw) as [Hwn Hrt].
    rewrite Hwn in Hw. eapply punctual_final; [done..|by destruct Hw|].
    intros [?|(i & p & Hi%Ha)]; [congruence|]. by specialize (Hnone _ _ Hi).
  - by apply start_refused_Ret in Hs.
Qed.

Lemma punctual_run_ok acts msgs s :
  punctual_run acts msgs s →
  ∃ g, ok g msgs s ∧ phase_ok (existsb is_start acts) s ∧ punctual_ok acts g s.
Proof.
  induction 1 as [|acts msgs s a s' Hrun (g & Hg & Hph & Hpo) Hon Hs].
  - eexists. split_and!; [by apply new_pipeline_ok|apply phase_new|]. split; cbn; try done.
    + by intros t _ ?%not_elem_of_nil.
    + by intros t1 t2 ?%not_elem_of_nil.
    + constructor.
  - exists (next s a g). split_and!.
    + by eapply pipe_step_ok; [|eapply phase_shards_open|eapply phase_threads_fresh|].
    + rewrite existsb_app. cbn. rewrite orb_false_r. by eapply phase_step.
    + by eapply punctual_step.
Qed.


(** The text that a punctual pipeline leaves behind. *)
Lemma punctual_text acts msgs s :
  punctual_run acts msgs s → existsb is_start acts = true → stopped s →
  ∃ text, batch_text W (trades_of msgs) = Ret text ∧
    sink_text (pl_sink s) = sink_text sink +:+ text.
Proof.
  intros Hrun Hst Hs. destruct (punctual_run_ok _ _ _ Hrun) as (g & Hg & Hph & Hpo).
  rewrite Hst in Hph. pose proof (final_flow _ _ _ _ _ _ _ Hg Hph Hs) as [_ Hperm].
  destruct (ok_text _ _ _ _ _ _ _ Hg) as (texts & Ht & ->). exists (string_concat texts). split; [|done].
  rewrite <- (batch_text_perm W _ _ Hperm). by apply batch_text_concat; [apply (po_sorted _ _ _ Hpo)|].
Qed.

(** ** Properties *)

(** C9: timer flushes are invisible.  When a started pipeline has been stopped
    and no trade was added after a timer flush had passed the end of its
    window, the sink has received exactly the report of all trades of the
    accepted messages as one batch: each window is written once, complete, and
    the blocks appear in increasing order of window start, whatever the number
    of timer flushes, their clock readings and the schedule. *)
Theorem punctual_output acts msgs s :
  punctual_run acts msgs s → existsb is_start acts = true → stopped s →
  ∃ text, batch_text W (trades_of msgs) = Ret text ∧
    sink_text (pl_sink s) = sink_text sink +:+ text.
Proof. apply punctual_text. Qed.

End punctual.

(** C10: sharding and scheduling are invisible.  Two pipelines without late
    trades that accept the same messages in any order write the same text,
    whatever their numbers of shards, hash functions, flush intervals, queue
    capacities, schedules and timer flushes. *)
Theorem output_deterministic {S1 S2} `{OutputSink S1} `{OutputSink S2} `{J : JsonLib} `{!JsonLaws J}
    hash1 hash2 W FI1 FI2 cap1 cap2 (sink1 : S1) (sink2 : S2) threads1 threads2 acts1 acts2 msgs1 msgs2 s1 s2 :
  W ≠ 0 →
  punctual_run hash1 W FI1 cap1 sink1 threads1 acts1 msgs1 s1 →
  punctual_run hash2 W FI2 cap2 sink2 threads2 acts2 msgs2 s2 →
  existsb is_start acts1 = true → existsb is_start acts2 = true →
  stopped s1 → stopped s2 → msgs1 ≡ₚ msgs2 →
  ∃ text, sink_text (pl_sink s1) = sink_text sink1 +:+ text ∧
          sink_text (pl_sink s2) = sink_text sink2 +:+ text.
Proof.
  intros HW Hr1 Hr2 Hst1 Hst2 Hs1 Hs2 Hp.
  destruct (punctual_text hash1 W FI1 cap1 sink1 threads1 HW _ _ _ Hr1 Hst1 Hs1) as (text1 & Ht1 & H1).
  destruct (punctual_text hash2 W FI2 cap2 sink2 threads2 HW _ _ _ Hr2 Hst2 Hs2) as (text2 & Ht2 & H2).
  assert (trades_of msgs1 ≡ₚ trades_of msgs2) as Ht by (unfold trades_of; by rewrite Hp).
  rewrite (batch_text_perm W _ _ Ht), Ht2 in Ht1. apply Ret_inj in Ht1 as ->. eauto.
Qed.


(** ** Evaluated schedules *)

Section exec.
Context {S : Type} `{OutputSink S} `{J : JsonLib}.
Variables (hash : string → Z) (W FI cap : Z) (sink : S) (threads : Z).

Fixpoint punctual_exec (past : list action) (s : pipeline S) (acts : list action) :
    option (list string * pipeline S) :=
  match acts with
  | [] => Some ([], s)
  | a :: acts =>
      if on_time W past s a then
        match pipe_step hash s a with
        | Some (Ret s') =>
            '(msgs, s'') ← punctual_exec (past ++ [a]) s' acts; Some (accepted_by s a ++ msgs, s'')
        | _ => None
        end
      else None
  end.

Lemma punctual_exec_sound past msgs0 s acts msgs s' :
  punctual_run hash W FI cap sink threads past msgs0 s → punctual_exec past s acts = Some (msgs, s') →
  punctual_run hash W FI cap sink threads (past ++ acts) (msgs0 ++ msgs) s'.
Proof.
  revert past msgs0 s msgs. induction acts as [|a acts IH]; intros past msgs0 s msgs Hrun Hex; cbn in Hex.
  { simplify_eq. by rewrite !app_nil_r. }
  destruct (on_time W past s a) eqn:Hon; [|done].
  destruct (pipe_step hash s a) as [[s1| |]|] eqn:Hs; try done.
  destruct (punctual_exec (past ++ [a]) s1 acts) as [[msgs1 s2]|] eqn:Hex1; cbn in Hex; [|done]. simplify_eq.
  change (a :: acts) with ([a] ++ acts). rewrite !app_assoc. eapply IH; [|done]. by econstructor.
Qed.

Definition punctual_result (acts : list action) : list string * pipeline S :=
  default ([], new_pipeline W FI cap sink threads)
    (punctual_exec [] (new_pipeline W FI cap sink threads) acts).

Lemma punctual_result_ok acts :
  (if punctual_exec [] (new_pipeline W FI cap sink threads) acts then true else false) = true →
  punctual_run hash W FI cap sink threads acts (punctual_result acts).1 (punctual_result acts).2.
Proof.
  unfold punctual_result. destruct (punctual_exec [] _ acts) as [[msgs s']|] eqn:Hex; [|done]. intros _.
  apply (punctual_exec_sound [] [] (new_pipeline W FI cap sink threads) acts msgs s'); [constructor|done].
Qed.
End exec.

Definition next_message : string :=
  jtext "{'e':'trade','s':'ETHUSDT','t':3,'p':'11','q':'1','T':2600,'m':true}".
Definition late_message : string :=
  jtext "{'e':'trade','s':'ETHUSDT','t':3,'p':'11','q':'1','T':1700,'m':true}".

(** A trade, a timer flush that writes its window, another trade, [stop]. *)
Definition flush_between (message : string) : list action :=
  [ActStart; ActSubmit bare_message; ActParser; ActParser; ActAgg 0; ActAgg 0;
   ActTimeout 2500 0; ActWriterFlush; ActWriterFlush;
   ActSubmit message; ActParser; ActParser; ActAgg 0; ActAgg 0; ActStopRequest; ActWriterWait 0;
   ActStop; ActParser; ActStop; ActStop; ActStop; ActAgg 0; ActStop; ActStop; ActStop].

Abbreviation punctual1 acts := (punctual_result example_hash 1000 500 4 empty_file 1 acts).

Lemma punctual_output_witness :
  (punctual1 (flush_between next_message)).1 = [bare_message; next_message] ∧
  ∃ text, batch_text 1000 (trades_of (punctual1 (flush_between next_message)).1) = Ret text ∧
    sink_text (pl_sink (punctual1 (flush_between next_message)).2) = sink_text empty_file +:+ text.
Proof.
  split; [vm_compute; reflexivity|].
  apply (punctual_output example_hash 1000 500 4 empty_file 1 ltac:(lia) (flush_between next_message)).
  - apply punctual_result_ok. vm_compute. reflexivity.
  - reflexivity.
  - split; vm_compute; reflexivity.
Defined.

(** Two shards and one shard, with the messages in different orders. *)
Abbreviation punctual2 acts := (punctual_result example_hash 1000 500 4 empty_file 2 acts).

Lemma output_deterministic_witness :
  ∃ text, sink_text (pl_sink (punctual2 two_shards_stop).2) = sink_text empty_file +:+ text ∧
          sink_text (pl_sink (punctual1 one_shard_stop).2) = sink_text empty_file +:+ text.
Proof.
  apply (output_deterministic example_hash example_hash 1000 500 500 4 4 empty_file empty_file 2 1
    two_shards_stop one_shard_stop (punctual2 two_shards_stop).1 (punctual1 one_shard_stop).1
    (punctual2 two_shards_stop).2 (punctual1 one_shard_stop).2).
  - lia.
  - apply punctual_result_ok. vm_compute. reflexivity.
  - apply punctual_result_ok. vm_compute. reflexivity.
  - reflexivity.
  - reflexivity.
  - split; vm_compute; reflexivity.
  - split; vm_compute; reflexivity.
  - assert ((punctual2 two_shards_stop).1 = example_messages) as -> by (vm_compute; reflexivity).
    assert ((punctual1 one_shard_stop).1 = [btc_message; bare_message]) as -> by (vm_compute; reflexivity).
    apply Permutation_swap.
Defined.

(** Without the hypothesis the window of a late trade is written twice. *)
Example late_trade_splits_window :
  let result := run_result example_hash (example_start 1) (flush_between late_message) in
  result.1 = [bare_message; late_message] ∧
  batch_text 1000 (trades_of result.1) ≠ Ret (sink_text (pl_sink result.2)).
Proof. split; [vm_compute; reflexivity|]. vm_compute. discriminate. Qed.
