(* ===== verification/PipelineTyped.v ===== *)
(** * Machine ranges

    Every integer that the pipeline stores stays within its C++ type, and
    every queue within its capacity, in all reachable states. *)

From S2P Require Import Prelude CString DecimalFp StdMap Aggregator AggregatorSpec AggregatorProps.
From S2P Require Import Output Json JsonRef TradeParser Totals BoundedQueue QueueProps.
From S2P Require Import Snapshots Pipeline PipelineInv PipelineLive PipelineProps.

(** ** Trades and windows *)

Definition decimal_typed (d : Decimal) : Prop := in_i64 (raw d).

Definition trade_typed (t : TradeEvent) : Prop :=
  in_u64 (te_trade_id t) ∧ in_u64 (te_trade_time_ms t) ∧
  decimal_typed (te_price t) ∧ decimal_typed (te_quantity t).

Definition stats_typed (st : WindowStats) : Prop :=
  in_u64 (ws_window_start_ms st) ∧ in_u64 (ws_trade_count st) ∧ decimal_typed (ws_total_volume st) ∧
  decimal_typed (ws_min_price st) ∧ decimal_typed (ws_max_price st) ∧
  in_u64 (ws_buyer_initiated_count st) ∧ in_u64 (ws_seller_initiated_count st).

Definition agg_typed (a : MarketDataAggregator) : Prop :=
  in_u64 (agg_window_ms a) ∧ ∀ s k st, window_stats a s k = Some st → stats_typed st.

Lemma window_start_typed W t : W ≠ 0 → in_u64 W → in_u64 t → in_u64 (window_start_of W t).
Proof.
  unfold in_u64, window_start_of. intros HW ? ?. pose proof (Z.mod_pos_bound t W ltac:(lia)).
  pose proof (Z.mod_le t W ltac:(lia) ltac:(lia)). lia.
Qed.

Lemma init_bucket_typed t k : trade_typed t → in_u64 k → stats_typed (init_bucket t k).
Proof. intros (_ & _ & Hp & _) Hk. split_and!; try done; unfold decimal_typed, in_i64; cbn; lia. Qed.

Lemma update_extrema_typed t st : trade_typed t → stats_typed st → stats_typed (update_extrema t st).
Proof.
  intros (_ & _ & Hp & _) (? & ? & ? & ? & ? & ? & ?). split_and!; try done; cbn; by case_match.
Qed.

Lemma accumulate_typed t st st' : stats_typed st → accumulate t st = Ret st' → stats_typed st'.
Proof.
  intros (? & ? & ? & ? & ? & ? & ?). unfold accumulate, Decimal_add.
  intros (v & (r & [Hr ->]%i64_checked_Ret & ?)%bind_Ret & ?)%bind_Ret. inv_ret.
  split_and!; try done; cbn; try case_match; auto using to_u64_range.
Qed.

Lemma add_trade_typed a ts t a' :
  agg_models a ts → agg_typed a → trade_typed t → add_trade a t = Ret a' → agg_typed a'.
Proof.
  intros (HW & Hok & _) [Hw Hst] Ht. unfold add_trade. rewrite (proj2 (Z.eqb_neq _ 0)) by done.
  intros (st & Hacc & ?)%bind_Ret. inv_ret. split; [done|]. intros s k st'.
  rewrite window_stats_insert; [|apply Hok|by apply windows_ok_default|done].
  case_decide as Hk; [|apply Hst]. intros [= <-]. eapply accumulate_typed; [|done].
  set (k0 := window_start_of (agg_window_ms a) (te_trade_time_ms t)).
  assert (in_u64 k0) as Hk0 by (apply window_start_typed; [done..|apply Ht]).
  destruct (map_find (agg_windows a) (te_symbol t)) as [sw|] eqn:Hsw; [|by apply init_bucket_typed].
  cbn. destruct (map_find sw k0) as [st0|] eqn:Hst0; [|by apply init_bucket_typed].
  apply update_extrema_typed; [done|]. apply (Hst (te_symbol t) k0). unfold window_stats. by rewrite Hsw.
Qed.

Lemma agg_typed_ref a ts s k st :
  agg_models a ts → agg_typed a → ref_window (agg_window_ms a) s k ts = Some st → stats_typed st.
Proof. intros (_ & _ & Hm) [_ Hst] Href. rewrite <- Hm in Href. eauto. Qed.

Lemma extract_completed_typed a ts w :
  agg_models a ts → agg_typed a →
  Forall stats_typed (extract_completed_windows a w).1 ∧ agg_typed (extract_completed_windows a w).2.
Proof.
  intros Hm Ht. split.
  - apply Forall_forall. intros st (s & k & _ & Href)%(extract_completed_result _ _ w Hm).
    by eapply agg_typed_ref.
  - destruct (extract_completed_windows a w) as [ws a'] eqn:He.
    destruct (extract_completed_models _ _ _ _ _ Hm He) as [(_ & _ & Hst') Hw]. cbn [snd].
    split; [rewrite Hw; apply Ht|]. intros s k st Hst. rewrite Hst', Hw in Hst.
    apply (agg_typed_ref a ts s k st Hm Ht). unfold ref_window in Hst |- *. rewrite bucket_pending_after in Hst.
    by case_decide.
Qed.

(** ** The pipeline *)

Section typed.
Context {S : Type} `{OutputSink S} `{J : JsonLib} `{!JsonLaws J}.
Variables (hash : string → Z) (W FI cap : Z) (sink : S) (threads : Z).
Hypothesis HW : W ≠ 0.
Hypothesis HWt : in_u64 W.
Hypothesis HFI : in_u64 FI.
Hypothesis Hcap : in_u64 cap.

Notation s0 := (new_pipeline W FI cap sink threads).
Notation shards := (Z.to_nat (Z.max threads 1)).
Notation ok := (pipe_ok hash W shards (sink_text sink)).

Record shard_typed (sh : Shard) : Prop := {
  st_queue : queue_ok (sh_queue sh);
  st_capacity : in_u64 (bq_capacity (sh_queue sh));
  st_queued : Forall trade_typed (queued sh);
  st_aggregator : agg_typed (sh_aggregator sh)
}.

Definition writer_typed (w : option writer_pc) : Prop :=
  match w with
  | Some (WriterExtract cur _ windows) => in_u64 cur ∧ Forall stats_typed windows
  | _ => True
  end.

Record pipe_typed (s : pipeline S) : Prop := {
  pt_window : in_u64 (pl_window_ms s);
  pt_flush : in_u64 (pl_flush_interval_ms s);
  pt_raw : queue_ok (pl_raw_queue s);
  pt_shards i sh : pl_shards s !! i = Some sh → shard_typed sh;
  pt_parser : Forall trade_typed (parser_hold (pl_parser s));
  pt_aggs i p : pl_aggs s !! i = Some p → Forall trade_typed (agg_hold p);
  pt_writer : writer_typed (pl_writer s)
}.

Lemma new_pipeline_typed : pipe_typed s0.
Proof.
  split; cbn; try done.
  - unfold queue_ok, size. cbn. unfold in_u64 in Hcap. lia.
  - intros i sh [-> _]%lookup_replicate. split; cbn; try done.
    + unfold queue_ok, size. cbn. unfold per_shard_capacity. lia.
    + unfold per_shard_capacity. unfold in_u64 in *.
      assert (cap / Z.max threads 1 ≤ cap) by (apply Z.div_le_upper_bound; nia). lia.
  - by intros i p [-> _]%lookup_replicate.
Qed.

(** ** Every step stays in range *)

Lemma shards_typed_insert (l : list Shard) i sh :
  (∀ j sh, l !! j = Some sh → shard_typed sh) → shard_typed sh →
  ∀ j sh', <[i := sh]> l !! j = Some sh' → shard_typed sh'.
Proof. intros Hl Hsh j sh' [(_ & <- & _)|[_ Hj]]%list_lookup_insert_Some; eauto. Qed.

Lemma aggs_typed_insert (l : list (option agg_pc)) i p :
  (∀ j p, l !! j = Some p → Forall trade_typed (agg_hold p)) → Forall trade_typed (agg_hold p) →
  ∀ j p', <[i := p]> l !! j = Some p' → Forall trade_typed (agg_hold p').
Proof. intros Hl Hp j p' [(_ & <- & _)|[_ Hj]]%list_lookup_insert_Some; eauto. Qed.

Lemma set_queue_typed sh q :
  shard_typed sh → queue_ok q → bq_capacity q = bq_capacity (sh_queue sh) →
  Forall trade_typed (bq_items q) → shard_typed (set_queue sh q).
Proof. intros [] Hq Hc Hi. split; try done. cbn. by rewrite Hc. Qed.

Lemma parser_typed s s' :
  pipe_typed s → run_parser_stage hash s = Some (Ret s') → pipe_typed s'.
Proof.
  intros [] Hs. unfold run_parser_stage in Hs. destruct (pl_parser s) as [[|t|]|] eqn:Hp; try done.
  - destruct (pop (pl_raw_queue s)) as [[r q]|] eqn:Hq; cbn in Hs; [|done]. injection Hs as Hs.
    pose proof (pop_ok _ _ _ pt_raw0 Hq). destruct r as [raw|].
    + apply bind_Ret in Hs as (e & He & ?). inv_ret. split; try done. cbn.
      destruct e as [t|]; constructor; [|done]. by apply (parse_trade_ranges raw).
    + inv_ret. by split.
  - set (i := shard_index_for_symbol hash s (te_symbol t)) in *. clearbody i.
    destruct (pl_shards s !! i) as [sh|] eqn:Hsh; cbn in Hs; [|done].
    destruct (push (sh_queue sh) t) as [[b q]|] eqn:Hq; cbn in Hs; [|done]. simplify_eq.
    pose proof (pt_shards0 _ _ Hsh) as Hst. pose proof (push_ok _ _ _ _ (st_queue _ Hst) Hq).
    pose proof (push_static _ _ _ _ Hq) as [_ Hc]. apply push_items in Hq. cbn in pt_parser0.
    split; try done. cbn. apply shards_typed_insert; [done|]. apply set_queue_typed; [done..|].
    rewrite Hq. apply Forall_app_2; [apply Hst|]. by destruct b.
Qed.

Lemma agg_stage_typed g msgs s i s' :
  ok g msgs s → pipe_typed s → run_aggregation_stage s i = Some (Ret s') → pipe_typed s'.
Proof.
  intros Hg [] Hs. unfold run_aggregation_stage in Hs.
  destruct (pl_shards s !! i) as [sh|] eqn:Hsh; cbn in Hs; [|done]. pose proof (pt_shards0 _ _ Hsh) as Hst.
  destruct (pl_aggs s !! i) as [[[|t|]|]|] eqn:Ha; try done.
  - destruct (pop (sh_queue sh)) as [[r q]|] eqn:Hq; cbn in Hs; [|done]. simplify_eq.
    pose proof (pop_ok _ _ _ (st_queue _ Hst) Hq). pose proof (pop_static _ _ _ Hq) as [_ Hc].
    pose proof (st_queued _ Hst) as Hqd. apply pop_items in Hq. unfold queued in Hqd. rewrite Hq in Hqd.
    apply Forall_app in Hqd as [Hr Hqd].
    split; try done; cbn.
    + apply shards_typed_insert; [done|]. by apply set_queue_typed.
    + apply aggs_typed_insert; [done|]. by destruct r.
  - injection Hs as Hs. apply bind_Ret in Hs as (a & Hadd & ?). inv_ret.
    destruct (pending_at _ _ _ _ _ _ _ _ _ Hg Hsh) as (p & _ & [Hm _ _ _]).
    pose proof (pt_aggs0 _ _ Ha) as Ht. cbn in Ht. apply Forall_cons in Ht as [Ht _]. destruct Hst.
    split; try done; cbn; [|by apply aggs_typed_insert].
    apply shards_typed_insert; [done|]. split; try done. by eapply add_trade_typed.
Qed.

Lemma writer_typed_step g msgs s s' :
  ok g msgs s → pipe_typed s → flush_completed_windows s = Some (Ret s') → pipe_typed s'.
Proof.
  intros Hg [] Hs. unfold flush_completed_windows in Hs.
  destruct (pl_writer s) as [[|cur i ws|]|] eqn:Hw; try done. destruct pt_writer0 as [Hcur Hws].
  destruct (pl_shards s !! i) as [sh|] eqn:Hsh; [|injection Hs as Hs; by inv_ret].
  destruct (pending_at _ _ _ _ _ _ _ _ _ Hg Hsh) as (p & _ & [Hm _ _ _]).
  destruct (pt_shards0 _ _ Hsh). destruct (extract_completed_typed _ _ cur Hm) as [Hws' Ha]; [done|].
  destruct (extract_completed_windows (sh_aggregator sh) cur) as [ws' a]. simplify_eq.
  split; try done; cbn.
  - apply shards_typed_insert; [done|]. by split.
  - split; [done|]. by apply Forall_app_2.
Qed.

Lemma stop_typed s s' : pipe_typed s → stop s = Some (Ret s') → pipe_typed s'.
Proof.
  intros [] Hs. unfold stop in Hs. destruct (pl_stop s) as [| | |i|i|]; [done|..].
  - destruct (can_join_writer s); simplify_eq. by split.
  - destruct (can_join_parser s); simplify_eq. by split.
  - destruct (pl_shards s !! i) as [sh|] eqn:Hi; simplify_eq; [|by split]. split; try done. cbn.
    apply shards_typed_insert; [done|]. destruct (pt_shards0 _ _ Hi). by split.
  - destruct (pl_aggs s !! i) as [[[]|]|] eqn:Hi; simplify_eq; split; try done; cbn; by apply aggs_typed_insert.
  - injection Hs as Hs. apply bind_Ret in Hs as (s1 & Hf & ?). inv_ret. unfold flush_remaining_windows in Hf.
    pose proof (take_remaining_shards (pl_shards s)) as Hsh.
    destruct (take_remaining (pl_shards s)) as [ws l]. cbn in Hsh. inv_ret. split; try done. cbn.
    intros i sh (sh0 & -> & Hi)%list_lookup_fmap_Some. destruct (pt_shards0 _ _ Hi) as [? ? ? [? _]].
    by split.
Qed.

Lemma pipe_step_typed g msgs s a s' :
  ok g msgs s → pipe_typed s → pipe_step hash s a = Some (Ret s') → pipe_typed s'.
Proof.
  intros Hg Ht Hs. destruct a as [m| |now ck| | |i|ck| | |]; cbn [pipe_step] in Hs;
    eauto using parser_typed, agg_stage_typed, writer_typed_step, stop_typed; destruct Ht.
  - unfold submit_raw_message in Hs. destruct (push (pl_raw_queue s) m) as [[b q]|] eqn:Hp; cbn in Hs; [|done].
    simplify_eq. split; try done. by apply (push_ok _ _ _ _ pt_raw0 Hp).
  - unfold start in Hs. destruct (pl_parser s), (pl_stop_requested s), (pl_stop s); simplify_eq.
    split; try done; cbn. by intros i p [-> _]%lookup_replicate.
  - apply writer_timeout_Ret in Hs as (_ & _ & _ & H0 & ->).
    split; try done. cbn. split; [|constructor]. apply window_start_typed; [done|done|apply to_u64_range].
  - unfold stop_request in Hs. destruct (pl_stop s); simplify_eq. by split.
  - apply writer_wait_Ret in Hs as (_ & _ & _ & ->). by split.
  - by apply start_refused_Ret in Hs.
Qed.

(** ** Properties *)

(** C19: type safety of the pipeline: in every reachable state each stored
    integer is in the range of its C++ type (identifiers, times, window
    starts, intervals and counts in 64 unsigned bits; prices, quantities and volumes in
    64 signed bits), in the queues, in the threads' local variables, in the
    aggregators and in the windows on their way to the sink, and no queue
    holds more than its capacity. *)
Theorem pipeline_well_typed acts msgs s : pipe_run hash s0 acts msgs s → pipe_typed s.
Proof.
  intros Hrun. induction Hrun as [|acts msgs s a s' Hrun IH Hs]; [apply new_pipeline_typed|].
  apply (run_ok hash W FI cap sink threads HW) in Hrun as (g & Hg & _). by eapply pipe_step_typed.
Qed.


End typed.


Lemma pipeline_well_typed_witness :
  pipe_typed (run_result example_hash (example_start 2) two_shards_flush).2.
Proof.
  apply (pipeline_well_typed example_hash 1000 500 4 empty_file 2) with
    two_shards_flush (run_result example_hash (example_start 2) two_shards_flush).1.
  - lia.
  - unfold in_u64. lia.
  - unfold in_u64. lia.
  - unfold in_u64. lia.
  - apply run_result_ok. vm_compute. reflexivity.
Defined.
