(* ===== verification/Defined.v ===== *)
(** * Runs without undefined behaviour

    The code adds prices and volumes in signed 64-bit arithmetic without
    checks, so that overflow is possible in principle.  This file gives
    conditions on the messages under which it cannot happen, in any schedule:
    each number fits on its own, and so do the volumes of the trades of one
    symbol and one window together.  With a sink that does not fail, deadlines
    that fit and threads that the system does not refuse, every step of the
    pipeline then returns. *)

From S2P Require Import Prelude CString DecimalFp StdMap Aggregator AggregatorSpec AggregatorProps.
From S2P Require Import Output Json JsonRef TradeParser Totals BoundedQueue QueueProps.
From S2P Require Import Snapshots Pipeline PipelineInv PipelineLive PipelineProps PipelineTyped.

(** ** Sub-multisets *)

Lemma cnt_submseteq l1 l2 : (∀ t, cnt t l1 ≤ cnt t l2) → ∃ l, l1 ++ l ≡ₚ l2.
Proof.
  revert l2. induction l1 as [|x l1 IH]; intros l2 Hc; [by exists l2|].
  assert (x ∈ l2) as Hx.
  { destruct (decide (x ∈ l2)) as [|Hno]; [done|]. specialize (Hc x). rewrite cnt_cons in Hc.
    pose proof (cnt_nonneg x l1). unfold cnt at 3 in Hc. rewrite (total_zero _ l2) in Hc.
    - unfold cnt at 1, total in Hc. cbn in Hc. rewrite bool_decide_true in Hc by done. cbn in Hc. lia.
    - intros y Hy. rewrite bool_decide_false; [done|]. by intros ->. }
  apply list_elem_of_split in Hx as (la & lb & ->).
  destruct (IH (la ++ lb)) as [l Hl].
  { intros t. specialize (Hc t). rewrite cnt_app, (cnt_cons t x l1), (cnt_cons t x lb) in Hc.
    rewrite cnt_app. lia. }
  exists l. cbn. rewrite Hl. apply Permutation_middle.
Qed.

Lemma total_perm {A} (f : A → Z) l1 l2 : l1 ≡ₚ l2 → total f l1 = total f l2.
Proof. unfold total. induction 1; cbn; lia. Qed.

Lemma total_filter {A} (f : A → Z) (P : A → Prop) `{∀ x, Decision (P x)} l :
  (∀ x, 0 ≤ f x) → total f (filter P l) ≤ total f l.
Proof.
  intros Hf. induction l as [|x l IH]; [done|]. rewrite filter_cons, (total_cons f x l). specialize (Hf x).
  case_decide; rewrite ?total_cons; lia.
Qed.

(** ** Trades within bounds *)

(** The volumes of the trades of each symbol and window, without their signs,
    fit together. *)
Definition volumes_fit (W : Z) (ts : list TradeEvent) : Prop :=
  ∀ s k, total (λ t, Z.abs (volume t)) (bucket W s k ts) < two63.

Definition prices_printable (ts : list TradeEvent) : Prop := ∀ t, t ∈ ts → printable (te_price t).

Lemma sum_volume_fits W s k ts : volumes_fit W ts → - two63 < sum_volume (bucket W s k ts) < two63.
Proof.
  intros Hv. specialize (Hv s k). revert Hv. generalize (bucket W s k ts). intros b Hv.
  enough (Z.abs (sum_volume b) ≤ total (λ t, Z.abs (volume t)) b) by lia.
  clear Hv. induction b as [|t b IH]; [done|]. rewrite total_cons. cbn. fold (sum_volume b). lia.
Qed.

Lemma volumes_fit_sub W ts ts' : (∀ t, cnt t ts ≤ cnt t ts') → volumes_fit W ts' → volumes_fit W ts.
Proof.
  intros [l Hl]%cnt_submseteq Hv s k. specialize (Hv s k).
  rewrite <- (total_perm _ _ _ (bucket_perm W s k _ _ Hl)), bucket_app, total_app in Hv.
  pose proof (total_nonneg (λ t, Z.abs (volume t)) (bucket W s k l) (λ t, Z.abs_nonneg _)). lia.
Qed.

(** It is enough that the volumes of all trades fit together. *)
Lemma volumes_fit_total W ts : total (λ t, Z.abs (volume t)) ts < two63 → volumes_fit W ts.
Proof.
  intros Hv s k. pose proof (total_filter (λ t, Z.abs (volume t)) (in_bucket W s k) ts (λ t, Z.abs_nonneg _)).
  unfold bucket. lia.
Qed.

Lemma prices_printable_sub ts ts' :
  (∀ t, cnt t ts ≤ cnt t ts') → prices_printable ts' → prices_printable ts.
Proof.
  intros [l Hl]%cnt_submseteq Hp t Ht. apply Hp. rewrite <- Hl. by apply elem_of_app; left.
Qed.

Lemma parse_printable text d : parse text = Ret d → printable d.
Proof.
  intros Hp. split; [by eapply parse_in_i64|]. destruct (parse_Ret_lit _ _ Hp) as (l & Hwf & ->).
  rewrite parse_lit in Hp by done. case_decide; [|done]. inv_ret.
  pose proof (lit_magnitude_nonneg l Hwf). cbn. unfold lit_raw. destruct (lit_sign l); lia.
Qed.

(** The windows of trades within bounds can be printed. *)
Lemma ref_window_printable W s k ts st :
  volumes_fit W ts → prices_printable ts → ref_window W s k ts = Some st → window_printable st.
Proof.
  intros Hv Hp. unfold ref_window. pose proof (sum_volume_fits W s k ts Hv) as Hvb.
  assert (prices_printable (bucket W s k ts)) as Hpb by (intros t [_ ?]%list_elem_of_filter; auto).
  destruct (bucket W s k ts) as [|t b] eqn:Hb; [done|]. rewrite <- Hb in *.
  assert (bucket W s k ts ≠ []) as Hne by congruence. clear Hb. intros [= <-].
  unfold window_printable, printable, in_i64. cbn [ref_stats raw ws_total_volume
    ws_min_price ws_max_price ws_trade_count ws_buyer_initiated_count ws_seller_initiated_count].
  destruct (min_price_least _ Hne) as [(t1 & Ht1 & H1) _].
  destruct (max_price_least _ Hne) as [(t2 & Ht2 & H2) _].
  pose proof (Hpb _ Ht1) as [[??]?]. pose proof (Hpb _ Ht2) as [[??]?]. unfold price_of in *.
  split_and!; try lia; apply to_u64_range.
Qed.

(** ** Reliable sinks *)

(** A set of states of the sink in which writing succeeds. *)
Class ReliableSink (S : Type) `{OutputSink S} (good : S → Prop) : Prop :=
  sink_write_good s text : good s → ∃ s', sink_write s text = Ret s' ∧ good s'.

(** A file whose disk does not fail. *)
Definition file_good (s : FileOutputSink) : Prop := fos_good s = true ∧ Forall (eq None) (fos_os s).

#[export] Instance file_reliable : ReliableSink FileOutputSink file_good.
Proof.
  intros [f g os] text [Hg Hos]. cbn in Hg, Hos. subst g. cbn. unfold file_write, stream_put. cbn.
  destruct Hos as [|? os <- Hos]; cbn; eexists; (split; [done|by split]).
Qed.

Section write.
Context {S : Type} `{OutputSink S} (good : S → Prop) `{!ReliableSink S good}.

Lemma serialize_returns snap :
  in_u64 (ss_window_start_ms snap) → Forall window_printable (ss_windows snap) → ∃ text, serialize snap = Ret text.
Proof.
  intros Hu Hp. destruct (decide (ss_windows snap = [])) as [Hnil|Hne].
  { unfold serialize. rewrite Hnil. eauto. }
  rewrite serialize_eq by done. destruct (format_iso8601_utc_spec _ Hu) as (t & -> & _).
  destruct (mapM_returns serialize_window (ss_windows snap)) as [lines ->]; [|cbn; eauto].
  intros w Hw. rewrite Forall_forall in Hp. by apply serialize_window_returns, Hp.
Qed.

Lemma foldM_good {A} (f : S → A → outcome S) l :
  (∀ s x, x ∈ l → good s → ∃ s', f s x = Ret s' ∧ good s') →
  ∀ s, good s → ∃ s', foldM f s l = Ret s' ∧ good s'.
Proof.
  induction l as [|x l IH]; intros Hf s Hs; cbn; [eauto|].
  destruct (Hf s x) as (s1 & -> & Hs1); [left|done|]. cbn. apply IH; [|done]. intros. apply Hf; [by right|done].
Qed.

(** Windows that can be printed are written. *)
Lemma write_windows_returns (sink : S) ws :
  good sink → Forall window_printable ws → Forall (λ w, in_u64 (ws_window_start_ms w)) ws →
  ∃ sink', write_windows sink ws = Ret sink' ∧ good sink'.
Proof.
  intros Hg Hp Hu. assert (∃ sink', foldM write_snapshot sink (snapshots ws) = Ret sink' ∧ good sink') as Hw.
  { revert Hg. apply foldM_good. intros s snap Hin Hs. unfold write_snapshot.
    destruct (snapshots_spec ws) as (_ & Hsnap & _). destruct (Hsnap _ Hin) as (Hne & _ & Hperm).
    assert (∀ w, w ∈ ss_windows snap → w ∈ ws ∧ ws_window_start_ms w = ss_window_start_ms snap) as Hel.
    { intros w. rewrite Hperm. unfold at_window. rewrite list_elem_of_filter. naive_solver. }
    rewrite Forall_forall in Hp, Hu. destruct (serialize_returns snap) as [text ->].
    - destruct (ss_windows snap) as [|w l]; [done|]. destruct (Hel w) as [Hin' <-]; [left|]. by apply Hu.
    - apply Forall_forall. intros w [? _]%Hel. by apply Hp.
    - cbn [mbind outcome_bind]. case_bool_decide; [eauto|]. by apply sink_write_good. }
  unfold write_windows. destruct ws; [eauto|done].
Qed.
End write.

(** ** The pipeline *)

(** Messages whose numbers fit: each price and quantity and their product on
    its own, and the volumes of the trades of each symbol and window
    together. *)
Record in_range `{J : JsonLib} (W : Z) (msgs : list string) : Prop := {
  ir_parsed m : m ∈ msgs → parse_trade m ≠ Undef;
  ir_volumes : volumes_fit W (trades_of msgs)
}.

Lemma in_range_app `{J : JsonLib} W msgs1 msgs2 : in_range W (msgs1 ++ msgs2) → in_range W msgs1.
Proof.
  intros [Hp Hv]. split; [intros; apply Hp, elem_of_app; by left|]. revert Hv. apply volumes_fit_sub.
  intros t. rewrite trades_of_app, cnt_app. pose proof (cnt_nonneg t (trades_of msgs2)). lia.
Qed.

Section defined.
Context {S : Type} `{OutputSink S} (good : S → Prop) `{!ReliableSink S good}.
Context `{J : JsonLib} `{!JsonLaws J}.
Variables (hash : string → Z) (W FI cap : Z) (sink : S) (threads : Z).
Hypothesis HW : W ≠ 0.
Hypothesis HWt : in_u64 W.
Hypothesis Hcap : in_u64 cap.

Notation s0 := (new_pipeline W FI cap sink threads).
Notation shards := (Z.to_nat (Z.max threads 1)).
Notation ok := (pipe_ok hash W shards (sink_text sink)).

Lemma trades_of_printable msgs : prices_printable (trades_of msgs).
Proof.
  intros t (m & _ & Hm)%list_elem_of_omap. destruct (parse_trade m) as [[t'|]| |] eqn:Hpt; simplify_eq.
  apply parse_trade_Some in Hpt as (payload & root & _ & _ & _ & _ & _ & _ & _ & _ & _ & _ & (p & _ & Hp) & _).
  by eapply parse_printable.
Qed.

(** Trades somewhere in the pipeline come from the messages accepted. *)
Lemma inside_counts g msgs s i sh p :
  ok g msgs s → pl_shards s !! i = Some sh → g_pending g !! i = Some p → ∀ t,
  cnt t (p ++ agg_hold (default None (pl_aggs s !! i))) ≤ cnt t (trades_of msgs).
Proof.
  intros Hg Hsh Hp t. rewrite (ok_msgs _ _ _ _ _ _ _ Hg), trades_of_app, !cnt_app, (ok_flow _ _ _ _ _ _ _ Hg t).
  pose proof (total_elem (cnt t) (g_pending g) p (cnt_nonneg t) ltac:(by eapply list_elem_of_lookup_2)).
  assert (cnt t (agg_hold (default None (pl_aggs s !! i))) ≤ total (λ p, cnt t (agg_hold p)) (pl_aggs s)).
  { destruct (pl_aggs s !! i) as [h|] eqn:Hi; cbn.
    - apply (total_elem (λ p, cnt t (agg_hold p))); [intros; apply cnt_nonneg|by eapply list_elem_of_lookup_2].
    - apply total_nonneg. intros. apply cnt_nonneg. }
  pose proof (cnt_nonneg t (concat (g_batches g))). pose proof (cnt_nonneg t (g_open g)).
  pose proof (cnt_nonneg t (parser_hold (pl_parser s))). pose proof (cnt_nonneg t (trades_of (bq_items (pl_raw_queue s)))).
  pose proof (total_nonneg (λ sh, cnt t (queued sh)) (pl_shards s) (λ _, cnt_nonneg t _)). lia.
Qed.

Lemma collected_counts g msgs s :
  ok g msgs s → ∀ t, cnt t (g_open g ++ concat (g_pending g)) ≤ cnt t (trades_of msgs).
Proof.
  intros Hg t. rewrite (ok_msgs _ _ _ _ _ _ _ Hg), trades_of_app, !cnt_app, (ok_flow _ _ _ _ _ _ _ Hg t), cnt_concat.
  pose proof (cnt_nonneg t (concat (g_batches g))). pose proof (total_nonneg (λ p, cnt t (agg_hold p)) (pl_aggs s) (λ _, cnt_nonneg t _)).
  pose proof (cnt_nonneg t (parser_hold (pl_parser s))). pose proof (cnt_nonneg t (trades_of (bq_items (pl_raw_queue s)))).
  pose proof (total_nonneg (λ sh, cnt t (queued sh)) (pl_shards s) (λ _, cnt_nonneg t _)). lia.
Qed.
Lemma sub_writable msgs ts ws :
  in_range W msgs → (∀ t, cnt t ts ≤ cnt t (trades_of msgs)) →
  (∀ st, st ∈ ws → ∃ s k, ref_window W s k ts = Some st) →
  Forall window_printable ws ∧ Forall (λ w, in_u64 (ws_window_start_ms w)) ws.
Proof.
  intros [_ Hv] Hsub Hws. split; apply Forall_forall; intros st Hst; destruct (Hws _ Hst) as (sy & k & Href).
  - apply (ref_window_printable W sy k ts); [|eauto using prices_printable_sub, trades_of_printable|done].
    by eapply volumes_fit_sub.
  - destruct (ref_window_keys _ _ _ _ _ Href) as [_ ->].
    apply ref_window_key, list_elem_of_fmap in Href as (t & [= _ ->] & Ht).
    apply cnt_submseteq in Hsub as [l Hl].
    assert (t ∈ trades_of msgs) as (m & _ & Hm)%list_elem_of_omap by (rewrite <- Hl; apply elem_of_app; by left).
    destruct (parse_trade m) as [[t'|]| |] eqn:Hpt; simplify_eq.
    apply parse_trade_ranges in Hpt as (_ & Ht' & _). by apply window_start_typed.
Qed.

Lemma parser_defined g msgs s o :
  ok g msgs s → in_range W msgs → run_parser_stage hash s = Some o → ∃ s', o = Ret s' ∧ pl_sink s' = pl_sink s.
Proof.
  intros Hg [Hp _] Hs. unfold run_parser_stage in Hs. destruct (pl_parser s) as [[|t|]|]; try done.
  - destruct (pop (pl_raw_queue s)) as [[[raw|] q]|] eqn:Hq; cbn in Hs; simplify_eq; [|by eauto].
    assert (raw ∈ msgs) as Hin.
    { rewrite (ok_msgs _ _ _ _ _ _ _ Hg). apply elem_of_app. right. rewrite (pop_items _ _ _ Hq). left. }
    destruct (parse_trade raw) as [e|e|] eqn:He; [cbn; eauto| |by apply Hp in Hin].
    by apply parse_trade_no_throw in He.
  - destruct (pl_shards s !! _) as [sh|]; cbn in Hs; [|done].
    destruct (push _ _) as [[]|]; cbn in Hs; simplify_eq. eauto.
Qed.

Lemma agg_defined g msgs s i o :
  ok g msgs s → in_range W msgs → run_aggregation_stage s i = Some o → ∃ s', o = Ret s' ∧ pl_sink s' = pl_sink s.
Proof.
  intros Hg [_ Hv] Hs. unfold run_aggregation_stage in Hs.
  destruct (pl_shards s !! i) as [sh|] eqn:Hsh; cbn in Hs; [|done].
  destruct (pl_aggs s !! i) as [[[|t|]|]|] eqn:Ha; try done.
  - destruct (pop _) as [[]|]; cbn in Hs; simplify_eq. eauto.
  - simplify_eq. destruct (pending_at _ _ _ _ _ _ _ _ _ Hg Hsh) as (p & Hp & [Hm Hw _ _]).
    pose proof (inside_counts _ _ _ _ _ _ Hg Hsh Hp) as Hc. rewrite Ha in Hc. cbn [default from_option id agg_hold] in Hc.
    pose proof (volumes_fit_sub _ _ _ Hc Hv) as Hfit.
    apply (sum_volume_fits W (te_symbol t) (start_of W t)) in Hfit.
    rewrite bucket_snoc_in, sum_volume_app in Hfit. cbn in Hfit.
    pose proof (add_trade_models _ _ t Hm) as Hadd. cbn zeta in Hadd. rewrite Hw in Hadd.
    destruct (add_trade (sh_aggregator sh) t); [cbn; eauto|done|]. unfold in_i64 in Hadd. lia.
Qed.

Lemma writer_defined g msgs s o :
  ok g msgs s → in_range W msgs → good (pl_sink s) → flush_completed_windows s = Some o →
  ∃ s', o = Ret s' ∧ good (pl_sink s').
Proof.
  intros Hg Hr Hk Hs. unfold flush_completed_windows in Hs. pose proof (ok_writer _ _ _ _ _ _ _ Hg) as Hex.
  destruct (pl_writer s) as [[|cur i ws|]|]; try done. destruct (pl_shards s !! i) as [sh|].
  { destruct (extract_completed_windows (sh_aggregator sh) cur). simplify_eq. eauto. }
  simplify_eq. destruct Hex as [_ Hws _ _].
  destruct (sub_writable msgs (g_open g) ws Hr) as [Hp Hu]; [|by intros; apply Hws|].
  { intros t. pose proof (collected_counts _ _ _ Hg t) as Hc. rewrite cnt_app in Hc.
    pose proof (cnt_nonneg t (concat (g_pending g))). lia. }
  destruct (write_windows_returns good (pl_sink s) ws Hk Hp Hu) as (sk & -> & Hk'). cbn. eauto.
Qed.

Lemma stop_defined g msgs s o :
  ok g msgs s → in_range W msgs → good (pl_sink s) → stop s = Some o → ∃ s', o = Ret s' ∧ good (pl_sink s').
Proof.
  intros Hg Hr Hk Hs. unfold stop in Hs. destruct (pl_stop s) as [| | |i|i|]; [done|..].
  - destruct (can_join_writer s); simplify_eq; eauto.
  - destruct (can_join_parser s); simplify_eq; eauto.
  - simplify_eq. destruct (pl_shards s !! i); eauto.
  - destruct (pl_aggs s !! i) as [[[]|]|]; simplify_eq; eauto.
  - simplify_eq. unfold flush_remaining_windows.
    destruct (take_remaining_spec hash W shards 0 (pl_shards s) (g_pending g)) as [_ Hws].
    { by rewrite (ok_shards_length _ _ _ _ _ _ _ Hg), (ok_pending_length _ _ _ _ _ _ _ Hg). }
    { by apply (ok_shards _ _ _ _ _ _ _ Hg). }
    destruct (take_remaining (pl_shards s)) as [ws shs]. cbn [fst] in Hws.
    destruct (sub_writable msgs (concat (g_pending g)) ws Hr) as [Hp Hu]; [|by intros; apply Hws|].
    { intros t. pose proof (collected_counts _ _ _ Hg t) as Hc. rewrite cnt_app in Hc.
      pose proof (cnt_nonneg t (g_open g)). lia. }
    destruct (write_windows_returns good (pl_sink s) ws Hk Hp Hu) as (sk & -> & Hk'). cbn. eauto.
Qed.

(** What a step needs from the system: the deadline of a wait fits, and no
    thread is refused. *)
Definition granted (s : pipeline S) (a : action) : Prop :=
  match a with
  | ActTimeout _ steady_ns | ActWriterWait steady_ns => is_ret (writer_deadline s steady_ns)
  | ActStartRefused => False
  | _ => True
  end.

Lemma writer_wait_defined s ck o :
  is_ret (writer_deadline s ck) → good (pl_sink s) → writer_wait s ck = Some o → ∃ s', o = Ret s' ∧ good (pl_sink s').
Proof.
  intros [d Hd] Hk. unfold writer_wait. destruct (pl_writer s) as [[]|]; try done.
  destruct (pl_stop_requested s); [|done]. rewrite Hd. intros [= <-]. cbn. eauto.
Qed.

Lemma writer_timeout_defined s now ck o :
  is_ret (writer_deadline s ck) → pl_window_ms s ≠ 0 → good (pl_sink s) → writer_timeout s now ck = Some o →
  ∃ s', o = Ret s' ∧ good (pl_sink s').
Proof.
  intros [d Hd] H0 Hk. unfold writer_timeout. destruct (pl_writer s) as [[]|]; try done.
  destruct (pl_stop_requested s); [done|]. rewrite Hd, (proj2 (Z.eqb_neq _ _) H0). intros [= <-]. cbn. eauto.
Qed.

Lemma pipe_step_defined g msgs s a o :
  ok g msgs s → in_range W msgs → good (pl_sink s) → granted s a → pipe_step hash s a = Some o →
  ∃ s', o = Ret s' ∧ good (pl_sink s').
Proof.
  intros Hg Hr Hk Hgr Hs. destruct a as [m| |now ck| | |i|ck| | |]; cbn [pipe_step granted] in *; [..|done].
  - unfold submit_raw_message in Hs. destruct (push _ _) as [[]|]; cbn in Hs; simplify_eq. eauto.
  - unfold start in Hs. destruct (pl_parser s), (pl_stop_requested s), (pl_stop s); simplify_eq. eauto.
  - eapply writer_timeout_defined; [done| |done..]. by rewrite (ok_window _ _ _ _ _ _ _ Hg).
  - unfold stop_request in Hs. destruct (pl_stop s); simplify_eq. eauto.
  - destruct (parser_defined _ _ _ _ Hg Hr Hs) as (s' & -> & Hsk). rewrite <- Hsk in Hk. eauto.
  - destruct (agg_defined _ _ _ _ _ Hg Hr Hs) as (s' & -> & Hsk). rewrite <- Hsk in Hk. eauto.
  - by eapply writer_wait_defined.
  - by eapply writer_defined.
  - by eapply stop_defined.
Qed.

(** A step that returns was granted. *)
Lemma step_granted s a s' : pipe_step hash s a = Some (Ret s') → granted s a.
Proof.
  destruct a; cbn; try done.
  - by intros (_ & _ & ? & _)%writer_timeout_Ret.
  - by intros (_ & _ & ? & _)%writer_wait_Ret.
  - by intros ?%start_refused_Ret.
Qed.

(** A run keeps the sink good. *)
Lemma run_good acts msgs s :
  good sink → in_range W msgs → pipe_run hash s0 acts msgs s → good (pl_sink s).
Proof.
  intros Hk Hr Hrun. induction Hrun as [|acts msgs s a s' Hrun IH Hs]; [done|].
  apply in_range_app in Hr. apply (run_ok hash W FI cap sink threads HW) in Hrun as (g & Hg & _).
  destruct (pipe_step_defined _ _ _ _ _ Hg Hr (IH Hr) (step_granted _ _ _ Hs) Hs) as (s1 & [= <-] & Hk'). done.
Qed.

End defined.

(** Clocks below 2^62 ns and intervals of up to 2^42 ms grant every wait. *)
Lemma deadline_granted {S} (s : pipeline S) steady_ns :
  steady_ok steady_ns → 0 ≤ pl_flush_interval_ms s ≤ 2 ^ 42 → is_ret (writer_deadline s steady_ns).
Proof.
  intros Hst Hf. apply wait_deadline_ok; [done|]. unfold interval_ok. change (2 ^ 42) with 4398046511104 in *.
  rewrite to_i64_id by range. lia.
Qed.

Lemma bare_message_in_range W : in_range W [bare_message].
Proof.
  split; [|apply volumes_fit_total; vm_compute; reflexivity].
  intros m ->%list_elem_of_singleton. vm_compute. discriminate.
Qed.
