(* ===== verification/Operation.v ===== *)
(** * The pipeline in operation

    Between [start] and [stop] the pipeline must not only keep what it has
    accepted: the messages have to get through to the aggregators, and a tick
    of the flush timer has to write every window that is complete.  Here: a
    pipeline whose threads can make no step has parsed and aggregated all it
    has accepted, and a tick then writes all completed windows. *)

From S2P Require Import Prelude CString DecimalFp StdMap Aggregator AggregatorSpec AggregatorProps.
From S2P Require Import Output Json JsonRef TradeParser Totals BoundedQueue QueueProps.
From S2P Require Import Snapshots Pipeline PipelineInv PipelineLive PipelineProps Punctual Defined.

(** The steps of the threads in operation, and the ticks of the timer. *)
Definition working (a : action) : bool :=
  match a with ActParser | ActAgg _ | ActWriterFlush => true | _ => false end.
Definition operation (a : action) : bool :=
  match a with ActTimeout _ _ => true | a => working a end.

Section operation.
Context {S : Type} `{OutputSink S} (good : S → Prop) `{!ReliableSink S good}.
Context `{J : JsonLib} `{!JsonLaws J}.
Variables (hash : string → Z) (W FI cap : Z) (sink : S) (threads : Z).
Hypothesis HW : W ≠ 0.
Hypothesis HWt : in_u64 W.
Implicit Types (s : pipeline S).

Notation s0 := (new_pipeline W FI cap sink threads).
Notation shards := (Z.to_nat (Z.max threads 1)).
Notation ok := (pipe_ok hash W shards (sink_text sink)).

(** ** States in operation *)

Definition running s : Prop := pl_stop_requested s = false ∧ pl_stop s = NotStopping.

Definition writer_alive (w : option writer_pc) : Prop :=
  match w with Some (WriterWait | WriterExtract _ _ _) => True | _ => False end.

Record operating (msgs : list string) s : Prop := {
  op_ok : ∃ g, ok g msgs s;
  op_phase : phase_ok true s;
  op_running : running s;
  op_writer : writer_alive (pl_writer s)
}.

(** A flag that is not set has never been set, and the writer thread runs. *)
Lemma unrequested s a s' st :
  phase_ok st s → pipe_step hash s a = Some (Ret s') → pl_stop_requested s' = false →
  pl_stop_requested s = false ∧ (a ≠ ActStart → writer_alive (pl_writer s) → writer_alive (pl_writer s')).
Proof.
  intros Hph Hs Hr. destruct a as [m| |now ck| | |i|ck| | |]; cbn in Hs.
  - unfold submit_raw_message in Hs. destruct (push _ _) as [[]|]; cbn in Hs; by simplify_eq.
  - unfold start in Hs. destruct (pl_parser s), (pl_stop_requested s), (pl_stop s); by simplify_eq.
  - by apply writer_timeout_Ret in Hs as (_ & ? & _ & _ & ->).
  - unfold stop_request in Hs. destruct (pl_stop s); by simplify_eq.
  - destruct (parser_frame _ _ _ Hs) as [-> _], (parser_frame_threads _ _ _ Hs) as [_ Hsr]. by rewrite <- Hsr.
  - destruct (agg_frame _ _ _ Hs) as [-> _].
    unfold run_aggregation_stage in Hs. destruct (pl_shards s !! i); cbn in Hs; [|done].
    destruct (pl_aggs s !! i) as [[[]|]|]; try done; [destruct (pop _) as [[]|]; cbn in Hs; by simplify_eq|].
    injection Hs as Hs. by inv_ret.
  - apply writer_wait_Ret in Hs as (_ & ? & _ & ->). cbn in Hr. congruence.
  - unfold flush_completed_windows in Hs. destruct (pl_writer s) as [[|cur i ws|]|]; try done.
    destruct (pl_shards s !! i) as [sh|]; [destruct (extract_completed_windows (sh_aggregator sh) cur); by simplify_eq|].
    injection Hs as Hs. by inv_ret.
  - destruct (stop_frame _ _ Hs) as (_ & Hsr & _). rewrite <- Hsr. split; [done|]. exfalso.
    assert (pl_stop_requested s = true) as Ht; [|congruence].
    pose proof (ph_stop _ _ Hph) as Hst. unfold stop_phase in Hst. pose proof (ph_raw _ _ Hph) as Hraw.
    unfold stop in Hs. destruct (pl_stop s); [done|..]; unfold all_down in Hst; naive_solver.
  - by apply start_refused_Ret in Hs.
Qed.


Lemma run_writer_alive acts msgs s :
  pipe_run hash s0 acts msgs s → existsb is_start acts = true → pl_stop_requested s = false →
  writer_alive (pl_writer s).
Proof.
  induction 1 as [|acts msgs s a s' Hrun IH Hs]; [done|]. intros Hst Hr.
  destruct (run_ok hash W FI cap sink threads HW _ _ _ Hrun) as (_ & _ & Hph).
  destruct (unrequested _ _ _ _ Hph Hs Hr) as [Hr1 Hw]. rewrite existsb_app in Hst.
  destruct (is_start a) eqn:Ha.
  - destruct a; try done. cbn in Hs. unfold start in Hs.
    destruct (pl_parser s), (pl_stop_requested s), (pl_stop s); by simplify_eq.
  - cbn in Hst. rewrite Ha, !orb_false_r in Hst. apply Hw; [intros ->; done|]. by apply IH.
Qed.

Lemma run_operating acts msgs s :
  pipe_run hash s0 acts msgs s → existsb is_start acts = true → running s → operating msgs s.
Proof.
  intros Hrun Hst Hr. destruct (run_ok hash W FI cap sink threads HW _ _ _ Hrun) as (g & Hg & Hph).
  rewrite Hst in Hph. split; [by eauto|done..|]. eapply run_writer_alive; [done..|apply Hr].
Qed.

Lemma operation_frame s a s' :
  operation a = true → pipe_step hash s a = Some (Ret s') →
  pl_stop_requested s' = pl_stop_requested s ∧ pl_stop s' = pl_stop s ∧ accepted_by s a = [].
Proof.
  intros Ha Hs. destruct a as [m| |now ck| | |i|ck| | |]; try done; cbn in Hs.
  - by apply writer_timeout_Ret in Hs as (_ & ? & _ & _ & ->).
  - destruct (parser_frame _ _ _ Hs) as [_ ?], (parser_frame_threads _ _ _ Hs) as [_ ?]. done.
  - unfold run_aggregation_stage in Hs. destruct (pl_shards s !! i); cbn in Hs; [|done].
    destruct (pl_aggs s !! i) as [[[]|]|]; try done; [destruct (pop _) as [[]|]; cbn in Hs; by simplify_eq|].
    injection Hs as Hs. by inv_ret.
  - unfold flush_completed_windows in Hs. destruct (pl_writer s) as [[|cur i ws|]|]; try done.
    destruct (pl_shards s !! i) as [sh|]; [destruct (extract_completed_windows (sh_aggregator sh) cur); by simplify_eq|].
    injection Hs as Hs. by inv_ret.
Qed.

Lemma operating_step msgs s a s' :
  operating msgs s → operation a = true → pipe_step hash s a = Some (Ret s') → operating msgs s'.
Proof.
  intros [[g Hg] Hph [Hr Hns] Hw] Ha Hs. destruct (operation_frame _ _ _ Ha Hs) as (Hr' & Hns' & Hacc). split.
  - eexists. rewrite <- (app_nil_r msgs), <- Hacc.
    by eapply pipe_step_ok; [|eapply phase_shards_open|eapply phase_threads_fresh|].
  - pose proof (phase_step _ _ _ _ _ Hph Hs) as Hph'. done.
  - unfold running. by rewrite Hr', Hns'.
  - eapply unrequested; [done..|congruence| |done]. by destruct a.
Qed.

(** ** A pipeline that stands still has nothing left to do *)

(** The threads but the writer wait, and nothing is queued. *)
Record idle s : Prop := {
  id_raw : bq_items (pl_raw_queue s) = [];
  id_parser : pl_parser s = Some ParserPop;
  id_queues i sh : pl_shards s !! i = Some sh → bq_items (sh_queue sh) = [];
  id_aggs i p : pl_aggs s !! i = Some p → p = Some AggPop
}.

Lemma operating_shards msgs s : operating msgs s → pl_shards s ≠ [].
Proof. intros [[g Hg] _ _ _] Hnil. apply ok_shards_length in Hg. rewrite Hnil in Hg. cbn in Hg. lia. Qed.

(** The queues are open, so that no thread has ended. *)
Lemma operating_open msgs s :
  operating msgs s →
  bq_shutdown (pl_raw_queue s) = false ∧ (pl_parser s = Some ParserPop ∨ ∃ t, pl_parser s = Some (ParserPush t)) ∧
  ∀ i sh, pl_shards s !! i = Some sh →
    bq_shutdown (sh_queue sh) = false ∧ (pl_aggs s !! i = Some (Some AggPop) ∨ ∃ t, pl_aggs s !! i = Some (Some (AggAdd t))).
Proof.
  intros [_ Hph [Hr _] _].
  assert (bq_shutdown (pl_raw_queue s) = false) as Hraw.
  { apply not_true_is_false. intros Hd. apply (ph_raw _ _ Hph) in Hd as [_ ?]. congruence. }
  split; [done|]. split.
  - destruct (pl_parser s) as [[|t|]|] eqn:Hp; [by eauto..| |].
    + destruct (ph_parser_done _ _ Hph Hp). congruence.
    + destruct (ph_parser_joined _ _ Hph eq_refl Hp). congruence.
  - intros i sh Hi. destruct (phase_shard _ _ _ _ Hph Hi) as (p & Hp & [_ Hsd Hdone Hjoin]).
    assert (bq_shutdown (sh_queue sh) = false) as Hq.
    { apply not_true_is_false. intros [_ ?]%Hsd. congruence. }
    split; [done|]. destruct p as [[|t|]|]; [by eauto..| |].
    + destruct (Hdone eq_refl). congruence.
    + destruct (Hjoin eq_refl eq_refl). congruence.
Qed.

(** In operation, [stop] and the end of the wait are disabled. *)
Lemma internal_working msgs s a :
  operating msgs s → internal a = true → is_Some (pipe_step hash s a) → working a = true.
Proof.
  intros [_ _ [Hr Hns] _] Ha [o Hs]. destruct a; try done; cbn in Hs.
  - unfold writer_wait in Hs. rewrite Hr in Hs. by destruct (pl_writer s) as [[]|].
  - unfold stop in Hs. by rewrite Hns in Hs.
Qed.

(** Shard [i] has nothing to do. *)
Definition shard_idle s (i : nat) : bool :=
  match pl_shards s !! i, pl_aggs s !! i with
  | Some sh, Some (Some AggPop) => bool_decide (bq_items (sh_queue sh) = [])
  | _, _ => false
  end.

Lemma idle_or_enabled msgs s :
  operating msgs s →
  (idle s ∧ pl_writer s = Some WriterWait) ∨ ∃ a, working a = true ∧ is_Some (pipe_step hash s a).
Proof.
  intros Hop. destruct (operating_open _ _ Hop) as (Hraw & Hparser & Hshards).
  pose proof (operating_shards _ _ Hop) as Hne. pose proof (op_phase _ _ Hop) as Hph.
  destruct (pl_writer s) as [[|cur j ws|]|] eqn:Hw; [|right|by destruct Hop; rewrite Hw in op_writer0..].
  2:{ exists ActWriterFlush. split; [done|]. cbn. unfold flush_completed_windows. rewrite Hw.
      destruct (pl_shards s !! j) as [sh|]; [destruct (extract_completed_windows (sh_aggregator sh) cur)|]; eauto. }
  destruct Hparser as [Hp|[t Hp]].
  2:{ right. destruct (parser_push_enabled hash _ _ _ Hph Hne Hp) as (a & Ha & Hs). eauto using internal_working. }
  destruct (bq_items (pl_raw_queue s)) as [|m l] eqn:Hitems.
  2:{ right. exists ActParser. split; [done|]. cbn. unfold run_parser_stage. rewrite Hp.
      destruct (pop_ready (pl_raw_queue s)) as (r & q' & ->); [right; congruence|]. cbn. eauto. }
  destruct (Forall_Exists_dec (λ i, shard_idle s i = true) (λ i, ¬ shard_idle s i = true) (λ i, decide _)
    (seq 0 (length (pl_shards s)))) as [Hall|Hex].
  - left. split; [|done]. rewrite Forall_seq in Hall.
    assert (∀ i sh, pl_shards s !! i = Some sh → bq_items (sh_queue sh) = [] ∧ pl_aggs s !! i = Some (Some AggPop)) as Hi.
    { intros i sh Hi. specialize (Hall i). unfold shard_idle in Hall. rewrite Hi in Hall.
      destruct (pl_aggs s !! i) as [[[]|]|]; try (by discriminate Hall; apply lookup_lt_Some in Hi; lia).
      split; [|done]. apply (bool_decide_eq_true _), Hall. apply lookup_lt_Some in Hi. lia. }
    split; [done..| |].
    + intros i sh Hsh. by apply Hi in Hsh as [? _].
    + intros i p Hpi. assert (is_Some (pl_shards s !! i)) as [sh Hsh].
      { apply lookup_lt_is_Some. rewrite <- (ph_length _ _ Hph). by eapply lookup_lt_Some. }
      apply Hi in Hsh as [_ ?]. congruence.
  - right. apply Exists_exists in Hex as (i & [_ Hlt]%elem_of_seq & Hi).
    destruct (lookup_lt_is_Some_2 (pl_shards s) i ltac:(lia)) as [sh Hsh]. exists (ActAgg i). split; [done|].
    unfold shard_idle in Hi. rewrite Hsh in Hi. destruct (Hshards _ _ Hsh) as [_ [Ha|[t Ha]]].
    + apply (agg_enabled hash s i sh AggPop); [done..|]. right. rewrite Ha in Hi. intros Hnil. apply Hi.
      by apply bool_decide_eq_true.
    + cbn. unfold run_aggregation_stage. rewrite Hsh, Ha. cbn. eauto.
Qed.



(** ** Settling *)

Lemma operation_defined msgs s a :
  operating msgs s → in_range W msgs → good (pl_sink s) → operation a = true → granted s a → is_Some (pipe_step hash s a) →
  ∃ s', pipe_step hash s a = Some (Ret s') ∧ operating msgs s' ∧ good (pl_sink s').
Proof.
  intros Hop Hr Hk Ha Hgr [o Hs]. destruct (op_ok _ _ Hop) as [g Hg].
  destruct (pipe_step_defined good hash W sink threads HW HWt _ _ _ _ _ Hg Hr Hk Hgr Hs) as (s' & -> & Hk').
  eauto using operating_step.
Qed.

Lemma run_trans s acts1 msgs1 s1 acts2 msgs2 s2 :
  pipe_run hash s acts1 msgs1 s1 → pipe_run hash s1 acts2 msgs2 s2 →
  pipe_run hash s (acts1 ++ acts2) (msgs1 ++ msgs2) s2.
Proof.
  intros Hrun. induction 1 as [|acts msgs s' a s'' _ IH Hs]; [by rewrite !app_nil_r|].
  rewrite !app_assoc. by econstructor.
Qed.

(** An operation that is enabled, and the rest of a run. *)
Lemma operation_cons s a s' acts s'' :
  operation a = true → pipe_step hash s a = Some (Ret s') → pipe_run hash s' acts [] s'' →
  pipe_run hash s (a :: acts) [] s''.
Proof.
  intros Ha Hs Hrun. destruct (operation_frame _ _ _ Ha Hs) as (_ & _ & Hacc).
  pose proof (pipe_run_cons hash _ _ _ _ _ _ Hs Hrun) as Hr. by rewrite Hacc in Hr.
Qed.

(** Left alone, the threads get everything through to the aggregators. *)
Lemma settles k : ∀ msgs s,
  operating msgs s → in_range W msgs → good (pl_sink s) → pipe_measure s ≤ Z.of_nat k →
  ∃ acts s', pipe_run hash s acts [] s' ∧ forallb working acts = true ∧ Z.of_nat (length acts) ≤ Z.of_nat k ∧
    operating msgs s' ∧ good (pl_sink s') ∧ idle s' ∧ pl_writer s' = Some WriterWait.
Proof.
  induction k as [|k IH]; intros msgs s Hop Hr Hk Hm;
    (destruct (idle_or_enabled _ _ Hop) as [[Hi Hw]|(a & Ha & Hs)];
      [exists [], s; split_and!; [constructor|done|cbn; lia|done..]|]);
    assert (operation a = true) as Ho by (by destruct a);
    destruct (operation_defined _ _ _ Hop Hr Hk Ho ltac:(by destruct a) Hs) as (s1 & Hs1 & Hop1 & Hk1);
    assert (internal a = true) as Hint by (by destruct a);
    pose proof (internal_decreases hash _ _ _ _ (op_phase _ _ Hop) Hint Hs1).
  { pose proof (pipe_measure_nonneg s1). lia. }
  destruct (IH msgs s1 Hop1 Hr Hk1 ltac:(lia)) as (acts & s' & Hrun & Hall & Hlen & Hrest).
  exists (a :: acts), s'. split_and!; [by eapply operation_cons|cbn; by rewrite Ha|cbn [length]; lia|apply Hrest..].
Qed.

(** ** A flush *)

(** The first [i] shards hold no trade of a window before [cur]. *)
Definition swept (cur : Z) (i : nat) (g : ghost) : Prop :=
  ∀ j p t, (j < i)%nat → g_pending g !! j = Some p → t ∈ p → cur ≤ start_of W t.

Lemma flush_idle s s' : idle s → flush_completed_windows s = Some (Ret s') → idle s'.
Proof.
  intros [] Hs. unfold flush_completed_windows in Hs. destruct (pl_writer s) as [[|cur i ws|]|]; try done.
  destruct (pl_shards s !! i) as [sh|] eqn:Hi; [|injection Hs as Hs; by inv_ret].
  destruct (extract_completed_windows (sh_aggregator sh) cur). simplify_eq. split; try done. cbn.
  intros j sh' [(<- & <- & _)|[_ ?]]%list_lookup_insert_Some; [|eauto]. cbn. eauto.
Qed.

Lemma pending_after_elem w ts t : t ∈ pending_after W w ts → w ≤ start_of W t.
Proof. unfold pending_after. by intros [? _]%list_elem_of_filter. Qed.

(** The writer takes the completed windows of one shard after the other. *)
Lemma sweep j : ∀ msgs g s cur i ws,
  operating msgs s → in_range W msgs → good (pl_sink s) → idle s → ok g msgs s →
  pl_writer s = Some (WriterExtract cur i ws) → swept cur i g → (i + j)%nat = shards →
  ∃ g' s' ws', pipe_run hash s (replicate j ActWriterFlush) [] s' ∧ operating msgs s' ∧ good (pl_sink s') ∧ idle s' ∧
    ok g' msgs s' ∧ pl_writer s' = Some (WriterExtract cur shards ws') ∧ swept cur shards g'.
Proof.
  induction j as [|j IH]; intros msgs g s cur i ws Hop Hr Hk Hi Hg Hw Hsw Hj.
  { exists g, s, ws. replace i with shards in * by lia. split_and!; [constructor|done..]. }
  assert (is_Some (pl_shards s !! i)) as [sh Hsh].
  { apply lookup_lt_is_Some. rewrite (ok_shards_length _ _ _ _ _ _ _ Hg). lia. }
  destruct (operation_defined _ _ ActWriterFlush Hop Hr Hk eq_refl I) as (s1 & Hs & Hop1 & Hk1).
  { cbn. unfold flush_completed_windows. rewrite Hw, Hsh.
    destruct (extract_completed_windows (sh_aggregator sh) cur). eauto. }
  pose proof (writer_flush_ok _ _ _ _ _ _ _ _ Hg Hs) as Hg1. pose proof (flush_idle _ _ Hi Hs) as Hi1.
  cbn [ghost_next] in Hg1. rewrite Hw, Hsh in Hg1.
  assert (∃ ws1, pl_writer s1 = Some (WriterExtract cur (Datatypes.S i) ws1)) as [ws1 Hw1].
  { cbn in Hs. unfold flush_completed_windows in Hs. rewrite Hw, Hsh in Hs.
    destruct (extract_completed_windows (sh_aggregator sh) cur). simplify_eq. cbn. eauto. }
  destruct (IH _ _ _ _ _ _ Hop1 Hr Hk1 Hi1 Hg1 Hw1) as (g' & s' & ws' & Hrun & Hrest); [|lia|].
  { intros k p t Hlt Hp Ht. cbn in Hp. apply list_lookup_insert_Some in Hp as [(<- & <- & _)|[Hne Hp]].
    - by eapply pending_after_elem.
    - eapply Hsw; [|done..]. lia. }
  exists g', s', ws'. split; [|done]. cbn [replicate]. by eapply operation_cons.
Qed.

(** A tick of the timer when the pipeline stands still. *)
Lemma tick msgs s now ck :
  operating msgs s → in_range W msgs → good (pl_sink s) → idle s → pl_writer s = Some WriterWait →
  is_ret (writer_deadline s ck) →
  let cur := window_start_of W (to_u64 now) in
  ∃ g s', pipe_run hash s (ActTimeout now ck :: replicate (Datatypes.S shards) ActWriterFlush) [] s' ∧
    operating msgs s' ∧ good (pl_sink s') ∧ idle s' ∧ pl_writer s' = Some WriterWait ∧
    ok g msgs s' ∧ swept cur shards g.
Proof.
  intros Hop Hr Hk Hi Hw Hck cur. destruct (op_ok _ _ Hop) as [g Hg].
  pose proof (ok_window _ _ _ _ _ _ _ Hg) as HWs. destruct (op_running _ _ Hop) as [Hrq _].
  set (s1 := set_writer s (Some (WriterExtract cur 0 []))).
  assert (pipe_step hash s (ActTimeout now ck) = Some (Ret s1)) as Hs.
  { subst s1 cur. rewrite <- HWs. apply writer_timeout_Ret. by rewrite HWs. }
  assert (idle s1) as Hi1 by by destruct Hi.
  destruct (sweep shards msgs g s1 cur 0 []) as (g2 & s2 & ws & Hrun & Hop2 & Hk2 & Hi2 & Hg2 & Hw2 & Hsw);
    [exact (operating_step _ _ (ActTimeout now ck) _ Hop eq_refl Hs)|done..|exact (timeout_ok _ _ _ _ _ _ _ _ _ _ Hg Hs)|done| |done|].
  { intros j p t Hj. lia. }
  assert (pl_shards s2 !! shards = None) as Hend.
  { apply lookup_ge_None. by rewrite (ok_shards_length _ _ _ _ _ _ _ Hg2). }
  destruct (operation_defined _ _ ActWriterFlush Hop2 Hr Hk2 eq_refl I) as (s3 & Hs3 & Hop3 & Hk3).
  { cbn. unfold flush_completed_windows. rewrite Hw2, Hend. eauto. }
  pose proof (writer_flush_ok _ _ _ _ _ _ _ _ Hg2 Hs3) as Hg3. pose proof (flush_idle _ _ Hi2 Hs3) as Hi3.
  cbn [ghost_next] in Hg3. rewrite Hw2, Hend in Hg3.
  eexists _, s3. split_and!; [|done..| |exact Hg3|done].
  - eapply operation_cons; [done..|]. replace (Datatypes.S shards) with (shards + 1)%nat by lia.
    rewrite replicate_add. change [] with (@nil string ++ []). eapply run_trans; [done|].
    by eapply operation_cons; [..|constructor].
  - cbn in Hs3. unfold flush_completed_windows in Hs3. rewrite Hw2, Hend in Hs3. injection Hs3 as Hs3. by inv_ret.
Qed.

(** What an idle pipeline has not written is pending in the shards. *)
Lemma idle_unwritten g msgs s t :
  ok g msgs s → idle s → pl_writer s = Some WriterWait → t ∈ unwritten g s →
  ∃ i p, g_pending g !! i = Some p ∧ t ∈ p.
Proof.
  intros Hg [Hraw Hp Hq Ha] Hw. pose proof (ok_writer _ _ _ _ _ _ _ Hg) as Ho. rewrite Hw in Ho.
  unfold unwritten. rewrite Ho, Hp, Hraw. cbn. rewrite !app_nil_r, !elem_of_app.
  intros [(i & p & ? & ?)%elem_of_concat|[(i & l & Hl & Ht)%elem_of_concat|(i & l & Hl & Ht)%elem_of_concat]]; [by eauto|..];
    rewrite list_lookup_fmap in Hl.
  - destruct (pl_shards s !! i) as [sh|] eqn:Hi; [|done]. injection Hl as <-. unfold queued in Ht.
    rewrite (Hq _ _ Hi) in Ht. by apply not_elem_of_nil in Ht.
  - destruct (pl_aggs s !! i) as [p|] eqn:Hi; [|done]. injection Hl as <-. rewrite (Ha _ _ Hi) in Ht.
    by apply not_elem_of_nil in Ht.
Qed.

(** What the file holds after a tick. *)
Lemma swept_report g msgs s cur :
  ok g msgs s → idle s → pl_writer s = Some WriterWait → swept cur shards g →
  ∃ batches late texts, concat batches ++ late ≡ₚ trades_of msgs ∧ (∀ t, t ∈ late → cur ≤ start_of W t) ∧
    mapM (batch_text W) batches = Ret texts ∧ sink_text (pl_sink s) = sink_text sink +:+ string_concat texts.
Proof.
  intros Hg Hi Hw Hsw. destruct (ok_text _ _ _ _ _ _ _ Hg) as (texts & Ht & Hs).
  exists (g_batches g), (unwritten g s), texts. split_and!; [by eapply written_and_unwritten| |done..].
  intros t (i & p & Hp & Hin)%(idle_unwritten _ _ _ _ Hg Hi Hw). eapply Hsw; [|done..].
  rewrite <- (ok_pending_length _ _ _ _ _ _ _ Hg). by eapply lookup_lt_Some.
Qed.

(** A tick, once the threads have settled, writes every window that was
    complete when the clock was read. *)
Lemma reports msgs s now ck :
  operating msgs s → in_range W msgs → good (pl_sink s) → is_ret (writer_deadline s ck) →
  ∃ acts s', pipe_run hash s acts [] s' ∧ forallb operation acts = true ∧
    (∀ now' ck', ActTimeout now' ck' ∈ acts → now' = now) ∧ operating msgs s' ∧
    ∃ batches late texts, concat batches ++ late ≡ₚ trades_of msgs ∧
      (∀ t, t ∈ late → window_start_of W (to_u64 now) ≤ start_of W t) ∧
      mapM (batch_text W) batches = Ret texts ∧ sink_text (pl_sink s') = sink_text sink +:+ string_concat texts.
Proof.
  intros Hop Hr Hk Hck. pose proof (pipe_measure_nonneg s).
  destruct (settles (Z.to_nat (pipe_measure s)) _ _ Hop Hr Hk ltac:(lia))
    as (acts1 & s1 & Hrun1 & Hall & _ & Hop1 & Hk1 & Hi1 & Hw1).
  destruct (tick _ _ now ck Hop1 Hr Hk1 Hi1 Hw1) as (g & s2 & Hrun2 & Hop2 & _ & Hi2 & Hw2 & Hg2 & Hsw).
  { unfold writer_deadline. by rewrite (flush_interval_run _ _ _ _ _ Hrun1). }
  exists (acts1 ++ ActTimeout now ck :: replicate (Datatypes.S shards) ActWriterFlush), s2.
  rewrite forallb_forall in Hall. split_and!.
  - exact (run_trans _ _ _ _ _ _ _ Hrun1 Hrun2).
  - apply forallb_forall. intros a Ha%list_elem_of_In. rewrite elem_of_app, elem_of_cons in Ha.
    destruct Ha as [Ha%list_elem_of_In%Hall|[->|[-> _]%elem_of_replicate]]; [by destruct a|done..].
  - intros now' ck'. rewrite elem_of_app, elem_of_cons.
    intros [Ha%list_elem_of_In%Hall|[[= -> _]|[? _]%elem_of_replicate]]; done.
  - done.
  - by eapply swept_report.
Qed.
End operation.
