(* ===== verification/Lifecycle.v ===== *)
(** * Calling [start] again

    [Pipeline.start] is the first call of [MarketDataPipeline::start], the
    only one that [main] makes.  Here are the others: on a pipeline that runs
    the call ends the process, because a joinable thread object is assigned
    to; on one that has been stopped it creates threads that end at once. *)

From S2P Require Import Prelude CString DecimalFp StdMap Aggregator AggregatorSpec AggregatorProps.
From S2P Require Import Output Json JsonRef TradeParser Totals BoundedQueue QueueProps.
From S2P Require Import Snapshots Pipeline PipelineInv PipelineLive PipelineProps Punctual Defined Operation.

(** [std::terminate], or the state afterwards. *)
Inductive start_result (S : Type) :=
  | Terminated
  | StartedAs (s : pipeline S).
Arguments Terminated {S}.
Arguments StartedAs {S} _.

Section lifecycle.
Context {S : Type} `{OutputSink S} `{J : JsonLib}.
Variable hash : string → Z.
Implicit Types (s : pipeline S).

(** [start], when no call of [stop] is in progress: [parser_thread_] and
    [writer_thread_] are assigned to; new objects are added to
    [aggregation_threads_], behind those that have been joined. *)
Definition start_call s : option (start_result S) :=
  match pl_stop s with
  | NotStopping =>
      Some (match pl_parser s, pl_writer s with
            | None, None =>
                StartedAs {| pl_window_ms := pl_window_ms s; pl_flush_interval_ms := pl_flush_interval_ms s;
                             pl_raw_queue := pl_raw_queue s;
                             pl_shards := pl_shards s; pl_sink := pl_sink s;
                             pl_parser := Some ParserPop;
                             pl_aggs := replicate (length (pl_shards s)) (Some AggPop);
                             pl_writer := Some WriterWait;
                             pl_stop_requested := pl_stop_requested s; pl_stop := pl_stop s |}
            | _, _ => Terminated
            end)
  | _ => None
  end.

(** The steps of a pipeline on which [start] may be called at any time. *)
Definition life_step s (a : action) : option (outcome (pipeline S)) :=
  match a with
  | ActStart => match start_call s with Some (StartedAs s') => Some (Ret s') | _ => None end
  | ActStartRefused => match start_call s with Some _ => Some (Throw thread_refused) | None => None end
  | a => pipe_step hash s a
  end.

Inductive life_run s1 : list action → list string → pipeline S → Prop :=
  | life_refl : life_run s1 [] [] s1
  | life_next acts msgs s a s' :
      life_run s1 acts msgs s → life_step s a = Some (Ret s') →
      life_run s1 (acts ++ [a]) (msgs ++ accepted_by s a) s'.

(** The first call is the one of [Pipeline.start]. *)
Lemma start_call_first st s s' :
  phase_ok st s → start s = Some (Ret s') → start_call s = Some (StartedAs s').
Proof.
  intros Hph Hs. unfold start in Hs. unfold start_call.
  destruct (pl_parser s) eqn:Hp, (pl_stop_requested s) eqn:Hr, (pl_stop s) eqn:Hst; simplify_eq.
  by destruct (phase_threads_fresh _ _ Hph Hp Hr) as [-> _].
Qed.

(** ** A pipeline that has been stopped *)

(** Nothing will ever get through it again, whichever threads exist. *)
Record inert s : Prop := {
  in_raw : drained (pl_raw_queue s);
  in_shards i sh : pl_shards s !! i = Some sh → drained (sh_queue sh) ∧ agg_windows (sh_aggregator sh) = [];
  in_stop : pl_stop_requested s = true;
  in_parser t : pl_parser s ≠ Some (ParserPush t);
  in_aggs i t : pl_aggs s !! i ≠ Some (Some (AggAdd t));
  in_writer cur i ws : pl_writer s ≠ Some (WriterExtract cur i ws)
}.

Lemma drained_pop {T} (q : BoundedQueue T) : drained q → pop q = Some (None, q).
Proof. intros [Hs Hi]. unfold pop, not_empty, pop_locked. by rewrite Hs, Hi. Qed.

Lemma drained_push {T} (q : BoundedQueue T) x : drained q → push q x = Some (false, q).
Proof. intros [Hs Hi]. unfold push, not_full, push_locked. by rewrite Hs. Qed.

(** A thread that has just been created ends with its first step. *)
Lemma inert_ends s :
  inert s →
  (pl_parser s = Some ParserPop → run_parser_stage hash s = Some (Ret (set_parser s (Some ParserDone)))) ∧
  (∀ i sh, pl_shards s !! i = Some sh → pl_aggs s !! i = Some (Some AggPop) →
    run_aggregation_stage s i = Some (Ret (set_agg s i (Some AggDone)))) ∧
  (∀ ck, pl_writer s = Some WriterWait → is_ret (writer_deadline s ck) →
    writer_wait s ck = Some (Ret (set_writer s (Some WriterDone)))).
Proof.
  intros []. split_and!.
  - intros Hp. unfold run_parser_stage. rewrite Hp, (drained_pop _ in_raw0). cbn. by destruct s.
  - intros i sh Hi Ha. destruct (in_shards0 _ _ Hi) as [Hd _]. unfold run_aggregation_stage.
    rewrite Hi. cbn. rewrite Ha, (drained_pop _ Hd). cbn. unfold set_shard, set_agg, set_queue. cbn.
    rewrite list_insert_id; [by destruct s|]. by destruct sh.
  - intros ck Hw Hck. by apply writer_wait_Ret.
Qed.

Lemma stopped_inert s :
  phase_ok true s → stopped s → inert s.
Proof.
  intros Hph Hs. destruct (stopped_final _ _ Hph Hs) as ((Hraw & Hp & Hsh & Ha) & He & Hw & Hr). split.
  - exact (ph_parser_joined _ _ Hph eq_refl Hp).
  - intros i sh Hi. destruct (phase_shard _ _ _ _ Hph Hi) as (p & Hpi & Hsp). apply Ha in Hpi as ->.
    split; [by apply (sp_joined _ _ _ _ Hsp)|by eapply He].
  - done.
  - by rewrite Hp.
  - intros i t Hi. by apply Ha in Hi.
  - by rewrite Hw.
Qed.

Lemma inert_stop s s' : inert s → stop s = Some (Ret s') → inert s' ∧ pl_sink s' = pl_sink s.
Proof.
  intros [] Hs. unfold stop in Hs. destruct (pl_stop s) as [| | |i|i|]; [done|..].
  - destruct (can_join_writer s); simplify_eq. split; [|done]. split; try done. by destruct in_raw0.
  - destruct (can_join_parser s); simplify_eq. split; [|done]. by split.
  - destruct (pl_shards s !! i) as [sh|] eqn:Hi; simplify_eq; (split; [|done]); split; try done. cbn.
    intros j sh' [(<- & <- & _)|[_ Hj]]%list_lookup_insert_Some; [|eauto].
    destruct (in_shards0 _ _ Hi) as [[? ?] ?]. by split.
  - destruct (pl_aggs s !! i) as [[[]|]|] eqn:Hi; simplify_eq; (split; [|done]); split; try done; cbn;
      by intros j t [(_ & ? & _)|[_ ?%in_aggs0]]%list_lookup_insert_Some.
  - unfold flush_remaining_windows in Hs. rewrite take_remaining_emptied in Hs by by intros ? ? [_ ?]%in_shards0.
    cbn in Hs. simplify_eq. split; [|done]. by split.
Qed.

Lemma inert_step s a s' :
  inert s → life_step s a = Some (Ret s') → inert s' ∧ pl_sink s' = pl_sink s ∧ accepted_by s a = [].
Proof.
  intros Hin Hs. pose proof Hin as []. destruct (inert_ends _ Hin) as (Hparser & Hagg & _).
  destruct a as [m| |now ck| | |i|ck| | |]; cbn [life_step pipe_step accepted_by] in *.
  - unfold submit_raw_message in *. rewrite (drained_push _ m in_raw0) in *. cbn in *. simplify_eq. split; [|done]. by split.
  - unfold start_call in Hs. destruct (pl_stop s), (pl_parser s), (pl_writer s); simplify_eq. split; [|done].
    split; try done. cbn. by intros i t [[= ?] _]%lookup_replicate.
  - apply writer_timeout_Ret in Hs as (_ & ? & _). congruence.
  - unfold stop_request in Hs. destruct (pl_stop s); simplify_eq. split; [|done]. by split.
  - assert (pl_parser s = Some ParserPop) as Hp.
    { unfold run_parser_stage in Hs. destruct (pl_parser s) as [[|t|]|]; try done. by destruct (in_parser0 t). }
    rewrite (Hparser Hp) in Hs. simplify_eq. split; [|done]. by split.
  - assert (∃ sh, pl_shards s !! i = Some sh ∧ pl_aggs s !! i = Some (Some AggPop)) as (sh & Hi & Ha).
    { unfold run_aggregation_stage in Hs. destruct (pl_shards s !! i) as [sh|]; cbn in Hs; [|done].
      destruct (pl_aggs s !! i) as [[[|t|]|]|] eqn:Ha; try done; [by eauto|]. by destruct (in_aggs0 i t). }
    rewrite (Hagg _ _ Hi Ha) in Hs. simplify_eq. split; [|done]. split; try done. cbn.
    by intros j t [(_ & ? & _)|[_ ?%in_aggs0]]%list_lookup_insert_Some.
  - apply writer_wait_Ret in Hs as (_ & _ & _ & ->). split; [|done]. by split.
  - unfold flush_completed_windows in Hs. destruct (pl_writer s) as [[|cur i ws|]|]; try done.
    by destruct (in_writer0 cur i ws).
  - destruct (inert_stop _ _ Hin Hs). done.
  - by destruct (start_call s).
Qed.
End lifecycle.


(** ** Properties *)

Section runs.
Context {S : Type} `{OutputSink S} `{J : JsonLib} `{!JsonLaws J}.
Variables (hash : string → Z) (W FI cap : Z) (sink : S) (threads : Z).
Hypothesis HW : W ≠ 0.

(** C30: calling [start] again.  On a pipeline that has been started and runs
    the call ends the process.  On one that has been started and stopped it
    returns, and is without effect: however often [start] and [stop] are then
    called, and whatever is submitted, no message is accepted, the sink is not
    written to, and every thread ends with its first step. *)
Theorem start_again acts msgs s :
  pipe_run hash (new_pipeline W FI cap sink threads) acts msgs s → existsb is_start acts = true →
  (running s → start_call s = Some Terminated) ∧
  (stopped s → (∃ s1, start_call s = Some (StartedAs s1)) ∧
    ∀ acts' msgs' s', life_run hash s acts' msgs' s' →
      msgs' = [] ∧ pl_sink s' = pl_sink s ∧
      (pl_parser s' = Some ParserPop → run_parser_stage hash s' = Some (Ret (set_parser s' (Some ParserDone)))) ∧
      (∀ i sh, pl_shards s' !! i = Some sh → pl_aggs s' !! i = Some (Some AggPop) →
        run_aggregation_stage s' i = Some (Ret (set_agg s' i (Some AggDone)))) ∧
      (∀ ck, pl_writer s' = Some WriterWait → is_ret (writer_deadline s' ck) →
        writer_wait s' ck = Some (Ret (set_writer s' (Some WriterDone))))).
Proof.
  intros Hrun Hst. destruct (run_ok hash W FI cap sink threads HW _ _ _ Hrun) as (g & _ & Hph). rewrite Hst in Hph. split.
  - intros Hr. pose proof (run_operating hash W FI cap sink threads HW _ _ _ Hrun Hst Hr) as Hop.
    destruct (operating_open _ _ _ _ _ _ Hop) as (_ & Hp & _). unfold start_call. rewrite (proj2 Hr).
    by destruct Hp as [->|[t ->]].
  - intros Hs. split.
    { destruct (stopped_final _ _ Hph Hs) as ((_ & Hp & _) & _ & Hw & _). unfold start_call.
      rewrite (proj1 Hs), Hp, Hw. eauto. }
    intros acts' msgs' s' Hrun'.
    enough (inert s' ∧ msgs' = [] ∧ pl_sink s' = pl_sink s) as (Hin & -> & ->)
      by (split; [done|]; split; [done|]; by apply inert_ends).
    induction Hrun' as [|acts1 msgs1 s1 a s2 _ (Hin & -> & Hsk) Hs1]; [by eauto using stopped_inert|].
    destruct (inert_step _ _ _ _ Hin Hs1) as (? & ? & ->). split_and!; [done..|congruence].
Qed.
End runs.

(** ** Evaluated examples *)

Section exec.
Context {S : Type} `{OutputSink S} `{J : JsonLib}.
Variable hash : string → Z.

Fixpoint life_exec (s : pipeline S) (acts : list action) : option (list string * pipeline S) :=
  match acts with
  | [] => Some ([], s)
  | a :: acts =>
      match life_step hash s a with
      | Some (Ret s') => '(msgs, s'') ← life_exec s' acts; Some (accepted_by s a ++ msgs, s'')
      | _ => None
      end
  end.

Lemma life_exec_sound s1 acts0 msgs0 s acts msgs s' :
  life_run hash s1 acts0 msgs0 s → life_exec s acts = Some (msgs, s') →
  life_run hash s1 (acts0 ++ acts) (msgs0 ++ msgs) s'.
Proof.
  revert acts0 msgs0 s msgs. induction acts as [|a acts IH]; intros acts0 msgs0 s msgs Hrun Hs; cbn [life_exec] in Hs.
  { simplify_eq. by rewrite !app_nil_r. }
  destruct (life_step hash s a) as [[s2| |]|] eqn:Hstep; try done.
  destruct (life_exec s2 acts) as [[msgs1 s3]|] eqn:Hex; cbn in Hs; [|done]. simplify_eq.
  pose proof (IH _ _ _ _ (life_next hash s1 _ _ _ _ _ Hrun Hstep) Hex) as Hr. by rewrite <- !app_assoc in Hr.
Qed.

Definition life_result (s : pipeline S) (acts : list action) : list string * pipeline S :=
  default ([], s) (life_exec s acts).

Lemma life_result_ok s acts :
  bool_decide (is_Some (life_exec s acts)) = true →
  life_run hash s acts (life_result s acts).1 (life_result s acts).2.
Proof.
  unfold life_result. destruct (life_exec s acts) as [[msgs s']|] eqn:Hex; [|done]. intros _.
  exact (life_exec_sound s [] [] s _ _ _ (life_refl hash s) Hex).
Qed.
End exec.

(** Stopped, started, fed and stopped again. *)
Definition again : list action :=
  [ActStart; ActSubmit bare_message; ActParser; ActAgg 0; ActAgg 1; ActWriterWait 0; ActStopRequest] ++ replicate 9 ActStop.

Abbreviation stopped2 := (run_result example_hash (example_start 2) two_shards_stop).

Abbreviation started_again := (life_result example_hash stopped2.2 again).

Lemma start_again_witness :
  start_call (run_result example_hash (example_start 2) [ActStart]).2 = Some Terminated ∧
  pl_stop started_again.2 = NotStopping ∧
  started_again.1 = [] ∧ pl_sink started_again.2 = pl_sink stopped2.2.
Proof.
  split; [|split; [vm_compute; reflexivity|]].
  - apply (start_again example_hash 1000 500 4 empty_file 2 ltac:(lia) [ActStart] [] _).
    + apply (run_result_ok example_hash (example_start 2) [ActStart]). vm_compute. reflexivity.
    + reflexivity.
    + split; vm_compute; reflexivity.
  - destruct (start_again example_hash 1000 500 4 empty_file 2 ltac:(lia) two_shards_stop stopped2.1 stopped2.2)
      as [_ [_ Hagain]].
    + apply run_result_ok. vm_compute. reflexivity.
    + vm_compute. reflexivity.
    + split; vm_compute; reflexivity.
    + destruct (Hagain again started_again.1 started_again.2) as (? & ? & _); [|split; assumption].
      apply life_result_ok. vm_compute. reflexivity.
Defined.

(** A pipeline that is stopped without ever having been started forgets what
    was submitted to it: starting it then does not bring it back. *)
Example unstarted_stop_forgets :
  (λ r, (r.1, pl_stop r.2, fos_file (pl_sink r.2))) <$>
    life_exec example_hash (example_start 1)
      ([ActSubmit bare_message; ActStopRequest] ++ replicate 7 ActStop ++
       [ActStart; ActParser; ActParser; ActParser; ActAgg 0; ActWriterWait 0; ActStopRequest] ++ replicate 7 ActStop) =
  Some ([bare_message], NotStopping, "").
Proof. vm_compute. reflexivity. Qed.
