(* ===== verification/Main.v ===== *)
(** * The program

    app/main.cpp up to the start of the stages: the command line, the
    configuration, the construction of the sink and the stages, and the log
    lines on the way.  What runs from there on is in [Service]. *)

From S2P Require Import Prelude CString DecimalFp StdMap Aggregator Output Json.
From S2P Require Import JsonRef TradeParser ConfigLoader Cli ConnectionError ReconnectPolicy Totals.
From S2P Require Import BoundedQueue QueueProps NetworkStage Snapshots Pipeline PipelineInv PipelineLive.
From S2P Require Import PipelineProps.

(** ** Texts *)

(** The loop of [join_symbols] from index [i] on. *)
Fixpoint append_symbols (joined : string) (i : nat) (symbols : list string) : string :=
  match symbols with
  | [] => joined
  | symbol :: symbols =>
      let joined := match i with O => joined | S _ => joined +:+ "," end in
      append_symbols (joined +:+ symbol) (S i) symbols
  end.

Definition join_symbols (symbols : list string) : string := append_symbols "" 0 symbols.

Definition stage_to_string (stage : ConnectionStage) : string :=
  match stage with
  | Resolve => "resolve"
  | TcpConnect => "tcp_connect"
  | TlsHandshake => "tls_handshake"
  | WebSocketHandshake => "websocket_handshake"
  | Read => "read"
  end.

Definition kind_to_string (kind : ConnectionErrorKind) : string :=
  match kind with
  | DnsFailure => "dns_failure"
  | TcpConnectFailure => "tcp_connect_failure"
  | TlsHandshakeFailure => "tls_handshake_failure"
  | WebSocketHandshakeFailure => "websocket_handshake_failure"
  | ReadFailure => "read_failure"
  | Timeout => "timeout"
  | ServerDisconnect => "server_disconnect"
  | Unknown => "unknown"
  end.

(** ** Log lines *)

Inductive log_level := LogInfo | LogWarn | LogError.

Abbreviation log_entry := (log_level * string)%type.

Definition what (e : exn) : string :=
  match e with
  | InvalidArgument text | RuntimeError text | LengthError text | SystemError text | JsonException text => text
  end.

(** The configuration as it is logged; [fmt_double] is how the formatting
    library prints a [double]. *)
Definition config_log (fmt_double : spec_float → string) (config : Config) : list log_entry :=
  let reconnect := cf_reconnect config in
  [(LogInfo, "Config: symbols=[" +:+ join_symbols (cf_symbols config) +:+ "]");
   (LogInfo, "Config: window_ms=" +:+ to_string_u64 (cf_window_ms config) +:+
             " flush_interval_ms=" +:+ to_string_u64 (cf_flush_interval_ms config));
   (LogInfo, "Config: aggregator_threads=" +:+ to_string_u64 (cf_aggregator_threads config));
   (LogInfo, "Config: output_file=" +:+ cf_output_file config);
   (LogInfo, "Config: ws_host=" +:+ cf_ws_host config +:+ " ws_port=" +:+ cf_ws_port config);
   (LogInfo, "Config: reconnect initial_backoff_ms=" +:+ to_string_u64 (rc_initial_backoff_ms reconnect) +:+
             " max_backoff_ms=" +:+ to_string_u64 (rc_max_backoff_ms reconnect) +:+
             " jitter_ratio=" +:+ fmt_double (rc_jitter_ratio reconnect))].

(** What the error handler that [main] passes to the network stage logs;
    [ec_message] is [boost::system::error_code::message]. *)
Definition connection_issue {E} (ec_message : E → string)
    (report : ConnectionStage * ConnectionErrorKind * E) : log_entry :=
  let '(stage, kind, ec) := report in
  (LogWarn, "WebSocket connection issue: stage=" +:+ stage_to_string stage +:+
            " kind=" +:+ kind_to_string kind +:+ " error=" +:+ ec_message ec).

(** ** Startup *)

Definition kQueueCapacity : Z := 4096.

(** What the outside world does when [main] asks: the contents of the files
    that can be opened for reading, and whether, with which contents and with
    which fate for later writes the output file is opened. *)
Record environment := {
  env_read : string → option string;
  env_output_opens : bool;
  env_output_contents : string;
  env_output_writes : list (option nat)
}.

(** The stages [main] has built: the pipeline, and the network stage, which
    pushes into the raw queue of the pipeline. *)
Record service (E : Type) := {
  sv_config : Config;
  sv_pipeline : pipeline FileOutputSink;
  sv_target : string;
  sv_network : NetworkStage E
}.
Arguments sv_config {E} _.
Arguments sv_pipeline {E} _.
Arguments sv_target {E} _.
Arguments sv_network {E} _.

Inductive startup (E : Type) :=
  | ExitFailure
  | Started (sv : service E).
Arguments ExitFailure {E}.
Arguments Started {E} _.

Section main.
Context `{J : JsonLib} {E : Type}.
Variable fmt_double : spec_float → string.

(** [main] up to the start of the stages: what is logged, and how it ends.
    The two [try] blocks catch every exception of the command line and the
    configuration. *)
Definition main_startup (env : environment) (argv : list string) :
    list log_entry * outcome (startup E) :=
  let log := [(LogInfo, "Binance Aggregator service starting")] in
  match parse_cli_options argv with
  | Throw error =>
      (log ++ [(LogError, "Failed to parse command-line arguments: " +:+ what error)], Ret ExitFailure)
  | Undef => (log, Undef)
  | Ret options =>
      let log := log ++ [(LogInfo, "Loading configuration from '" +:+ config_path options +:+ "'")] in
      match load_from_file (config_path options) (env_read env (config_path options)) with
      | Throw error =>
          (log ++ [(LogError, "Failed to load configuration: " +:+ what error)], Ret ExitFailure)
      | Undef => (log, Undef)
      | Ret config =>
          let log := log ++ config_log fmt_double config in
          match open_FileOutputSink (cf_output_file config) (env_output_opens env)
                  (env_output_contents env) (env_output_writes env) with
          | Throw error => (log, Throw error)
          | Undef => (log, Undef)
          | Ret sink =>
              match construct_pipeline (cf_window_ms config) (cf_flush_interval_ms config) kQueueCapacity sink
                      (cf_aggregator_threads config) with
              | Throw error => (log, Throw error)
              | Undef => (log, Undef)
              | Ret pipeline =>
                  (log ++ [(LogInfo, "Starting market data pipeline and network stage")],
                   Ret (Started {| sv_config := config; sv_pipeline := pipeline;
                                   sv_target := build_combined_stream_target (cf_symbols config);
                                   sv_network := new_stage (pl_raw_queue pipeline) (cf_reconnect config) |}))
              end
          end
      end
  end.

Context `{!JsonLaws J}.

Lemma load_valid path file c : load_from_file path file = Ret c → config_valid c.
Proof.
  unfold load_from_file. destruct file as [text|]; [|done].
  destruct (json_read text) as [root|what]; [|done]. intros Hc.
  apply (config_says_valid root). by apply (parse_config_json_computes root).
Qed.

Lemma load_no_undef path file : load_from_file path file ≠ Undef.
Proof.
  unfold load_from_file. destruct file as [text|]; [|done].
  destruct (json_read text) as [root|what]; [|done]. apply (parse_config_json_computes root).
Qed.

Lemma cli_no_undef argv : parse_cli_options argv ≠ Undef.
Proof.
  unfold parse_cli_options. destruct (args_render (drop 1 argv)) as (l & Hl & [-> | ->]).
  - by rewrite <- (app_nil_r (render l)), scan_args_render.
  - by rewrite scan_args_render.
Qed.

Lemma startup_started env argv log sv :
  main_startup env argv = (log, Ret (Started sv)) →
  config_valid (sv_config sv) ∧ env_output_opens env = true ∧
  sv_pipeline sv = new_pipeline (cf_window_ms (sv_config sv)) (cf_flush_interval_ms (sv_config sv)) kQueueCapacity
    {| fos_file := env_output_contents env; fos_good := true; fos_os := env_output_writes env |}
    (cf_aggregator_threads (sv_config sv)) ∧
  sv_network sv = new_stage (pl_raw_queue (sv_pipeline sv)) (cf_reconnect (sv_config sv)) ∧
  sv_target sv = build_combined_stream_target (cf_symbols (sv_config sv)).
Proof.
  unfold main_startup, open_FileOutputSink. intros Hm.
  destruct (parse_cli_options argv) as [options| |]; try done.
  destruct (load_from_file _ _) as [config| |] eqn:Hload; try done.
  destruct (env_output_opens env); [|done]. unfold construct_pipeline in Hm.
  destruct (max_shards <? Z.max (cf_aggregator_threads config) 1); [done|].
  apply pair_eq in Hm as [_ Hm]. inv_ret. cbn. split_and!; [by eapply load_valid|done..].
Qed.

(** ** Properties *)

(** C35: the outcomes of startup: whatever the command line, the configuration
    file and the disk, [main] either exits with a failure status after logging
    an error because the command line or the configuration was rejected, or
    ends with [std::runtime_error] because the output file could not be opened,
    or ends with [std::length_error] because more shards are configured than a
    vector can hold, or starts, without an error in the log, with a valid
    configuration, as many shards as configured, room for at least one trade in
    every shard queue, and a stream for every symbol. *)
Theorem main_startup_safe env argv :
  let '(log, result) := main_startup env argv in
  match result with
  | Ret ExitFailure =>
      (∃ text, last log = Some (LogError, text)) ∧
      ((∃ e, parse_cli_options argv = Throw e) ∨
       (∃ options e, parse_cli_options argv = Ret options ∧
          load_from_file (config_path options) (env_read env (config_path options)) = Throw e))
  | Ret (Started sv) =>
      (∀ text, (LogError, text) ∉ log) ∧ config_valid (sv_config sv) ∧
      cf_aggregator_threads (sv_config sv) ≤ max_shards ∧
      Z.of_nat (length (pl_shards (sv_pipeline sv))) = cf_aggregator_threads (sv_config sv) ∧
      (∀ sh, sh ∈ pl_shards (sv_pipeline sv) → 1 ≤ bq_capacity (sh_queue sh)) ∧
      sv_target sv = build_combined_stream_target (cf_symbols (sv_config sv))
  | Throw e =>
      (env_output_opens env = false ∧ is_runtime_error e) ∨
      (env_output_opens env = true ∧ e = LengthError "vector::reserve" ∧
       ∃ options config, parse_cli_options argv = Ret options ∧
         load_from_file (config_path options) (env_read env (config_path options)) = Ret config ∧
         max_shards < cf_aggregator_threads config)
  | Undef => False
  end.
Proof.
  unfold main_startup, open_FileOutputSink. pose proof (cli_no_undef argv) as Hcli.
  destruct (parse_cli_options argv) as [options|e|]; [|split; [eexists; apply last_snoc|eauto]|done].
  pose proof (load_no_undef (config_path options) (env_read env (config_path options))) as Hload.
  destruct (load_from_file _ _) as [config|e|] eqn:Hl; [|split; [eexists; apply last_snoc|eauto 6]|done].
  destruct (env_output_opens env); [|left; split; [done|by eexists]].
  pose proof (load_valid _ _ _ Hl) as Hv. pose proof Hv as (_ & _ & _ & _ & [Hth _] & _). unfold construct_pipeline.
  destruct (Z.ltb_spec max_shards (Z.max (cf_aggregator_threads config) 1)) as [Hlt|Hle].
  { right. split; [done|]. split; [done|]. exists options, config. split_and!; [done..|lia]. }
  cbn [sv_config sv_pipeline sv_target]. split_and!; [|done|lia|..|done].
  - intros text Hin. unfold config_log in Hin. cbn in Hin.
    repeat (apply elem_of_cons in Hin as [Hin|Hin]; [done|]). by apply not_elem_of_nil in Hin.
  - cbn. rewrite length_replicate. lia.
  - cbn. intros sh [-> _]%elem_of_replicate. cbn. apply Z.le_max_r.
Qed.
End main.

(** ** Evaluated examples *)

Definition example_env : environment :=
  {| env_read path := if bool_decide (path = "my.json") then Some example_config_text else None;
     env_output_opens := true; env_output_contents := ""; env_output_writes := [] |}.

Lemma main_startup_safe_witness :
  let '(log, result) := main_startup (E := unit) (λ _, "0.2") example_env ["binance_aggregator"] in
  match result with
  | Ret ExitFailure =>
      (∃ text, last log = Some (LogError, text)) ∧
      ((∃ e, parse_cli_options ["binance_aggregator"] = Throw e) ∨
       (∃ options e, parse_cli_options ["binance_aggregator"] = Ret options ∧
          load_from_file (config_path options) (env_read example_env (config_path options)) = Throw e))
  | _ => False
  end.
Proof.
  pose proof (main_startup_safe (E := unit) (λ _, "0.2") example_env ["binance_aggregator"]) as H.
  assert ((main_startup (E := unit) (λ _, "0.2") example_env ["binance_aggregator"]).2 = Ret ExitFailure) as Hm
    by (vm_compute; reflexivity).
  destruct (main_startup (E := unit) (λ _, "0.2") example_env ["binance_aggregator"]) as [log result].
  cbn in Hm. subst result. exact H.
Defined.
