(* ===== verification/Service.v ===== *)
(** * The running program

    app/main.cpp from the start of the stages on: the main thread, which
    starts the pipeline and the network stage, polls the flag that the signal
    handler sets, and stops the network stage before the pipeline, first
    explicitly and then again in the destructors; the network thread; and the
    threads of the pipeline.  The network stage holds a reference to the raw
    queue of the pipeline: there is one queue, and it is the pipeline's. *)

From S2P Require Import Prelude CString DecimalFp StdMap Aggregator Output Json.
From S2P Require Import JsonRef TradeParser ConfigLoader Cli ConnectionError ReconnectPolicy Totals.
From S2P Require Import BoundedQueue NetworkStage Snapshots Pipeline Main.

(** ** State *)

(** Where [main] is; the calls of [stop] are made twice, the second time
    ([destroying]) by the destructors. *)
Inductive main_pc :=
  | MainStartPipeline
  | MainStartNetwork
  | MainWait
  | MainStopNetwork (destroying : bool)
  | MainRequestPipeline (destroying : bool)
  | MainStopPipeline (destroying : bool)
  | MainExit.

Record system (E : Type) := {
  sy_pipeline : pipeline FileOutputSink;
  sy_network : NetworkStage E;
  sy_main : main_pc;
  sy_stop_requested : bool;
  sy_log : list log_entry
}.
Arguments sy_pipeline {E} _.
Arguments sy_network {E} _.
Arguments sy_main {E} _.
Arguments sy_stop_requested {E} _.
Arguments sy_log {E} _.

Section system.
Context `{J : JsonLib} `{ErrorCode E}.
Variables (hash : string → Z) (draw : spec_float → spec_float → spec_float) (ec_message : E → string).
Implicit Types (v : system E).

(** The stages have been constructed. *)
Definition new_system (log : list log_entry) (sv : service E) : system E :=
  {| sy_pipeline := sv_pipeline sv; sy_network := sv_network sv; sy_main := MainStartPipeline;
     sy_stop_requested := false; sy_log := log |}.

Definition set_main v (p : main_pc) (log : list log_entry) : system E :=
  {| sy_pipeline := sy_pipeline v; sy_network := sy_network v; sy_main := p;
     sy_stop_requested := sy_stop_requested v; sy_log := sy_log v ++ log |}.
Definition set_pipeline v (p : pipeline FileOutputSink) : system E :=
  {| sy_pipeline := p; sy_network := sy_network v; sy_main := sy_main v;
     sy_stop_requested := sy_stop_requested v; sy_log := sy_log v |}.

(** The signal handler. *)
Definition handle_shutdown_signal v : system E :=
  {| sy_pipeline := sy_pipeline v; sy_network := sy_network v; sy_main := sy_main v;
     sy_stop_requested := true; sy_log := sy_log v |}.

(** A step of the network stage, on the queue of the pipeline; what it reports
    to the error handler is logged. *)
Definition with_queue (s : NetworkStage E) (q : BoundedQueue string) : NetworkStage E :=
  {| ns_queue := q; ns_policy := ns_policy s; ns_client := ns_client s;
     ns_stop_requested := ns_stop_requested s; ns_thread := ns_thread s; ns_stop := ns_stop s;
     ns_reports := ns_reports s |}.

Definition network_step v (a : net_action E) : option (outcome (system E)) :=
  m ← net_step draw (with_queue (sy_network v) (pl_raw_queue (sy_pipeline v))) a;
  Some (s ← m;
        Ret {| sy_pipeline := set_raw_queue (sy_pipeline v) (ns_queue s); sy_network := s;
               sy_main := sy_main v; sy_stop_requested := sy_stop_requested v;
               sy_log := sy_log v ++ (connection_issue ec_message <$>
                                        drop (length (ns_reports (sy_network v))) (ns_reports s)) |}).

(** A step of a thread of the pipeline, or of the main thread inside it. *)
Definition pipeline_step v (a : action) : option (outcome (system E)) :=
  m ← pipe_step hash (sy_pipeline v) a; Some (p ← m; Ret (set_pipeline v p)).

(** A step of the main thread. *)
Definition main_step v : option (outcome (system E)) :=
  match sy_main v with
  | MainStartPipeline =>
      m ← pipeline_step v ActStart; Some (v ← m; Ret (set_main v MainStartNetwork []))
  | MainStartNetwork => m ← network_step v NetStart; Some (v ← m; Ret (set_main v MainWait []))
  | MainWait =>
      Some (Ret (if sy_stop_requested v
                 then set_main v (MainStopNetwork false)
                        [(LogInfo, "Shutdown signal received; stopping stages")]
                 else v))
  | MainStopNetwork destroying =>
      m ← network_step v NetStop;
      Some (v' ← m;
            Ret (match ns_stop (sy_network v) with
                 | NsJoin => set_main v' (MainRequestPipeline destroying) []
                 | _ => v'
                 end))
  | MainRequestPipeline destroying =>
      m ← pipeline_step v ActStopRequest; Some (v ← m; Ret (set_main v (MainStopPipeline destroying) []))
  | MainStopPipeline destroying =>
      m ← pipeline_step v ActStop;
      Some (v ← m;
            Ret (match pl_stop (sy_pipeline v), destroying with
                 | NotStopping, false =>
                     set_main v (MainStopNetwork true) [(LogInfo, "Binance Aggregator service stopped")]
                 | NotStopping, true => set_main v MainExit []
                 | _, _ => v
                 end))
  | MainExit => None
  end.

(** The system refuses a thread to the stage that [main] starts. *)
Definition main_refused v : option (outcome (system E)) :=
  match sy_main v with
  | MainStartPipeline => pipeline_step v ActStartRefused
  | MainStartNetwork => network_step v NetStartRefused
  | _ => None
  end.

(** ** Schedules *)

Inductive system_action :=
  | SysSignal
  | SysMain
  | SysNetwork (ev : net_event E) (elapsed : bool) (steady_ns : Z)
  | SysPipe (a : action)
  | SysRefused.

(** The steps of the pipeline's own threads and of its timer; the other calls
    are the main thread's and the network thread's. *)
Definition pipe_thread (a : action) : bool :=
  match a with
  | ActParser | ActAgg _ | ActTimeout _ _ | ActWriterWait _ | ActWriterFlush => true
  | ActSubmit _ | ActStart | ActStopRequest | ActStop | ActStartRefused => false
  end.

Definition system_step v (a : system_action) : option (outcome (system E)) :=
  match a with
  | SysSignal => Some (Ret (handle_shutdown_signal v))
  | SysMain => main_step v
  | SysNetwork ev elapsed steady_ns => network_step v (NetThread ev elapsed steady_ns)
  | SysPipe a => if pipe_thread a then pipeline_step v a else None
  | SysRefused => main_refused v
  end.

(** The message that a step reads from the connection. *)
Definition received_by v (a : system_action) : list string :=
  match a, ns_thread (sy_network v) with
  | SysNetwork (EvMessage message) _ _, Some (NetRun RunRead) => [message]
  | _, _ => []
  end.

(** Runs, with the messages received from the network. *)
Inductive system_run v0 : list system_action → list string → system E → Prop :=
  | system_refl : system_run v0 [] [] v0
  | system_next acts received v a v' :
      system_run v0 acts received v → system_step v a = Some (Ret v') →
      system_run v0 (acts ++ [a]) (received ++ received_by v a) v'.

Lemma main_refused_Throw v o : main_refused v = Some o → ∃ what, o = Throw (SystemError what).
Proof.
  unfold main_refused, pipeline_step, network_step. destruct (sy_main v); try done; cbn.
  - destruct (start_refused _) eqn:Hs; cbn; [|done]. apply start_refused_Throw in Hs as ->. intros [= <-]. eauto.
  - unfold start_stage_refused. destruct (start_stage _); cbn; [|done]. intros [= <-]. eauto.
Qed.

Lemma main_refused_Ret v v' : main_refused v ≠ Some (Ret v').
Proof. by intros [what ?]%main_refused_Throw. Qed.
End system.

Arguments system_action : clear implicits.
