(* ===== verification/ServiceProps.v ===== *)
(** * Properties of the running program

    The composition of the main thread, the network stage and the pipeline
    over the shared raw queue: every message that was received is accounted
    for, and a shutdown whose stop has been noticed always completes. *)

From stdpp Require Import relations.
From S2P Require Import Prelude CString DecimalFp StdMap Aggregator AggregatorSpec AggregatorProps.
From S2P Require Import Output Json JsonRef TradeParser ConfigLoader Cli ConnectionError.
From S2P Require Import ReconnectPolicy Totals BoundedQueue QueueProps NetworkStage NetworkProps.
From S2P Require Import Snapshots Pipeline PipelineInv PipelineLive PipelineProps.
From S2P Require Import Punctual Main Service.

Section props.
Context `{J : JsonLib} `{!JsonLaws J} `{ErrorCode E}.
Variables (hash : string → Z) (draw : spec_float → spec_float → spec_float) (ec_message : E → string).
Variables (W FI cap : Z) (sink : FileOutputSink) (threads : Z).
Implicit Types (v : system E) (n : NetworkStage E).

Notation p0 := (new_pipeline W FI cap sink threads).
Notation step := (system_step hash draw ec_message).
Notation run := (system_run hash draw ec_message).

(** ** What a step of the network stage does to the queue *)

(** The message the network thread has read and not yet pushed. *)
Definition holding (t : option net_pc) : list string :=
  match t with Some (NetRun (RunPush m)) => [m] | _ => [] end.

Definition net_received n (a : net_action E) : list string :=
  match a, ns_thread n with
  | NetThread (EvMessage m) _ _, Some (NetRun RunRead) => [m]
  | _, _ => []
  end.

Lemma client_run_queue q c p (ev : net_event E) q' c' r :
  client_run q c p ev = Some (q', c', r) →
  (∃ m b, p = RunPush m ∧ push q m = Some (b, q') ∧ r = inl RunRead) ∨
  q' = q ∧ match r, p, ev with
           | inl (RunPush m), RunRead, EvMessage m' => m = m'
           | inl (RunPush _), _, _ => False
           | _, RunRead, EvMessage _ => False
           | _, RunPush _, _ => False
           | _, _, _ => True
           end.
Proof.
  intros Hrun. unfold client_run, blocking_call in Hrun.
  destruct p, ev; cbn in Hrun; repeat (case_match; cbn in Hrun); simplify_eq; cbn in *; simplify_eq;
    try (right; done);
    (destruct (push q message) as [[b q1]|] eqn:Hp; cbn in Hrun; [|done]; simplify_eq; left; eauto 6).
Qed.

Lemma net_step_queue n a n' :
  net_step draw n a = Some (Ret n') →
  (∃ m ev elapsed ck b, a = NetThread ev elapsed ck ∧ ns_thread n = Some (NetRun (RunPush m)) ∧
     push (ns_queue n) m = Some (b, ns_queue n') ∧ ns_thread n' = Some (NetRun RunRead) ∧
     net_received n a = []) ∨
  ns_queue n' = ns_queue n ∧ holding (ns_thread n') = holding (ns_thread n) ++ net_received n a.
Proof.
  intros Hs. unfold net_received. destruct a as [| |ev elapsed ck|]; cbn in Hs.
  - right. unfold start_stage in Hs. destruct (ns_thread n) eqn:Ht; cbn in Hs; simplify_eq. done.
  - right. unfold stop_stage in Hs. rewrite app_nil_r. destruct (ns_stop n); cbn in Hs; simplify_eq; try done.
    + by destruct (ns_client n).
    + destruct (ns_thread n) as [[]|]; cbn in Hs; simplify_eq; done.
  - unfold run_stage in Hs. destruct (ns_thread n) as [[| |p|had|had| | |]|] eqn:Ht; try done.
    + right. simplify_eq. split; [done|]. cbn. by destruct (ns_stop_requested n), ev.
    + right. destruct (client_unlocked n); simplify_eq. by destruct ev.
    + destruct (ns_client n) as [c|]; [|done]. cbn in Hs.
      destruct (client_run (ns_queue n) c p ev) as [[[q c'] r]|] eqn:Hr; cbn in Hs; [|done]. simplify_eq.
      destruct (client_run_queue _ _ _ _ _ _ _ Hr) as [(m & b & -> & Hp & ->)|[-> Hq]].
      * left. exists m, ev, elapsed, ck, b. split_and!; try done. by destruct ev.
      * right. split; [done|]. cbn. destruct r as [p'|[[]|]]; [destruct p'|..]; destruct p, ev; try done.
        by subst.
    + right. destruct (client_unlocked n); simplify_eq. by destruct ev.
    + right. simplify_eq. split; [done|]. cbn. by destruct (ns_stop_requested n), had, ev.
    + right. simplify_eq. by destruct ev.
    + right. destruct (wait_for_next_attempt draw (ns_policy n) elapsed ck) as [m|]; [|done]. injection Hs as Hs.
      apply bind_Ret in Hs as ([again p] & _ & ?). inv_ret. cbn. by destruct again, ev.
  - by apply start_stage_refused_Ret in Hs.
Qed.

(** ** The invariant *)

Definition main_ok v : Prop :=
  let p := sy_pipeline v in
  let n := sy_network v in
  match sy_main v with
  | MainStartPipeline | MainStartNetwork =>
      pl_stop p = NotStopping ∧ pl_stop_requested p = false ∧ ns_thread n = None ∧ ns_stop n = NsIdle
  | MainWait => pl_stop p = NotStopping ∧ pl_stop_requested p = false ∧ ns_stop n = NsIdle
  | MainStopNetwork false => pl_stop p = NotStopping ∧ pl_stop_requested p = false
  | MainRequestPipeline false =>
      pl_stop p = NotStopping ∧ pl_stop_requested p = false ∧ ns_thread n = None ∧ ns_stop n = NsIdle
  | MainStopPipeline _ =>
      pl_stop p ≠ NotStopping ∧ pl_stop_requested p = true ∧ ns_thread n = None ∧ ns_stop n = NsIdle
  | MainStopNetwork true => stopped p ∧ ns_thread n = None
  | MainRequestPipeline true | MainExit => stopped p ∧ ns_thread n = None ∧ ns_stop n = NsIdle
  end.

Definition pipeline_started (p : main_pc) : bool :=
  match p with MainStartPipeline => false | _ => true end.

(** A step that adds a trade does so in time: before any tick of the flush
    timer after the end of the window of the trade. *)
Definition pipe_actions (acts : list (system_action E)) : list action :=
  omap (λ a, match a with SysPipe b => Some b | _ => None end) acts.
Definition system_on_time (acts : list (system_action E)) v (a : system_action E) : bool :=
  match a with SysPipe b => on_time W (pipe_actions acts) (sy_pipeline v) b | _ => true end.

(** What the steps [acts] of the program have meant for the pipeline; [on]
    says whether all trades were added in time. *)
Record history (acts : list (system_action E)) (on : bool) (pacts : list action) (msgs : list string)
    (p : pipeline FileOutputSink) : Prop := {
  hi_run : pipe_run hash p0 pacts msgs p;
  hi_ticks now : ticked pacts now → ticked (pipe_actions acts) now;
  hi_punctual : on = true → punctual_run hash W FI cap sink threads pacts msgs p
}.

Record system_ok (acts : list (system_action E)) (on : bool) (msgs received : list string) v : Prop := {
  so_run : ∃ pacts, history acts on pacts msgs (sy_pipeline v) ∧
             existsb is_start pacts = pipeline_started (sy_main v);
  so_received : received = msgs ++ holding (ns_thread (sy_network v));
  so_main : main_ok v
}.
Lemma pipe_thread_frame (p : pipeline FileOutputSink) a p' :
  pipe_thread a = true → pipe_step hash p a = Some (Ret p') →
  pl_stop p' = pl_stop p ∧ pl_stop_requested p' = pl_stop_requested p ∧ accepted_by p a = [] ∧
  is_start a = false.
Proof.
  intros Ha Hs. destruct a as [m| |now ck| | |i|ck| | |]; try done; cbn in Hs.
  - by apply writer_timeout_Ret in Hs as (_ & _ & _ & _ & ->).
  - pose proof (parser_frame _ _ _ Hs) as [_ ?]. pose proof (parser_frame_threads _ _ _ Hs) as [_ ?]. done.
  - pose proof (agg_frame _ _ _ Hs) as [_ ?]. split_and!; try done. unfold run_aggregation_stage in Hs.
    destruct (pl_shards p !! i) as [sh|]; cbn in Hs; [|done].
    destruct (pl_aggs p !! i) as [[[|t|]|]|]; try done; [|injection Hs as Hs; by inv_ret].
    destruct (pop _) as [[]|]; cbn in Hs; by simplify_eq.
  - by apply writer_wait_Ret in Hs as (_ & _ & _ & ->).
  - unfold flush_completed_windows in Hs. destruct (pl_writer p) as [[|cur i ws|]|]; try done.
    destruct (pl_shards p !! i) as [sh|]; [|injection Hs as Hs; by inv_ret].
    by destruct (extract_completed_windows (sh_aggregator sh) cur); simplify_eq.
Qed.

Lemma set_raw_queue_id (p : pipeline FileOutputSink) : set_raw_queue p (pl_raw_queue p) = p.
Proof. by destruct p. Qed.

Lemma system_open acts on msgs received v :
  system_ok acts on msgs received v → pl_stop_requested (sy_pipeline v) = false →
  bq_shutdown (pl_raw_queue (sy_pipeline v)) = false.
Proof.
  intros [(pacts & [Hrun _ _] & _) _ _] Hr. apply (phase_run hash _ _ _ _ _ (phase_new W FI cap sink threads)) in Hrun.
  apply not_true_is_false. intros Hsd. apply (ph_raw _ _ Hrun) in Hsd as [_ ?]. congruence.
Qed.

(** The network thread lives only while the pipeline accepts messages. *)
Lemma system_thread acts on msgs received v t :
  system_ok acts on msgs received v → ns_thread (sy_network v) = Some t → pl_stop_requested (sy_pipeline v) = false.
Proof.
  intros [_ _ Hm] Ht. unfold main_ok in Hm. destruct (sy_main v) as [| | |[]|[]|[]|]; naive_solver.
Qed.

Lemma on_time_weaken (acts1 acts2 : list action) (p : pipeline FileOutputSink) a :
  (∀ now, ticked acts1 now → ticked acts2 now) →
  on_time W acts2 p a = true → on_time W acts1 p a = true.
Proof.
  intros Hsub. unfold on_time. destruct a; try done. repeat (case_match; try done).
  rewrite !forallb_forall. intros Hall a' Ha%list_elem_of_In. destruct a'; try done.
  destruct (Hsub now_ms) as [ck Hck%list_elem_of_In]; [by exists steady_ns|]. apply (Hall _ Hck).
Qed.

Lemma pipe_actions_app acts1 acts2 : pipe_actions (acts1 ++ acts2) = pipe_actions acts1 ++ pipe_actions acts2.
Proof. apply omap_app. Qed.

(** A step that leaves the pipeline alone. *)
Lemma history_frame acts on pacts msgs p a b :
  history acts on pacts msgs p → history (acts ++ [a]) (on && b) pacts msgs p.
Proof.
  intros [Hrun Ht Hp]. split; [done| |].
  - intros now ?%Ht. rewrite pipe_actions_app, ticked_app. auto.
  - intros [? _]%andb_true_iff. auto.
Qed.

(** A step [b] of the pipeline: of one of its threads, or of the main thread
    or the network thread inside it. *)
Lemma history_extend acts on pacts msgs v b p' a :
  history acts on pacts msgs (sy_pipeline v) → pipe_step hash (sy_pipeline v) b = Some (Ret p') →
  a = SysPipe b ∨ pipe_thread b = false →
  history (acts ++ [a]) (on && system_on_time acts v a) (pacts ++ [b])
    (msgs ++ accepted_by (sy_pipeline v) b) p'.
Proof.
  intros [Hrun Ht Hp] Hs Ha. split; [by econstructor| |].
  - intros now. rewrite pipe_actions_app, !ticked_app. intros [?%Ht|[ck Hb%list_elem_of_singleton]]; [auto|].
    subst b. right. destruct Ha as [->|?]; [|done]. exists ck. left.
  - intros [Hon Hot]%andb_true_iff. econstructor; [by apply Hp| |done].
    destruct Ha as [->|Hb]; [|by destruct b]. by eapply on_time_weaken.
Qed.

Lemma history_started acts on pacts msgs v b p' a started :
  history acts on pacts msgs (sy_pipeline v) → existsb is_start pacts = started →
  pipe_step hash (sy_pipeline v) b = Some (Ret p') → a = SysPipe b ∨ pipe_thread b = false →
  ∃ pacts', history (acts ++ [a]) (on && system_on_time acts v a) pacts'
              (msgs ++ accepted_by (sy_pipeline v) b) p' ∧
            existsb is_start pacts' = started || is_start b.
Proof.
  intros Hrun <- Hs Ha. eexists. split; [by eapply history_extend|].
  rewrite existsb_app. cbn. by rewrite orb_false_r.
Qed.

(** What a step of the network stage does to the system. *)
Lemma system_on_time_other acts v a : (∀ b, a ≠ SysPipe b) → system_on_time acts v a = true.
Proof. intros Ha. destruct a; try done. by destruct (Ha a). Qed.

Lemma network_step_ok acts on msgs received v a v' sa :
  system_ok acts on msgs received v → network_step draw ec_message v a = Some (Ret v') →
  (∀ b, sa ≠ SysPipe b) →
  ∃ msgs' pacts,
    history (acts ++ [sa]) (on && true) pacts msgs' (sy_pipeline v') ∧
    existsb is_start pacts = pipeline_started (sy_main v) ∧
    received ++ net_received (sy_network v) a = msgs' ++ holding (ns_thread (sy_network v')) ∧
    pl_stop (sy_pipeline v') = pl_stop (sy_pipeline v) ∧
    pl_stop_requested (sy_pipeline v') = pl_stop_requested (sy_pipeline v) ∧ sy_main v' = sy_main v ∧
    net_step draw (with_queue (sy_network v) (pl_raw_queue (sy_pipeline v))) a = Some (Ret (sy_network v')).
Proof.
  intros Hok Hs Hsa. unfold network_step in Hs.
  destruct (net_step draw _ a) as [m|] eqn:Hn; cbn in Hs; [|done]. injection Hs as Hs.
  apply bind_Ret in Hs as (n' & -> & ?). inv_ret. cbn [sy_pipeline sy_network sy_main].
  destruct (so_run _ _ _ _ _ Hok) as (pacts & Hrun & Hb). pose proof (so_received _ _ _ _ _ Hok) as Hrec.
  destruct (net_step_queue _ _ _ Hn) as [(m & ev & elapsed & ck & b & -> & Ht & Hp & Ht' & Hr)|[Hq Hh]].
  - cbn in Ht, Hp. pose proof (system_open _ _ _ _ _ Hok (system_thread _ _ _ _ _ _ Hok Ht)) as Hopen.
    assert (b = true) as -> by (apply push_Some in Hp as [(? & _)|(_ & _ & ? & _)]; congruence).
    assert (submit_raw_message (sy_pipeline v) m = Some (true, set_raw_queue (sy_pipeline v) (ns_queue n')))
      as Hsub by (unfold submit_raw_message; by rewrite Hp).
    destruct (history_started _ _ _ _ v (ActSubmit m) (set_raw_queue (sy_pipeline v) (ns_queue n')) sa _ Hrun Hb)
      as (pacts' & Hrun' & Hb'); [cbn; by rewrite Hsub|by right|].
    rewrite system_on_time_other in Hrun' by done. cbn [accepted_by] in Hrun'. rewrite Hsub in Hrun'. cbn in Hb'. rewrite orb_false_r in Hb'.
    exists (msgs ++ [m]), pacts'. split_and!; try done.
    change (net_received (sy_network v) (NetThread ev elapsed ck)) with
      (net_received (with_queue (sy_network v) (pl_raw_queue (sy_pipeline v))) (NetThread ev elapsed ck)).
    by rewrite Hr, Hrec, Ht, Ht', !app_nil_r.
  - cbn in Hq, Hh. rewrite Hq, set_raw_queue_id. exists msgs, pacts.
    split_and!; try done; [by apply history_frame|].
    rewrite Hrec, Hh. by rewrite app_assoc.
Qed.

Lemma net_thread_frame n ev elapsed ck n' :
  net_step draw n (NetThread ev elapsed ck) = Some (Ret n') →
  ns_stop n' = ns_stop n ∧ is_Some (ns_thread n) ∧ is_Some (ns_thread n').
Proof.
  cbn. unfold run_stage. intros Hs. destruct (ns_thread n) as [[| |p|had|had| | |]|] eqn:Ht; try done.
  - simplify_eq. cbn. eauto.
  - destruct (client_unlocked n); simplify_eq. cbn. eauto.
  - destruct (ns_client n) as [c|]; [|done]. cbn in Hs.
    destruct (client_run (ns_queue n) c p ev) as [[[q c'] r]|]; cbn in Hs; [|done]. simplify_eq. cbn. eauto.
  - destruct (client_unlocked n); simplify_eq. cbn. eauto.
  - simplify_eq. cbn. eauto.
  - simplify_eq. cbn. eauto.
  - destruct (wait_for_next_attempt draw (ns_policy n) elapsed ck) as [m|]; [|done]. injection Hs as Hs.
    apply bind_Ret in Hs as ([again q] & _ & ?). inv_ret. cbn. eauto.
Qed.

Lemma stop_stage_frame n n' :
  stop_stage n = Some n' →
  match ns_stop n with
  | NsJoin => ns_thread n' = None ∧ ns_stop n' = NsIdle
  | _ => ns_thread n' = ns_thread n ∧ ns_stop n' ≠ NsIdle
  end.
Proof.
  unfold stop_stage. intros Hs. destruct (ns_stop n); simplify_eq; try done.
  - by destruct (ns_client n).
  - destruct (ns_thread n) as [[]|]; simplify_eq; done.
Qed.

Lemma stop_network_ok acts on msgs received v v' d :
  system_ok acts on msgs received v → sy_main v = MainStopNetwork d →
  main_step hash draw ec_message v = Some (Ret v') →
  ∃ msgs', system_ok (acts ++ [SysMain]) (on && true) msgs' received v'.
Proof.
  intros Hok Hpc Hs. pose proof (so_main _ _ _ _ _ Hok) as Hm. unfold main_ok in Hm. unfold main_step in Hs.
  rewrite Hpc in Hs, Hm.
  destruct (network_step draw ec_message v NetStop) as [m|] eqn:Hn; cbn in Hs; [|done].
  injection Hs as Hs. apply bind_Ret in Hs as (v1 & -> & ?).
  destruct (network_step_ok _ _ _ _ _ _ _ SysMain Hok Hn ltac:(done)) as (msgs' & pacts' & Hrun' & Hb' & Hrec' & Hns' & Hr' & Hpc' & Hn').
  rewrite Hpc in Hb', Hpc'. rewrite app_nil_r in Hrec'.
  cbn in Hn'. destruct (stop_stage _) as [n'|] eqn:Hst; cbn in Hn'; [|done]. injection Hn' as ->.
  apply stop_stage_frame in Hst. cbn [with_queue ns_stop ns_thread] in Hst.
  destruct d, (ns_stop (sy_network v)) eqn:Hnst; inv_ret; exists msgs';
    (split; [exists pacts'; cbn; by rewrite ?Hpc'|done|unfold main_ok; cbn; rewrite ?Hpc']);
    unfold stopped in *; cbn in *; rewrite ?Hns', ?Hr'; clear -Hm Hst; intuition congruence.
Qed.

Lemma main_step_ok acts on msgs received v v' :
  system_ok acts on msgs received v → main_step hash draw ec_message v = Some (Ret v') →
  ∃ msgs', system_ok (acts ++ [SysMain]) (on && true) msgs' received v'.
Proof.
  intros Hok Hs. pose proof (so_main _ _ _ _ _ Hok) as Hm. unfold main_ok in Hm. unfold main_step in Hs.
  destruct (so_run _ _ _ _ _ Hok) as (pacts & Hrun & Hb). pose proof (so_received _ _ _ _ _ Hok) as Hrec.
  destruct (sy_main v) as [| | |d|d|d|] eqn:Hpc; cbn [pipeline_started] in Hb.
  - unfold pipeline_step in Hs. destruct (pipe_step hash _ ActStart) as [m|] eqn:Hp; cbn in Hs; [|done].
    injection Hs as Hs. apply bind_Ret in Hs as (v1 & (p & -> & ?)%bind_Ret & ?). inv_ret.
    destruct (history_started _ _ _ _ v _ _ SysMain _ Hrun Hb Hp (or_intror eq_refl)) as (pacts' & Hrun' & Hb').
    cbn in Hrun'. rewrite app_nil_r in Hrun'. exists msgs. split; [by exists pacts'|done|].
    unfold main_ok. cbn. cbn in Hp. unfold start in Hp. destruct Hm as (Hns & Hr & Ht & Hi).
    rewrite Hns, Hr in Hp. destruct (pl_parser (sy_pipeline v)); simplify_eq. by cbn.
  - destruct (network_step draw ec_message v NetStart) as [m|] eqn:Hn; cbn in Hs; [|done].
    injection Hs as Hs. apply bind_Ret in Hs as (v1 & -> & ?). inv_ret. destruct Hm as (Hns & Hr & Ht & Hi).
    destruct (network_step_ok _ _ _ _ _ _ _ SysMain Hok Hn ltac:(done)) as (msgs' & pacts' & Hrun' & Hb' & Hrec' & Hns' & Hr' & Hpc' & Hn').
    rewrite Hpc in Hb'. exists msgs'. rewrite app_nil_r in Hrec'. split; [by exists pacts'|done|].
    unfold main_ok. cbn. rewrite Hns', Hr'. split_and!; try done.
    cbn in Hn'. unfold start_stage in Hn'. cbn in Hn'. rewrite Ht in Hn'. cbn in Hn'. injection Hn' as <-. done.
  - simplify_eq. exists msgs. apply (history_frame _ _ _ _ _ SysMain true) in Hrun.
    destruct (sy_stop_requested v); (split; [by exists pacts; rewrite ?Hpc|done|]); unfold main_ok; cbn; rewrite ?Hpc;
      naive_solver.
  - eapply stop_network_ok; [done..|]. unfold main_step. by rewrite Hpc.
  - unfold pipeline_step in Hs. destruct (pipe_step hash _ ActStopRequest) as [m|] eqn:Hp; cbn in Hs; [|done].
    injection Hs as Hs. apply bind_Ret in Hs as (v1 & (p & -> & ?)%bind_Ret & ?). inv_ret.
    destruct (history_started _ _ _ _ v _ _ SysMain _ Hrun Hb Hp (or_intror eq_refl)) as (pacts' & Hrun' & Hb').
    cbn in Hrun'. rewrite app_nil_r in Hrun'. exists msgs. split; [by exists pacts'|done|].
    unfold main_ok. cbn. cbn in Hp. unfold stop_request in Hp.
    destruct (pl_stop (sy_pipeline v)); simplify_eq. cbn. destruct d; naive_solver.
  - unfold pipeline_step in Hs. destruct (pipe_step hash _ ActStop) as [m|] eqn:Hp; cbn in Hs; [|done].
    injection Hs as Hs. apply bind_Ret in Hs as (v1 & (p & -> & ?)%bind_Ret & ?). inv_ret.
    destruct (history_started _ _ _ _ v _ _ SysMain _ Hrun Hb Hp (or_intror eq_refl)) as (pacts' & Hrun' & Hb').
    cbn in Hrun'. rewrite app_nil_r in Hrun'. exists msgs.
    cbn in Hp. destruct (stop_frame _ _ Hp) as (_ & Hr & _). destruct Hm as (_ & Hrt & Ht & Hi). rewrite Hrt in Hr.
    cbn [set_pipeline sy_pipeline] in *.
    destruct (pl_stop p) eqn:Hps, d; (split; [exists pacts'; cbn; by rewrite ?Hpc|done|]);
      unfold main_ok, stopped; cbn; rewrite ?Hpc, ?Hps; done.
  - done.
Qed.

Lemma system_step_ok acts on msgs received v a v' :
  system_ok acts on msgs received v → step v a = Some (Ret v') →
  ∃ msgs', system_ok (acts ++ [a]) (on && system_on_time acts v a) msgs' (received ++ received_by v a) v'.
Proof.
  intros Hok Hs. destruct a as [| |ev elapsed ck|a|]; cbn [system_step received_by] in *.
  - rewrite app_nil_r. simplify_eq. exists msgs. destruct Hok as [(pacts & Hrun & Hb) ? ?].
    apply (history_frame _ _ _ _ _ SysSignal true) in Hrun. split; [by exists pacts|done..].
  - rewrite app_nil_r. by eapply main_step_ok.
  - destruct (network_step_ok _ _ _ _ _ _ _ (SysNetwork ev elapsed ck) Hok Hs ltac:(done)) as (msgs' & pacts' & Hrun' & Hb' & Hrec' & Hns' & Hr' & Hpc' & Hn').
    exists msgs'. split; [exists pacts'; by rewrite Hpc'|exact Hrec'|].
    destruct (net_thread_frame _ _ _ _ _ Hn') as (Hi & [t Ht] & _). cbn in Hi, Ht.
    pose proof (so_main _ _ _ _ _ Hok) as Hm. unfold main_ok, stopped in *. rewrite Hpc', Hns', Hr', Hi.
    destruct (sy_main v) as [| | |[]|[]|[]|]; naive_solver.
  - destruct (pipe_thread a) eqn:Ha; [|done]. rewrite app_nil_r. unfold pipeline_step in Hs.
    destruct (pipe_step hash _ a) as [m|] eqn:Hp; cbn in Hs; [|done]. injection Hs as Hs.
    apply bind_Ret in Hs as (p & -> & ?). inv_ret.
    destruct (pipe_thread_frame _ _ _ Ha Hp) as (Hns & Hr & Hacc & Hst).
    destruct (so_run _ _ _ _ _ Hok) as (pacts & Hrun & Hb).
    destruct (history_started _ _ _ _ v _ _ (SysPipe a) _ Hrun Hb Hp (or_introl eq_refl)) as (pacts' & Hrun' & Hb').
    rewrite Hacc, app_nil_r in Hrun'. rewrite Hst, orb_false_r in Hb'.
    exists msgs. split; [by exists pacts'|apply Hok|].
    pose proof (so_main _ _ _ _ _ Hok) as Hm. unfold main_ok, stopped in *. cbn. by rewrite Hns, Hr.
  - by apply main_refused_Ret in Hs.
Qed.


Lemma new_system_ok log (sv : service E) config :
  sv_pipeline sv = p0 → sv_network sv = new_stage (pl_raw_queue p0) config →
  system_ok [] true [] [] (new_system log sv).
Proof.
  intros Hp Hn. split; cbn [new_system sy_pipeline sy_network sy_main]; rewrite ?Hp, ?Hn; [|done|].
  - exists []. split; [|done]. split; [constructor|by intros now [? ?%not_elem_of_nil]|constructor].
  - unfold main_ok. cbn. by rewrite Hp, Hn.
Qed.

Lemma system_run_ok v0 acts received v :
  system_ok [] true [] [] v0 → run v0 acts received v → ∃ on msgs, system_ok acts on msgs received v.
Proof.
  intros Hok. induction 1 as [|acts received v a v' _ (on & msgs & IH) Hs]; [eauto|].
  eexists. by eapply system_step_ok.
Qed.

(** Runs of the program in which every trade is added in time. *)
Inductive punctual_system_run v0 : list (system_action E) → list string → system E → Prop :=
  | punctual_system_refl : punctual_system_run v0 [] [] v0
  | punctual_system_next acts received v a v' :
      punctual_system_run v0 acts received v → system_on_time acts v a = true →
      step v a = Some (Ret v') → punctual_system_run v0 (acts ++ [a]) (received ++ received_by v a) v'.

Lemma punctual_system_run_ok v0 acts received v :
  system_ok [] true [] [] v0 → punctual_system_run v0 acts received v →
  ∃ msgs, system_ok acts true msgs received v.
Proof.
  intros Hok. induction 1 as [|acts received v a v' _ (msgs & IH) Hon Hs]; [eauto|].
  destruct (system_step_ok _ _ _ _ _ _ _ IH Hs) as (msgs' & Hok'). rewrite Hon in Hok'. eauto.
Qed.

(** ** Progress *)

Lemma network_follows v a v' :
  step v a = Some (Ret v') →
  sy_network v' = sy_network v ∨
  ∃ b, (b = NetStart → sy_main v = MainStartNetwork) ∧
    net_step draw (with_queue (sy_network v) (pl_raw_queue (sy_pipeline v))) b = Some (Ret (sy_network v')).
Proof.
  assert (∀ b v', network_step draw ec_message v b = Some (Ret v') →
    net_step draw (with_queue (sy_network v) (pl_raw_queue (sy_pipeline v))) b = Some (Ret (sy_network v'))) as Hn.
  { intros b v1 Hs. unfold network_step in Hs. destruct (net_step draw _ b) as [m|]; cbn in Hs; [|done].
    injection Hs as Hs. by inv_ret. }
  assert (∀ b v', pipeline_step hash v b = Some (Ret v') → sy_network v' = sy_network v) as Hp.
  { intros b v1 Hs. unfold pipeline_step in Hs. destruct (pipe_step hash _ b) as [m|]; cbn in Hs; [|done].
    injection Hs as Hs. by inv_ret. }
  intros Hs. destruct a as [| |ev elapsed ck|a|]; cbn [system_step] in Hs.
  - simplify_eq. by left.
  - unfold main_step in Hs. destruct (sy_main v) as [| | |d|d|d|]; [| | | | | |done].
    + left. destruct (pipeline_step hash v ActStart) as [m|] eqn:Hm; cbn in Hs; [|done].
      injection Hs as Hs. apply bind_Ret in Hs as (v1 & -> & ?). inv_ret. by apply Hp in Hm.
    + right. destruct (network_step draw ec_message v NetStart) as [m|] eqn:Hm; cbn in Hs; [|done].
      injection Hs as Hs. apply bind_Ret in Hs as (v1 & -> & ?). inv_ret. exists NetStart. by apply Hn in Hm.
    + left. simplify_eq. by destruct (sy_stop_requested v).
    + right. destruct (network_step draw ec_message v NetStop) as [m|] eqn:Hm; cbn in Hs; [|done].
      injection Hs as Hs. apply bind_Ret in Hs as (v1 & -> & Hv). exists NetStop. split; [done|].
      apply Hn in Hm. destruct (ns_stop (sy_network v)); apply Ret_inj in Hv as <-; exact Hm.
    + left. destruct (pipeline_step hash v ActStopRequest) as [m|] eqn:Hm; cbn in Hs; [|done].
      injection Hs as Hs. apply bind_Ret in Hs as (v1 & -> & ?). inv_ret. by apply Hp in Hm.
    + left. destruct (pipeline_step hash v ActStop) as [m|] eqn:Hm; cbn in Hs; [|done].
      injection Hs as Hs. apply bind_Ret in Hs as (v1 & -> & ?). apply Hp in Hm.
      destruct (pl_stop (sy_pipeline v1)), d; by inv_ret.
  - right. eexists. split; [|by apply Hn]. done.
  - left. destruct (pipe_thread a); [|done]. by apply Hp in Hs.
  - by apply main_refused_Ret in Hs.
Qed.

Lemma thread_ok_system v0 acts received v :
  thread_ok (sy_network v0) → run v0 acts received v → thread_ok (sy_network v).
Proof.
  intros Hok. induction 1 as [|acts received v a v' _ IH Hs]; [done|].
  apply network_follows in Hs as [->|(b & _ & Hb)]; [done|]. eapply (thread_ok_step draw (with_queue _ _)); [exact IH|exact Hb].
Qed.

(** [main] has left the wait loop and not yet exited. *)
Definition shutting_down (p : main_pc) : bool :=
  match p with MainStopNetwork _ | MainRequestPipeline _ | MainStopPipeline _ => true | _ => false end.

(** The steps of the program's threads, as opposed to signals and the timer. *)
Definition is_env (a : system_action E) : bool :=
  match a with SysSignal | SysPipe (ActTimeout _ _) => true | _ => false end.

Definition delivers_message (a : system_action E) : bool :=
  match a with SysNetwork (EvMessage _) _ _ => true | _ => false end.

Lemma pipeline_internal v a :
  internal a = true → is_Some (pipe_step hash (sy_pipeline v) a) →
  (∃ d, sy_main v = MainStopPipeline d) ∨ pl_stop (sy_pipeline v) = NotStopping →
  ∃ a', is_env a' = false ∧ received_by v a' = [] ∧ delivers_message a' = false ∧ is_Some (step v a').
Proof.
  intros Ha [m Hm] Hpc. destruct (pipe_thread a) eqn:Hth.
  - exists (SysPipe a). split; [by destruct a|]. do 2 (split; [done|]). cbn. rewrite Hth. unfold pipeline_step. rewrite Hm. cbn. eauto.
  - destruct a; try done. destruct Hpc as [[d Hpc]|Hns].
    + exists SysMain. do 3 (split; [done|]). cbn. unfold main_step. rewrite Hpc. unfold pipeline_step. rewrite Hm. cbn. eauto.
    + cbn in Hm. unfold stop in Hm. by rewrite Hns in Hm.
Qed.

(** A network thread whose stop has been noticed can go on when the call it is
    in returns, or waits for room in the raw queue. *)
Lemma noticed_enabled n ec :
  ec_failed ec = true → stop_noticed n → thread_ok n → ns_stop n = NsJoin →
  ns_thread n ≠ None → ns_thread n ≠ Some NetDone →
  (∃ ev elapsed, (∀ m, ev ≠ EvMessage m) ∧ is_Some (net_step draw n (NetThread ev elapsed 0))) ∨
  ∃ m, push (ns_queue n) m = None.
Proof.
  intros Hec [Hr Hn] Hok Hst Hne Hnd. cbn. unfold run_stage. unfold thread_ok in Hok.
  assert (client_unlocked n = true) as Hu by (unfold client_unlocked; by rewrite Hst).
  destruct (ns_thread n) as [[| |p|had|had| | |]|]; try done; rewrite ?Hu.
  - left. exists EvOk, true. split; [done|]. eauto.
  - destruct Hok as (c & -> & _). cbn [mbind option_bind].
    destruct p; try done;
      try (left; exists (EvFail ec), true; split; [done|]; cbn; rewrite ?Hec; cbn; by eauto).
    cbn. destruct (push (ns_queue n) message) as [[b q]|] eqn:Hp; [|by right; eauto].
    left. exists EvOk, true. split; [done|]. rewrite ?Hp. cbn. eauto.
  - left. exists EvOk, true. split; [done|]. eauto.
  - left. exists EvOk, true. split; [done|]. eauto.
  - left. exists EvOk, true. split; [done|]. eauto.
  - left. exists EvOk, true. split; [done|]. unfold wait_for_next_attempt. destruct (rp_stop_requested (ns_policy n)); eauto.
Qed.


Lemma raw_capacity_step (p : pipeline FileOutputSink) a p' :
  pipe_step hash p a = Some (Ret p') → bq_capacity (pl_raw_queue p') = bq_capacity (pl_raw_queue p).
Proof.
  intros Hs. destruct a as [m| |now ck| | |i|ck| | |]; cbn [pipe_step] in Hs.
  - unfold submit_raw_message in Hs. destruct (push (pl_raw_queue p) m) as [[b q]|] eqn:Hp; cbn in Hs; [|done].
    simplify_eq. by apply push_static in Hp as [_ ?].
  - unfold start in Hs. by destruct (pl_parser p), (pl_stop_requested p), (pl_stop p); simplify_eq.
  - by apply writer_timeout_Ret in Hs as (_ & _ & _ & _ & ->).
  - unfold stop_request in Hs. by destruct (pl_stop p); simplify_eq.
  - unfold run_parser_stage in Hs. destruct (pl_parser p) as [[|t|]|]; try done.
    + destruct (pop (pl_raw_queue p)) as [[[raw|] q]|] eqn:Hq; cbn in Hs; [| |done]; injection Hs as Hs;
        inv_ret; subst; by apply pop_static in Hq as [_ ?].
    + destruct (pl_shards p !! _) as [sh|]; cbn in Hs; [|done].
      destruct (push _ _) as [[]|]; cbn in Hs; by simplify_eq.
  - unfold run_aggregation_stage in Hs. destruct (pl_shards p !! i) as [sh|]; cbn in Hs; [|done].
    destruct (pl_aggs p !! i) as [[[|t|]|]|]; try done; [|injection Hs as Hs; by inv_ret].
    destruct (pop _) as [[]|]; cbn in Hs; by simplify_eq.
  - by apply writer_wait_Ret in Hs as (_ & _ & _ & ->).
  - unfold flush_completed_windows in Hs. destruct (pl_writer p) as [[|cur i ws|]|]; try done.
    destruct (pl_shards p !! i) as [sh|]; [|injection Hs as Hs; by inv_ret].
    by destruct (extract_completed_windows (sh_aggregator sh) cur); simplify_eq.
  - unfold stop in Hs. destruct (pl_stop p) as [| | |j|j|]; [done|..].
    + by destruct (can_join_writer p); simplify_eq.
    + by destruct (can_join_parser p); simplify_eq.
    + by destruct (pl_shards p !! j); simplify_eq.
    + by destruct (pl_aggs p !! j) as [[[]|]|]; simplify_eq.
    + injection Hs as Hs. apply bind_Ret in Hs as (p1 & Hf & ?). inv_ret. unfold flush_remaining_windows in Hf.
      destruct (take_remaining (pl_shards p)). by inv_ret.
  - by apply start_refused_Ret in Hs.
Qed.

Hypothesis HW : W ≠ 0.
Hypothesis Hcap : 1 ≤ cap.

(** What the invariants of the pipeline say about a reachable system. *)
Lemma system_pipeline acts on msgs received v :
  system_ok acts on msgs received v →
  phase_ok (pipeline_started (sy_main v)) (sy_pipeline v) ∧
  length (pl_shards (sy_pipeline v)) = Z.to_nat (Z.max threads 1) ∧ pl_shards (sy_pipeline v) ≠ [] ∧
  bq_capacity (pl_raw_queue (sy_pipeline v)) = cap.
Proof.
  intros [(pacts & [Hrun _ _] & Hst) _ _]. split_and!.
  - rewrite <- Hst. by apply (phase_run hash _ _ _ _ _ (phase_new W FI cap sink threads)) in Hrun.
  - apply (run_ok hash W FI cap sink threads HW) in Hrun as (g & Hg & _). apply Hg.
  - by eapply (run_shards_nonempty hash W FI cap sink threads HW).
  - clear Hst. induction Hrun as [|pacts msgs p a p' _ IH Hs]; [done|].
    rewrite (raw_capacity_step _ _ _ Hs). apply IH.
Qed.


Lemma network_enabled v a :
  is_Some (net_step draw (with_queue (sy_network v) (pl_raw_queue (sy_pipeline v))) a) →
  is_Some (network_step draw ec_message v a).
Proof. intros [m Hm]. unfold network_step. rewrite Hm. cbn. eauto. Qed.

Lemma shutdown_enabled acts on msgs received v ec :
  system_ok acts on msgs received v → thread_ok (sy_network v) → ec_failed ec = true →
  shutting_down (sy_main v) = true → (ns_stop (sy_network v) = NsJoin → stop_noticed (sy_network v)) →
  ∃ a, is_env a = false ∧ received_by v a = [] ∧ delivers_message a = false ∧ is_Some (step v a).
Proof.
  intros Hok Hth Hec Hsd Hnoticed. destruct (system_pipeline _ _ _ _ _ Hok) as (Hph & _ & Hne & Hrc).
  pose proof (so_main _ _ _ _ _ Hok) as Hm. unfold main_ok in Hm.
  destruct (sy_main v) as [| | |d|d|d|] eqn:Hpc; try done.
  - set (n := with_queue (sy_network v) (pl_raw_queue (sy_pipeline v))) in *.
    assert (is_Some (stop_stage n) →
      ∃ a, is_env a = false ∧ received_by v a = [] ∧ delivers_message a = false ∧ is_Some (step v a)) as Hstop.
    { intros [n' Hn']. exists SysMain. do 3 (split; [done|]). cbn. unfold main_step. rewrite Hpc.
      destruct (network_enabled v NetStop) as [m Hs]; [cbn; fold n; rewrite Hn'; cbn; eauto|].
      rewrite Hs. cbn. eauto. }
    unfold stop_stage in Hstop. change (ns_stop n) with (ns_stop (sy_network v)) in Hstop.
    destruct (ns_stop (sy_network v)) eqn:Hst; try (apply Hstop; by eauto).
    assert (ns_thread n = None ∨ ns_thread n = Some NetDone ∨
      (ns_thread n ≠ None ∧ ns_thread n ≠ Some NetDone)) as [Ht|[Ht|[Ht1 Ht2]]]
      by (destruct (ns_thread n) as [[]|]; naive_solver);
      [apply Hstop; rewrite Ht; by eauto..|].
    destruct (noticed_enabled n ec Hec (Hnoticed eq_refl) Hth Hst Ht1 Ht2) as [(ev & elapsed & Hev & Hn)|[m Hfull]].
    + exists (SysNetwork ev elapsed 0). split; [done|].
      assert (delivers_message (SysNetwork ev elapsed 0) = false) by (destruct ev; try done; by destruct (Hev message)).
      split; [by destruct ev|]. split; [done|]. cbn [system_step]. by apply network_enabled.
    + apply push_None in Hfull as [Hopen Hfull]. cbn in Hopen, Hfull.
      destruct (raw_queue_drains hash (sy_pipeline v)) as (a & Ha & Hs); [done..| |].
      { intros Hnil. unfold size in Hfull. rewrite Hnil in Hfull. cbn in Hfull. lia. }
      apply (pipeline_internal v a Ha Hs). right. destruct d; unfold stopped in Hm; clear -Hm; intuition.
  - exists SysMain. do 3 (split; [done|]). cbn. unfold main_step, pipeline_step. rewrite Hpc. cbn.
    unfold stop_request. assert (pl_stop (sy_pipeline v) = NotStopping) as ->
      by (destruct d; unfold stopped in Hm; clear -Hm; intuition).
    cbn. eauto.
  - destruct Hm as (Hns & _). destruct (stop_enabled hash _ _ Hph Hne Hns) as (a & Ha & Hs).
    apply (pipeline_internal v a Ha Hs). eauto.
Qed.


(** ** Termination *)

Notation shard_count := (Z.max threads 1).

Definition stop_call_weight (p : net_stop_pc) : Z :=
  match p with NsIdle => 5 | NsPolicy => 4 | NsClient => 3 | NsClose => 2 | NsJoin => 1 end.

(** [k] bounds the steps of one call of [MarketDataPipeline::stop]. *)
Definition main_weight (k : Z) (p : main_pc) (st : net_stop_pc) : Z :=
  match p with
  | MainExit | MainStopPipeline true => 0
  | MainRequestPipeline true => k
  | MainStopNetwork true => k + stop_call_weight st
  | MainStopPipeline false => k + 5
  | MainRequestPipeline false => 2 * k + 5
  | MainStopNetwork false => 2 * k + 5 + stop_call_weight st
  | _ => 2 * k + 11
  end.

(** What is left to do of a shutdown. *)
Definition system_measure v : Z :=
  pipe_measure (sy_pipeline v) + 5 * thread_weight (ns_thread (sy_network v)) +
  main_weight (2 * shard_count + 7) (sy_main v) (ns_stop (sy_network v)).

Lemma system_measure_nonneg v : 0 ≤ system_measure v.
Proof.
  unfold system_measure. pose proof (pipe_measure_nonneg (sy_pipeline v)).
  assert (0 ≤ thread_weight (ns_thread (sy_network v))) by (destruct (ns_thread _) as [[| |[]| | | | |]|]; cbn; lia).
  assert (0 ≤ stop_call_weight (ns_stop (sy_network v))) by (destruct (ns_stop _); cbn; lia).
  assert (0 ≤ main_weight (2 * shard_count + 7) (sy_main v) (ns_stop (sy_network v)))
    by (destruct (sy_main v) as [| | |[]|[]|[]|]; cbn [main_weight]; lia).
  lia.
Qed.

(** The shutdown has reached the network thread. *)
Definition stopping v : Prop :=
  (shutting_down (sy_main v) = true ∨ sy_main v = MainExit) ∧ stop_noticed (sy_network v).

Lemma raw_push_measure (p : pipeline FileOutputSink) m b q :
  push (pl_raw_queue p) m = Some (b, q) → pipe_measure (set_raw_queue p q) ≤ pipe_measure p + 4.
Proof.
  intros Hp%push_size. unfold pipe_measure. cbn [set_raw_queue pl_raw_queue pl_parser pl_shards pl_aggs
    pl_writer pl_stop]. destruct b; lia.
Qed.

Lemma network_measure v a v' :
  stop_noticed (sy_network v) → a ≠ NetStart → network_step draw ec_message v a = Some (Ret v') →
  stop_noticed (sy_network v') ∧
  pipe_measure (sy_pipeline v') + 5 * thread_weight (ns_thread (sy_network v')) + is_thread_step a ≤
  pipe_measure (sy_pipeline v) + 5 * thread_weight (ns_thread (sy_network v)).
Proof.
  intros Hn Ha Hs. unfold network_step in Hs. destruct (net_step draw _ a) as [m|] eqn:Hm; cbn in Hs; [|done].
  injection Hs as Hs. apply bind_Ret in Hs as (n' & -> & ?). inv_ret. cbn [sy_pipeline sy_network].
  destruct (noticed_step draw (with_queue _ _) _ _ Hn Ha Hm) as [Hn' Hw]. split; [done|].
  cbn [with_queue ns_thread] in Hw.
  destruct (net_step_queue _ _ _ Hm) as [(m & ev & elapsed & ck & b & -> & _ & Hp & _)|[Hq _]].
  - apply raw_push_measure in Hp. cbn in Hw |- *. lia.
  - cbn in Hq. rewrite Hq, set_raw_queue_id. assert (0 ≤ is_thread_step a) by (destruct a; cbn; lia). lia.
Qed.

Lemma timeout_measure (p : pipeline FileOutputSink) now ck p' :
  writer_timeout p now ck = Some (Ret p') →
  pipe_measure p' + 1 ≤ pipe_measure p + (Z.of_nat (length (pl_shards p)) + 2).
Proof.
  intros (Hw & _ & _ & _ & ->)%writer_timeout_Ret.
  unfold pipe_measure. cbn [set_writer pl_raw_queue pl_parser pl_shards pl_aggs pl_writer pl_stop].
  rewrite Hw. cbn [writer_weight]. lia.
Qed.

Lemma stop_request_measure (p : pipeline FileOutputSink) p' :
  stop_request p = Some (Ret p') →
  pipe_measure p' = pipe_measure p + (2 * Z.of_nat (length (pl_shards p)) + 6).
Proof.
  intros Hs. unfold stop_request in Hs. destruct (pl_stop p) eqn:Hst; simplify_eq.
  unfold pipe_measure. cbn [pl_raw_queue pl_parser pl_shards pl_aggs pl_writer pl_stop stop_weight].
  rewrite Hst. cbn [stop_weight]. lia.
Qed.


Lemma stop_stage_weight n n' :
  stop_stage n = Some n' → ns_stop n ≠ NsJoin →
  stop_call_weight (ns_stop n') + 1 ≤ stop_call_weight (ns_stop n).
Proof.
  unfold stop_stage. intros Hs Hne. destruct (ns_stop n); simplify_eq; cbn; try (lia || done).
  destruct (ns_client n); cbn; lia.
Qed.

Lemma stop_network_step v v' d :
  stopping v → sy_main v = MainStopNetwork d → main_step hash draw ec_message v = Some (Ret v') →
  stopping v' ∧ system_measure v' + 1 ≤ system_measure v.
Proof.
  intros [_ Hn] Hpc Hs. unfold main_step in Hs. rewrite Hpc in Hs.
  destruct (network_step draw ec_message v NetStop) as [m|] eqn:Hm; cbn in Hs; [|done].
  injection Hs as Hs. apply bind_Ret in Hs as (v1 & -> & Hv).
  destruct (network_measure _ NetStop _ Hn ltac:(done) Hm) as [Hn' Hw]. cbn [is_thread_step ind] in Hw.
  assert (sy_main v1 = MainStopNetwork d ∧
    stop_stage (with_queue (sy_network v) (pl_raw_queue (sy_pipeline v))) = Some (sy_network v1)) as [Hpc1 Hst].
  { unfold network_step in Hm. cbn [net_step] in Hm. destruct (stop_stage _) as [n1|]; cbn in Hm; [|done].
    injection Hm as <-. by cbn. }
  pose proof (stop_stage_weight _ _ Hst) as Hsw.
  cbn [with_queue ns_stop] in Hsw. unfold stopping, system_measure.
  destruct (ns_stop (sy_network v)) eqn:Hns; apply Ret_inj in Hv as <-;
    [specialize (Hsw ltac:(done)); rewrite Hpc, Hpc1; split; [by auto|]; destruct d; cbn in *; lia..|].
  cbn. rewrite Hpc. split; [by auto|]. destruct d; cbn in *; lia.
Qed.

Lemma stop_pipeline_step acts on msgs received v v' d :
  system_ok acts on msgs received v → stopping v → sy_main v = MainRequestPipeline d ∨ sy_main v = MainStopPipeline d →
  main_step hash draw ec_message v = Some (Ret v') → stopping v' ∧ system_measure v' + 1 ≤ system_measure v.
Proof.
  intros Hok [_ Hn] Hpc Hs. destruct (system_pipeline _ _ _ _ _ Hok) as (Hph & Hlen & _).
  pose proof (so_main _ _ _ _ _ Hok) as Hmain. unfold main_ok in Hmain. unfold main_step, pipeline_step in Hs.
  unfold stopping, system_measure. destruct Hpc as [Hpc|Hpc]; rewrite Hpc in Hs, Hmain |- *.
  - destruct (pipe_step hash _ ActStopRequest) as [m|] eqn:Hp; cbn in Hs; [|done].
    injection Hs as Hs. apply bind_Ret in Hs as (v1 & (p & -> & ?)%bind_Ret & ?). inv_ret.
    cbn in Hp. apply stop_request_measure in Hp. rewrite Hlen in Hp. cbn. split; [by auto|].
    destruct d; cbn [main_weight]; lia.
  - destruct (pipe_step hash _ ActStop) as [m|] eqn:Hp; cbn in Hs; [|done].
    injection Hs as Hs. apply bind_Ret in Hs as (v1 & (p & -> & ?)%bind_Ret & ?). inv_ret.
    apply (internal_decreases hash _ _ ActStop _ Hph eq_refl) in Hp. destruct Hmain as (_ & _ & _ & Hi).
    rewrite Hi. cbn [set_pipeline sy_pipeline].
    destruct (pl_stop p), d; cbn; rewrite ?Hpc, ?Hi; (split; [by auto|]); cbn; lia.
Qed.

Lemma stopping_step acts on msgs received v a v' :
  system_ok acts on msgs received v → stopping v → step v a = Some (Ret v') →
  stopping v' ∧ system_measure v' + 1 ≤ system_measure v + (shard_count + 2) * ind (is_env a).
Proof.
  intros Hok Hst Hs. destruct (system_pipeline _ _ _ _ _ Hok) as (Hph & Hlen & _). pose proof Hst as [Hpc Hn].
  destruct a as [| |ev elapsed ck|a|]; cbn [system_step is_env ind] in *; rewrite ?Z.mul_0_r, ?Z.add_0_r.
  - simplify_eq. split; [done|]. unfold system_measure. cbn. lia.
  - destruct Hpc as [Hpc|Hpc]; [|unfold main_step in Hs; by rewrite Hpc in Hs].
    destruct (sy_main v) as [| | |d|d|d|] eqn:Hm; try done; eauto using stop_network_step, stop_pipeline_step.
  - destruct (network_measure _ (NetThread ev elapsed ck) _ Hn ltac:(done) Hs) as [Hn' Hw]. cbn [is_thread_step ind] in Hw.
    destruct (network_step_ok _ _ _ _ _ (NetThread ev elapsed ck) _ (SysNetwork ev elapsed ck) Hok Hs ltac:(done)) as (_ & _ & _ & _ & _ & _ & _ & Hpc' & Hnet).
    apply net_thread_frame in Hnet as (Hi & _). cbn in Hi.
    unfold stopping, system_measure. rewrite Hpc', Hi. split; [done|lia].
  - destruct (pipe_thread a) eqn:Ha; [|done]. unfold pipeline_step in Hs.
    destruct (pipe_step hash _ a) as [m|] eqn:Hp; cbn in Hs; [|done]. injection Hs as Hs.
    apply bind_Ret in Hs as (p & -> & ?). inv_ret. split; [done|]. unfold system_measure. cbn.
    destruct (internal a) eqn:Hint.
    + pose proof (internal_decreases hash _ _ _ _ Hph Hint Hp). destruct a; cbn; try done; lia.
    + destruct a; try done. cbn in Hp. apply timeout_measure in Hp. rewrite Hlen in Hp. cbn. lia.
  - by apply main_refused_Ret in Hs.
Qed.

End props.


(** ** From the command line to the output file *)

Section program.
Context `{J : JsonLib} `{!JsonLaws J} `{ErrorCode E}.
Variables (fmt_double : spec_float → string) (hash : string → Z).
Variables (draw : spec_float → spec_float → spec_float) (ec_message : E → string).
Variables (env : environment) (argv : list string) (log : list log_entry) (sv : service E).
Hypothesis Hstart : main_startup fmt_double env argv = (log, Ret (Started sv)).

Notation run := (system_run hash draw ec_message (new_system log sv)).
Notation W := (cf_window_ms (sv_config sv)).
Notation FI := (cf_flush_interval_ms (sv_config sv)).
Notation sink0 :=
  {| fos_file := env_output_contents env; fos_good := true; fos_os := env_output_writes env |}.

Lemma program_window : W ≠ 0.
Proof. destruct (startup_started _ _ _ _ _ Hstart) as ((_ & _ & [? _] & _) & _). lia. Qed.

Notation threads := (cf_aggregator_threads (sv_config sv)).
Notation ok := (system_ok hash W FI kQueueCapacity sink0 threads).

Lemma program_start_ok : ok [] true [] [] (new_system log sv).
Proof.
  destruct (startup_started _ _ _ _ _ Hstart) as (_ & _ & Hp & Hn & _).
  eapply new_system_ok; [done|]. by rewrite Hp in Hn.
Qed.

Lemma program_ok acts received v : run acts received v → ∃ on msgs, ok acts on msgs received v.
Proof. apply system_run_ok, program_start_ok. Qed.

(** C11: the program refines the pipeline.  Every run of the whole program, the
    main thread, the network thread and the signals included, is a run of the
    pipeline alone in which the network thread is the only caller that
    submits: the messages accepted are exactly the messages received, in that
    order, except one that the network thread may still hold; so no message
    read from the connection is ever rejected. *)
Theorem program_refines_pipeline acts received v :
  run acts received v →
  ∃ pacts msgs, pipe_run hash (sv_pipeline sv) pacts msgs (sy_pipeline v) ∧
    received = msgs ++ holding (ns_thread (sy_network v)).
Proof.
  intros (on & msgs & Hok)%program_ok. destruct (so_run _ _ _ _ _ _ _ _ _ _ _ Hok) as (pacts & [Hrun _ _] & _).
  destruct (startup_started _ _ _ _ _ Hstart) as (_ & _ & -> & _). exists pacts, msgs.
  split; [done|]. apply Hok.
Qed.

(** C1: end to end.  When the program that [main] started has exited, after
    any signal, schedule and network behaviour, the output file holds what it
    held before followed by the reports of batches that together are exactly
    the trades of all messages received from the network, windowed as
    configured: the shutdown loses nothing that was received. *)
Theorem program_writes_what_it_received acts received v :
  run acts received v → sy_main v = MainExit →
  ∃ batches texts, concat batches ≡ₚ trades_of received ∧
    mapM (batch_text W) batches = Ret texts ∧
    fos_file (pl_sink (sy_pipeline v)) = env_output_contents env +:+ string_concat texts.
Proof.
  intros (on & msgs & Hok)%program_ok Hexit. pose proof (so_main _ _ _ _ _ _ _ _ _ _ _ Hok) as Hm.
  unfold main_ok in Hm. rewrite Hexit in Hm. destruct Hm as (Hs & Ht & _).
  destruct (so_run _ _ _ _ _ _ _ _ _ _ _ Hok) as (pacts & [Hrun _ _] & Hst). rewrite Hexit in Hst.
  destruct (stopped_drained hash _ _ _ _ _ program_window _ _ _ Hrun Hst Hs) as (g & Hg & Hperm).
  rewrite (so_received _ _ _ _ _ _ _ _ _ _ _ Hok), Ht, app_nil_r.
  destruct (ok_text _ _ _ _ _ _ _ Hg) as (texts & Htexts & Htext). eauto.
Qed.

Lemma program_thread_ok acts received v : run acts received v → thread_ok (sy_network v).
Proof.
  destruct (startup_started _ _ _ _ _ Hstart) as (_ & _ & _ & Hn & _). apply thread_ok_system.
  cbn. rewrite Hn. apply new_stage_ok.
Qed.

(** A shutdown never gets stuck.  In every reachable state in which [main]
    has seen the signal and has not exited, some thread of the program can
    make a step (a network call in progress on a closed socket fails), unless
    [NetworkStage::stop] is waiting for a thread that its stop has not
    reached. *)
Theorem shutdown_progresses ec acts received v :
  ec_failed ec = true → run acts received v → shutting_down (sy_main v) = true →
  (ns_stop (sy_network v) = NsJoin → stop_noticed (sy_network v)) →
  ∃ a, is_env a = false ∧ is_Some (system_step hash draw ec_message v a).
Proof.
  intros Hec Hrun Hsd Hn. pose proof (program_thread_ok _ _ _ Hrun).
  apply program_ok in Hrun as (on & msgs & Hok).
  destruct (shutdown_enabled hash draw ec_message W FI kQueueCapacity sink0 threads program_window ltac:(done)
    _ _ _ _ v ec Hok) as (a & Ha & _ & _ & Hs); eauto.
Qed.

(** A shutdown terminates.  Once a stop has been noticed by the network
    thread, the number of steps of all threads until [main] exits is bounded
    by the work that is queued and the stages of the shutdown, plus a flush of
    all shards for every tick of the flush timer, whatever the network does. *)
Theorem shutdown_bounded acts received v acts' received' v' :
  run acts received v → stopping v → system_run hash draw ec_message v acts' received' v' →
  Z.of_nat (length acts') ≤
    system_measure (cf_aggregator_threads (sv_config sv)) v +
    (Z.max (cf_aggregator_threads (sv_config sv)) 1 + 2) * total (λ a, ind (is_env a)) acts'.
Proof.
  intros (on & msgs & Hok)%program_ok Hst Hrun. set (T := cf_aggregator_threads (sv_config sv)) in *.
  enough (stopping v' ∧ (∃ acts on msgs' received', system_ok hash W FI kQueueCapacity sink0 T acts on msgs' received' v') ∧
    Z.of_nat (length acts') + system_measure T v' ≤
    system_measure T v + (Z.max T 1 + 2) * total (λ a, ind (is_env a)) acts') as (_ & _ & Hle)
    by (pose proof (system_measure_nonneg T v'); lia).
  induction Hrun as [|acts1 received1 v1 a v2 _ (Hst1 & (acts0 & on1 & msgs1 & r1 & Hok1) & IH) Hs].
  { split_and!; [done|by eauto|]. unfold total. cbn. lia. }
  destruct (stopping_step hash draw ec_message _ _ _ _ _ program_window _ _ _ _ _ _ _ Hok1 Hst1 Hs) as [Hst2 Hm].
  destruct (system_step_ok _ _ _ _ _ _ _ _ _ _ _ _ _ _ _ Hok1 Hs) as (msgs2 & Hok2).
  split_and!; [done|by eauto|]. rewrite length_app, total_app. unfold total at 2. cbn [length foldr]. lia.
Qed.


(** C2: end to end, in ordinary operation.  When the program has exited and no
    trade was added after the flush timer had passed the end of its window,
    the output file holds what it held before followed by exactly the report
    of all trades of all messages received from the network, as a single
    sequential aggregator would have written it: the threads, the shards, the
    timer and the shutdown leave no trace. *)
Theorem punctual_program_output acts received v :
  punctual_system_run hash draw ec_message W (new_system log sv) acts received v → sy_main v = MainExit →
  ∃ text, batch_text W (trades_of received) = Ret text ∧
    fos_file (pl_sink (sy_pipeline v)) = env_output_contents env +:+ text.
Proof.
  intros Hrun Hexit. destruct (punctual_system_run_ok _ _ _ _ _ _ _ _ _ _ _ _ program_start_ok Hrun) as (msgs & Hok).
  pose proof (so_main _ _ _ _ _ _ _ _ _ _ _ Hok) as Hm. unfold main_ok in Hm. rewrite Hexit in Hm.
  destruct Hm as (Hs & Ht & _).
  destruct (so_run _ _ _ _ _ _ _ _ _ _ _ Hok) as (pacts & [_ _ Hp] & Hst). rewrite Hexit in Hst.
  rewrite (so_received _ _ _ _ _ _ _ _ _ _ _ Hok), Ht, app_nil_r.
  exact (punctual_text hash _ _ _ _ _ program_window _ _ _ (Hp eq_refl) Hst Hs).
Qed.


(** The received trades on their way to the aggregators: in the queues of the
    shards, held by an aggregation thread or the parser thread, in messages of
    the raw queue, and in the message that the network thread holds. *)
Definition in_transit (v : system E) : list TradeEvent :=
  let p := sy_pipeline v in
  concat (queued <$> pl_shards p) ++ concat (agg_hold <$> pl_aggs p) ++ parser_hold (pl_parser p) ++
  trades_of (bq_items (pl_raw_queue p)) ++ trades_of (holding (ns_thread (sy_network v))).

(** The windows that a timer flush has taken and not yet written. *)
Definition collected (v : system E) : list WindowStats :=
  match pl_writer (sy_pipeline v) with Some (WriterExtract _ _ windows) => windows | _ => [] end.

(** C18: at any moment, also in the middle of a run, every received trade is
    accounted for: it is in a report that is complete in the output file, or in
    the windows that the writer has collected, or in the aggregator of a shard,
    or in transit in a queue or in the hands of a thread; and the file holds
    what it held before followed by those reports.  The collected windows and
    the contents of the aggregators are exactly those of the trades they
    account for. *)
Theorem program_output_accounted acts received v :
  run acts received v →
  ∃ batches extracted pending texts,
    concat batches ++ extracted ++ concat pending ++ in_transit v ≡ₚ trades_of received ∧
    (∀ st, st ∈ collected v ↔ ∃ s k, ref_window W s k extracted = Some st) ∧
    Forall2 (λ sh ts, agg_models (sh_aggregator sh) ts) (pl_shards (sy_pipeline v)) pending ∧
    mapM (batch_text W) batches = Ret texts ∧
    fos_file (pl_sink (sy_pipeline v)) = env_output_contents env +:+ string_concat texts.
Proof.
  intros (on & msgs & Hok)%program_ok. destruct (so_run _ _ _ _ _ _ _ _ _ _ _ Hok) as (pacts & [Hrun _ _] & _).
  apply (run_ok hash _ _ _ _ _ program_window) in Hrun as (g & Hg & _).
  destruct (ok_text _ _ _ _ _ _ _ Hg) as (texts & Htexts & Htext).
  pose proof (written_and_unwritten _ _ _ _ _ _ _ Hg) as Hperm.
  exists (g_batches g), (g_open g), (g_pending g), texts. split_and!; [| | |done..].
  - rewrite (so_received _ _ _ _ _ _ _ _ _ _ _ Hok), trades_of_app, <- Hperm. unfold unwritten, in_transit.
    by rewrite !app_assoc.
  - pose proof (ok_writer _ _ _ _ _ _ _ Hg) as Hw. unfold collected.
    destruct (pl_writer (sy_pipeline v)) as [[|cur i ws|]|]; [|apply Hw|..];
      rewrite Hw; intros st; (split; [by intros ?%not_elem_of_nil|by intros (s & k & ?)]).
  - apply Forall2_same_length_lookup. rewrite (ok_shards_length _ _ _ _ _ _ _ Hg), (ok_pending_length _ _ _ _ _ _ _ Hg).
    split; [done|]. intros i sh ts Hsh Hts. apply (ok_shards _ _ _ _ _ _ _ Hg i sh ts Hsh Hts).
Qed.

End program.


(** ** Evaluated schedules *)

Section exec.
Context `{J : JsonLib} `{ErrorCode E}.
Variables (hash : string → Z) (draw : spec_float → spec_float → spec_float) (ec_message : E → string).

Fixpoint system_exec (v : system E) (acts : list (system_action E)) : option (list string * system E) :=
  match acts with
  | [] => Some ([], v)
  | a :: acts =>
      match system_step hash draw ec_message v a with
      | Some (Ret v') => '(received, v'') ← system_exec v' acts; Some (received_by v a ++ received, v'')
      | _ => None
      end
  end.

Lemma system_run_cons v a v' acts received v'' :
  system_step hash draw ec_message v a = Some (Ret v') →
  system_run hash draw ec_message v' acts received v'' →
  system_run hash draw ec_message v (a :: acts) (received_by v a ++ received) v''.
Proof.
  intros Hs. induction 1 as [|acts received v1 b v2 _ IH Hb].
  - rewrite app_nil_r. apply (system_next hash draw ec_message v [] [] v a v'); [constructor|done].
  - rewrite app_assoc. eapply (system_next hash draw ec_message v (a :: acts)); done.
Qed.

Definition system_result (v : system E) (acts : list (system_action E)) : list string * system E :=
  default ([], v) (system_exec v acts).

Lemma system_result_ok v acts :
  (if system_exec v acts then true else false) = true →
  system_run hash draw ec_message v acts (system_result v acts).1 (system_result v acts).2.
Proof.
  unfold system_result. destruct (system_exec v acts) as [[received v']|] eqn:Hex; [|done]. intros _. cbn.
  revert v received Hex. induction acts as [|a acts IH]; intros v received Hex; cbn in Hex.
  { simplify_eq. constructor. }
  destruct (system_step hash draw ec_message v a) as [[v1| |]|] eqn:Hs; try done.
  destruct (system_exec v1 acts) as [[r v2]|] eqn:Hex1; cbn in Hex; [|done]. simplify_eq.
  eauto using system_run_cons.
Qed.
End exec.

Definition example_args : list string := ["binance_aggregator"; "--config"; "my.json"].

Definition example_startup : list log_entry * outcome (startup example_error) :=
  main_startup (λ _, "0.5") example_env example_args.

Definition example_service : service example_error :=
  {| sv_config := example_config;
     sv_pipeline := new_pipeline 1000 500 4096 empty_file 1;
     sv_target := "/stream?streams=btcusdt@trade";
     sv_network := new_stage (new_queue 4096) (cf_reconnect example_config) |}.

Lemma example_startup_ok :
  main_startup (λ _, "0.5") example_env example_args = (example_startup.1, Ret (Started example_service)).
Proof. vm_compute. reflexivity. Qed.

(** The program connects, receives a message, and is told to stop while it is
    reading; [NetworkStage::stop] closes the socket. *)
Definition example_serving : list (system_action example_error) :=
  [SysMain; SysMain] ++ replicate 10 (SysNetwork EvOk false 0) ++
  [SysNetwork (EvMessage bare_message) false 0; SysNetwork EvOk false 0; SysPipe ActParser; SysSignal; SysMain;
   SysMain; SysMain; SysMain; SysMain].

(** The read fails, the network thread ends, and the stages shut down; then
    the destructors. *)
Definition example_shutdown : list (system_action example_error) :=
  [SysNetwork (EvFail OperationAborted) false 0; SysNetwork EvOk false 0; SysNetwork EvOk false 0; SysMain;
   SysMain; SysPipe (ActWriterWait 0); SysMain; SysPipe ActParser; SysPipe ActParser; SysMain; SysMain; SysMain;
   SysPipe (ActAgg 0); SysPipe (ActAgg 0); SysPipe (ActAgg 0); SysMain; SysMain; SysMain] ++
  replicate 12 SysMain.

Abbreviation example_run acts :=
  (system_result example_hash (λ lo _, lo) (λ _, "aborted")
     (new_system example_startup.1 example_service) acts).

Lemma program_refines_pipeline_witness :
  ∃ pacts msgs,
    pipe_run example_hash (sv_pipeline example_service) pacts msgs
      (sy_pipeline (example_run example_serving).2) ∧
    (example_run example_serving).1 = msgs ++ holding (ns_thread (sy_network (example_run example_serving).2)).
Proof.
  apply (program_refines_pipeline (λ _, "0.5") example_hash (λ lo _, lo) (λ _, "aborted") example_env example_args
    example_startup.1 example_service example_startup_ok example_serving).
  apply system_result_ok. vm_compute. reflexivity.
Defined.

Lemma program_writes_what_it_received_witness :
  (example_run (example_serving ++ example_shutdown)).1 = [bare_message] ∧
  ∃ batches texts, concat batches ≡ₚ trades_of (example_run (example_serving ++ example_shutdown)).1 ∧
    mapM (batch_text 1000) batches = Ret texts ∧
    fos_file (pl_sink (sy_pipeline (example_run (example_serving ++ example_shutdown)).2)) =
      env_output_contents example_env +:+ string_concat texts.
Proof.
  split; [vm_compute; reflexivity|].
  apply (program_writes_what_it_received (λ _, "0.5") example_hash (λ lo _, lo) (λ _, "aborted") example_env
    example_args example_startup.1 example_service example_startup_ok (example_serving ++ example_shutdown)).
  - apply system_result_ok. vm_compute. reflexivity.
  - vm_compute. reflexivity.
Defined.

Lemma shutdown_progresses_witness :
  ∃ a, is_env a = false ∧
    is_Some (system_step example_hash (λ lo _, lo) (λ _, "aborted") (example_run example_serving).2 a).
Proof.
  apply (shutdown_progresses (λ _, "0.5") example_hash (λ lo _, lo) (λ _, "aborted") example_env example_args
    example_startup.1 example_service example_startup_ok OperationAborted example_serving
    (example_run example_serving).1).
  - reflexivity.
  - apply system_result_ok. vm_compute. reflexivity.
  - vm_compute. reflexivity.
  - intros _. vm_compute. split; reflexivity.
Defined.

Lemma shutdown_bounded_witness :
  Z.of_nat (length example_shutdown) ≤
    system_measure 1 (example_run example_serving).2 +
    (Z.max 1 1 + 2) * total (λ a, ind (is_env a)) example_shutdown.
Proof.
  apply (shutdown_bounded (λ _, "0.5") example_hash (λ lo _, lo) (λ _, "aborted") example_env example_args
    example_startup.1 example_service example_startup_ok example_serving (example_run example_serving).1
    (example_run example_serving).2 example_shutdown
    (system_result example_hash (λ lo _, lo) (λ _, "aborted") (example_run example_serving).2 example_shutdown).1
    (system_result example_hash (λ lo _, lo) (λ _, "aborted") (example_run example_serving).2 example_shutdown).2).
  - apply system_result_ok. vm_compute. reflexivity.
  - split; [left; vm_compute; reflexivity|]. vm_compute. split; reflexivity.
  - apply system_result_ok. vm_compute. reflexivity.
Defined.


(** The same schedules, with the check that every trade is added in time. *)
Section punctual_exec.
Context `{J : JsonLib} `{ErrorCode E}.
Variables (hash : string → Z) (draw : spec_float → spec_float → spec_float) (ec_message : E → string) (W : Z).

Fixpoint on_time_exec (past : list (system_action E)) (v : system E) (acts : list (system_action E)) : bool :=
  match acts with
  | [] => true
  | a :: acts =>
      system_on_time W past v a &&
      match system_step hash draw ec_message v a with
      | Some (Ret v') => on_time_exec (past ++ [a]) v' acts
      | _ => false
      end
  end.

Lemma punctual_system_result_ok v acts :
  on_time_exec [] v acts = true →
  punctual_system_run hash draw ec_message W v acts (system_result hash draw ec_message v acts).1
    (system_result hash draw ec_message v acts).2.
Proof.
  enough (∀ past received0 v1, punctual_system_run hash draw ec_message W v past received0 v1 →
    on_time_exec past v1 acts = true →
    ∃ received v2, system_exec hash draw ec_message v1 acts = Some (received, v2) ∧
      punctual_system_run hash draw ec_message W v (past ++ acts) (received0 ++ received) v2) as Hall.
  { intros Hon. destruct (Hall [] [] v) as (received & v2 & Hex & Hrun); [constructor|done|].
    unfold system_result. by rewrite Hex. }
  induction acts as [|a acts IH]; intros past received0 v1 Hrun Hon; cbn in Hon |- *.
  { exists [], v1. by rewrite !app_nil_r. }
  apply andb_true_iff in Hon as [Hot Hon].
  destruct (system_step hash draw ec_message v1 a) as [[v2| |]|] eqn:Hs; try done.
  destruct (IH (past ++ [a]) (received0 ++ received_by v1 a) v2) as (received & v3 & -> & Hrun3);
    [by econstructor|done|].
  exists (received_by v1 a ++ received), v3. split; [done|].
  change (a :: acts) with ([a] ++ acts). by rewrite !app_assoc.
Qed.
End punctual_exec.

Lemma punctual_program_output_witness :
  ∃ text, batch_text 1000 (trades_of (example_run (example_serving ++ example_shutdown)).1) = Ret text ∧
    fos_file (pl_sink (sy_pipeline (example_run (example_serving ++ example_shutdown)).2)) =
      env_output_contents example_env +:+ text.
Proof.
  apply (punctual_program_output (λ _, "0.5") example_hash (λ lo _, lo) (λ _, "aborted") example_env
    example_args example_startup.1 example_service example_startup_ok (example_serving ++ example_shutdown)).
  - apply punctual_system_result_ok. vm_compute. reflexivity.
  - vm_compute. reflexivity.
Defined.


Lemma program_output_accounted_witness :
  ∃ batches extracted pending texts,
    concat batches ++ extracted ++ concat pending ++ in_transit (example_run example_serving).2 ≡ₚ
      trades_of (example_run example_serving).1 ∧
    (∀ st, st ∈ collected (example_run example_serving).2 ↔ ∃ s k, ref_window 1000 s k extracted = Some st) ∧
    Forall2 (λ sh ts, agg_models (sh_aggregator sh) ts) (pl_shards (sy_pipeline (example_run example_serving).2)) pending ∧
    mapM (batch_text 1000) batches = Ret texts ∧
    fos_file (pl_sink (sy_pipeline (example_run example_serving).2)) =
      env_output_contents example_env +:+ string_concat texts.
Proof.
  apply (program_output_accounted (λ _, "0.5") example_hash (λ lo _, lo) (λ _, "aborted") example_env
    example_args example_startup.1 example_service example_startup_ok example_serving).
  apply system_result_ok. vm_compute. reflexivity.
Defined.
