(* ===== verification/ServiceTotal.v ===== *)
(** * The program runs to completion

    With numbers that fit, a disk that does not fail, waits whose deadlines fit
    and threads that the system does not refuse, no step of the running program
    is undefined or throws; and a shutdown whose stop has been noticed can
    always be carried through to the exit of [main]. *)

From S2P Require Import Prelude CString DecimalFp StdMap Aggregator AggregatorSpec AggregatorProps.
From S2P Require Import Output Float64 Json JsonRef TradeParser ConfigLoader Cli ConnectionError.
From S2P Require Import ReconnectPolicy Jitter Totals BoundedQueue QueueProps NetworkStage NetworkProps.
From S2P Require Import Snapshots Pipeline PipelineInv PipelineLive PipelineProps.
From S2P Require Import Punctual PipelineTyped Defined Main Service ServiceProps.

(** ** The network stage *)

Section network.
Context `{ErrorCode E}.
Variable draw : spec_float → spec_float → spec_float.
Implicit Types (n : NetworkStage E).

(** A policy for which every delay is defined. *)
Record policy_ok (p : ReconnectPolicy) : Prop := {
  po_ratio : proper_double (rc_jitter_ratio (rp_config p)) ∧ ratio_ok (rc_jitter_ratio (rp_config p));
  po_initial : 0 < rc_initial_backoff_ms (rp_config p);
  po_max : 0 ≤ rc_max_backoff_ms (rp_config p) ≤ 2 ^ 41;
  po_attempt : 0 ≤ rp_attempt p
}.

Lemma wait_policy p elapsed ck again p' :
  policy_ok p → wait_for_next_attempt draw p elapsed ck = Some (Ret (again, p')) → policy_ok p'.
Proof.
  intros [] Hw. unfold wait_for_next_attempt in Hw.
  destruct (rp_stop_requested p); [|destruct elapsed; [|done]]; injection Hw as Hw; inv_ret; simplify_eq;
    split; try done. cbn. apply Z.mod_pos_bound. lia.
Qed.

Lemma net_step_policy n a n' :
  policy_ok (ns_policy n) → net_step draw n a = Some (Ret n') → policy_ok (ns_policy n').
Proof.
  intros Hp Hs. destruct a as [| |ev elapsed ck|]; cbn in Hs.
  - unfold start_stage in Hs. destruct (ns_thread n); cbn in Hs; by simplify_eq.
  - unfold stop_stage in Hs. destruct (ns_stop n); cbn in Hs; simplify_eq; [done| | |done|].
    + destruct Hp. by split.
    + by destruct (ns_client n).
    + destruct (ns_thread n) as [[]|]; cbn in Hs; by simplify_eq.
  - unfold run_stage in Hs. destruct (ns_thread n) as [[| |p|had|had| | |]|]; try done.
    + by simplify_eq.
    + destruct (client_unlocked n); by simplify_eq.
    + destruct (ns_client n) as [c|]; [|done]. cbn in Hs.
      destruct (client_run (ns_queue n) c p ev) as [[[q c'] r]|]; cbn in Hs; by simplify_eq.
    + destruct (client_unlocked n); by simplify_eq.
    + by simplify_eq.
    + simplify_eq. destruct Hp. by split.
    + destruct (wait_for_next_attempt draw (ns_policy n) elapsed ck) as [m|] eqn:Hw; [|done]. injection Hs as Hs.
      apply bind_Ret in Hs as ([again p] & -> & ?). inv_ret. by eapply wait_policy.
  - by apply start_stage_refused_Ret in Hs.
Qed.

(** What a step needs from the system: a clock below 2^62 ns, and the thread it
    starts. *)
Definition net_granted (a : net_action E) : Prop :=
  match a with NetThread _ _ steady_ns => steady_ok steady_ns | NetStartRefused => False | _ => True end.

Lemma wait_defined p elapsed ck o :
  draws_within draw → policy_ok p → steady_ok ck → wait_for_next_attempt draw p elapsed ck = Some o → is_ret o.
Proof.
  intros Hd [[H1 H2] H3 H4 H5] Hck. destruct p as [config a stop]. cbn in *.
  destruct (next_delay_ok draw config a stop Hd H1 H2 H3 H4 H5) as (delay & Hdelay & _ & Hint).
  destruct (wait_deadline_ok ck delay Hck Hint) as [deadline Hdl].
  unfold wait_for_next_attempt. cbn [rp_stop_requested]. rewrite Hdelay. cbn [mbind outcome_bind]. rewrite Hdl.
  destruct stop; [|destruct elapsed; [|done]]; intros [= <-]; cbn; by eexists.
Qed.

(** No step of the network stage is undefined. *)
Lemma net_step_total n a o :
  draws_within draw → policy_ok (ns_policy n) → net_granted a → net_step draw n a = Some o → is_ret o.
Proof.
  intros Hd Hp Hgr Hs. destruct a as [| |ev elapsed ck|]; cbn in Hs, Hgr; [| | |done].
  - destruct (start_stage n); cbn in Hs; simplify_eq. by eexists.
  - destruct (stop_stage n); cbn in Hs; simplify_eq. by eexists.
  - unfold run_stage in Hs. destruct (ns_thread n) as [[| |p|had|had| | |]|]; try done.
    + simplify_eq. by eexists.
    + destruct (client_unlocked n); simplify_eq. by eexists.
    + destruct (ns_client n) as [c|]; [|done]. cbn in Hs.
      destruct (client_run (ns_queue n) c p ev) as [[[q c'] r]|]; cbn in Hs; simplify_eq. by eexists.
    + destruct (client_unlocked n); simplify_eq. by eexists.
    + simplify_eq. by eexists.
    + simplify_eq. by eexists.
    + destruct (wait_for_next_attempt draw (ns_policy n) elapsed ck) as [m|] eqn:Hw; [|done]. injection Hs as <-.
      destruct (wait_defined _ _ _ _ Hd Hp Hgr Hw) as [[again p] ->]. cbn. by eexists.
Qed.
End network.

(** ** The program *)

Section total.
Context `{J : JsonLib} `{!JsonLaws J} `{ErrorCode E}.
Variables (hash : string → Z) (draw : spec_float → spec_float → spec_float) (ec_message : E → string).
Variables (W FI cap : Z) (sink : FileOutputSink) (threads : Z).
Hypothesis HW : W ≠ 0.
Hypothesis HWt : in_u64 W.
Hypothesis HFI : 0 ≤ FI ≤ 2 ^ 42.
Hypothesis Hcap : in_u64 cap ∧ 1 ≤ cap.
Hypothesis Hdraw : draws_within draw.
Hypothesis Hsink : file_good sink.
Implicit Types (v : system E).

Notation step := (system_step hash draw ec_message).
Notation run := (system_run hash draw ec_message).
Notation ok := (system_ok hash W FI cap sink threads).

Lemma network_step_total v a o :
  policy_ok (ns_policy (sy_network v)) → net_granted a → network_step draw ec_message v a = Some o → is_ret o.
Proof.
  intros Hp Hgr Hs. unfold network_step in Hs.
  destruct (net_step draw _ a) as [m|] eqn:Hm; cbn in Hs; [|done]. simplify_eq.
  destruct (net_step_total draw (with_queue _ _) _ _ Hdraw Hp Hgr Hm) as [n' ->]. cbn. by eexists.
Qed.

Lemma pipeline_step_total acts on msgs received v a o :
  ok acts on msgs received v → in_range W received → granted (sy_pipeline v) a → pipeline_step hash v a = Some o →
  is_ret o.
Proof.
  intros Hok Hr Hgr Hs. unfold pipeline_step in Hs.
  destruct (pipe_step hash _ a) as [m|] eqn:Hm; cbn in Hs; [|done]. simplify_eq.
  rewrite (so_received _ _ _ _ _ _ _ _ _ _ _ Hok) in Hr. apply in_range_app in Hr.
  destruct (so_run _ _ _ _ _ _ _ _ _ _ _ Hok) as (pacts & [Hrun _ _] & _).
  pose proof (run_good file_good hash W FI cap sink threads HW HWt _ _ _ Hsink Hr Hrun) as Hgood.
  apply (run_ok hash W FI cap sink threads HW) in Hrun as (g & Hg & _).
  destruct (pipe_step_defined file_good hash W sink threads HW HWt _ _ _ _ _ Hg Hr Hgood Hgr Hm) as (p & -> & _).
  cbn. by eexists.
Qed.

(** What a step of the program needs from the system. *)
Definition system_granted (a : system_action E) : Prop :=
  match a with
  | SysNetwork _ _ steady_ns | SysPipe (ActTimeout _ steady_ns | ActWriterWait steady_ns) => steady_ok steady_ns
  | SysRefused => False
  | _ => True
  end.

Lemma system_granted_pipe acts on msgs received v a :
  ok acts on msgs received v → pipe_thread a = true → system_granted (SysPipe a) → granted (sy_pipeline v) a.
Proof.
  intros Hok Ha Hgr. destruct (so_run _ _ _ _ _ _ _ _ _ _ _ Hok) as (pacts & [Hrun _ _] & _).
  apply flush_interval_run in Hrun. cbn in Hrun.
  destruct a; try done; cbn in *; apply deadline_granted; (done || by rewrite Hrun).
Qed.

Lemma system_step_total acts on msgs received v a o :
  ok acts on msgs received v → in_range W received → policy_ok (ns_policy (sy_network v)) → system_granted a →
  step v a = Some o → is_ret o.
Proof.
  intros Hok Hr Hp Hgr Hs.
  assert (∀ a o, net_granted a → network_step draw ec_message v a = Some o → is_ret o) as Hnet
    by eauto using network_step_total.
  assert (∀ a o, granted (sy_pipeline v) a → pipeline_step hash v a = Some o → is_ret o) as Hpipe
    by eauto using pipeline_step_total.
  destruct a as [| |ev elapsed ck|a|]; cbn [system_step] in Hs; [simplify_eq; by eexists| |by apply (Hnet (NetThread ev elapsed ck))| |by destruct Hgr].
  - unfold main_step in Hs. destruct (sy_main v) as [| | |d|d|d|]; [..|done].
    + destruct (pipeline_step hash v ActStart) as [m|] eqn:Hb; cbn in Hs; [|done].
      destruct (Hpipe ActStart m I Hb) as [v1 ->]. simplify_eq. by eexists.
    + destruct (network_step draw ec_message v NetStart) as [m|] eqn:Hb; cbn in Hs; [|done].
      destruct (Hnet NetStart m I Hb) as [v1 ->]. simplify_eq. by eexists.
    + simplify_eq. by eexists.
    + destruct (network_step draw ec_message v NetStop) as [m|] eqn:Hb; cbn in Hs; [|done].
      destruct (Hnet NetStop m I Hb) as [v1 ->]. simplify_eq. by eexists.
    + destruct (pipeline_step hash v ActStopRequest) as [m|] eqn:Hb; cbn in Hs; [|done].
      destruct (Hpipe ActStopRequest m I Hb) as [v1 ->]. simplify_eq. by eexists.
    + destruct (pipeline_step hash v ActStop) as [m|] eqn:Hb; cbn in Hs; [|done].
      destruct (Hpipe ActStop m I Hb) as [v1 ->]. simplify_eq. by eexists.
  - destruct (pipe_thread a) eqn:Ha; [|done]. eapply Hpipe; [|done]. by eapply system_granted_pipe.
Qed.

Lemma step_policy v a v' :
  policy_ok (ns_policy (sy_network v)) → step v a = Some (Ret v') → policy_ok (ns_policy (sy_network v')).
Proof.
  intros Hp [->|(b & _ & Hb)]%network_follows; [done|].
  exact (net_step_policy draw (with_queue (sy_network v) _) _ _ Hp Hb).
Qed.

Lemma run_policy v0 acts received v :
  policy_ok (ns_policy (sy_network v0)) → run v0 acts received v → policy_ok (ns_policy (sy_network v)).
Proof. intros Hp0. induction 1; eauto using step_policy. Qed.

(** A step of the shutdown, taken when the steady clock reads [ck]. *)
Definition quiet (ck : Z) (a : system_action E) : Prop :=
  match a with
  | SysMain | SysPipe (ActParser | ActAgg _ | ActWriterFlush) => True
  | SysNetwork ev _ ck' => (∀ m, ev ≠ EvMessage m) ∧ ck' = ck
  | SysPipe (ActWriterWait ck') => ck' = ck
  | _ => False
  end.

Lemma quiet_granted ck a : steady_ok ck → quiet ck a → system_granted a.
Proof. intros Hck. destruct a as [| |ev elapsed ck'|[]|]; cbn; naive_solver. Qed.

(** Which steps are enabled does not depend on the reading. *)
Lemma quiet_enabled ck v a :
  shutting_down (sy_main v) = true → is_env a = false → received_by v a = [] → is_Some (step v a) →
  delivers_message a = false →
  ∃ a', quiet ck a' ∧ is_env a' = false ∧ received_by v a' = [] ∧ is_Some (step v a').
Proof.
  intros Hsd He Hrec Hs Hm. destruct a as [| |ev elapsed ck'|b|]; try done.
  - by exists SysMain.
  - exists (SysNetwork ev elapsed ck). split_and!; [split; [by destruct ev|done]|done|by destruct ev|].
    destruct Hs as [o Hs]. cbn in Hs |- *. unfold network_step in *. cbn in *. unfold run_stage in *. cbn in *.
    destruct (ns_thread (sy_network v)) as [[]|]; try (by rewrite Hs; eauto).
    unfold wait_for_next_attempt in *. destruct (rp_stop_requested (ns_policy (sy_network v))); [by cbn; eauto|].
    destruct elapsed; [by cbn; eauto|done].
  - assert (pipe_thread b = true) as Hb by (cbn in Hs; destruct (pipe_thread b); [done|by destruct Hs]).
    destruct b; try done; try (eexists; split; [|split; [|split; [|exact Hs]]]; done).
    exists (SysPipe (ActWriterWait ck)). split_and!; try done. cbn. destruct Hs as [o Hs].
    unfold pipeline_step in *. cbn in *. unfold writer_wait in *.
    destruct (pl_writer (sy_pipeline v)) as [[]|]; try done. destruct (pl_stop_requested (sy_pipeline v)); [|done].
    cbn. eauto.
  - destruct Hs as [o Hs]. cbn in Hs. unfold main_refused in Hs. by destruct (sy_main v).
Qed.

(** A shutdown that has been noticed, carried through. *)
Lemma shutdown_run ec ck k : ∀ acts on msgs received v,
  ec_failed ec = true → steady_ok ck → ok acts on msgs received v → thread_ok (sy_network v) → in_range W received →
  policy_ok (ns_policy (sy_network v)) → stopping v → system_measure threads v ≤ Z.of_nat k →
  ∃ acts' v', run v acts' [] v' ∧ Forall (quiet ck) acts' ∧ sy_main v' = MainExit ∧
    Z.of_nat (length acts') ≤ Z.of_nat k.
Proof.
  induction k as [|k IH]; intros acts on msgs received v Hec Hck Hok Hth Hr Hp Hst Hk.
  all: pose proof Hst as [[Hsd|Hexit] Hn]; [|exists [], v; split_and!; [constructor|constructor|done|cbn; lia]].
  all: destruct (shutdown_enabled hash draw ec_message W FI cap sink threads HW (proj2 Hcap) _ _ _ _ v ec Hok Hth Hec Hsd)
    as (a0 & Ha0 & Hrec0 & Hev0 & Hs0); [done|].
  all: destruct (quiet_enabled ck v a0 Hsd Ha0 Hrec0 Hs0 Hev0) as (a & Hq & Ha & Hrec & [o Ho]).
  all: destruct (system_step_total _ _ _ _ _ _ _ Hok Hr Hp (quiet_granted _ _ Hck Hq) Ho) as [v1 ->].
  all: pose proof (step_policy _ _ _ Hp Ho) as Hp1.
  all: destruct (stopping_step hash draw ec_message W FI cap sink threads HW _ _ _ _ _ _ _ Hok Hst Ho) as [Hst1 Hm].
  all: rewrite Ha in Hm; cbn [ind] in Hm.
  { pose proof (system_measure_nonneg threads v1). lia. }
  destruct (system_step_ok _ _ _ _ _ _ _ _ _ _ _ _ _ _ _ Hok Ho) as (msgs1 & Hok1). rewrite Hrec, app_nil_r in Hok1.
  assert (thread_ok (sy_network v1)) as Hth1.
  { apply (thread_ok_system hash draw ec_message v [a] (received_by v a)); [done|].
    apply (system_next hash draw ec_message v [] [] v a v1); [constructor|done]. }
  destruct (IH _ _ _ _ v1 Hec Hck Hok1 Hth1 Hr Hp1 Hst1 ltac:(lia)) as (acts' & v' & Hrun & Hall & Hexit & Hlen).
  exists (a :: acts'), v'. split_and!; [|by constructor|done|cbn [length]; lia].
  pose proof (system_run_cons hash draw ec_message _ _ _ _ _ _ Ho Hrun) as Hrun'. by rewrite Hrec in Hrun'.
Qed.
End total.

Section program.
Context `{J : JsonLib} `{!JsonLaws J} `{ErrorCode E}.
Variables (fmt_double : spec_float → string) (hash : string → Z).
Variables (draw : spec_float → spec_float → spec_float) (ec_message : E → string).
Variables (env : environment) (argv : list string) (log : list log_entry) (sv : service E).
Hypothesis Hstart : main_startup fmt_double env argv = (log, Ret (Started sv)).
Hypothesis Hdraw : draws_within draw.
Hypothesis Hratio : proper_double (rc_jitter_ratio (cf_reconnect (sv_config sv))).
Hypothesis Hbackoff : rc_max_backoff_ms (cf_reconnect (sv_config sv)) ≤ 2 ^ 41.
Hypothesis Hflush : cf_flush_interval_ms (sv_config sv) ≤ 2 ^ 42.
Hypothesis Hdisk : Forall (eq None) (env_output_writes env).

Notation W := (cf_window_ms (sv_config sv)).
Notation run := (system_run hash draw ec_message (new_system log sv)).
Notation sink0 :=
  {| fos_file := env_output_contents env; fos_good := true; fos_os := env_output_writes env |}.
Notation ok :=
  (system_ok hash (cf_window_ms (sv_config sv)) (cf_flush_interval_ms (sv_config sv)) kQueueCapacity sink0 (cf_aggregator_threads (sv_config sv))).

Lemma program_policy_ok : policy_ok (ns_policy (sy_network (new_system log sv))).
Proof.
  destruct (startup_started _ _ _ _ _ Hstart) as (Hv & _ & _ & Hn & _).
  destruct Hv as (_ & _ & _ & _ & _ & _ & _ & _ & [Hi _] & Hm & Hr). cbn. rewrite Hn. split; cbn; [done|lia..].
Qed.

Lemma program_window_typed : in_u64 (cf_window_ms (sv_config sv)).
Proof. destruct (startup_started _ _ _ _ _ Hstart) as ((_ & _ & [? ?] & _) & _). unfold in_u64. lia. Qed.

Lemma program_sink_good : file_good sink0.
Proof. by split. Qed.

Lemma program_flush : 0 ≤ cf_flush_interval_ms (sv_config sv) ≤ 2 ^ 42.
Proof. destruct (startup_started _ _ _ _ _ Hstart) as ((_ & _ & _ & [? ?] & _) & _). lia. Qed.

Lemma program_total acts received v :
  run acts received v → ∃ on msgs, ok acts on msgs received v ∧ policy_ok (ns_policy (sy_network v)).
Proof.
  intros Hrun. destruct (program_ok fmt_double hash draw ec_message env argv log sv Hstart _ _ _ Hrun) as (on & msgs & Hok).
  exists on, msgs. split; [done|]. by eapply run_policy; [apply program_policy_ok|].
Qed.

(** ** Properties *)

(** C3: no undefined behaviour and no exception in the running program.  The
    hypotheses: each price, quantity and product in the messages received fits,
    and so do the volumes of each symbol and window added up; the disk does not
    fail; the configured back-off is at most 2^41 ms and the flush interval at
    most 2^42 ms, and the steady clock reads at most 2^62 ns, so that the
    deadlines of the waits fit; the system refuses no thread; the distribution
    draws within its bounds, and the jitter ratio is a double as a JSON number
    gives it.  Then every step that a thread of the program can make returns
    normally, in every schedule, whatever the network and the system clock
    do. *)
Theorem program_never_fails acts received v a o :
  run acts received v → in_range W received → system_granted a → system_step hash draw ec_message v a = Some o →
  ∃ v', o = Ret v'.
Proof.
  intros Hrun Hr Hgr Hs. destruct (program_total _ _ _ Hrun) as (on & msgs & Hok & Hp).
  exact (system_step_total hash draw ec_message _ _ _ _ _ (program_window fmt_double env argv log sv Hstart)
    program_window_typed program_flush Hdraw program_sink_good _ _ _ _ _ _ _ Hok Hr Hp Hgr Hs).
Qed.

(** C4: a graceful shutdown can be completed.  Under the same hypotheses, from
    every reachable state in which [main] is shutting down and the stop has
    been noticed by the network thread there is a schedule that takes [main]
    to its exit, in a number of steps bounded by the work left.  In it there
    is no signal, no tick of the flush timer and no further message, and the
    steady clock may read anything up to 2^62 ns. *)
Theorem shutdown_completes ec ck acts received v :
  ec_failed ec = true → steady_ok ck → run acts received v → stopping v → in_range W received →
  ∃ acts' v', system_run hash draw ec_message v acts' [] v' ∧ Forall (quiet ck) acts' ∧ sy_main v' = MainExit ∧
    Z.of_nat (length acts') ≤ system_measure (cf_aggregator_threads (sv_config sv)) v.
Proof.
  intros Hec Hck Hrun Hst Hr. destruct (program_total _ _ _ Hrun) as (on & msgs & Hok & Hp).
  set (T := cf_aggregator_threads (sv_config sv)) in *. pose proof (system_measure_nonneg T v).
  destruct (shutdown_run hash draw ec_message _ _ kQueueCapacity _ T (program_window fmt_double env argv log sv Hstart)
    program_window_typed program_flush ltac:(split; [unfold in_u64|]; vm_compute; intuition discriminate) Hdraw
    program_sink_good ec ck (Z.to_nat (system_measure T v)) _ _ _ _ v Hec Hck Hok) as (acts' & v' & Hrun' & Hq & Hexit & Hlen);
    [|done..|lia|].
  - by eapply (program_thread_ok fmt_double hash draw ec_message env argv log sv Hstart).
  - exists acts', v'. split_and!; [done..|lia].
Qed.
End program.

Lemma draw_low_within : draws_within (λ lo _, lo).
Proof. intros lo hi a b Ha _ Hab. exists a. split; [exact Ha|lia]. Qed.

Abbreviation example_next a :=
  (system_step example_hash (λ lo _, lo) (λ _, "aborted") (example_run example_serving).2 a).

Lemma program_never_fails_witness : ∃ v', example_next (SysPipe ActParser) = Some (Ret v').
Proof.
  assert (is_Some (example_next (SysPipe ActParser))) as [o Hs] by (vm_compute; eauto).
  rewrite Hs.
  destruct (program_never_fails (λ _, "0.5") example_hash (λ lo _, lo) (λ _, "aborted") example_env example_args
    example_startup.1 example_service example_startup_ok draw_low_within
    ltac:(split; [reflexivity|discriminate]) ltac:(vm_compute; discriminate) ltac:(vm_compute; discriminate)
    ltac:(constructor)
    example_serving [bare_message] (example_run example_serving).2 (SysPipe ActParser) o) as [v' ->].
  - change [bare_message] with ((example_run example_serving).1). apply system_result_ok. vm_compute. reflexivity.
  - apply bare_message_in_range.
  - exact I.
  - exact Hs.
  - exists v'. reflexivity.
Defined.

Lemma shutdown_completes_witness :
  ∃ acts' v', system_run example_hash (λ lo _, lo) (λ _, "aborted") (example_run example_serving).2 acts' [] v' ∧
    Forall (quiet 0) acts' ∧ sy_main v' = MainExit ∧ Z.of_nat (length acts') ≤ system_measure 1 (example_run example_serving).2.
Proof.
  apply (shutdown_completes (λ _, "0.5") example_hash (λ lo _, lo) (λ _, "aborted") example_env example_args
    example_startup.1 example_service example_startup_ok draw_low_within
    ltac:(split; [reflexivity|discriminate]) ltac:(vm_compute; discriminate) ltac:(vm_compute; discriminate)
    ltac:(constructor)
    OperationAborted 0 example_serving [bare_message]).
  - reflexivity.
  - split; discriminate.
  - change [bare_message] with ((example_run example_serving).1). apply system_result_ok. vm_compute. reflexivity.
  - split; [left; vm_compute; reflexivity|]. vm_compute. split; reflexivity.
  - apply bare_message_in_range.
Defined.
