(* ===== verification/Reports.v ===== *)
(** * Reports appear while the program runs

    The program writes its reports in operation, not only when it is told to
    stop: from every state in which [main] waits for a signal, the threads can
    get all received messages through to the aggregators, and one tick of the
    flush timer then writes every window that is over. *)

From S2P Require Import Prelude CString DecimalFp StdMap Aggregator AggregatorSpec AggregatorProps.
From S2P Require Import Output Float64 Json JsonRef TradeParser ConfigLoader Cli ConnectionError.
From S2P Require Import ReconnectPolicy Jitter Totals BoundedQueue QueueProps NetworkStage NetworkProps.
From S2P Require Import Snapshots Pipeline PipelineInv PipelineLive PipelineProps.
From S2P Require Import Punctual PipelineTyped Defined Operation Main Service ServiceProps ServiceTotal.

Section lift.
Context `{J : JsonLib} `{ErrorCode E}.
Variables (hash : string → Z) (draw : spec_float → spec_float → spec_float) (ec_message : E → string).
Implicit Types (v : system E).

Lemma system_run_trans v acts1 r1 v1 acts2 r2 v2 :
  system_run hash draw ec_message v acts1 r1 v1 → system_run hash draw ec_message v1 acts2 r2 v2 →
  system_run hash draw ec_message v (acts1 ++ acts2) (r1 ++ r2) v2.
Proof.
  intros Hrun. induction 1 as [|acts r v' a v'' _ IH Hs]; [by rewrite !app_nil_r|].
  rewrite !app_assoc. by econstructor.
Qed.

Lemma raw_capacity_run (p : pipeline FileOutputSink) acts msgs p' :
  pipe_run hash p acts msgs p' → bq_capacity (pl_raw_queue p') = bq_capacity (pl_raw_queue p).
Proof. induction 1 as [|acts msgs p1 a p2 _ IH Hs]; [done|]. by rewrite (raw_capacity_step _ _ _ _ Hs). Qed.

(** The threads of the pipeline run, and the rest of the program stands still. *)
Lemma pipe_run_system v acts p :
  pipe_run hash (sy_pipeline v) acts [] p → forallb operation acts = true →
  system_run hash draw ec_message v (SysPipe <$> acts) [] (set_pipeline v p).
Proof.
  intros Hrun. remember (@nil string) as msgs eqn:Hmsgs. revert Hmsgs.
  induction Hrun as [|acts msgs p1 a p2 _ IH Hs]; intros Hmsgs Hall.
  { destruct v. constructor. }
  apply app_nil in Hmsgs as [-> ->]. rewrite forallb_app in Hall. apply andb_true_iff in Hall as [Hall Ha].
  cbn in Ha. rewrite andb_true_r in Ha. rewrite fmap_app. specialize (IH eq_refl Hall).
  apply (system_next hash draw ec_message _ _ [] (set_pipeline v p1) (SysPipe a)); [done|]. cbn.
  assert (pipe_thread a = true) as -> by by destruct a. unfold pipeline_step. cbn. rewrite Hs. done.
Qed.

(** The network thread pushes the message it holds, when there is room. *)
Lemma push_held v m c :
  ns_thread (sy_network v) = Some (NetRun (RunPush m)) → ns_client (sy_network v) = Some c →
  bq_items (pl_raw_queue (sy_pipeline v)) = [] → bq_shutdown (pl_raw_queue (sy_pipeline v)) = false →
  1 ≤ bq_capacity (pl_raw_queue (sy_pipeline v)) →
  ∃ p v', pipe_step hash (sy_pipeline v) (ActSubmit m) = Some (Ret p) ∧
    accepted_by (sy_pipeline v) (ActSubmit m) = [m] ∧
    system_step hash draw ec_message v (SysNetwork EvOk true 0) = Some (Ret v') ∧
    sy_pipeline v' = p ∧ sy_main v' = sy_main v ∧ ns_thread (sy_network v') = Some (NetRun RunRead) ∧
    ns_client (sy_network v') = Some c ∧ ns_stop (sy_network v') = ns_stop (sy_network v) ∧
    sy_stop_requested v' = sy_stop_requested v ∧ pl_stop_requested p = pl_stop_requested (sy_pipeline v) ∧
    pl_stop p = pl_stop (sy_pipeline v) ∧ pl_sink p = pl_sink (sy_pipeline v).
Proof.
  intros Ht Hc Hi Hsd Hcap. set (q := pl_raw_queue (sy_pipeline v)) in *.
  set (q' := {| bq_items := [m]; bq_capacity := bq_capacity q; bq_shutdown := false |}).
  assert (push q m = Some (true, q')) as Hp.
  { unfold push, not_full, size. rewrite Hsd, Hi. cbn [orb length]. rewrite (proj2 (Z.ltb_lt _ _)) by (cbn; lia).
    unfold push_locked. by rewrite Hsd, Hi. }
  assert (submit_raw_message (sy_pipeline v) m = Some (true, set_raw_queue (sy_pipeline v) q')) as Hsub.
  { unfold submit_raw_message. fold q. by rewrite Hp. }
  exists (set_raw_queue (sy_pipeline v) q').
  assert (∃ n, net_step draw (with_queue (sy_network v) q) (NetThread EvOk true 0) = Some (Ret n) ∧ ns_queue n = q' ∧
    ns_thread n = Some (NetRun RunRead) ∧ ns_client n = Some c ∧ ns_stop n = ns_stop (sy_network v)) as (n & Hn & Hq & Hrest).
  { cbn [net_step]. unfold run_stage. cbn [with_queue ns_thread ns_client ns_queue]. rewrite Ht, Hc.
    cbn [mbind option_bind client_run]. rewrite Hp. cbn. eauto 10. }
  eexists. split; [cbn; by rewrite Hsub|]. split; [cbn; by rewrite Hsub|]. split.
  - cbn [system_step]. unfold network_step. fold q. rewrite Hn. cbn. reflexivity.
  - cbn. rewrite Hq. naive_solver.
Qed.
End lift.

(** ** From the command line *)

Section program.
Context `{J : JsonLib} `{!JsonLaws J} `{ErrorCode E}.
Variables (fmt_double : spec_float → string) (hash : string → Z).
Variables (draw : spec_float → spec_float → spec_float) (ec_message : E → string).
Variables (env : environment) (argv : list string) (log : list log_entry) (sv : service E).
Hypothesis Hstart : main_startup fmt_double env argv = (log, Ret (Started sv)).
Hypothesis Hdisk : Forall (eq None) (env_output_writes env).

Notation run := (system_run hash draw ec_message (new_system log sv)).
Notation W := (cf_window_ms (sv_config sv)).
Notation FI := (cf_flush_interval_ms (sv_config sv)).
Notation sink0 :=
  {| fos_file := env_output_contents env; fos_good := true; fos_os := env_output_writes env |}.
Notation threads := (cf_aggregator_threads (sv_config sv)).
Notation op := (operating hash W sink0 threads).

(** [main] has not yet gone on to the pipeline. *)
Definition serving (p : main_pc) : bool :=
  match p with MainWait | MainStopNetwork false => true | _ => false end.

(** The state of the pipeline then. *)
Lemma waiting_operating acts received v :
  run acts received v → serving (sy_main v) = true → in_range W received →
  ∃ pacts msgs, pipe_run hash (new_pipeline W FI kQueueCapacity sink0 threads) pacts msgs (sy_pipeline v) ∧
    existsb is_start pacts = true ∧ running (sy_pipeline v) ∧ file_good (pl_sink (sy_pipeline v)) ∧
    received = msgs ++ holding (ns_thread (sy_network v)) ∧ in_range W msgs ∧
    bq_capacity (pl_raw_queue (sy_pipeline v)) = kQueueCapacity.
Proof.
  intros Hrun Hmain Hr. pose proof (program_window fmt_double env argv log sv Hstart) as HW.
  destruct (program_ok fmt_double hash draw ec_message env argv log sv Hstart _ _ _ Hrun) as (on & msgs & Hok).
  destruct (so_run _ _ _ _ _ _ _ _ _ _ _ Hok) as (pacts & [Hp _ _] & Hst).
  pose proof (so_received _ _ _ _ _ _ _ _ _ _ _ Hok) as Hrec. pose proof (so_main _ _ _ _ _ _ _ _ _ _ _ Hok) as Hm.
  assert (pl_stop (sy_pipeline v) = NotStopping ∧ pl_stop_requested (sy_pipeline v) = false ∧
    existsb is_start pacts = true) as (Hns & Hrq & Hst').
  { unfold main_ok in Hm. destruct (sy_main v) as [| | |[]| | |]; try done; naive_solver. }
  assert (in_range W msgs) as Hr' by (rewrite Hrec in Hr; by eapply in_range_app).
  exists pacts, msgs. split_and!; try done.
  - apply (run_good file_good hash W FI kQueueCapacity sink0 threads HW
      (program_window_typed fmt_double env argv log sv Hstart) _ _ _ ltac:(by split) Hr' Hp).
  - by apply (system_pipeline _ _ _ _ _ _ HW _ _ _ _ _ Hok).
Qed.

Lemma program_deadline acts received v ck :
  run acts received v → FI ≤ 2 ^ 42 → steady_ok ck → is_ret (writer_deadline (sy_pipeline v) ck).
Proof.
  intros Hrun Hflush Hck.
  destruct (program_ok fmt_double hash draw ec_message env argv log sv Hstart _ _ _ Hrun) as (on & msgs & Hok).
  destruct (so_run _ _ _ _ _ _ _ _ _ _ _ Hok) as (pacts & [Hp _ _] & _). apply flush_interval_run in Hp. cbn in Hp.
  apply deadline_granted; [done|]. rewrite Hp. destruct (startup_started _ _ _ _ _ Hstart) as ((_ & _ & _ & [? ?] & _) & _). lia.
Qed.

Lemma holding_client acts received v m :
  run acts received v → ns_thread (sy_network v) = Some (NetRun (RunPush m)) → ∃ c, ns_client (sy_network v) = Some c.
Proof.
  intros Hrun Hh. pose proof (program_thread_ok fmt_double hash draw ec_message env argv log sv Hstart _ _ _ Hrun) as Hth.
  unfold thread_ok in Hth. rewrite Hh in Hth. destruct Hth as (c & ? & _). eauto.
Qed.

(** The message that the network thread holds gets through. *)
Lemma push_through acts received v :
  run acts received v → serving (sy_main v) = true → in_range W received →
  ∃ acts' v', system_run hash draw ec_message v acts' [] v' ∧ sy_main v' = sy_main v ∧
    ns_stop (sy_network v') = ns_stop (sy_network v) ∧ ns_client (sy_network v') = ns_client (sy_network v) ∧
    ns_thread (sy_network v') =
      match ns_thread (sy_network v) with Some (NetRun (RunPush _)) => Some (NetRun RunRead) | t => t end ∧
    sy_stop_requested v' = sy_stop_requested v ∧
    (∀ a, a ∈ acts' → a = SysNetwork EvOk true 0 ∨ ∃ b, a = SysPipe b ∧ working b = true) ∧
    op received (sy_pipeline v') ∧ file_good (pl_sink (sy_pipeline v')).
Proof.
  intros Hrun Hmain Hr. pose proof (program_window fmt_double env argv log sv Hstart) as HW.
  pose proof (program_window_typed fmt_double env argv log sv Hstart) as HWt.
  destruct (waiting_operating _ _ _ Hrun Hmain Hr) as (pacts & msgs & Hp & Hst & Hrn & Hk & Hrec & Hrm & Hcap).
  pose proof (run_operating hash W FI kQueueCapacity sink0 threads HW _ _ _ Hp Hst Hrn) as Hop.
  assert (holding (ns_thread (sy_network v)) = [] ∨ ∃ m, ns_thread (sy_network v) = Some (NetRun (RunPush m)))
    as [Hh|[m Hh]] by (destruct (ns_thread (sy_network v)) as [[| |[]| | | | |]|]; eauto).
  { rewrite Hh, app_nil_r in Hrec. subst msgs. exists [], v. split_and!; [constructor|done|done|done| |done| |done|done].
    - by destruct (ns_thread (sy_network v)) as [[| |[]| | | | |]|].
    - intros a ?%not_elem_of_nil. done. }
  pose proof (pipe_measure_nonneg (sy_pipeline v)).
  destruct (settles file_good hash W sink0 threads HW HWt (Z.to_nat (pipe_measure (sy_pipeline v))) _ _ Hop Hrm Hk ltac:(lia))
    as (acts1 & p1 & Hrun1 & Hall & _ & Hop1 & Hk1 & Hi1 & _).
  assert (forallb operation acts1 = true) as Hall'.
  { apply forallb_forall. intros a Ha. rewrite forallb_forall in Hall. apply Hall in Ha. by destruct a. }
  pose proof (pipe_run_system hash draw ec_message v _ _ Hrun1 Hall') as Hsys1.
  destruct (holding_client _ _ _ _ Hrun Hh) as [c Hc].
  pose proof (run_trans _ _ _ _ _ _ _ _ Hp Hrun1) as Hp1. rewrite app_nil_r in Hp1.
  assert (bq_capacity (pl_raw_queue p1) = kQueueCapacity) as Hcap1.
  { by rewrite (raw_capacity_run _ _ _ _ _ Hrun1). }
  destruct (operating_open hash W sink0 threads _ _ Hop1) as (Hopen & _ & _).
  destruct (push_held hash draw ec_message (set_pipeline v p1) m c Hh Hc (id_raw _ Hi1) Hopen) as
    (p2 & v2 & Hs & Hacc & Hs2 & Hv2 & Hm2 & Ht2 & Hc2 & Hns2 & Hr2 & Hq2 & Hn2 & Hk2); [cbn; by rewrite Hcap1|].
  cbn in Hs, Hacc, Hm2, Hns2, Hr2, Hq2, Hn2, Hk2.
  exists ((SysPipe <$> acts1) ++ [SysNetwork EvOk true 0]), v2. split_and!.
  - apply (system_run_trans hash draw ec_message v _ [] (set_pipeline v p1) _ [] v2); [done|].
    apply (system_next hash draw ec_message (set_pipeline v p1) [] [] (set_pipeline v p1) (SysNetwork EvOk true 0) v2);
      [constructor|done].
  - done.
  - done.
  - by rewrite Hc2, Hc.
  - by rewrite Ht2, Hh.
  - done.
  - intros a [(b & -> & Hb)%list_elem_of_fmap| ->%list_elem_of_singleton]%elem_of_app; [|by left].
    right. exists b. split; [done|]. rewrite forallb_forall in Hall. by apply Hall, list_elem_of_In.
  - rewrite Hv2, Hrec, Hh. cbn [holding]. eapply (run_operating hash W FI kQueueCapacity sink0 threads HW (((pacts ++ acts1) ++ [ActSubmit m]))).
    + rewrite <- Hacc. exact (pipe_next hash _ _ _ _ (ActSubmit m) _ Hp1 Hs).
    + rewrite !existsb_app, Hst. done.
    + destruct (op_running _ _ _ _ _ _ Hop1). split; congruence.
  - by rewrite Hv2, Hk2.
Qed.

(** ** Properties *)

(** C5: reports appear while the program runs.  Let the disk not fail, each
    number in the messages received fit and so the volumes of each symbol and
    window added up, the flush interval be at most 2^42 ms and the steady clock
    read at most 2^62 ns.  From every reachable state in which [main] waits for
    a signal, the threads can then, without receiving anything more, get every
    message received so far through, and a tick of the flush timer at any time
    [now] leaves in the output file the reports of all received trades but
    those of the window in progress at [now] and later ones; [main] still
    waits.  So a window that is over is reported without the program being
    stopped. *)
Theorem program_reports_while_running acts received v now ck :
  run acts received v → sy_main v = MainWait → in_range W received →
  cf_flush_interval_ms (sv_config sv) ≤ 2 ^ 42 → steady_ok ck →
  ∃ acts' v', system_run hash draw ec_message v acts' [] v' ∧ sy_main v' = MainWait ∧
    SysSignal ∉ acts' ∧ (∀ now' ck', SysPipe (ActTimeout now' ck') ∈ acts' → now' = now) ∧
    ∃ batches late texts, concat batches ++ late ≡ₚ trades_of received ∧
      (∀ t, t ∈ late → window_start_of W (to_u64 now) ≤ start_of W t) ∧
      mapM (batch_text W) batches = Ret texts ∧
      fos_file (pl_sink (sy_pipeline v')) = env_output_contents env +:+ string_concat texts.
Proof.
  intros Hrun Hmain Hr Hflush Hck.
  destruct (push_through _ _ _ Hrun ltac:(by rewrite Hmain) Hr) as (acts1 & v1 & Hrun1 & Hm1 & _ & _ & _ & _ & Ha1 & Hop & Hk).
  pose proof (program_deadline _ _ _ ck (system_run_trans hash draw ec_message _ _ _ _ _ _ _ Hrun Hrun1) Hflush Hck) as Hdl.
  destruct (reports file_good hash W sink0 threads (program_window fmt_double env argv log sv Hstart)
    (program_window_typed fmt_double env argv log sv Hstart) _ _ now ck Hop Hr Hk Hdl)
    as (acts2 & p2 & Hrun2 & Hall & Hnow & _ & batches & late & texts & Hperm & Hlate & Htexts & Htext).
  exists (acts1 ++ (SysPipe <$> acts2)), (set_pipeline v1 p2). split_and!.
  - apply (system_run_trans hash draw ec_message v _ [] v1 _ []); [done|]. by apply pipe_run_system.
  - cbn. congruence.
  - intros [Ha|(b & ? & _)%list_elem_of_fmap]%elem_of_app; [|done]. by apply Ha1 in Ha as [?|(b & ? & _)].
  - intros now' ck' [Ha|(b & [= <-] & Hb)%list_elem_of_fmap]%elem_of_app; [|by eapply Hnow].
    by apply Ha1 in Ha as [?|(b & [= <-] & ?)].
  - exists batches, late, texts. done.
Qed.

(** ** A stop that is lost *)

(** The signal comes when the network thread has tested its flag and not yet
    created the client; [NetworkStage::stop] finds no client to stop, and the
    thread then connects. *)
Definition lost_signal : list (system_action E) :=
  [SysMain; SysMain; SysNetwork EvOk true 0; SysSignal; SysMain; SysMain; SysMain; SysMain] ++
  replicate 9 (SysNetwork EvOk true 0).

(** [main] joins a thread that reads from an open connection. *)
Record hanging (v : system E) : Prop := {
  ha_main : sy_main v = MainStopNetwork false;
  ha_join : ns_stop (sy_network v) = NsJoin;
  ha_reading : ns_thread (sy_network v) = Some (NetRun RunRead);
  ha_socket : ns_client (sy_network v) = Some {| wc_stop_requested := false; wc_ws := Some false |};
  ha_signal : sy_stop_requested v = true
}.

Lemma hanging_blocked v : hanging v → main_step hash draw ec_message v = None.
Proof.
  intros []. unfold main_step. rewrite ha_main0. unfold network_step. cbn [net_step]. unfold stop_stage. cbn.
  by rewrite ha_join0, ha_reading0.
Qed.

Lemma lost_signal_hangs :
  ∃ v, run lost_signal [] v ∧ hanging v.
Proof.
  destruct (startup_started _ _ _ _ _ Hstart) as (_ & _ & Hp & Hn & _).
  set (r := system_result hash draw ec_message (new_system log sv) lost_signal).
  assert ((if system_exec hash draw ec_message (new_system log sv) lost_signal then true else false) = true) as Hex.
  { unfold new_system. rewrite Hn, Hp. vm_compute. reflexivity. }
  exists r.2. replace (@nil string) with r.1; [split; [by apply system_result_ok|]|].
  - subst r. unfold new_system. rewrite Hn, Hp. split; vm_compute; reflexivity.
  - subst r. unfold new_system. rewrite Hn, Hp. vm_compute. reflexivity.
Qed.

(** Another message arrives. *)
Lemma hanging_message acts received v m :
  run acts received v → hanging v → in_range W (received ++ [m]) →
  ∃ acts' v', system_run hash draw ec_message v acts' [m] v' ∧ hanging v'.
Proof.
  intros Hrun [Hm Hj Ht Hc Hsig] Hr.
  assert (∃ v1, system_step hash draw ec_message v (SysNetwork (EvMessage m) true 0) = Some (Ret v1) ∧
    sy_main v1 = sy_main v ∧ ns_stop (sy_network v1) = NsJoin ∧ ns_client (sy_network v1) = ns_client (sy_network v) ∧
    ns_thread (sy_network v1) = Some (NetRun (RunPush m)) ∧ sy_stop_requested v1 = true) as (v1 & Hs & Hm1 & Hj1 & Hc1 & Ht1 & Hsig1).
  { cbn [system_step]. unfold network_step. cbn [net_step]. unfold run_stage.
    cbn [with_queue ns_thread ns_client ns_queue]. rewrite Ht, Hc. cbn. eauto 10. }
  assert (received_by v (SysNetwork (EvMessage m) true 0) = [m]) as Hrec by (cbn; by rewrite Ht).
  pose proof (system_next hash draw ec_message _ _ _ _ _ _ Hrun Hs) as Hrun1. rewrite Hrec in Hrun1.
  destruct (push_through _ _ _ Hrun1 ltac:(by rewrite Hm1, Hm) Hr) as (acts' & v' & Hrun' & Hm' & Hj' & Hc' & Ht' & Hsig' & _).
  exists (SysNetwork (EvMessage m) true 0 :: acts'), v'. split.
  - rewrite <- Hrec, <- (app_nil_r (received_by _ _)). by eapply system_run_cons.
  - split; congruence || (rewrite Ht', Ht1; done).
Qed.


End program.

(** The program has received a message; a minute later the report of its trade
    is in the file. *)
Definition example_received : list (system_action example_error) := take 14 example_serving.

Lemma program_reports_while_running_witness :
  (example_run example_received).1 = [bare_message] ∧
  ∃ acts' v', system_run example_hash (λ lo _, lo) (λ _, "aborted") (example_run example_received).2 acts' [] v' ∧
    sy_main v' = MainWait ∧ SysSignal ∉ acts' ∧ (∀ now' ck', SysPipe (ActTimeout now' ck') ∈ acts' → now' = 60000) ∧
    ∃ batches late texts, concat batches ++ late ≡ₚ trades_of (example_run example_received).1 ∧
      (∀ t, t ∈ late → 60000 ≤ start_of 1000 t) ∧ mapM (batch_text 1000) batches = Ret texts ∧
      fos_file (pl_sink (sy_pipeline v')) = env_output_contents example_env +:+ string_concat texts.
Proof.
  split; [vm_compute; reflexivity|].
  apply (program_reports_while_running (λ _, "0.5") example_hash (λ lo _, lo) (λ _, "aborted") example_env example_args
    example_startup.1 example_service example_startup_ok ltac:(constructor) example_received
    (example_run example_received).1 (example_run example_received).2 60000 0).
  - apply system_result_ok. vm_compute. reflexivity.
  - vm_compute. reflexivity.
  - replace ((example_run example_received).1) with [bare_message] by (vm_compute; reflexivity).
    apply bare_message_in_range.
  - vm_compute. discriminate.
  - split; discriminate.
Defined.

