(* ===== verification/Crash.v ===== *)
(** * When the disk fails

    [FileOutputSink::write] throws when the stream reports an error; nothing
    catches the exception, so that the process ends, wherever the write was
    made from; and nothing catches the exception of a thread that the system
    refuses.  This file says what such an end leaves behind: the file never
    holds anything but whole reports and, at its end, an initial part of one. *)

From S2P Require Import Prelude CString DecimalFp StdMap Aggregator AggregatorSpec AggregatorProps.
From S2P Require Import Output Float64 Json JsonRef TradeParser ConfigLoader Cli ConnectionError.
From S2P Require Import ReconnectPolicy Totals BoundedQueue QueueProps NetworkStage NetworkProps.
From S2P Require Import Snapshots Pipeline PipelineInv PipelineLive PipelineProps.
From S2P Require Import Punctual PipelineTyped Defined Main Service ServiceProps.

(** ** The sink after a call, returned from or not *)

(** The second loop of [write_windows], up to its end or the exception. *)
Fixpoint put_snapshots (sink : FileOutputSink) (snaps : list StatsSnapshot) : FileOutputSink :=
  match snaps with
  | [] => sink
  | snap :: snaps =>
      match serialize snap with
      | Ret text =>
          let sink := if bool_decide (text = "") then sink else stream_put sink text in
          if fos_good sink then put_snapshots sink snaps else sink
      | _ => sink
      end
  end.

Definition put_windows (sink : FileOutputSink) (windows : list WindowStats) : FileOutputSink :=
  match windows with [] => sink | _ => put_snapshots sink (snapshots windows) end.

(** The sink that a step of the pipeline leaves, also one that throws. *)
Definition sink_after (s : pipeline FileOutputSink) (a : action) : FileOutputSink :=
  match a with
  | ActWriterFlush =>
      match pl_writer s with
      | Some (WriterExtract _ i windows) =>
          match pl_shards s !! i with Some _ => pl_sink s | None => put_windows (pl_sink s) windows end
      | _ => pl_sink s
      end
  | ActStop =>
      match pl_stop s with
      | StopFlush => put_windows (pl_sink s) (take_remaining (pl_shards s)).1
      | _ => pl_sink s
      end
  | _ => pl_sink s
  end.

Definition system_sink_after {E} (v : system E) (a : system_action E) : FileOutputSink :=
  match a, sy_main v with
  | SysPipe b, _ => sink_after (sy_pipeline v) b
  | SysMain, MainStopPipeline _ => sink_after (sy_pipeline v) ActStop
  | _, _ => pl_sink (sy_pipeline v)
  end.

(** ** Lemmas *)

Lemma substring_prefix n text : ∃ rest, text = String.substring 0 n text +:+ rest.
Proof.
  revert n. induction text as [|c text IH]; intros [|n]; cbn.
  - by exists "".
  - by exists "".
  - by exists (String c text).
  - destruct (IH n) as [rest Hr]. exists rest. rewrite string_app_cons. by f_equal.
Qed.

(** What [stream_put] leaves: all of the text, or a part of it and a stream
    that has failed. *)
Lemma stream_put_spec sink text :
  fos_good sink = true →
  ∃ part rest, text = part +:+ rest ∧ fos_file (stream_put sink text) = fos_file sink +:+ part ∧
    (fos_good (stream_put sink text) = true → rest = "").
Proof.
  intros Hg. unfold stream_put. rewrite Hg. destruct (fos_os sink) as [|[n|] os]; cbn.
  - exists text, "". by rewrite string_app_nil_r.
  - destruct (substring_prefix n text) as [rest Hr]. by exists (String.substring 0 n text), rest.
  - exists text, "". by rewrite string_app_nil_r.
Qed.

Lemma put_snapshots_spec sink snaps text :
  fos_good sink = true → snapshots_text snaps = Ret text →
  ∃ part rest, text = part +:+ rest ∧ fos_file (put_snapshots sink snaps) = fos_file sink +:+ part ∧
    (if fos_good (put_snapshots sink snaps)
     then rest = "" ∧ foldM write_snapshot sink snaps = Ret (put_snapshots sink snaps)
     else foldM write_snapshot sink snaps = Throw (RuntimeError "Failed to write to output file")).
Proof.
  revert sink text. induction snaps as [|snap snaps IH]; intros sink text Hg Ht; cbn [put_snapshots foldM].
  { cbn in Ht. inv_ret. exists "", "". rewrite Hg. split_and!; [done|by rewrite string_app_nil_r|done..]. }
  unfold snapshots_text in Ht. apply bind_Ret in Ht as (ts & Hts & ?). inv_ret.
  apply mapM_Ret_cons in Hts as (t1 & ts' & -> & Ht1 & Hts'). cbn [string_concat].
  assert (write_snapshot sink snap = if bool_decide (t1 = "") then Ret sink else file_write sink t1) as ->
    by (unfold write_snapshot; by rewrite Ht1).
  rewrite Ht1.
  assert (∀ sink', fos_good sink' = true → ∃ part rest, string_concat ts' = part +:+ rest ∧
    fos_file (put_snapshots sink' snaps) = fos_file sink' +:+ part ∧
    (if fos_good (put_snapshots sink' snaps)
     then rest = "" ∧ foldM write_snapshot sink' snaps = Ret (put_snapshots sink' snaps)
     else foldM write_snapshot sink' snaps = Throw (RuntimeError "Failed to write to output file"))) as Hrest.
  { intros sink' Hg'. apply IH; [done|]. unfold snapshots_text. by rewrite Hts'. }
  case_bool_decide as He.
  { subst t1. rewrite Hg. cbn [mbind outcome_bind]. rewrite string_app_nil_l. by apply Hrest. }
  destruct (stream_put_spec sink t1 Hg) as (p1 & r1 & Htext & Hfile & Hgood).
  unfold file_write.
  destruct (fos_good (stream_put sink t1)) eqn:Hp.
  - rewrite (Hgood eq_refl), string_app_nil_r in Htext. subst p1. cbn [mbind outcome_bind].
    destruct (Hrest _ Hp) as (part & rest & Hc & Hf & Hend). exists (t1 +:+ part), rest.
    rewrite Hc, Hf, Hfile, !string_app_assoc. done.
  - exists p1, (r1 +:+ string_concat ts'). rewrite Hp, Hfile, Htext, string_app_assoc. done.
Qed.

Lemma put_windows_spec sink ws text :
  fos_good sink = true → windows_text ws = Ret text →
  ∃ part rest, text = part +:+ rest ∧ fos_file (put_windows sink ws) = fos_file sink +:+ part ∧
    (if fos_good (put_windows sink ws)
     then rest = "" ∧ write_windows sink ws = Ret (put_windows sink ws)
     else write_windows sink ws = Throw (RuntimeError "Failed to write to output file")).
Proof.
  intros Hg Ht. unfold put_windows, write_windows. destruct ws as [|w ws]; [|by apply put_snapshots_spec].
  cbn in Ht. inv_ret. exists "", "". rewrite Hg. split_and!; [done|by rewrite string_app_nil_r|done..].
Qed.


Lemma write_windows_put sink ws sink' :
  fos_good sink = true → write_windows sink ws = Ret sink' → sink' = put_windows sink ws ∧ fos_good sink' = true.
Proof.
  intros Hg Hw. destruct (write_windows_text _ _ _ Hw) as (text & Ht & _).
  destruct (put_windows_spec sink ws text Hg Ht) as (part & rest & _ & _ & Hend).
  destruct (fos_good (put_windows sink ws)) eqn:Hp; [|congruence]. destruct Hend as [_ Hend].
  rewrite Hw in Hend. by injection Hend as ->.
Qed.

Section pipeline.
Context `{J : JsonLib} `{!JsonLaws J}.
Variables (hash : string → Z) (W FI cap : Z) (sink : FileOutputSink) (threads : Z).
Hypothesis HW : W ≠ 0.
Hypothesis HWt : in_u64 W.

Notation s0 := (new_pipeline W FI cap sink threads).
Notation shards := (Z.to_nat (Z.max threads 1)).
Notation ok := (pipe_ok hash W shards (sink_text sink)).

(** [sink_after] is the sink after a step that returns. *)
Lemma sink_after_returned (s : pipeline FileOutputSink) a s' :
  fos_good (pl_sink s) = true → pipe_step hash s a = Some (Ret s') →
  pl_sink s' = sink_after s a ∧ fos_good (pl_sink s') = true.
Proof.
  intros Hg Hs. unfold sink_after. destruct a as [m| |now ck| | |i|ck| | |]; cbn [pipe_step] in Hs.
  - unfold submit_raw_message in Hs. destruct (push _ _) as [[]|]; cbn in Hs; by simplify_eq.
  - unfold start in Hs. by destruct (pl_parser s), (pl_stop_requested s), (pl_stop s); simplify_eq.
  - by apply writer_timeout_Ret in Hs as (_ & _ & _ & _ & ->).
  - unfold stop_request in Hs. by destruct (pl_stop s); simplify_eq.
  - by rewrite (parser_frame_sink _ _ _ Hs).
  - by rewrite (agg_frame_sink _ _ _ Hs).
  - by apply writer_wait_Ret in Hs as (_ & _ & _ & ->).
  - unfold flush_completed_windows in Hs. destruct (pl_writer s) as [[|cur i ws|]|]; try done.
    destruct (pl_shards s !! i) as [sh|].
    + by destruct (extract_completed_windows (sh_aggregator sh) cur); simplify_eq.
    + injection Hs as Hs. apply bind_Ret in Hs as (sk & Hw & ?). inv_ret. by apply write_windows_put.
  - unfold stop in Hs. destruct (pl_stop s) as [| | |j|j|]; [done|..].
    + by destruct (can_join_writer s); simplify_eq.
    + by destruct (can_join_parser s); simplify_eq.
    + by destruct (pl_shards s !! j); simplify_eq.
    + by destruct (pl_aggs s !! j) as [[[]|]|]; simplify_eq.
    + injection Hs as Hs. apply bind_Ret in Hs as (s1 & Hf & ?). inv_ret. unfold flush_remaining_windows in Hf.
      destruct (take_remaining (pl_shards s)) as [ws shs].
      apply bind_Ret in Hf as (sk & Hw & ?). inv_ret. by apply write_windows_put.
  - by apply start_refused_Ret in Hs.
Qed.

Lemma run_stream_good acts msgs s :
  fos_good sink = true → pipe_run hash s0 acts msgs s → fos_good (pl_sink s) = true.
Proof.
  intros Hg. induction 1 as [|acts msgs s a s' _ IH Hs]; [done|]. by apply (sink_after_returned _ _ _ IH Hs).
Qed.

(** A batch whose writing fails. *)
Lemma write_throws (sk : FileOutputSink) msgs ts ws e :
  fos_good sk = true → in_range W msgs → NoDup ws → (∀ st, st ∈ ws ↔ ∃ s k, ref_window W s k ts = Some st) →
  (∀ t, cnt t ts ≤ cnt t (trades_of msgs)) → write_windows sk ws = Throw e →
  e = RuntimeError "Failed to write to output file" ∧
  ∃ part rest, batch_text W ts = Ret (part +:+ rest) ∧ fos_file (put_windows sk ws) = fos_file sk +:+ part.
Proof.
  intros Hg Hr Hnd Hws Hsub Hw.
  destruct (sub_writable W HW HWt msgs ts ws Hr Hsub) as [Hp Hu]; [by intros; apply Hws|].
  assert (∃ text, windows_text ws = Ret text) as [text Ht].
  { destruct (write_windows_returns file_good {| fos_file := ""; fos_good := true; fos_os := [] |} ws)
      as (sk' & Hw' & _); [by split|done..|].
    apply write_windows_text in Hw' as (text & ? & _). eauto. }
  destruct (put_windows_spec sk ws text Hg Ht) as (part & rest & -> & Hf & Hend).
  rewrite (batch_text_unique W ts) in Ht by done.
  destruct (fos_good (put_windows sk ws)); [destruct Hend; congruence|].
  rewrite Hw in Hend. split; [congruence|eauto].
Qed.

Lemma pipe_throws g msgs s a e :
  ok g msgs s → in_range W msgs → fos_good (pl_sink s) = true → a ≠ ActStartRefused →
  pipe_step hash s a = Some (Throw e) →
  e = RuntimeError "Failed to write to output file" ∧
  ∃ batch part rest, batch_text W batch = Ret (part +:+ rest) ∧
    (∀ t, cnt t (concat (g_batches g) ++ batch) ≤ cnt t (trades_of msgs)) ∧
    fos_file (sink_after s a) = fos_file (pl_sink s) +:+ part.
Proof.
  intros Hg Hr Hgood Ha Hs.
  assert (∀ t, cnt t (concat (g_batches g) ++ g_open g ++ concat (g_pending g)) ≤ cnt t (trades_of msgs)) as Hcnt.
  { intros t. pose proof (proj1 (cnt_perm _ _) (written_and_unwritten hash W sink threads g msgs s Hg) t) as <-.
    unfold unwritten. rewrite !cnt_app.
    pose proof (cnt_nonneg t (concat (queued <$> pl_shards s))). pose proof (cnt_nonneg t (concat (agg_hold <$> pl_aggs s))).
    pose proof (cnt_nonneg t (parser_hold (pl_parser s))). pose proof (cnt_nonneg t (trades_of (bq_items (pl_raw_queue s)))). lia. }
  assert (∀ t, 0 ≤ cnt t (concat (g_batches g)) ∧ 0 ≤ cnt t (g_open g) ∧ 0 ≤ cnt t (concat (g_pending g))) as Hnn
    by (intros; split_and!; apply cnt_nonneg).
  assert (∀ batch, (∀ t, cnt t batch ≤ cnt t (g_open g ++ concat (g_pending g))) →
    (∀ t, cnt t batch ≤ cnt t (trades_of msgs)) ∧
    ∀ t, cnt t (concat (g_batches g) ++ batch) ≤ cnt t (trades_of msgs)) as Hsub.
  { intros batch Hb. split; intros t; specialize (Hb t); specialize (Hcnt t); specialize (Hnn t);
      rewrite !cnt_app in *; lia. }
  destruct a as [m| |now ck| | |i|ck| | |]; cbn [pipe_step] in Hs.
  - unfold submit_raw_message in Hs. by destruct (push _ _) as [[]|]; cbn in Hs.
  - unfold start in Hs. by destruct (pl_parser s), (pl_stop_requested s), (pl_stop s).
  - unfold writer_timeout in Hs. destruct (pl_writer s) as [[]|]; try done.
    destruct (pl_stop_requested s); [done|]. injection Hs as Hs.
    apply bind_Throw in Hs as [Hs|(d & _ & Hs)]; [by apply wait_deadline_no_throw in Hs|]. by destruct (pl_window_ms s =? 0).
  - unfold stop_request in Hs. by destruct (pl_stop s).
  - by edestruct parser_defined as (s1 & ? & _); [exact HW|exact Hg|exact Hr|exact Hs|].
  - by edestruct agg_defined as (s1 & ? & _); [exact HW|exact Hg|exact Hr|exact Hs|].
  - unfold writer_wait in Hs. destruct (pl_writer s) as [[]|]; try done. destruct (pl_stop_requested s); [|done].
    injection Hs as Hs. apply bind_Throw in Hs as [Hs|(d & _ & Hs)]; [by apply wait_deadline_no_throw in Hs|done].
  - unfold flush_completed_windows, sink_after in *. pose proof (ok_writer _ _ _ _ _ _ _ Hg) as Hex.
    destruct (pl_writer s) as [[|cur i ws|]|]; try done. destruct (pl_shards s !! i) as [sh|].
    { by destruct (extract_completed_windows (sh_aggregator sh) cur). }
    injection Hs as Hs. apply bind_Throw in Hs as [Hs|(? & _ & ?)]; [|done]. destruct Hex as [Hnd Hws _ _].
    destruct (Hsub (g_open g)) as [H1 H2]; [intros t; specialize (Hnn t); rewrite cnt_app; lia|].
    destruct (write_throws _ msgs (g_open g) ws e Hgood Hr Hnd Hws H1 Hs) as (-> & part & rest & Ht & Hf). eauto 7.
  - unfold stop, sink_after in *. destruct (pl_stop s) as [| | |j|j|]; [done|..].
    + by destruct (can_join_writer s).
    + by destruct (can_join_parser s).
    + by destruct (pl_shards s !! j).
    + by destruct (pl_aggs s !! j) as [[[]|]|].
    + injection Hs as Hs. apply bind_Throw in Hs as [Hs|(? & _ & ?)]; [|done]. unfold flush_remaining_windows in Hs.
      destruct (take_remaining_spec hash W shards 0 (pl_shards s) (g_pending g)) as [Hnd Hws].
      { by rewrite (ok_shards_length _ _ _ _ _ _ _ Hg), (ok_pending_length _ _ _ _ _ _ _ Hg). }
      { by apply (ok_shards _ _ _ _ _ _ _ Hg). }
      destruct (take_remaining (pl_shards s)) as [ws shs]. cbn [fst] in *.
      apply bind_Throw in Hs as [Hs|(? & _ & ?)]; [|done].
      destruct (Hsub (concat (g_pending g))) as [H1 H2]; [intros t; specialize (Hnn t); rewrite cnt_app; lia|].
      destruct (write_throws _ msgs (concat (g_pending g)) ws e Hgood Hr Hnd Hws H1 Hs) as (-> & part & rest & Ht & Hf).
      eauto 7.
  - done.
Qed.
End pipeline.


(** ** The program *)

Section program.
Context `{J : JsonLib} `{!JsonLaws J} `{ErrorCode E}.
Variables (fmt_double : spec_float → string) (hash : string → Z).
Variables (draw : spec_float → spec_float → spec_float) (ec_message : E → string).
Variables (env : environment) (argv : list string) (log : list log_entry) (sv : service E).
Hypothesis Hstart : main_startup fmt_double env argv = (log, Ret (Started sv)).

Notation run := (system_run hash draw ec_message (new_system log sv)).
Notation W := (cf_window_ms (sv_config sv)).
Notation FI := (cf_flush_interval_ms (sv_config sv)).
Notation sink0 :=
  {| fos_file := env_output_contents env; fos_good := true; fos_os := env_output_writes env |}.
Notation ok := (system_ok hash W FI kQueueCapacity sink0 (cf_aggregator_threads (sv_config sv))).

(** The network thread and [NetworkStage::stop] throw nothing. *)
Lemma next_delay_no_throw p : throws_only (λ _, False) (next_delay draw p).
Proof. unfold next_delay, apply_jitter, double_to_i64. throws. Qed.

Lemma network_step_no_throw (v : system E) a e :
  a ≠ NetStartRefused → network_step draw ec_message v a ≠ Some (Throw e).
Proof.
  intros Ha Hs. unfold network_step in Hs. destruct (net_step draw _ a) as [m|] eqn:Hm; cbn in Hs; [|done].
  injection Hs as Hs. apply bind_Throw in Hs as [->|(? & _ & ?)]; [|done]. revert Hm.
  generalize (with_queue (sy_network v) (pl_raw_queue (sy_pipeline v))). intros n Hm.
  destruct a as [| |ev elapsed ck|]; cbn in Hm; [by destruct (start_stage n)|by destruct (stop_stage n)| |done].
  unfold run_stage in Hm. destruct (ns_thread n) as [[| |p|had|had| | |]|]; try done.
  - by destruct (client_unlocked n).
  - destruct (ns_client n) as [c|]; [|done]. cbn in Hm. by destruct (client_run _ c p ev) as [[[]]|].
  - by destruct (client_unlocked n).
  - pose proof (next_delay_no_throw (ns_policy n)) as Hn. unfold wait_for_next_attempt in Hm.
    assert (∀ o : outcome (bool * ReconnectPolicy),
      (delay ← next_delay draw (ns_policy n); _ ← wait_deadline ck delay; o) = Throw e → o = Throw e) as Hd.
    { intros o Ho. destruct (next_delay draw (ns_policy n)) as [d| |]; [cbn in Ho|by edestruct Hn|done].
      apply bind_Throw in Ho as [Ho|(? & _ & ?)]; [by apply wait_deadline_no_throw in Ho|done]. }
    destruct (rp_stop_requested (ns_policy n)); [|destruct elapsed; [|done]]; injection Hm as Hm;
      apply bind_Throw in Hm as [Hm%Hd|([] & _ & ?)]; done.
Qed.

(** A step that throws is a write of the pipeline, or the start of a thread
    that the system refuses. *)
Lemma system_throws (v : system E) a e :
  system_step hash draw ec_message v a = Some (Throw e) →
  (∃ b, b ≠ ActStartRefused ∧ pipe_step hash (sy_pipeline v) b = Some (Throw e) ∧
    system_sink_after v a = sink_after (sy_pipeline v) b) ∨
  (a = SysRefused ∧ (∃ what, e = SystemError what)).
Proof.
  assert (∀ b, pipeline_step hash v b = Some (Throw e) → pipe_step hash (sy_pipeline v) b = Some (Throw e)) as Hp.
  { intros b Hb. unfold pipeline_step in Hb. destruct (pipe_step hash _ b) as [m|]; cbn in Hb; [|done].
    injection Hb as Hb. apply bind_Throw in Hb as [->|(? & _ & ?)]; done. }
  intros Hs. destruct a as [| |ev elapsed ck|a|]; cbn [system_step system_sink_after] in *; [done|left..|].
  - unfold main_step in Hs. destruct (sy_main v) as [| | |d|d|d|]; [| |done| | | |done].
    + destruct (pipeline_step hash v ActStart) as [m|] eqn:Hm; cbn in Hs; [|done].
      injection Hs as Hs. apply bind_Throw in Hs as [->|(? & _ & ?)]; [|done]. exists ActStart. split_and!; [done|by apply Hp|done].
    + destruct (network_step draw ec_message v NetStart) as [m|] eqn:Hm; cbn in Hs; [|done].
      injection Hs as Hs. apply bind_Throw in Hs as [->|(? & _ & ?)]; [|done]. by apply network_step_no_throw in Hm.
    + destruct (network_step draw ec_message v NetStop) as [m|] eqn:Hm; cbn in Hs; [|done].
      injection Hs as Hs. apply bind_Throw in Hs as [->|(? & _ & ?)]; [by apply network_step_no_throw in Hm|].
      by destruct (ns_stop (sy_network v)).
    + destruct (pipeline_step hash v ActStopRequest) as [m|] eqn:Hm; cbn in Hs; [|done].
      injection Hs as Hs. apply bind_Throw in Hs as [->|(? & _ & ?)]; [|done]. exists ActStopRequest.
      split_and!; [done|by apply Hp|done].
    + destruct (pipeline_step hash v ActStop) as [m|] eqn:Hm; cbn in Hs; [|done].
      injection Hs as Hs. apply bind_Throw in Hs as [->|(v1 & _ & ?)];
        [|by destruct (pl_stop (sy_pipeline v1)), d]. exists ActStop. split_and!; [done|by apply Hp|done].
  - by apply network_step_no_throw in Hs.
  - destruct (pipe_thread a) eqn:Ha; [|done]. exists a. split_and!; [by destruct a|by apply Hp|done].
  - right. apply main_refused_Throw in Hs as [what [= ->]]. eauto.
Qed.

(** ** Properties *)

(** C7: what a crash leaves behind.  Let each number in the messages received
    fit, and so the volumes of each symbol and window added up.  When a step of
    the running program throws, which ends the process, it was a failed write
    to the output file, or the system refused a thread to a stage that [main]
    was starting; and the file holds what it held before the program, whole
    reports of batches of received trades, and an initial part of the report of
    one more batch; no trade is in two of them, and a refused thread leaves no
    such part. *)
Theorem crash_leaves_whole_reports acts received v a e :
  run acts received v → in_range W received → system_step hash draw ec_message v a = Some (Throw e) →
  ∃ batches batch others texts part rest,
    (e = RuntimeError "Failed to write to output file" ∨
     (a = SysRefused ∧ (∃ what, e = SystemError what) ∧ part = "")) ∧
    concat batches ++ batch ++ others ≡ₚ trades_of received ∧
    mapM (batch_text W) batches = Ret texts ∧ batch_text W batch = Ret (part +:+ rest) ∧
    fos_file (system_sink_after v a) = env_output_contents env +:+ string_concat texts +:+ part.
Proof.
  intros Hrun Hr Hs. pose proof (program_window fmt_double env argv log sv Hstart) as HW.
  assert (in_u64 W) as HWt.
  { destruct (startup_started _ _ _ _ _ Hstart) as ((_ & _ & [? ?] & _) & _). unfold in_u64. lia. }
  apply (program_ok fmt_double hash draw ec_message env argv log sv Hstart) in Hrun as (on & msgs & Hok).
  pose proof (so_received _ _ _ _ _ _ _ _ _ _ _ Hok) as ->. pose proof (in_range_app _ _ _ Hr) as Hr'.
  destruct (so_run _ _ _ _ _ _ _ _ _ _ _ Hok) as (pacts & [Hprun _ _] & _).
  assert (fos_good (pl_sink (sy_pipeline v)) = true) as Hgood.
  { eapply run_stream_good; [..|exact Hprun]; done. }
  apply (run_ok hash _ _ _ _ _ HW) in Hprun as (g & Hg & _).
  destruct (ok_text _ _ _ _ _ _ _ Hg) as (texts & Htexts & Htext). cbn in Htext.
  apply system_throws in Hs as [(b & Hne & Hb & ->)|[-> Hwhat]].
  2:{ exists (g_batches g), [], (unwritten g (sy_pipeline v) ++ trades_of (holding (ns_thread (sy_network v)))), texts, "", "".
      split_and!; [by right| |done..|].
      - rewrite app_nil_l, app_assoc, trades_of_app. f_equiv.
        exact (written_and_unwritten hash W sink0 _ g msgs _ Hg).
      - by rewrite string_app_nil_r. }
  destruct (pipe_throws hash _ _ _ HW HWt _ _ _ _ _ Hg Hr' Hgood Hne Hb) as (-> & batch & part & rest & Ht & Hc & Hf).
  apply cnt_submseteq in Hc as [l Hl].
  exists (g_batches g), batch, (l ++ trades_of (holding (ns_thread (sy_network v)))), texts, part, rest.
  split_and!; [by left| |done..|].
  - rewrite trades_of_app, <- Hl. by rewrite !app_assoc.
  - by rewrite Hf, Htext, string_app_assoc.
Qed.
End program.

(** The disk is full when the shutdown writes the last windows: 30 characters
    of the report are in the file. *)
Definition full_disk_env : environment :=
  {| env_read := env_read example_env; env_output_opens := true; env_output_contents := "";
     env_output_writes := [Some 30%nat] |}.

Definition full_disk_service : service example_error :=
  {| sv_config := example_config;
     sv_pipeline := new_pipeline 1000 500 4096 {| fos_file := ""; fos_good := true; fos_os := [Some 30%nat] |} 1;
     sv_target := "/stream?streams=btcusdt@trade";
     sv_network := new_stage (new_queue 4096) (cf_reconnect example_config) |}.

Lemma full_disk_startup_ok :
  main_startup (λ _, "0.5") full_disk_env example_args = (example_startup.1, Ret (Started full_disk_service)).
Proof. vm_compute. reflexivity. Qed.

Abbreviation full_disk_run acts :=
  (system_result example_hash (λ lo _, lo) (λ _, "aborted")
     (new_system example_startup.1 full_disk_service) acts).

(** The steps of [example_shutdown] up to the final flush. *)
Definition until_flush : list (system_action example_error) := example_serving ++ take 17 example_shutdown.

Lemma crash_leaves_whole_reports_witness :
  fos_file (system_sink_after (full_disk_run until_flush).2 SysMain) = "timestamp=1970-01-01T00:00:01Z" ∧
  ∃ batches batch others texts part rest,
    (RuntimeError "Failed to write to output file" = RuntimeError "Failed to write to output file" ∨
     (SysMain = SysRefused (E := example_error) ∧
      (∃ what, RuntimeError "Failed to write to output file" = SystemError what) ∧ part = "")) ∧
    concat batches ++ batch ++ others ≡ₚ trades_of [bare_message] ∧
    mapM (batch_text 1000) batches = Ret texts ∧ batch_text 1000 batch = Ret (part +:+ rest) ∧
    fos_file (system_sink_after (full_disk_run until_flush).2 SysMain) = "" +:+ string_concat texts +:+ part.
Proof.
  split; [vm_compute; reflexivity|].
  apply (crash_leaves_whole_reports (λ _, "0.5") example_hash (λ lo _, lo) (λ _, "aborted") full_disk_env example_args
    example_startup.1 full_disk_service full_disk_startup_ok until_flush [bare_message]).
  - change [bare_message] with ((full_disk_run until_flush).1). apply system_result_ok. vm_compute. reflexivity.
  - apply bare_message_in_range.
  - vm_compute. reflexivity.
Defined.
