(* ===== verification/CondVars.v ===== *)
(** * The program with its condition variables

    In [Service] a thread that calls [push], [pop] or one of the waits on a
    flag is blocked until its predicate holds.  The code gets there with
    condition variables: a thread tests its predicate under the mutex and goes
    to sleep when it is false, and whoever makes it true must notify, after
    releasing the mutex.  This file adds the sleeping threads and the pending
    notifications to the running program, with spurious wake-ups and expiring
    timeouts; [CondVarProps] shows that the abstraction was sound: nothing new
    can happen, and no thread sleeps through the change it waits for. *)

From stdpp Require Import functions.
From S2P Require Import Prelude CString DecimalFp StdMap Aggregator Output Json JsonRef.
From S2P Require Import TradeParser ConfigLoader Cli ConnectionError ReconnectPolicy Totals BoundedQueue.
From S2P Require Import QueueProps NetworkStage NetworkProps Snapshots Pipeline PipelineInv PipelineLive.
From S2P Require Import PipelineProps Punctual Main Service ServiceProps.

(** ** Threads and condition variables *)

Inductive thread := TMain | TNetwork | TParser | TAgg (i : nat) | TWriter.

(** [not_full_] and [not_empty_] of the raw queue and of the queue of each
    shard, [stop_cv_] of the pipeline, [cv_] of the reconnect policy. *)
Inductive cvar :=
  | RawNotFull
  | RawNotEmpty
  | ShardNotFull (i : nat)
  | ShardNotEmpty (i : nat)
  | StopCv
  | PolicyCv.

#[export] Instance thread_eq_dec : EqDecision thread.
Proof. solve_decision. Defined.
#[export] Instance cvar_eq_dec : EqDecision cvar.
Proof. solve_decision. Defined.

(** A thread that has left a critical section makes its notifications before
    anything else. *)
Inductive status :=
  | Awake
  | Asleep (c : cvar)
  | Notifying (cs : list cvar).

Definition then_notify (cs : list cvar) : status :=
  match cs with [] => Awake | _ => Notifying cs end.

(** The waits with a timeout. *)
Definition timed (c : cvar) : bool := match c with StopCv | PolicyCv => true | _ => false end.

Section condvars.
Context `{J : JsonLib} `{ErrorCode E}.
Variables (hash : string → Z) (draw : spec_float → spec_float → spec_float) (ec_message : E → string).
Implicit Types (v : system E) (p : pipeline FileOutputSink) (n : NetworkStage E).

(** ** Predicates *)

Definition pipe_pred p (c : cvar) : bool :=
  match c with
  | RawNotFull => not_full (pl_raw_queue p)
  | RawNotEmpty => not_empty (pl_raw_queue p)
  | ShardNotFull i => match pl_shards p !! i with Some sh => not_full (sh_queue sh) | None => false end
  | ShardNotEmpty i => match pl_shards p !! i with Some sh => not_empty (sh_queue sh) | None => false end
  | StopCv => pl_stop_requested p
  | PolicyCv => false
  end.

(** The predicate that a condition variable is waited on with. *)
Definition pred v (c : cvar) : bool :=
  match c with
  | PolicyCv => rp_stop_requested (ns_policy (sy_network v))
  | c => pipe_pred (sy_pipeline v) c
  end.

(** The condition variable at which the next operation of a thread waits. *)
Definition pipe_waiting p (t : thread) : option cvar :=
  match t with
  | TParser =>
      match pl_parser p with
      | Some ParserPop => Some RawNotEmpty
      | Some (ParserPush trade) => Some (ShardNotFull (shard_index_for_symbol hash p (te_symbol trade)))
      | _ => None
      end
  | TAgg i => match pl_aggs p !! i with Some (Some AggPop) => Some (ShardNotEmpty i) | _ => None end
  | TWriter => match pl_writer p with Some WriterWait => Some StopCv | _ => None end
  | TMain | TNetwork => None
  end.

Definition waiting_on v (t : thread) : option cvar :=
  match t with
  | TNetwork =>
      match ns_thread (sy_network v) with
      | Some (NetRun (RunPush _)) => Some RawNotFull
      | Some NetWait => Some PolicyCv
      | _ => None
      end
  | t => pipe_waiting (sy_pipeline v) t
  end.

(** ** Notifications

    What a step leaves to be notified once its mutex is released. *)

(** [push] notifies [not_empty_] when it has pushed, [pop] [not_full_] when
    it has taken an item, [shutdown] both. *)
Definition push_notes {T} (q : BoundedQueue T) (item : T) (not_empty_cv : cvar) : list cvar :=
  match push q item with Some (true, _) => [not_empty_cv] | _ => [] end.
Definition pop_notes {T} (q : BoundedQueue T) (not_full_cv : cvar) : list cvar :=
  match pop q with Some (Some _, _) => [not_full_cv] | _ => [] end.

Definition pipe_notes p (a : action) : list cvar :=
  match a with
  | ActSubmit raw_message => push_notes (pl_raw_queue p) raw_message RawNotEmpty
  | ActParser =>
      match pl_parser p with
      | Some ParserPop => pop_notes (pl_raw_queue p) RawNotFull
      | Some (ParserPush trade) =>
          let i := shard_index_for_symbol hash p (te_symbol trade) in
          match pl_shards p !! i with
          | Some sh => push_notes (sh_queue sh) trade (ShardNotEmpty i)
          | None => []
          end
      | _ => []
      end
  | ActAgg i =>
      match pl_shards p !! i, pl_aggs p !! i with
      | Some sh, Some (Some AggPop) => pop_notes (sh_queue sh) (ShardNotFull i)
      | _, _ => []
      end
  | ActStopRequest => [StopCv]
  | ActStop =>
      match pl_stop p with
      | StopJoinWriter => [RawNotFull; RawNotEmpty]
      | StopShutdownShards i =>
          match pl_shards p !! i with Some _ => [ShardNotFull i; ShardNotEmpty i] | None => [] end
      | _ => []
      end
  | _ => []
  end.

Definition net_notes n (q : BoundedQueue string) (a : net_action E) : list cvar :=
  match a with
  | NetStop => match ns_stop n with NsPolicy => [PolicyCv] | _ => [] end
  | NetThread _ _ _ =>
      match ns_thread n with Some (NetRun (RunPush message)) => push_notes q message RawNotEmpty | _ => [] end
  | NetStart | NetStartRefused => []
  end.

Definition notifications v (a : system_action E) : list cvar :=
  let network b := net_notes (sy_network v) (pl_raw_queue (sy_pipeline v)) b in
  match a with
  | SysSignal => []
  | SysMain =>
      match sy_main v with
      | MainStopNetwork _ => network NetStop
      | MainRequestPipeline _ => pipe_notes (sy_pipeline v) ActStopRequest
      | MainStopPipeline _ => pipe_notes (sy_pipeline v) ActStop
      | _ => []
      end
  | SysNetwork ev elapsed ck => network (NetThread ev elapsed ck)
  | SysPipe b => pipe_notes (sy_pipeline v) b
  | SysRefused => []
  end.

(** ** Steps *)

(** The thread that makes a step; a signal is handled by none of them.  (The
    calls of the pipeline that are not steps of its own threads are disabled as
    [SysPipe] steps, so that the last case is the parser's.) *)
Definition actor (a : system_action E) : option thread :=
  match a with
  | SysSignal => None
  | SysMain | SysRefused => Some TMain
  | SysNetwork _ _ _ => Some TNetwork
  | SysPipe (ActAgg i) => Some (TAgg i)
  | SysPipe (ActTimeout _ _ | ActWriterWait _ | ActWriterFlush) => Some TWriter
  | SysPipe _ => Some TParser
  end.

Record threads := { th_system : system E; th_status : thread → status }.

(** Everybody awake. *)
Definition new_threads v : threads := {| th_system := v; th_status := λ _, Awake |}.

(** A notification wakes the threads asleep on the condition variable: there
    is never more than one ([waiting_on_unique]), so that [notify_one] and
    [notify_all] do the same. *)
Definition wake_sleepers (c : cvar) (st : thread → status) : thread → status :=
  λ t, match st t with Asleep c' => if decide (c' = c) then Awake else Asleep c' | s => s end.

(** A step of an awake thread or a signal; falling asleep; a notification; a
    timed wait that is over, with the step that the thread then makes; a
    spurious wake-up. *)
Inductive cv_action :=
  | CvAct (a : system_action E)
  | CvSleep (t : thread)
  | CvNotify (t : thread)
  | CvTimeout (a : system_action E)
  | CvSpurious (t : thread).

(** The step [a], after which the threads are in the states [st]. *)
Definition act_with (v : system E) (a : system_action E) (st : thread → status) : option (outcome threads) :=
  o ← system_step hash draw ec_message v a; Some (v' ← o; Ret {| th_system := v'; th_status := st |}).

Definition cv_step (m : threads) (a : cv_action) : option (outcome threads) :=
  let v := th_system m in
  let st := th_status m in
  match a with
  | CvAct a =>
      match actor a with
      | None => act_with v a st
      | Some t =>
          match st t with
          | Awake => act_with v a (<[t := then_notify (notifications v a)]> st)
          | _ => None
          end
      end
  | CvSleep t =>
      match st t, waiting_on v t with
      | Awake, Some c =>
          if pred v c then None else Some (Ret {| th_system := v; th_status := <[t := Asleep c]> st |})
      | _, _ => None
      end
  | CvNotify t =>
      match st t with
      | Notifying (c :: cs) =>
          Some (Ret {| th_system := v; th_status := <[t := then_notify cs]> (wake_sleepers c st) |})
      | _ => None
      end
  | CvTimeout a =>
      match actor a with
      | None => None
      | Some t =>
          match st t with
          | Asleep c => if timed c then act_with v a (<[t := then_notify (notifications v a)]> st) else None
          | _ => None
          end
      end
  | CvSpurious t =>
      match st t with
      | Asleep c => Some (Ret {| th_system := v; th_status := <[t := Awake]> st |})
      | _ => None
      end
  end.

(** The step of the program that a step stands for, if any. *)
Definition program_step (a : cv_action) : option (system_action E) :=
  match a with CvAct a | CvTimeout a => Some a | CvSleep _ | CvNotify _ | CvSpurious _ => None end.

(** Runs, with the messages received. *)
Definition cv_received (m : threads) (a : cv_action) : list string :=
  match program_step a with Some a => received_by (th_system m) a | None => [] end.

Inductive cv_run (m0 : threads) : list cv_action → list string → threads → Prop :=
  | cv_refl : cv_run m0 [] [] m0
  | cv_next acts received m a m' :
      cv_run m0 acts received m → cv_step m a = Some (Ret m') →
      cv_run m0 (acts ++ [a]) (received ++ cv_received m a) m'.

(** The steps of the program in a run. *)
Definition erase : list cv_action → list (system_action E) := omap program_step.
End condvars.

Arguments threads : clear implicits.
Arguments cv_action : clear implicits.
