(* ===== verification/CondVarProps.v ===== *)
(** * No thread sleeps through the change it waits for

    Properties of the program with its condition variables ([CondVars]): it
    refines the program in which blocking is atomic, a shutdown cannot get
    stuck because of a lost wake-up, and terminates. *)

From stdpp Require Import functions.
From S2P Require Import Prelude CString DecimalFp StdMap Aggregator Output Json JsonRef.
From S2P Require Import TradeParser ConfigLoader Cli ConnectionError ReconnectPolicy Totals BoundedQueue.
From S2P Require Import QueueProps NetworkStage NetworkProps Snapshots Pipeline PipelineInv PipelineLive.
From S2P Require Import PipelineProps Punctual Main Service ServiceProps CondVars.

(** ** Queues *)

Lemma push_preds {T} (q : BoundedQueue T) x b q' :
  push q x = Some (b, q') →
  not_full q = true ∧ (not_empty q = false → not_empty q' = true → b = true).
Proof.
  intros Hp. split; [unfold push in Hp; by destruct (not_full q)|].
  apply push_Some in Hp as [(_ & -> & ->)|(_ & _ & -> & _)]; congruence.
Qed.

Lemma pop_preds {T} (q : BoundedQueue T) r q' :
  pop q = Some (r, q') →
  not_empty q = true ∧ (not_full q = false → not_full q' = true → is_Some r).
Proof.
  intros Hp. split; [unfold pop in Hp; by destruct (not_empty q)|].
  apply pop_Some in Hp as [(_ & _ & -> & ->)|(x & l & _ & -> & _)]; [congruence|eauto].
Qed.

Section props.
Context `{J : JsonLib} `{ErrorCode E}.
Variables (hash : string → Z) (draw : spec_float → spec_float → spec_float) (ec_message : E → string).
Implicit Types (v : system E) (p : pipeline FileOutputSink) (n : NetworkStage E).

(** ** Who changes a predicate notifies *)

(** A queue operation on the queue of shard [i]. *)
Lemma shard_pred_insert p p' i sh sh' c :
  pl_shards p !! i = Some sh → pipe_pred p c = false → pipe_pred p' c = true →
  pl_shards p' = <[i := sh']> (pl_shards p) → pl_raw_queue p' = pl_raw_queue p →
  pl_stop_requested p' = pl_stop_requested p →
  (c = ShardNotFull i ∧ not_full (sh_queue sh) = false ∧ not_full (sh_queue sh') = true) ∨
  (c = ShardNotEmpty i ∧ not_empty (sh_queue sh) = false ∧ not_empty (sh_queue sh') = true).
Proof.
  intros Hi Hf Ht Hs Hr Hq. pose proof (lookup_lt_Some _ _ _ Hi).
  destruct c as [| |j|j| |]; cbn in *; rewrite ?Hr, ?Hq in Ht; try congruence.
  - destruct (decide (i = j)) as [<-|Hne].
    + left. rewrite Hs, list_lookup_insert_eq in Ht by done. by rewrite Hi in Hf.
    + rewrite Hs, list_lookup_insert_ne in Ht by done. congruence.
  - destruct (decide (i = j)) as [<-|Hne].
    + right. rewrite Hs, list_lookup_insert_eq in Ht by done. by rewrite Hi in Hf.
    + rewrite Hs, list_lookup_insert_ne in Ht by done. congruence.
Qed.

Lemma parser_notifies p p' c :
  run_parser_stage hash p = Some (Ret p') → pipe_pred p c = false → pipe_pred p' c = true →
  c ∈ pipe_notes hash p ActParser.
Proof.
  intros Hs Hf Ht. cbn. unfold run_parser_stage in Hs. destruct (pl_parser p) as [[|t|]|]; try done.
  - unfold pop_notes. destruct (pop (pl_raw_queue p)) as [[r q]|] eqn:Hq; cbn in Hs; [|done].
    apply pop_preds in Hq as [Hne Hnf].
    assert (pl_raw_queue p' = q ∧ pl_shards p' = pl_shards p ∧ pl_stop_requested p' = pl_stop_requested p) as (Hq' & Hsh & Hsr)
      by (destruct r as [raw|]; injection Hs as Hs; inv_ret; by subst).
    destruct c as [| |j|j| |]; cbn in *; rewrite ?Hq', ?Hsh, ?Hsr in Ht; try congruence.
    destruct (Hnf Hf Ht) as [raw ->]. left.
  - destruct (pl_shards p !! _) as [sh|] eqn:Hsh; cbn in Hs; [|done]. unfold push_notes.
    destruct (push (sh_queue sh) t) as [[b q]|] eqn:Hq; cbn in Hs; [|done]. simplify_eq.
    apply push_preds in Hq as [Hnf Hne].
    destruct (shard_pred_insert p _ _ _ _ c Hsh Hf Ht eq_refl eq_refl eq_refl) as [(-> & ? & _)|(-> & H1 & H2)];
      [congruence|]. rewrite (Hne H1 H2). left.
Qed.

Lemma agg_notifies p i p' c :
  run_aggregation_stage p i = Some (Ret p') → pipe_pred p c = false → pipe_pred p' c = true →
  c ∈ pipe_notes hash p (ActAgg i).
Proof.
  intros Hs Hf Ht. cbn. unfold run_aggregation_stage in Hs.
  destruct (pl_shards p !! i) as [sh|] eqn:Hsh; cbn in Hs; [|done].
  destruct (pl_aggs p !! i) as [[[|t|]|]|]; try done.
  - unfold pop_notes. destruct (pop (sh_queue sh)) as [[r q]|] eqn:Hq; cbn in Hs; [|done]. simplify_eq.
    apply pop_preds in Hq as [Hne Hnf].
    destruct (shard_pred_insert p _ _ _ _ c Hsh Hf Ht eq_refl eq_refl eq_refl) as [(-> & H1 & H2)|(-> & ? & _)];
      [|congruence]. destruct (Hnf H1 H2) as [x ->]. left.
  - injection Hs as Hs. inv_ret.
    destruct (shard_pred_insert p _ _ _ _ c Hsh Hf Ht eq_refl eq_refl eq_refl) as [(_ & ? & ?)|(_ & ? & ?)];
      cbn in *; congruence.
Qed.

Lemma stop_notifies p p' c :
  stop p = Some (Ret p') → pipe_pred p c = false → pipe_pred p' c = true → c ∈ pipe_notes hash p ActStop.
Proof.
  intros Hs Hf Ht. cbn. unfold stop in Hs. destruct (pl_stop p) as [| | |i|i|]; [done|..].
  - destruct (can_join_writer p); simplify_eq. destruct c as [| |j|j| |]; cbn in *; try congruence; set_solver.
  - destruct (can_join_parser p); simplify_eq. destruct c as [| |j|j| |]; cbn in *; congruence.
  - simplify_eq. destruct (pl_shards p !! i) as [sh|] eqn:Hi.
    + destruct (shard_pred_insert p _ _ _ _ c Hi Hf Ht eq_refl eq_refl eq_refl) as [(-> & _)|(-> & _)]; set_solver.
    + destruct c as [| |j|j| |]; cbn in *; congruence.
  - destruct (pl_aggs p !! i) as [[[]|]|]; simplify_eq; destruct c as [| |j|j| |]; cbn in *; congruence.
  - injection Hs as Hs. apply bind_Ret in Hs as (s1 & Hfl & ?). inv_ret. unfold flush_remaining_windows in Hfl.
    pose proof (take_remaining_shards (pl_shards p)) as Hsh.
    destruct (take_remaining (pl_shards p)) as [ws l]. cbn in Hsh. inv_ret.
    destruct c as [| |j|j| |]; cbn in *; try congruence; rewrite list_lookup_fmap in Ht;
      destruct (pl_shards p !! j); cbn in *; congruence.
Qed.

Lemma pipe_notifies p a p' c :
  pipe_step hash p a = Some (Ret p') → pipe_pred p c = false → pipe_pred p' c = true → c ∈ pipe_notes hash p a.
Proof.
  intros Hs Hf Ht. destruct a as [m| |now ck| | |i|ck| | |]; cbn [pipe_step] in Hs;
    eauto using parser_notifies, agg_notifies, stop_notifies.
  - unfold submit_raw_message in Hs. cbn. unfold push_notes.
    destruct (push (pl_raw_queue p) m) as [[b q]|] eqn:Hq; cbn in Hs; [|done]. simplify_eq.
    apply push_preds in Hq as [Hnf Hne]. destruct c as [| |j|j| |]; cbn in *; try congruence.
    rewrite (Hne Hf Ht). left.
  - unfold start in Hs. destruct (pl_parser p), (pl_stop_requested p) eqn:Hr, (pl_stop p); simplify_eq.
    destruct c as [| |j|j| |]; cbn in *; congruence.
  - apply writer_timeout_Ret in Hs as (_ & Hr & _ & _ & ->). destruct c as [| |j|j| |]; cbn in *; congruence.
  - unfold stop_request in Hs. destruct (pl_stop p); simplify_eq.
    destruct c as [| |j|j| |]; cbn in *; try congruence. set_solver.
  - apply writer_wait_Ret in Hs as (_ & Hr & _ & ->). destruct c as [| |j|j| |]; cbn in *; congruence.
  - unfold flush_completed_windows in Hs. destruct (pl_writer p) as [[|cur i ws|]|]; try done.
    destruct (pl_shards p !! i) as [sh|] eqn:Hsh.
    + destruct (extract_completed_windows (sh_aggregator sh) cur). simplify_eq.
      destruct (shard_pred_insert p _ _ _ _ c Hsh Hf Ht eq_refl eq_refl eq_refl) as [(_ & ? & ?)|(_ & ? & ?)];
        cbn in *; congruence.
    + injection Hs as Hs. inv_ret. destruct c as [| |j|j| |]; cbn in *; congruence.
  - by apply start_refused_Ret in Hs.
Qed.

(** ** Other threads stay where they wait *)

Definition pipe_actor (a : action) : option thread :=
  match a with
  | ActParser => Some TParser
  | ActAgg i => Some (TAgg i)
  | ActTimeout _ _ | ActWriterWait _ | ActWriterFlush => Some TWriter
  | ActSubmit _ | ActStart | ActStopRequest | ActStop | ActStartRefused => None
  end.

(** The program counters that matter for a thread are unchanged. *)
Lemma pipe_waiting_ext p p' t :
  match t with
  | TParser => pl_parser p' = pl_parser p ∧ length (pl_shards p') = length (pl_shards p)
  | TAgg i => pl_aggs p' !! i = pl_aggs p !! i
  | TWriter => pl_writer p' = pl_writer p
  | TMain | TNetwork => True
  end → pipe_waiting hash p' t = pipe_waiting hash p t.
Proof.
  destruct t as [| | |i|]; cbn; try done; [|by intros ->..].
  intros [-> Hl]. unfold shard_index_for_symbol. by rewrite Hl.
Qed.

Lemma stop_keeps_waiting p p' t c :
  stop p = Some (Ret p') → pipe_waiting hash p t = Some c → pipe_waiting hash p' t = Some c.
Proof.
  intros Hs <-. unfold stop in Hs. destruct (pl_stop p) as [| | |i|i|]; [done|..].
  - unfold can_join_writer in Hs. destruct (pl_writer p) as [[]|] eqn:Hw; simplify_eq;
      destruct t; cbn; by rewrite ?Hw.
  - unfold can_join_parser in Hs. destruct (pl_parser p) as [[]|] eqn:Hw; simplify_eq;
      destruct t; cbn; by rewrite ?Hw.
  - simplify_eq. destruct (pl_shards p !! i); [|by apply pipe_waiting_ext; destruct t].
    apply pipe_waiting_ext. destruct t; try done. cbn. by rewrite length_insert.
  - destruct (pl_aggs p !! i) as [a|] eqn:Hi; [|simplify_eq; by apply pipe_waiting_ext; destruct t].
    assert (p' = set_stop (set_agg p i None) (StopJoinShards (S i)) ∧ a ≠ Some AggPop) as [-> Hne]
      by (destruct a as [[]|]; by simplify_eq).
    destruct t as [| | |j|]; try done. cbn. destruct (decide (i = j)) as [<-|Hij].
    + rewrite list_lookup_insert_eq by by eapply lookup_lt_Some. rewrite Hi. by destruct a as [[]|].
    + by rewrite list_lookup_insert_ne.
  - injection Hs as Hs. apply bind_Ret in Hs as (s1 & Hfl & ?). inv_ret. unfold flush_remaining_windows in Hfl.
    pose proof (take_remaining_shards (pl_shards p)) as Hsh.
    destruct (take_remaining (pl_shards p)) as [ws l]. cbn in Hsh. inv_ret.
    apply pipe_waiting_ext. destruct t; try done. cbn. by rewrite length_fmap.
Qed.

Lemma pipe_keeps_waiting started p a p' t c :
  phase_ok started p → pipe_step hash p a = Some (Ret p') → pipe_actor a ≠ Some t →
  pipe_waiting hash p t = Some c → pipe_waiting hash p' t = Some c.
Proof.
  intros Hph Hs Ha Hc. destruct a as [m| |now ck| | |i|ck| | |]; cbn [pipe_step pipe_actor] in *;
    [..|by eapply stop_keeps_waiting|by apply start_refused_Ret in Hs].
  - unfold submit_raw_message in Hs. destruct (push _ _) as [[]|]; cbn in Hs; simplify_eq.
    rewrite <- Hc. apply pipe_waiting_ext. by destruct t.
  - unfold start in Hs. destruct (pl_parser p) eqn:Hp, (pl_stop_requested p) eqn:Hr, (pl_stop p); simplify_eq.
    destruct (phase_threads_fresh _ _ Hph Hp Hr) as [Hw Hg]. destruct t as [| | |i|]; cbn in Hc; try done.
    + by rewrite Hp in Hc.
    + destruct (pl_aggs p !! i) as [q|] eqn:Hi; [|done]. by rewrite (Hg _ _ Hi) in Hc.
    + by rewrite Hw in Hc.
  - apply writer_timeout_Ret in Hs as (_ & _ & _ & _ & ->). rewrite <- Hc. apply pipe_waiting_ext. by destruct t.
  - unfold stop_request in Hs. destruct (pl_stop p); simplify_eq.
    rewrite <- Hc. apply pipe_waiting_ext. by destruct t.
  - rewrite <- Hc. apply pipe_waiting_ext. destruct (parser_frame _ _ _ Hs), (parser_frame_threads _ _ _ Hs) as [-> _].
    by destruct t.
  - rewrite <- Hc. apply pipe_waiting_ext. destruct (agg_frame _ _ _ Hs) as [Hw _].
    unfold run_aggregation_stage in Hs. destruct (pl_shards p !! i) as [sh|]; cbn in Hs; [|done].
    destruct (pl_aggs p !! i) as [[[|tr|]|]|]; try done;
      [destruct (pop _) as [[r q]|]; cbn in Hs; simplify_eq|injection Hs as Hs; inv_ret];
      (destruct t as [| | |j|]; try done; cbn; [by rewrite length_insert|rewrite list_lookup_insert_ne; congruence]).
  - apply writer_wait_Ret in Hs as (_ & _ & _ & ->). rewrite <- Hc. apply pipe_waiting_ext. by destruct t.
  - unfold flush_completed_windows in Hs. destruct (pl_writer p) as [[|cur i ws|]|]; try done. rewrite <- Hc.
    apply pipe_waiting_ext. destruct (pl_shards p !! i) as [sh|].
    + destruct (extract_completed_windows (sh_aggregator sh) cur). simplify_eq.
      destruct t; try done. cbn. by rewrite length_insert.
    + injection Hs as Hs. inv_ret. by destruct t.
Qed.


(** ** The network stage *)

Lemma net_policy_notifies n a n' :
  net_step draw n a = Some (Ret n') → rp_stop_requested (ns_policy n) = false →
  rp_stop_requested (ns_policy n') = true → a = NetStop ∧ ns_stop n = NsPolicy.
Proof.
  intros Hs Hf Ht. destruct a as [| |ev elapsed ck|]; cbn in Hs.
  - unfold start_stage in Hs. destruct (ns_thread n); cbn in Hs; simplify_eq. cbn in Ht. congruence.
  - unfold stop_stage in Hs. destruct (ns_stop n); cbn in Hs; [simplify_eq; cbn in Ht; congruence|by simplify_eq| | |].
    + simplify_eq. destruct (ns_client n); cbn in Ht; congruence.
    + simplify_eq. cbn in Ht. congruence.
    + destruct (ns_thread n) as [[]|]; cbn in Hs; simplify_eq; cbn in Ht; congruence.
  - exfalso. unfold run_stage in Hs. destruct (ns_thread n) as [[| |p|had|had| | |]|]; try done.
    + simplify_eq. cbn in Ht. congruence.
    + destruct (client_unlocked n); simplify_eq. cbn in Ht. congruence.
    + destruct (ns_client n) as [c|]; [|done]. cbn in Hs.
      destruct (client_run (ns_queue n) c p ev) as [[[q c'] r]|]; cbn in Hs; [|done]. simplify_eq. cbn in Ht. congruence.
    + destruct (client_unlocked n); simplify_eq. cbn in Ht. congruence.
    + simplify_eq. cbn in Ht. congruence.
    + by simplify_eq.
    + unfold wait_for_next_attempt in Hs. rewrite Hf in Hs. destruct elapsed; [|done]. injection Hs as Hs.
      inv_ret. by simplify_eq.
  - by apply start_stage_refused_Ret in Hs.
Qed.

Lemma network_notifies v a v' c :
  network_step draw ec_message v a = Some (Ret v') → pred v c = false → pred v' c = true →
  c ∈ net_notes (sy_network v) (pl_raw_queue (sy_pipeline v)) a.
Proof.
  intros Hs Hf Ht. unfold network_step in Hs. destruct (net_step draw _ a) as [m|] eqn:Hm; cbn in Hs; [|done].
  injection Hs as Hs. apply bind_Ret in Hs as (n' & -> & ?). inv_ret.
  destruct (decide (c = PolicyCv)) as [->|Hne].
  { cbn in Hf, Ht. destruct (net_policy_notifies _ _ _ Hm Hf Ht) as [-> Hst]. cbn in Hst |- *. rewrite Hst. left. }
  destruct (net_step_queue draw _ _ _ Hm) as [(m & ev & elapsed & ck & b & -> & Hth & Hp & _)|[Hq _]].
  - cbn in Hth, Hp. cbn [net_notes]. rewrite Hth. unfold push_notes. rewrite Hp.
    apply push_preds in Hp as [Hnf Hem]. destruct c as [| |j|j| |]; cbn in Hf, Ht; try congruence.
    rewrite (Hem Hf Ht). left.
  - cbn in Hq. destruct c as [| |j|j| |]; cbn in Hf, Ht; rewrite ?Hq in Ht; congruence.
Qed.

(** A step of the network thread does not move the threads of the pipeline, and
    [NetworkStage::stop] does not move a network thread that waits. *)
Lemma network_keeps_waiting v a v' t c :
  network_step draw ec_message v a = Some (Ret v') →
  t ≠ TNetwork ∨ a = NetStart ∨ a = NetStop → waiting_on hash v t = Some c → waiting_on hash v' t = Some c.
Proof.
  intros Hs Ha Hc. unfold network_step in Hs. destruct (net_step draw _ a) as [m|] eqn:Hm; cbn in Hs; [|done].
  injection Hs as Hs. apply bind_Ret in Hs as (n' & -> & ?). inv_ret.
  destruct (decide (t = TNetwork)) as [->|Hne]; [|by destruct t]. destruct Ha as [?|[->| ->]]; [done|..]; cbn in Hm.
  - unfold start_stage in Hm. cbn in Hc, Hm. by destruct (ns_thread (sy_network v)).
  - destruct (stop_stage _) as [n1|] eqn:Hst; cbn in Hm; [|done]. injection Hm as ->.
    pose proof (stop_stage_frame _ _ Hst) as Hfr. unfold stop_stage in Hst. cbn in Hfr, Hst, Hc |- *.
    destruct (ns_stop (sy_network v)); try (destruct Hfr as [-> _]; done).
    by destruct (ns_thread (sy_network v)) as [[]|].
Qed.

(** ** The whole program *)

Lemma system_notifies v a v' c :
  system_step hash draw ec_message v a = Some (Ret v') → pred v c = false → pred v' c = true →
  c ∈ notifications hash v a.
Proof.
  assert (∀ b v1, pipeline_step hash v b = Some (Ret v1) → pred v c = false → pred v1 c = true →
    c ∈ pipe_notes hash (sy_pipeline v) b) as Hp.
  { intros b v1 Hs Hf Ht. unfold pipeline_step in Hs. destruct (pipe_step hash _ b) as [m|] eqn:Hm; cbn in Hs; [|done].
    injection Hs as Hs. apply bind_Ret in Hs as (p & -> & ?). inv_ret.
    destruct (decide (c = PolicyCv)) as [->|Hne]; [cbn in Hf, Ht; congruence|].
    apply (pipe_notifies _ _ _ _ Hm); by destruct c. }
  assert (∀ v1 pc l, pred (set_main v1 pc l) c = pred v1 c) as Hsm by by destruct c.
  intros Hs Hf Ht. destruct a as [| |ev elapsed ck|a|]; cbn [system_step notifications] in *.
  - simplify_eq. assert (pred (handle_shutdown_signal v) c = pred v c) by by destruct c. congruence.
  - unfold main_step in Hs. destruct (sy_main v) as [| | |d|d|d|]; [| | | | | |done].
    + destruct (pipeline_step hash v ActStart) as [m|] eqn:Hb; cbn in Hs; [|done].
      injection Hs as Hs. apply bind_Ret in Hs as (v1 & -> & ?). inv_ret. rewrite Hsm in Ht. exact (Hp _ _ Hb Hf Ht).
    + destruct (network_step draw ec_message v NetStart) as [m|] eqn:Hb; cbn in Hs; [|done].
      injection Hs as Hs. apply bind_Ret in Hs as (v1 & -> & ?). inv_ret. rewrite Hsm in Ht.
      exact (network_notifies _ _ _ _ Hb Hf Ht).
    + simplify_eq. destruct (sy_stop_requested v); rewrite ?Hsm in Ht; congruence.
    + destruct (network_step draw ec_message v NetStop) as [m|] eqn:Hb; cbn in Hs; [|done].
      injection Hs as Hs. apply bind_Ret in Hs as (v1 & -> & Hv). apply (network_notifies _ _ _ _ Hb Hf).
      by destruct (ns_stop (sy_network v)); apply Ret_inj in Hv as <-; rewrite ?Hsm in Ht.
    + destruct (pipeline_step hash v ActStopRequest) as [m|] eqn:Hb; cbn in Hs; [|done].
      injection Hs as Hs. apply bind_Ret in Hs as (v1 & -> & ?). inv_ret. rewrite Hsm in Ht. exact (Hp _ _ Hb Hf Ht).
    + destruct (pipeline_step hash v ActStop) as [m|] eqn:Hb; cbn in Hs; [|done].
      injection Hs as Hs. apply bind_Ret in Hs as (v1 & -> & Hv). apply (Hp _ _ Hb Hf).
      by destruct (pl_stop (sy_pipeline v1)), d; apply Ret_inj in Hv as <-; rewrite ?Hsm in Ht.
  - exact (network_notifies _ _ _ _ Hs Hf Ht).
  - destruct (pipe_thread a); [|done]. exact (Hp _ _ Hs Hf Ht).
  - by apply main_refused_Ret in Hs.
Qed.

Lemma system_keeps_waiting started v a v' t c :
  phase_ok started (sy_pipeline v) → system_step hash draw ec_message v a = Some (Ret v') → actor a ≠ Some t →
  waiting_on hash v t = Some c → waiting_on hash v' t = Some c.
Proof.
  intros Hph.
  assert (∀ b v1, pipeline_step hash v b = Some (Ret v1) → pipe_actor b ≠ Some t →
    waiting_on hash v t = Some c → waiting_on hash v1 t = Some c) as Hp.
  { intros b v1 Hs Hne Hc. unfold pipeline_step in Hs. destruct (pipe_step hash _ b) as [m|] eqn:Hm; cbn in Hs; [|done].
    injection Hs as Hs. apply bind_Ret in Hs as (p & -> & ?). inv_ret.
    destruct (decide (t = TNetwork)) as [->|]; [done|].
    assert (∀ v, waiting_on hash v t = pipe_waiting hash (sy_pipeline v) t) as Hw by by destruct t.
    rewrite Hw in Hc |- *. exact (pipe_keeps_waiting _ _ _ _ _ _ Hph Hm Hne Hc). }
  assert (∀ v1 pc l, waiting_on hash (set_main v1 pc l) t = waiting_on hash v1 t) as Hsm by by destruct t.
  intros Hs Hne Hc. destruct a as [| |ev elapsed ck|a|]; cbn [system_step actor] in *.
  - simplify_eq. rewrite <- Hc. by destruct t.
  - unfold main_step in Hs. destruct (sy_main v) as [| | |d|d|d|]; [| | | | | |done].
    + destruct (pipeline_step hash v ActStart) as [m|] eqn:Hb; cbn in Hs; [|done].
      injection Hs as Hs. apply bind_Ret in Hs as (v1 & -> & ?). inv_ret. rewrite Hsm. by eapply Hp.
    + destruct (network_step draw ec_message v NetStart) as [m|] eqn:Hb; cbn in Hs; [|done].
      injection Hs as Hs. apply bind_Ret in Hs as (v1 & -> & ?). inv_ret. rewrite Hsm.
      eapply network_keeps_waiting; eauto.
    + simplify_eq. by destruct (sy_stop_requested v); rewrite ?Hsm.
    + destruct (network_step draw ec_message v NetStop) as [m|] eqn:Hb; cbn in Hs; [|done].
      injection Hs as Hs. apply bind_Ret in Hs as (v1 & -> & Hv).
      assert (waiting_on hash v1 t = Some c) by (eapply network_keeps_waiting; eauto).
      by destruct (ns_stop (sy_network v)); apply Ret_inj in Hv as <-; rewrite ?Hsm.
    + destruct (pipeline_step hash v ActStopRequest) as [m|] eqn:Hb; cbn in Hs; [|done].
      injection Hs as Hs. apply bind_Ret in Hs as (v1 & -> & ?). inv_ret. rewrite Hsm. by eapply Hp.
    + destruct (pipeline_step hash v ActStop) as [m|] eqn:Hb; cbn in Hs; [|done].
      injection Hs as Hs. apply bind_Ret in Hs as (v1 & -> & Hv).
      assert (waiting_on hash v1 t = Some c) by by eapply Hp.
      by destruct (pl_stop (sy_pipeline v1)), d; apply Ret_inj in Hv as <-; rewrite ?Hsm.
  - eapply network_keeps_waiting; [done| |done]. left. congruence.
  - destruct (pipe_thread a) eqn:Hth; [|done]. eapply Hp; [done| |done]. by destruct a.
  - by apply main_refused_Ret in Hs.
Qed.


(** ** The invariant *)

(** Only one thread ever waits on a condition variable. *)
Lemma waiting_on_unique v t1 t2 c :
  waiting_on hash v t1 = Some c → waiting_on hash v t2 = Some c → t1 = t2.
Proof.
  assert (∀ t, waiting_on hash v t = Some c →
    t = match c with
        | RawNotFull | PolicyCv => TNetwork
        | RawNotEmpty | ShardNotFull _ => TParser
        | ShardNotEmpty i => TAgg i
        | StopCv => TWriter
        end) as Hc; [|by intros ->%Hc ->%Hc].
  intros t Ht. destruct t as [| | |i|]; cbn in Ht; try done.
  - destruct (ns_thread (sy_network v)) as [[| |[]| | | | |]|]; by simplify_eq.
  - destruct (pl_parser (sy_pipeline v)) as [[]|]; by simplify_eq.
  - destruct (pl_aggs (sy_pipeline v) !! i) as [[[]|]|]; by simplify_eq.
  - destruct (pl_writer (sy_pipeline v)) as [[]|]; by simplify_eq.
Qed.

(** A sleeping thread is at its wait; when the predicate has become true some
    thread is about to notify. *)
Record wakeups_ok (m : threads E) : Prop := {
  wo_asleep t c : th_status m t = Asleep c → waiting_on hash (th_system m) t = Some c;
  wo_pending t c : th_status m t = Asleep c → pred (th_system m) c = true →
    ∃ u cs, th_status m u = Notifying cs ∧ c ∈ cs;
  wo_notes t : th_status m t ≠ Notifying []
}.

Lemma then_notify_Asleep cs c : then_notify cs ≠ Asleep c.
Proof. by destruct cs. Qed.

Lemma then_notify_elem c cs : c ∈ cs → then_notify cs = Notifying cs.
Proof. by destruct cs as [|? ?]; [intros ?%not_elem_of_nil|]. Qed.

Lemma wake_sleepers_Asleep c st t c' :
  wake_sleepers c st t = Asleep c' ↔ st t = Asleep c' ∧ c' ≠ c.
Proof. unfold wake_sleepers. destruct (st t) as [|c1|]; try naive_solver. case_decide; naive_solver. Qed.

Lemma wake_sleepers_Notifying c st t cs : wake_sleepers c st t = Notifying cs ↔ st t = Notifying cs.
Proof. unfold wake_sleepers. destruct (st t) as [|c1|]; try naive_solver. case_decide; naive_solver. Qed.

Lemma act_wakeups started m a v' :
  phase_ok started (sy_pipeline (th_system m)) → wakeups_ok m →
  system_step hash draw ec_message (th_system m) a = Some (Ret v') →
  match actor a with
  | None => wakeups_ok {| th_system := v'; th_status := th_status m |}
  | Some u => (∀ cs, th_status m u ≠ Notifying cs) →
      wakeups_ok {| th_system := v'; th_status := <[u := then_notify (notifications hash (th_system m) a)]> (th_status m) |}
  end.
Proof.
  intros Hph [Hsl Hpe Hno] Hs.
  assert (∀ t c, th_status m t = Asleep c → actor a ≠ Some t → waiting_on hash v' t = Some c) as Hw.
  { intros t c Ht Hne. eapply system_keeps_waiting; eauto. }
  assert (∀ c, pred v' c = true → pred (th_system m) c = true ∨ c ∈ notifications hash (th_system m) a) as Hn.
  { intros c Hc. destruct (pred (th_system m) c) eqn:Hp; [by left|]. right. by eapply system_notifies. }
  destruct (actor a) as [u|] eqn:Ha.
  - intros Hu. split; cbn.
    + intros t c. destruct (decide (u = t)) as [<-|Hne]; [rewrite fn_lookup_insert; by intros ?%then_notify_Asleep|].
      rewrite fn_lookup_insert_ne by done. intros Ht. apply Hw; congruence.
    + intros t c. destruct (decide (u = t)) as [<-|Hne]; [rewrite fn_lookup_insert; by intros ?%then_notify_Asleep|].
      rewrite fn_lookup_insert_ne by done. intros Ht [Hc|Hc]%Hn.
      * destruct (Hpe _ _ Ht Hc) as (u' & cs & Hu' & Hin). exists u', cs.
        rewrite fn_lookup_insert_ne; [done|]. intros ->. by apply Hu in Hu'.
      * exists u, (notifications hash (th_system m) a). rewrite fn_lookup_insert. by rewrite (then_notify_elem c).
    + intros t. destruct (decide (u = t)) as [<-|Hne]; [|by rewrite fn_lookup_insert_ne].
      rewrite fn_lookup_insert. by destruct (notifications hash (th_system m) a).
  - destruct a as [| |?|[]|]; try done. split; cbn; [|..|done].
    + intros t c Ht. by apply Hw.
    + intros t c Ht [Hc|Hc]%Hn; [by eapply Hpe|by apply not_elem_of_nil in Hc].
Qed.

Lemma notify_wakeups m u c cs :
  wakeups_ok m → th_status m u = Notifying (c :: cs) →
  wakeups_ok {| th_system := th_system m; th_status := <[u := then_notify cs]> (wake_sleepers c (th_status m)) |}.
Proof.
  intros [Hsl Hpe Hno] Hu. split; cbn.
  - intros t c'. destruct (decide (u = t)) as [<-|Hne]; [rewrite fn_lookup_insert; by intros ?%then_notify_Asleep|].
    rewrite fn_lookup_insert_ne, wake_sleepers_Asleep by done. intros [Ht _]. auto.
  - intros t c'. destruct (decide (u = t)) as [<-|Hne]; [rewrite fn_lookup_insert; by intros ?%then_notify_Asleep|].
    rewrite fn_lookup_insert_ne, wake_sleepers_Asleep by done. intros [Ht Hcc] Hp.
    destruct (Hpe _ _ Ht Hp) as (u' & cs' & Hu' & Hin). destruct (decide (u = u')) as [<-|Hne'].
    + rewrite Hu in Hu'. simplify_eq. apply elem_of_cons in Hin as [?|Hin]; [done|].
      exists u, cs. rewrite fn_lookup_insert. by rewrite (then_notify_elem c').
    + exists u', cs'. by rewrite fn_lookup_insert_ne, wake_sleepers_Notifying.
  - intros t. destruct (decide (u = t)) as [<-|Hne]; [rewrite fn_lookup_insert; by destruct cs|].
    rewrite fn_lookup_insert_ne, wake_sleepers_Notifying by done. auto.
Qed.

(** A thread that sleeps or wakes up by itself. *)
Lemma self_wakeups m t s :
  wakeups_ok m → (∀ cs, th_status m t ≠ Notifying cs) →
  match s with
  | Awake => True
  | Asleep c => waiting_on hash (th_system m) t = Some c ∧ pred (th_system m) c = false
  | Notifying _ => False
  end → wakeups_ok {| th_system := th_system m; th_status := <[t := s]> (th_status m) |}.
Proof.
  intros [Hsl Hpe Hno] Ht Hs. split; cbn.
  - intros t' c. destruct (decide (t = t')) as [<-|Hne]; [|rewrite fn_lookup_insert_ne by done; auto].
    rewrite fn_lookup_insert. intros ->. apply Hs.
  - intros t' c. destruct (decide (t = t')) as [<-|Hne].
    + rewrite fn_lookup_insert. intros ->. destruct Hs. congruence.
    + rewrite fn_lookup_insert_ne by done. intros Ht' Hc. destruct (Hpe _ _ Ht' Hc) as (u & cs & Hu & Hin).
      exists u, cs. rewrite fn_lookup_insert_ne; [done|]. intros ->. by apply Ht in Hu.
  - intros t'. destruct (decide (t = t')) as [<-|Hne]; [|by rewrite fn_lookup_insert_ne].
    rewrite fn_lookup_insert. by destruct s.
Qed.

Lemma act_with_Ret v a st m' :
  act_with hash draw ec_message v a st = Some (Ret m') →
  ∃ v', system_step hash draw ec_message v a = Some (Ret v') ∧ m' = {| th_system := v'; th_status := st |}.
Proof.
  unfold act_with. destruct (system_step _ _ _ _ a) as [o|]; cbn; [|done]. intros [= Ho].
  apply bind_Ret in Ho as (v' & -> & ?). inv_ret. eauto.
Qed.

(** What a step does. *)
Lemma cv_step_inv m a m' :
  cv_step hash draw ec_message m a = Some (Ret m') →
  match program_step a with
  | Some b =>
      ∃ v', system_step hash draw ec_message (th_system m) b = Some (Ret v') ∧
        match actor b with
        | None => m' = {| th_system := v'; th_status := th_status m |}
        | Some t =>
            (∀ cs, th_status m t ≠ Notifying cs) ∧
            m' = {| th_system := v';
                    th_status := <[t := then_notify (notifications hash (th_system m) b)]> (th_status m) |}
        end
  | None =>
      th_system m' = th_system m ∧
      match a with
      | CvSleep t => th_status m t = Awake ∧
          ∃ c, waiting_on hash (th_system m) t = Some c ∧ pred (th_system m) c = false ∧
            th_status m' = <[t := Asleep c]> (th_status m)
      | CvNotify t =>
          ∃ c cs, th_status m t = Notifying (c :: cs) ∧
            th_status m' = <[t := then_notify cs]> (wake_sleepers c (th_status m))
      | CvSpurious t => ∃ c, th_status m t = Asleep c ∧ th_status m' = <[t := Awake]> (th_status m)
      | _ => False
      end
  end.
Proof.
  intros Hs. destruct a as [a|t|t|a|t]; cbn in Hs |- *.
  - destruct (actor a) as [u|]; [destruct (th_status m u) eqn:Hu; try done|];
      apply act_with_Ret in Hs as (v' & Hs & ->); eauto.
  - destruct (th_status m t) eqn:Ht; try done. destruct (waiting_on hash (th_system m) t) as [c|] eqn:Hc; [|done].
    destruct (pred (th_system m) c) eqn:Hp; simplify_eq. eauto 10.
  - destruct (th_status m t) as [| |[|c cs]] eqn:Ht; try done. simplify_eq. eauto.
  - destruct (actor a) as [u|]; [|done]. destruct (th_status m u) as [|c|] eqn:Hu; try done.
    destruct (timed c); [|done]. apply act_with_Ret in Hs as (v' & Hs & ->). eauto.
  - destruct (th_status m t) as [|c|] eqn:Ht; try done. simplify_eq. eauto.
Qed.

Lemma cv_step_wakeups started m a m' :
  phase_ok started (sy_pipeline (th_system m)) → wakeups_ok m → cv_step hash draw ec_message m a = Some (Ret m') →
  wakeups_ok m'.
Proof.
  intros Hph Hok Hs%cv_step_inv. destruct (program_step a) as [b|].
  - destruct Hs as (v' & Hs & Hm). pose proof (act_wakeups started m b _ Hph Hok Hs) as Hact.
    destruct (actor b); [destruct Hm as [Hu ->]|subst m']; auto.
  - destruct m' as [v' st']. cbn in Hs. destruct Hs as [-> Hs].
    destruct a as [?|t|t|?|t]; try done; cbn in Hs.
    + destruct Hs as (Ht & c & Hw & Hp & ->). apply self_wakeups; [done|congruence|done].
    + destruct Hs as (c & cs & Ht & ->). by apply notify_wakeups.
    + destruct Hs as (c & Ht & ->). apply self_wakeups; [done|congruence|done].
Qed.

(** ** Refinement *)

Lemma cv_step_erases m a m' :
  cv_step hash draw ec_message m a = Some (Ret m') →
  match program_step a with
  | Some b => system_step hash draw ec_message (th_system m) b = Some (Ret (th_system m'))
  | None => th_system m' = th_system m
  end.
Proof.
  intros Hs%cv_step_inv. destruct (program_step a) as [b|]; [|apply Hs].
  destruct Hs as (v' & Hs & Hm). destruct (actor b); [destruct Hm as [_ ->]|subst m']; done.
Qed.

Lemma cv_run_erases m0 acts received m :
  cv_run hash draw ec_message m0 acts received m →
  system_run hash draw ec_message (th_system m0) (erase acts) received (th_system m).
Proof.
  induction 1 as [|acts received m a m' _ IH Hs]; [constructor|].
  apply cv_step_erases in Hs. unfold erase, cv_received in *. rewrite omap_app. cbn.
  destruct (program_step a) as [b|]; [by econstructor|]. by rewrite !app_nil_r, Hs.
Qed.

Lemma new_threads_ok v : wakeups_ok (new_threads v).
Proof. by split. Qed.

(** ** Progress *)

(** A step that is made when a timeout is over. *)
Definition expires (a : system_action E) : bool :=
  match a with SysNetwork _ elapsed _ => elapsed | SysPipe (ActTimeout _ _) => true | _ => false end.

(** A thread whose wait is blocked can make no step: but for a wait with a
    timeout, which may be over. *)
Lemma blocked_wait v a t c :
  waiting_on hash v t = Some c → pred v c = false → actor a = Some t →
  is_Some (system_step hash draw ec_message v a) → timed c = true ∧ expires a = true.
Proof.
  intros Hw Hf Ha [o Hs].
  destruct a as [| |ev elapsed ck|b|]; cbn in Ha; [done|by simplify_eq|injection Ha as <-| |by simplify_eq].
  - cbn in Hw, Hs. unfold network_step in Hs. cbn [net_step] in Hs.
    destruct (run_stage draw _ _ _) as [m|] eqn:Hm; [|done]. clear Hs.
    unfold run_stage in Hm. cbn [with_queue ns_thread ns_client ns_queue] in Hm.
    destruct (ns_thread (sy_network v)) as [[| |[]| | | | |]|]; simplify_eq; cbn in Hf.
    2:{ unfold wait_for_next_attempt in Hm. cbn in Hm. rewrite Hf in Hm. by destruct elapsed. }
    exfalso. destruct (ns_client (sy_network v)); [|done]. cbn in Hm, Hf. unfold push in Hm. by rewrite Hf in Hm.
  - cbn in Hs. destruct (pipe_thread b) eqn:Hb; [|done]. unfold pipeline_step in Hs.
    destruct (pipe_step hash (sy_pipeline v) b) as [m|] eqn:Hm; [|done]. clear Hs.
    destruct b as [| |now ck'| | |i| | | |]; try done; injection Ha as <-; cbn in Hw, Hm;
      [by destruct (pl_writer (sy_pipeline v)) as [[]|]; simplify_eq|exfalso..].
    + unfold run_parser_stage in Hm. destruct (pl_parser (sy_pipeline v)) as [[|tr|]|]; simplify_eq; cbn in Hf.
      * unfold pop in Hm. by rewrite Hf in Hm.
      * destruct (pl_shards _ !! _) as [sh|]; [|done]. cbn in Hm. unfold push in Hm. by rewrite Hf in Hm.
    + unfold run_aggregation_stage in Hm. destruct (pl_shards (sy_pipeline v) !! i) as [sh|] eqn:Hsh; [|done].
      cbn in Hm. destruct (pl_aggs (sy_pipeline v) !! i) as [[[]|]|]; simplify_eq. cbn in Hf. rewrite Hsh in Hf.
      unfold pop in Hm. by rewrite Hf in Hm.
    + unfold writer_wait in Hm. destruct (pl_writer (sy_pipeline v)) as [[]|]; simplify_eq. cbn in Hf.
      by rewrite Hf in Hm.
    + unfold flush_completed_windows in Hm. destruct (pl_writer (sy_pipeline v)) as [[]|]; by simplify_eq.
Qed.

(** The steps that the threads do not make by themselves: signals, ticks of
    the flush timer, and spurious wake-ups. *)
Definition cv_env (a : cv_action E) : bool :=
  match a with
  | CvAct a => is_env a
  | CvTimeout (SysNetwork _ _ _) => false
  | CvTimeout _ | CvSpurious _ => true
  | CvSleep _ | CvNotify _ => false
  end.

(** Where the program can make a step, a thread can act, or notify. *)
Lemma cv_progress m a :
  wakeups_ok m → is_env a = false → is_Some (system_step hash draw ec_message (th_system m) a) →
  ∃ b, cv_env b = false ∧ is_Some (cv_step hash draw ec_message m b) ∧
    (program_step b = None ∨ program_step b = Some a).
Proof.
  intros Hok He Hs. destruct (actor a) as [t|] eqn:Ha; [|by destruct a as [| | |[]|]].
  assert (∀ u cs, th_status m u = Notifying cs →
    ∃ b, cv_env b = false ∧ is_Some (cv_step hash draw ec_message m b) ∧
      (program_step b = None ∨ program_step b = Some a)) as Hnote.
  { intros u cs Hu. exists (CvNotify u). cbn. rewrite Hu. destruct cs; [by apply wo_notes in Hu|]. eauto. }
  destruct (th_status m t) as [|c|cs] eqn:Ht; [| |by eauto].
  - exists (CvAct a). split_and!; [done| |by right]. cbn. rewrite Ha, Ht. destruct Hs as [o Hs].
    unfold act_with. rewrite Hs. cbn. eauto.
  - pose proof (wo_asleep _ Hok _ _ Ht) as Hw. destruct (pred (th_system m) c) eqn:Hc.
    + destruct (wo_pending _ Hok _ _ Ht Hc) as (u & cs & Hu & _). eauto.
    + destruct (blocked_wait _ _ _ _ Hw Hc Ha Hs) as [Htc Hexp].
      exists (CvTimeout a). split_and!; [by destruct a as [| | |[]|]| |by right]. cbn. rewrite Ha, Ht, Htc.
      destruct Hs as [o Hs]. unfold act_with. rewrite Hs. cbn. eauto.
Qed.

(** ** Termination *)

(** The threads of a program with [k] shards. *)
Definition all_threads (k : nat) : list thread := [TMain; TNetwork; TParser; TWriter] ++ (TAgg <$> seq 0 k).

Lemma all_threads_NoDup k : NoDup (all_threads k).
Proof.
  unfold all_threads. apply NoDup_app. split_and!.
  - repeat (constructor; [set_solver|]). constructor.
  - intros t Ht. rewrite list_elem_of_fmap. intros (i & -> & _). set_solver.
  - apply NoDup_fmap_2; [by intros ?? [= ->]|apply NoDup_seq].
Qed.

Lemma all_threads_elem k t : t ∈ all_threads k ↔ match t with TAgg i => (i < k)%nat | _ => True end.
Proof.
  unfold all_threads. rewrite elem_of_app, list_elem_of_fmap. setoid_rewrite elem_of_seq.
  destruct t as [| | |i|]; try (split; [done|intros _; left; set_solver]).
  split; [intros [?|(j & [= ->] & ?)]; [set_solver|lia]|]. intros Hi. right. exists i. split; [done|lia].
Qed.

Definition status_weight (s : status) : Z :=
  match s with Awake => 1 | Asleep _ => 0 | Notifying cs => 1 + 2 * Z.of_nat (length cs) end.

Lemma status_weight_nonneg s : 0 ≤ status_weight s.
Proof. destruct s; cbn; lia. Qed.

Lemma then_notify_weight cs : status_weight (then_notify cs) = 1 + 2 * Z.of_nat (length cs).
Proof. by destruct cs. Qed.

Definition statuses_weight (k : nat) (st : thread → status) : Z :=
  total (λ t, status_weight (st t)) (all_threads k).

Lemma total_update (l : list thread) (st : thread → status) t s :
  NoDup l → t ∈ l →
  total (λ u, status_weight (<[t := s]> st u)) l =
  total (λ u, status_weight (st u)) l - status_weight (st t) + status_weight s.
Proof.
  induction 1 as [|u l Hu Hl IH]; [by intros ?%not_elem_of_nil|]. rewrite !total_cons, elem_of_cons.
  destruct (decide (t = u)) as [<-|Hne].
  - intros _. rewrite fn_lookup_insert. enough (total (λ u, status_weight (<[t := s]> st u)) l =
      total (λ u, status_weight (st u)) l) by lia.
    apply total_ext. intros u Hin. rewrite fn_lookup_insert_ne; [done|]. by intros ->.
  - intros [?|Hin]; [done|]. rewrite fn_lookup_insert_ne by done. rewrite IH by done. lia.
Qed.

Lemma statuses_update k st t s :
  t ∈ all_threads k → statuses_weight k (<[t := s]> st) = statuses_weight k st - status_weight (st t) + status_weight s.
Proof. intros Ht. apply total_update; [apply all_threads_NoDup|done]. Qed.

(** A notification wakes at most one thread. *)
Lemma statuses_wake k m c :
  wakeups_ok m → statuses_weight k (wake_sleepers c (th_status m)) ≤ statuses_weight k (th_status m) + 1.
Proof.
  intros Hok. unfold statuses_weight. pose proof (all_threads_NoDup k) as Hnd. set (st := th_status m).
  assert (∀ u, st u = Asleep c ∨ wake_sleepers c st u = st u) as Hw.
  { intros u. unfold wake_sleepers. destruct (st u); try by right. case_decide; subst; auto. }
  assert (∀ u1 u2, st u1 = Asleep c → st u2 = Asleep c → u1 = u2) as Hu.
  { intros u1 u2 H1%wo_asleep H2%wo_asleep; [|done..]. by eapply waiting_on_unique. }
  revert Hnd. generalize (all_threads k). induction 1 as [|u l Hul Hnd IH]; [done|]. rewrite !total_cons.
  destruct (Hw u) as [Hs|Hs]; [|rewrite Hs; lia].
  assert (total (λ t, status_weight (wake_sleepers c st t)) l = total (λ t, status_weight (st t)) l) as ->.
  { apply total_ext. intros u' Hin. destruct (Hw u') as [Hs'|Hs']; [|by rewrite Hs']. by destruct (Hu _ _ Hs Hs'). }
  unfold wake_sleepers. rewrite Hs. rewrite decide_True by done. cbn. lia.
Qed.

Lemma notifications_length v a : (length (notifications hash v a) ≤ 2)%nat.
Proof.
  assert (∀ T (q : BoundedQueue T) x c, (length (push_notes q x c) ≤ 2)%nat) as Hpush.
  { intros. unfold push_notes. destruct (push q x) as [[[] ?]|]; cbn; lia. }
  assert (∀ T (q : BoundedQueue T) c, (length (pop_notes q c) ≤ 2)%nat) as Hpop.
  { intros. unfold pop_notes. destruct (pop q) as [[[] ?]|]; cbn; lia. }
  assert (∀ b, (length (pipe_notes hash (sy_pipeline v) b) ≤ 2)%nat) as Hp.
  { intros []; cbn; repeat case_match; cbn; auto; lia. }
  assert (∀ b, (length (net_notes (sy_network v) (pl_raw_queue (sy_pipeline v)) b) ≤ 2)%nat) as Hn.
  { intros []; cbn; repeat case_match; cbn; auto; lia. }
  destruct a; cbn [notifications]; repeat case_match; cbn [length]; auto; lia.
Qed.

(** The threads that exist. *)
Lemma actor_exists v a t o k :
  system_step hash draw ec_message v a = Some o → actor a = Some t → length (pl_shards (sy_pipeline v)) = k →
  t ∈ all_threads k.
Proof.
  intros Hs Ha <-. apply all_threads_elem. destruct t as [| | |i|]; try done.
  destruct a as [| | |b|]; try done. destruct b as [| | | | |j| | | |]; try done. injection Ha as ->. cbn in Hs.
  unfold pipeline_step, pipe_step, run_aggregation_stage in Hs.
  destruct (pl_shards (sy_pipeline v) !! i) eqn:Hi; [|done]. by eapply lookup_lt_Some.
Qed.

Lemma waiter_exists started v t c k :
  phase_ok started (sy_pipeline v) → waiting_on hash v t = Some c → length (pl_shards (sy_pipeline v)) = k →
  t ∈ all_threads k.
Proof.
  intros Hph Hw <-. apply all_threads_elem. destruct t as [| | |i|]; try done. cbn in Hw.
  destruct (pl_aggs (sy_pipeline v) !! i) eqn:Hi; [|done]. rewrite <- (ph_length _ _ Hph). by eapply lookup_lt_Some.
Qed.

Lemma status_exists started m t k :
  phase_ok started (sy_pipeline (th_system m)) → wakeups_ok m →
  length (pl_shards (sy_pipeline (th_system m))) = k → ∀ c, th_status m t = Asleep c → t ∈ all_threads k.
Proof. intros Hph Hok Hk c Ht%wo_asleep; [|done]. by eapply waiter_exists. Qed.

End props.


(** ** Reachable states *)

Section reachable.
Context `{J : JsonLib} `{!JsonLaws J} `{ErrorCode E}.
Variables (hash : string → Z) (draw : spec_float → spec_float → spec_float) (ec_message : E → string).
Variables (W FI cap : Z) (sink : FileOutputSink) (agg_threads : Z).
Hypothesis HW : W ≠ 0.
Hypothesis Hcap : 1 ≤ cap.

Notation ok := (system_ok hash W FI cap sink agg_threads).
Notation step := (cv_step hash draw ec_message).
Notation shard_count := (Z.max agg_threads 1).
Notation known := (all_threads (Z.to_nat shard_count)).

Record cv_ok (m : threads E) : Prop := {
  co_system : ∃ acts on msgs received, ok acts on msgs received (th_system m);
  co_wakeups : wakeups_ok hash m;
  co_notifiers t cs : th_status m t = Notifying cs → t ∈ known
}.

Lemma cv_step_notifiers m a m' :
  cv_ok m → step m a = Some (Ret m') → ∀ t cs, th_status m' t = Notifying cs → t ∈ known.
Proof.
  intros [(acts & on & msgs & received & Hsys) Hok Hno] Hs%cv_step_inv t cs.
  destruct (system_pipeline _ _ _ _ _ _ HW _ _ _ _ _ Hsys) as (Hph & Hlen & _).
  destruct (program_step a) as [b|].
  - destruct Hs as (v' & Hs & Hm). destruct (actor b) as [u|] eqn:Hu; [destruct Hm as [_ ->]|subst m'; eauto]. cbn.
    destruct (decide (u = t)) as [<-|Hne]; [intros _; by eapply actor_exists|].
    rewrite fn_lookup_insert_ne by done. eauto.
  - destruct Hs as [_ Hs]. destruct a as [?|u|u|?|u]; try done.
    + destruct Hs as (_ & c & _ & _ & ->). destruct (decide (u = t)) as [<-|Hne]; [by rewrite fn_lookup_insert|].
      rewrite fn_lookup_insert_ne by done. eauto.
    + destruct Hs as (c & cs' & Hu & ->). destruct (decide (u = t)) as [<-|Hne]; [intros _; eauto|].
      rewrite fn_lookup_insert_ne, wake_sleepers_Notifying by done. eauto.
    + destruct Hs as (c & _ & ->). destruct (decide (u = t)) as [<-|Hne]; [by rewrite fn_lookup_insert|].
      rewrite fn_lookup_insert_ne by done. eauto.
Qed.

Lemma cv_step_ok m a m' : cv_ok m → step m a = Some (Ret m') → cv_ok m'.
Proof.
  intros Hok Hs. pose proof Hok as [(acts & on & msgs & received & Hsys) Hw _].
  destruct (system_pipeline _ _ _ _ _ _ HW _ _ _ _ _ Hsys) as (Hph & Hlen & _). split.
  - pose proof (cv_step_erases _ _ _ _ _ _ Hs) as He. destruct (program_step a) as [b|]; [|rewrite He; eauto].
    destruct (system_step_ok _ _ _ _ _ _ _ _ _ _ _ _ _ _ _ Hsys He) as (msgs' & Hsys'). eauto.
  - by eapply cv_step_wakeups.
  - by eapply cv_step_notifiers.
Qed.

Lemma cv_run_ok m0 acts received m :
  cv_ok m0 → cv_run hash draw ec_message m0 acts received m → cv_ok m.
Proof. intros Hok. induction 1; eauto using cv_step_ok. Qed.

Lemma new_threads_cv_ok v : ok [] true [] [] v → cv_ok (new_threads v).
Proof. split; [by eauto|apply new_threads_ok|done]. Qed.

(** ** A shutdown with condition variables *)

(** A step of the program may leave two notifications. *)
Definition cv_measure (m : threads E) : Z :=
  6 * system_measure agg_threads (th_system m) + statuses_weight (Z.to_nat shard_count) (th_status m).

Lemma cv_measure_nonneg m : 0 ≤ cv_measure m.
Proof.
  unfold cv_measure, statuses_weight. pose proof (system_measure_nonneg agg_threads (th_system m)).
  pose proof (total_nonneg (λ t, status_weight (th_status m t)) known (λ t, status_weight_nonneg _)). lia.
Qed.

Lemma act_measure m b v' m' :
  cv_ok m → stopping (th_system m) → system_step hash draw ec_message (th_system m) b = Some (Ret v') →
  m' = {| th_system := v'; th_status := match actor b with
            | Some t => <[t := then_notify (notifications hash (th_system m) b)]> (th_status m)
            | None => th_status m
            end |} →
  stopping v' ∧ cv_measure m' + 1 ≤ cv_measure m + 6 * (shard_count + 2) * ind (is_env b).
Proof.
  intros [(acts & on & msgs & received & Hsys) _ _] Hst Hs ->.
  destruct (system_pipeline _ _ _ _ _ _ HW _ _ _ _ _ Hsys) as (_ & Hlen & _).
  destruct (stopping_step hash draw ec_message _ _ _ _ _ HW _ _ _ _ _ _ _ Hsys Hst Hs) as [Hst' Hm].
  split; [done|]. unfold cv_measure. cbn. destruct (actor b) as [t|] eqn:Ht; [|lia].
  rewrite statuses_update by by eapply actor_exists. rewrite then_notify_weight.
  pose proof (notifications_length hash (th_system m) b). pose proof (status_weight_nonneg (th_status m t)). lia.
Qed.

Lemma cv_stopping_step m a m' :
  cv_ok m → stopping (th_system m) → step m a = Some (Ret m') →
  stopping (th_system m') ∧ cv_measure m' + 1 ≤ cv_measure m + 6 * (shard_count + 2) * ind (cv_env a).
Proof.
  intros Hok Hst Hs%cv_step_inv. pose proof Hok as [(acts & on & msgs & received & Hsys) Hw Hno].
  destruct (system_pipeline _ _ _ _ _ _ HW _ _ _ _ _ Hsys) as (Hph & Hlen & _).
  destruct (program_step a) as [b|] eqn:Hb.
  - destruct Hs as (v' & Hs & Hm). destruct (act_measure m b v' m' Hok Hst Hs) as [Hst' Hle].
    { destruct (actor b); [by destruct Hm|done]. }
    split; [by destruct (actor b); [destruct Hm as [_ ->]|subst m']|].
    destruct a as [?|?|?|?|?]; try done; injection Hb as ->; cbn [cv_env]; [done|].
    pose proof (ind_nonneg (is_env b)). destruct b as [| | |[]|]; cbn [is_env ind] in *; lia.
  - destruct Hs as [Hsame Hs]. rewrite Hsame. split; [done|]. unfold cv_measure. rewrite Hsame.
    destruct a as [?|u|u|?|u]; try done; cbn [cv_env ind].
    + destruct Hs as (Hu & c & Hc & _ & ->). rewrite statuses_update by by eapply waiter_exists.
      rewrite Hu. cbn [status_weight]. lia.
    + destruct Hs as (c & cs & Hu & ->). rewrite statuses_update by eauto. rewrite then_notify_weight.
      assert (wake_sleepers c (th_status m) u = Notifying (c :: cs)) as -> by by apply wake_sleepers_Notifying.
      pose proof (statuses_wake hash (Z.to_nat shard_count) m c Hw). cbn [status_weight length] in *. lia.
    + destruct Hs as (c & Hu & ->). rewrite statuses_update by by eapply status_exists.
      rewrite Hu. cbn [status_weight]. lia.
Qed.

Lemma cv_stopping_run m acts received m' :
  cv_ok m → stopping (th_system m) → cv_run hash draw ec_message m acts received m' →
  stopping (th_system m') ∧ cv_ok m' ∧
  Z.of_nat (length acts) + cv_measure m' ≤
    cv_measure m + 6 * (shard_count + 2) * total (λ a, ind (cv_env a)) acts.
Proof.
  intros Hok Hst. induction 1 as [|acts received m1 a m2 Hrun (Hst1 & Hok1 & IH) Hs].
  { split_and!; [done..|]. unfold total. cbn [length foldr]. lia. }
  destruct (cv_stopping_step _ _ _ Hok1 Hst1 Hs) as [Hst2 Hm].
  split_and!; [done|by eapply cv_step_ok|]. rewrite length_app, total_app. unfold total at 2. cbn [length foldr]. lia.
Qed.

Lemma cv_shutdown_enabled m ec :
  cv_ok m → thread_ok (sy_network (th_system m)) → ec_failed ec = true → stopping (th_system m) →
  sy_main (th_system m) ≠ MainExit →
  ∃ b, cv_env b = false ∧ is_Some (step m b) ∧ cv_received m b = [].
Proof.
  intros [(acts & on & msgs & received & Hsys) Hw _] Hth Hec [[Hsd|?] Hn] Hne; [|done].
  destruct (shutdown_enabled hash draw ec_message _ _ _ _ _ HW Hcap _ _ _ _ _ _ Hsys Hth Hec Hsd (λ _, Hn))
    as (a & Ha & Hrec & _ & Hs).
  destruct (cv_progress hash draw ec_message m a Hw Ha Hs) as (b & Hb & Hs' & Hp). exists b. split_and!; [done..|].
  unfold cv_received. by destruct Hp as [->| ->].
Qed.
End reachable.


(** ** The same runs *)

Section equivalence.
Context `{J : JsonLib} `{!JsonLaws J} `{ErrorCode E}.
Variables (hash : string → Z) (draw : spec_float → spec_float → spec_float) (ec_message : E → string).
Variables (W FI cap : Z) (sink : FileOutputSink) (agg_threads : Z).
Hypothesis HW : W ≠ 0.
Notation cvrun := (cv_run hash draw ec_message).
Notation step := (system_step hash draw ec_message).
Notation ok := (cv_ok hash W FI cap sink agg_threads).

(** The steps without spurious wake-ups, in which a timed wait ends by its
    timeout only in the steps that report one. *)
Definition prompt (a : cv_action E) : bool :=
  match a with
  | CvAct _ | CvSleep _ | CvNotify _ => true
  | CvTimeout a => expires a
  | CvSpurious _ => false
  end.

Lemma cv_run_trans m acts1 r1 m1 acts2 r2 m2 :
  cvrun m acts1 r1 m1 → cvrun m1 acts2 r2 m2 → cvrun m (acts1 ++ acts2) (r1 ++ r2) m2.
Proof.
  intros Hrun. induction 1 as [|acts r m' a m'' _ IH Hs]; [by rewrite !app_nil_r|].
  rewrite !app_assoc. by econstructor.
Qed.

Lemma cv_run_one m a m' :
  cv_step hash draw ec_message m a = Some (Ret m') → cvrun m [a] (cv_received m a) m'.
Proof. intros Hs. apply (cv_next hash draw ec_message m [] [] m a m'); [constructor|done]. Qed.

(** A thread makes the notifications that it owes: who sleeps on one of those
    condition variables is woken, and nobody falls asleep. *)
Lemma deliver u cs : ∀ m,
  th_status m u = then_notify cs →
  ∃ acts m', cvrun m acts [] m' ∧ Forall prompt acts ∧ erase acts = [] ∧ th_system m' = th_system m ∧
    th_status m' u = Awake ∧
    ∀ t, th_status m t = Awake ∨ (∃ c, th_status m t = Asleep c ∧ c ∈ cs) → th_status m' t = Awake.
Proof.
  induction cs as [|c cs IH]; intros m Hu.
  { exists [], m. split_and!; [constructor|done..|]. by intros t [?|(c & _ & ?%not_elem_of_nil)]. }
  set (m1 := {| th_system := th_system m; th_status := <[u := then_notify cs]> (wake_sleepers c (th_status m)) |}).
  assert (cv_step hash draw ec_message m (CvNotify u) = Some (Ret m1)) as Hs by (cbn; by rewrite Hu).
  destruct (IH m1) as (acts & m' & Hrun & Hpr & He & Hv & Hu' & Hw); [cbn; by rewrite fn_lookup_insert|].
  exists (CvNotify u :: acts), m'. split_and!; [|by constructor|done..|].
  - exact (cv_run_trans _ _ _ _ _ _ _ (cv_run_one _ _ _ Hs) Hrun).
  - intros t Ht. destruct (decide (t = u)) as [->|Hne]; [done|]. apply Hw. cbn. rewrite fn_lookup_insert_ne by done.
    unfold wake_sleepers. destruct Ht as [->|(c' & -> & Hin)]; [by left|].
    case_decide; [by left|]. right. apply elem_of_cons in Hin as [?|?]; [done|]. eauto.
Qed.

(** A step of the program that is enabled can be made, once the notifications
    that are due have been. *)
Lemma prompt_step m a v :
  wakeups_ok hash m → step (th_system m) a = Some (Ret v) →
  ∃ acts m', cvrun m acts (received_by (th_system m) a) m' ∧ Forall prompt acts ∧ erase acts = [a] ∧ th_system m' = v.
Proof.
  intros Hok Hs.
  assert (∀ m1 acts b st, cvrun m acts [] m1 → Forall prompt acts → erase acts = [] → th_system m1 = th_system m →
    prompt b = true → program_step b = Some a → cv_step hash draw ec_message m1 b = act_with hash draw ec_message (th_system m) a st →
    ∃ acts m', cvrun m acts (received_by (th_system m) a) m' ∧ Forall prompt acts ∧ erase acts = [a] ∧ th_system m' = v)
    as Hfin.
  { intros m1 acts b st Hrun Hpr He Hv Hb Hba Hst. exists (acts ++ [b]), {| th_system := v; th_status := st |}. split_and!.
    - replace (received_by (th_system m) a) with ([] ++ cv_received m1 b) by (unfold cv_received; by rewrite Hba, Hv).
      apply (cv_run_trans _ _ _ _ _ _ _ Hrun), cv_run_one. rewrite Hst. unfold act_with. by rewrite Hs.
    - apply Forall_app. split; [done|]. constructor; [by rewrite Hb|constructor].
    - unfold erase in *. rewrite omap_app, He. cbn. by rewrite Hba.
    - done. }
  destruct (actor a) as [t|] eqn:Ha.
  2:{ eapply (Hfin m [] (CvAct a)); [constructor|done..|]. cbn. by rewrite Ha. }
  assert (∀ u cs, th_status m u = then_notify cs → u = t ∨ (∃ c, th_status m t = Asleep c ∧ c ∈ cs) →
    ∃ acts m', cvrun m acts (received_by (th_system m) a) m' ∧ Forall prompt acts ∧ erase acts = [a] ∧ th_system m' = v)
    as Hdel.
  { intros u cs Hu Ht. destruct (deliver u cs m Hu) as (acts & m1 & Hrun & Hpr & He & Hv & Hu1 & Hw).
    assert (th_status m1 t = Awake) as Haw by (destruct Ht as [<-|Ht]; auto).
    eapply (Hfin m1 acts (CvAct a)); [done..|]. cbn. by rewrite Ha, Haw, Hv. }
  destruct (th_status m t) as [|c|cs] eqn:Ht.
  - apply (Hdel t []); [done|by left].
  - pose proof (wo_asleep _ _ Hok _ _ Ht) as Hw. destruct (pred (th_system m) c) eqn:Hc.
    + destruct (wo_pending _ _ Hok _ _ Ht Hc) as (u & cs & Hu & Hin).
      apply (Hdel u cs); [by rewrite (then_notify_elem c)|]. eauto.
    + destruct (blocked_wait hash draw ec_message _ _ _ _ Hw Hc Ha ltac:(by rewrite Hs)) as [Htc Hexp].
      eapply (Hfin m [] (CvTimeout a)); [constructor|done..|]. cbn. by rewrite Ha, Ht, Htc.
  - apply (Hdel t cs); [|by left]. rewrite Ht. destruct cs; [|done]. by apply (wo_notes _ _ Hok) in Ht.
Qed.

Lemma prompt_run m acts received v :
  ok m → system_run hash draw ec_message (th_system m) acts received v →
  ∃ cacts m', cvrun m cacts received m' ∧ Forall prompt cacts ∧ erase cacts = acts ∧ th_system m' = v.
Proof.
  intros Hok. induction 1 as [|acts received v a v' _ (cacts & m1 & Hrun & Hpr & <- & <-) Hs].
  { exists [], m. split_and!; [constructor|done..]. }
  pose proof (cv_run_ok hash draw ec_message _ _ _ _ _ HW _ _ _ _ Hok Hrun) as [_ Hw _].
  destruct (prompt_step _ _ _ Hw Hs) as (acts' & m' & Hrun' & Hpr' & He & Hv).
  exists (cacts ++ acts'), m'. split_and!; [by eapply cv_run_trans|by apply Forall_app| |done].
  unfold erase in *. by rewrite omap_app, He.
Qed.
End equivalence.

(** ** From the command line *)

Section program.
Context `{J : JsonLib} `{!JsonLaws J} `{ErrorCode E}.
Variables (fmt_double : spec_float → string) (hash : string → Z).
Variables (draw : spec_float → spec_float → spec_float) (ec_message : E → string).
Variables (env : environment) (argv : list string) (log : list log_entry) (sv : service E).
Hypothesis Hstart : main_startup fmt_double env argv = (log, Ret (Started sv)).

Notation T := (cf_aggregator_threads (sv_config sv)).
Notation sink0 :=
  {| fos_file := env_output_contents env; fos_good := true; fos_os := env_output_writes env |}.
Notation run := (cv_run hash draw ec_message (new_threads (new_system log sv))).

Lemma program_cv_ok acts received m :
  run acts received m → cv_ok hash (cf_window_ms (sv_config sv)) (cf_flush_interval_ms (sv_config sv)) kQueueCapacity sink0 T m.
Proof.
  apply cv_run_ok; [by eapply program_window|]. apply new_threads_cv_ok. by eapply program_start_ok.
Qed.

(** C13: no lost wake-up.  At every moment of every run of the program a thread
    that sleeps on a condition variable is at the wait that uses it, and if
    what it waits for has happened then some thread is about to notify that
    condition variable; nobody else sleeps there, so that [notify_one] is
    enough. *)
Theorem program_no_lost_wakeup acts received m t c :
  run acts received m → th_status m t = Asleep c →
  waiting_on hash (th_system m) t = Some c ∧
  (pred (th_system m) c = true → ∃ u cs, th_status m u = Notifying cs ∧ c ∈ cs) ∧
  ∀ u, th_status m u = Asleep c → u = t.
Proof.
  intros [_ Hw _]%program_cv_ok Ht. split_and!.
  - by apply (wo_asleep _ _ Hw).
  - by apply (wo_pending _ _ Hw t).
  - intros u Hu. apply (waiting_on_unique hash (th_system m) _ _ c); by apply (wo_asleep _ _ Hw).
Qed.

(** C12: waiting on condition variables is what blocking is.  From every
    reachable state of the program with condition variables, whoever is asleep
    and whatever notifications are still due, (1) each of its runs is a run of
    the program in which a thread waits until its predicate holds, with further
    steps that change nothing; and (2) conversely each run that the program can
    then make is one of its runs, with the same steps in the same order and the
    same messages received, in which no thread is woken but by a notification
    or a timeout: a thread that is asleep when its turn comes has been, or is
    about to be, notified. *)
Theorem condvars_same_runs acts received m :
  run acts received m →
  (∀ cacts received' m', cv_run hash draw ec_message m cacts received' m' →
    system_run hash draw ec_message (th_system m) (erase cacts) received' (th_system m')) ∧
  (∀ acts' received' v, system_run hash draw ec_message (th_system m) acts' received' v →
    ∃ cacts m', cv_run hash draw ec_message m cacts received' m' ∧ Forall prompt cacts ∧ erase cacts = acts' ∧
      th_system m' = v).
Proof.
  intros Hrun. split; [intros; by apply cv_run_erases|]. intros acts' received' v Hsys.
  exact (prompt_run hash draw ec_message _ _ _ _ _ (program_window _ _ _ _ _ Hstart) _ _ _ _ (program_cv_ok _ _ _ Hrun) Hsys).
Qed.

(** C6: a shutdown with condition variables terminates, once the network thread
    has noticed the stop ([stopping]; a stop can be lost before that, see
    [program_can_hang]).  From every reachable state in which it has, every
    schedule has at most as many steps as there is work left, plus an allowance
    for each signal, tick of the flush timer and spurious wake-up in it, of six
    steps per shard and twelve more; and wherever the schedule ends, [main] has
    exited or some thread can make a step that is none of those three (a network
    call in progress may fail with any error [ec]): nobody sleeps forever. *)
Theorem condvar_shutdown_terminates ec acts received m acts' received' m' :
  ec_failed ec = true → run acts received m → stopping (th_system m) →
  cv_run hash draw ec_message m acts' received' m' →
  Z.of_nat (length acts') ≤ cv_measure T m + 6 * (Z.max T 1 + 2) * total (λ a, ind (cv_env a)) acts' ∧
  (sy_main (th_system m') = MainExit ∨ ∃ b, cv_env b = false ∧ is_Some (cv_step hash draw ec_message m' b)).
Proof.
  intros Hec Hrun Hst Hrun'. pose proof (program_window _ _ _ _ _ Hstart) as HW.
  destruct (cv_stopping_run hash draw ec_message _ _ _ _ _ HW _ _ _ _ (program_cv_ok _ _ _ Hrun) Hst Hrun')
    as (Hst' & Hok' & Hlen).
  split; [pose proof (cv_measure_nonneg T m'); lia|].
  assert (thread_ok (sy_network (th_system m'))) as Hth.
  { apply (thread_ok_system hash draw ec_message (th_system m) (erase acts') received'); [|by apply cv_run_erases].
    eapply (program_thread_ok fmt_double hash draw ec_message env argv log sv Hstart (erase acts) received).
    by apply (cv_run_erases hash draw ec_message (new_threads (new_system log sv))). }
  assert (sy_main (th_system m') = MainExit ∨ sy_main (th_system m') ≠ MainExit) as [?|Hne]
    by (destruct (sy_main (th_system m')); auto); [by left|right].
  destruct (cv_shutdown_enabled hash draw ec_message _ _ kQueueCapacity _ _ HW ltac:(done) m' ec Hok' Hth Hec Hst' Hne)
    as (b & Hb & Hs & _). eauto.
Qed.
End program.

(** ** Evaluated schedules *)

Section exec.
Context `{J : JsonLib} `{ErrorCode E}.
Variables (hash : string → Z) (draw : spec_float → spec_float → spec_float) (ec_message : E → string).

Fixpoint cv_exec (m : threads E) (acts : list (cv_action E)) : option (list string * threads E) :=
  match acts with
  | [] => Some ([], m)
  | a :: acts =>
      match cv_step hash draw ec_message m a with
      | Some (Ret m') => '(received, m'') ← cv_exec m' acts; Some (cv_received m a ++ received, m'')
      | _ => None
      end
  end.

Lemma cv_run_cons m a m' acts received m'' :
  cv_step hash draw ec_message m a = Some (Ret m') → cv_run hash draw ec_message m' acts received m'' →
  cv_run hash draw ec_message m (a :: acts) (cv_received m a ++ received) m''.
Proof.
  intros Hs. induction 1 as [|acts received m1 b m2 _ IH Hb].
  - rewrite app_nil_r. apply (cv_next hash draw ec_message m [] [] m a m'); [constructor|done].
  - rewrite app_assoc. eapply (cv_next hash draw ec_message m (a :: acts)); done.
Qed.

Definition cv_result (m : threads E) (acts : list (cv_action E)) : list string * threads E :=
  default ([], m) (cv_exec m acts).

Lemma cv_result_ok m acts :
  (if cv_exec m acts then true else false) = true →
  cv_run hash draw ec_message m acts (cv_result m acts).1 (cv_result m acts).2.
Proof.
  unfold cv_result. destruct (cv_exec m acts) as [[received m']|] eqn:Hex; [|done]. intros _. cbn.
  revert m received Hex. induction acts as [|a acts IH]; intros m received Hex; cbn in Hex.
  { simplify_eq. constructor. }
  destruct (cv_step hash draw ec_message m a) as [[m1| |]|] eqn:Hs; try done.
  destruct (cv_exec m1 acts) as [[r m2]|] eqn:Hex1; cbn in Hex; [|done]. simplify_eq.
  eauto using cv_run_cons.
Qed.
End exec.

(** The parser and the writer fall asleep before the network thread has pushed
    a message; it has not yet notified. *)
Definition example_asleep : list (cv_action example_error) :=
  [CvAct SysMain; CvSleep TParser; CvSleep TWriter; CvSpurious TWriter; CvSleep TWriter; CvAct SysMain] ++
  replicate 10 (CvAct (SysNetwork EvOk false 0)) ++
  [CvAct (SysNetwork (EvMessage bare_message) false 0); CvAct (SysNetwork EvOk false 0)].

(** The parser is woken, and the program told to stop. *)
Definition example_stop : list (cv_action example_error) :=
  [CvNotify TNetwork; CvAct (SysPipe ActParser); CvNotify TParser; CvAct SysSignal; CvAct SysMain;
   CvAct SysMain; CvAct SysMain; CvNotify TMain; CvAct SysMain; CvAct SysMain].

(** The network thread ends and the writer, woken by [stop], too; the raw queue
    is shut down. *)
Definition example_finish : list (cv_action example_error) :=
  [CvAct (SysNetwork (EvFail OperationAborted) false 0); CvAct (SysNetwork EvOk false 0);
   CvAct (SysNetwork EvOk false 0); CvAct SysMain; CvAct SysMain; CvNotify TMain; CvAct (SysPipe (ActWriterWait 0));
   CvAct SysMain; CvNotify TMain; CvAct (SysPipe ActParser); CvNotify TParser].

Abbreviation example_threads acts :=
  (cv_result example_hash (λ lo _, lo) (λ _, "aborted")
     (new_threads (new_system example_startup.1 example_service)) acts).

Lemma program_no_lost_wakeup_witness :
  pred (th_system (example_threads example_asleep).2) RawNotEmpty = true ∧
  ∃ u cs, th_status (example_threads example_asleep).2 u = Notifying cs ∧ RawNotEmpty ∈ cs.
Proof.
  assert (pred (th_system (example_threads example_asleep).2) RawNotEmpty = true) as Hp
    by (vm_compute; reflexivity).
  split; [exact Hp|].
  apply (program_no_lost_wakeup (λ _, "0.5") example_hash (λ lo _, lo) (λ _, "aborted") example_env example_args
    example_startup.1 example_service example_startup_ok example_asleep (example_threads example_asleep).1
    (example_threads example_asleep).2 TParser RawNotEmpty).
  - apply cv_result_ok. vm_compute. reflexivity.
  - vm_compute. reflexivity.
  - exact Hp.
Defined.

(** The message is in the queue, the parser asleep and not yet notified: it can
    take the message next, without a spurious wake-up. *)
Lemma condvars_same_runs_witness :
  th_status (example_threads example_asleep).2 TParser = Asleep RawNotEmpty ∧
  ∃ cacts m', cv_run example_hash (λ lo _, lo) (λ _, "aborted") (example_threads example_asleep).2 cacts [] m' ∧
    Forall prompt cacts ∧ erase cacts = [SysPipe ActParser] ∧
    th_system m' = (system_result example_hash (λ lo _, lo) (λ _, "aborted")
                      (th_system (example_threads example_asleep).2) [SysPipe ActParser]).2.
Proof.
  split; [vm_compute; reflexivity|].
  apply (condvars_same_runs (λ _, "0.5") example_hash (λ lo _, lo) (λ _, "aborted") example_env example_args
    example_startup.1 example_service example_startup_ok example_asleep (example_threads example_asleep).1
    (example_threads example_asleep).2).
  - apply cv_result_ok. vm_compute. reflexivity.
  - change (@nil string) with ((system_result example_hash (λ lo _, lo) (λ _, "aborted")
      (th_system (example_threads example_asleep).2) [SysPipe ActParser]).1).
    apply system_result_ok. vm_compute. reflexivity.
Defined.

Lemma condvar_shutdown_terminates_witness :
  Z.of_nat (length example_finish) ≤
    cv_measure 1 (example_threads (example_asleep ++ example_stop)).2 +
    6 * (Z.max 1 1 + 2) * total (λ a, ind (cv_env a)) example_finish ∧
  sy_main (th_system (example_threads (example_asleep ++ example_stop)).2) = MainStopNetwork false.
Proof.
  split; [|vm_compute; reflexivity].
  apply (condvar_shutdown_terminates (λ _, "0.5") example_hash (λ lo _, lo) (λ _, "aborted") example_env
    example_args example_startup.1 example_service example_startup_ok OperationAborted
    (example_asleep ++ example_stop) (example_threads (example_asleep ++ example_stop)).1
    (example_threads (example_asleep ++ example_stop)).2 example_finish
    (cv_result example_hash (λ lo _, lo) (λ _, "aborted")
       (example_threads (example_asleep ++ example_stop)).2 example_finish).1
    (cv_result example_hash (λ lo _, lo) (λ _, "aborted")
       (example_threads (example_asleep ++ example_stop)).2 example_finish).2).
  - reflexivity.
  - apply cv_result_ok. vm_compute. reflexivity.
  - split; [left; vm_compute; reflexivity|]. vm_compute. split; reflexivity.
  - apply cv_result_ok. vm_compute. reflexivity.
Defined.
