(* ===== verification/Conformance.v ===== *)
(** * The tests of the repository, evaluated

    The expectations of tests/unit and tests/integration, as computations of
    the model: where a test runs threads, the schedule it provokes.  They
    check the definitions, not the code: a definition that has drifted from
    the source fails one of them. *)

From S2P Require Import Prelude CString DecimalFp StdMap Aggregator Output Float64 Json JsonRef.
From S2P Require Import TradeParser ConfigLoader Cli ConnectionError ReconnectPolicy Jitter.
From S2P Require Import BoundedQueue Snapshots Pipeline.

(** [EXPECT_THROW]. *)
Definition throws_invalid_argument {A} (m : outcome A) : bool :=
  match m with Throw (InvalidArgument _) => true | _ => false end.
Definition throws_runtime_error {A} (m : outcome A) : bool :=
  match m with Throw (RuntimeError _) => true | _ => false end.

Ltac run := vm_compute; reflexivity.

(** ** DecimalTest *)

Definition reprint (s : string) : outcome string := d ← DecimalFp.parse s; DecimalFp.to_string d.

Example ParsesAndFormats :
  reprint <$> ["1000"; "43012.10"; "0.00000001"; "23.510000"] =
  [Ret "1000"; Ret "43012.1"; Ret "0.00000001"; Ret "23.51"].
Proof. run. Qed.

Example MultipliesPriceByQuantity :
  (price ← DecimalFp.parse "43012.10"; quantity ← DecimalFp.parse "0.5";
   DecimalFp.to_string (Decimal_mul price quantity)) = Ret "21506.05".
Proof. run. Qed.

Example AddsVolumesAtSameScale :
  (a ← DecimalFp.parse "1.5"; b ← DecimalFp.parse "2.25"; c ← Decimal_add a b; DecimalFp.to_string c) = Ret "3.75".
Proof. run. Qed.

Example RejectsMalformedDecimals :
  forallb (λ s, throws_invalid_argument (DecimalFp.parse s)) [""; "abc"; "12."; ".5"; "0.123456789"; "1.5x"] = true.
Proof. run. Qed.

(** ** CliOptionsTest *)

Example ParsesCommandLines :
  (λ args, config_path <$> parse_cli_options ("binance_aggregator" :: args)) <$>
    [[]; ["--config"; "custom.json"]; ["--config=custom.json"]] =
  [Ret "config/config.json"; Ret "custom.json"; Ret "custom.json"].
Proof. run. Qed.

Example ThrowsWhenConfigFlagMissingValue :
  throws_invalid_argument (parse_cli_options ["binance_aggregator"; "--config"]) = true.
Proof. run. Qed.

(** ** BinanceStreamTargetTest *)

Example BuildsTargets :
  build_combined_stream_target <$> [["BTCUSDT"]; ["BTCUSDT"; "ETHUSDT"]; []] =
  ["/stream?streams=btcusdt@trade"; "/stream?streams=btcusdt@trade/ethusdt@trade"; "/stream?streams="].
Proof. run. Qed.

(** ** ConnectionErrorTest *)

Inductive test_error := NoError | HostNotFound | ConnectionRefused | ConnectionReset | Eof | Closed | TimedOut.

#[local] Instance test_errors : ErrorCode test_error := {|
  ec_failed e := match e with NoError => false | _ => true end;
  ec_timed_out e := match e with TimedOut => true | _ => false end;
  ec_eof e := match e with Eof => true | _ => false end;
  ec_ws_closed e := match e with Closed => true | _ => false end
|}.

Example ClassifiesErrors :
  (λ '(stage, e), classify_error stage e) <$>
    [(Resolve, HostNotFound); (TcpConnect, ConnectionRefused); (TlsHandshake, ConnectionReset);
     (WebSocketHandshake, ConnectionReset); (Read, Eof); (Read, Closed); (Read, ConnectionReset);
     (TcpConnect, TimedOut); (Read, TimedOut); (Read, NoError)] =
  [DnsFailure; TcpConnectFailure; TlsHandshakeFailure; WebSocketHandshakeFailure; ServerDisconnect;
   ServerDisconnect; ReadFailure; Timeout; Timeout; Unknown].
Proof. run. Qed.

(** ** ReconnectPolicyTest *)

Definition make_reconnect_config (initial max : Z) (ratio : spec_float) : ReconnectConfig :=
  {| rc_initial_backoff_ms := initial; rc_max_backoff_ms := max; rc_jitter_ratio := ratio |}.

Example BaseDelayDoublesEachAttempt :
  base_delay_for_attempt (make_reconnect_config 500 30000 double_0) <$> [0; 1; 2; 3] = [500; 1000; 2000; 4000].
Proof. run. Qed.

Example BaseDelayCapsAtMaxBackoff :
  base_delay_for_attempt (make_reconnect_config 1000 3000 double_0) <$> [0; 1; 2; 3; 10] =
  [1000; 2000; 3000; 3000; 3000].
Proof. run. Qed.

(** The test draws 200 times; here for every distribution. *)
Example ApplyJitterStaysWithinConfiguredBounds draw :
  draws_within draw →
  ∃ delay, apply_jitter draw (make_reconnect_config 1000 30000 double_0_2) 1000 = Ret delay ∧ 800 ≤ delay ≤ 1200.
Proof.
  intros Hdraw. pose proof unit_one_pos as HU.
  assert (SFsub 53 1024 (double_of_i64 1000) (SFmul 53 1024 (double_of_i64 1000) double_0_2) = double_of_i64 800)
    as Hlo by run.
  assert (SFadd 53 1024 (double_of_i64 1000) (SFmul 53 1024 (double_of_i64 1000) double_0_2) = double_of_i64 1200)
    as Hhi by run.
  unfold apply_jitter. cbn [make_reconnect_config rc_jitter_ratio]. rewrite Hlo, Hhi.
  change (SFleb double_0_2 double_0) with false. cbn iota.
  destruct (Hdraw _ _ _ _ (double_of_i64_worth 800 ltac:(lia)) (double_of_i64_worth 1200 ltac:(lia)) ltac:(lia))
    as (v & Hv & Hl & Hh).
  rewrite (double_to_i64_worth _ v Hv) by lia. exists (v / unit_one). split; [done|].
  split; [apply Z.div_le_lower_bound; lia|apply Z.lt_succ_r, Z.div_lt_upper_bound; lia].
Qed.

Example ApplyJitterWithZeroRatioReturnsBaseUnchanged draw :
  apply_jitter draw (make_reconnect_config 1000 30000 double_0) 1234 = Ret 1234.
Proof. reflexivity. Qed.

(** The results of waits that end by the timeout, or that are stopped. *)
Definition wait_result (p : ReconnectPolicy) : option (outcome (bool * ReconnectPolicy)) :=
  wait_for_next_attempt (λ lo _, lo) p true 0.
Definition short_policy : ReconnectPolicy := new_policy (make_reconnect_config 5 5 double_0).

Example WaitsCountAttempts :
  match wait_result short_policy with
  | Some (Ret (true, p1)) =>
      match wait_result p1 with
      | Some (Ret (true, p2)) =>
          (current_attempt short_policy, current_attempt p1, current_attempt p2, current_attempt (reset_policy p1))
          = (0, 1, 2, 0)
      | _ => False
      end
  | _ => False
  end.
Proof. run. Qed.

Example StopInterruptsWait :
  wait_for_next_attempt (λ lo _, lo) short_policy false 0 = None ∧
  wait_for_next_attempt (λ lo _, lo) (stop_policy short_policy) false 0 = Some (Ret (false, stop_policy short_policy)).
Proof. split; run. Qed.

Example ResetAfterStopAllowsReuse :
  match wait_result (reset_policy (stop_policy short_policy)) with
  | Some (Ret (again, p)) => again = true ∧ current_attempt p = 1
  | _ => False
  end.
Proof. split; run. Qed.


(** ** MarketDataAggregatorTest *)

Definition make_trade (symbol : string) (trade_id : Z) (price quantity : string) (time : Z) (maker : bool) :
    outcome TradeEvent :=
  p ← DecimalFp.parse price; q ← DecimalFp.parse quantity;
  Ret {| te_symbol := symbol; te_trade_id := trade_id; te_price := p; te_quantity := q;
         te_trade_time_ms := time; te_buyer_is_maker := maker |}.

Fixpoint add_all (a : MarketDataAggregator) (trades : list (outcome TradeEvent)) : outcome MarketDataAggregator :=
  match trades with
  | [] => Ret a
  | t :: trades => t ← t; a ← add_trade a t; add_all a trades
  end.
Notation aggregated := (add_all (new_aggregator 1000)).

(** What the tests read of a window. *)
Definition counts (w : WindowStats) : Z * Z * Z :=
  (ws_trade_count w, ws_buyer_initiated_count w, ws_seller_initiated_count w).
Definition prices (w : WindowStats) : outcome (string * string * string) :=
  lo ← DecimalFp.to_string (ws_min_price w); hi ← DecimalFp.to_string (ws_max_price w);
  v ← DecimalFp.to_string (ws_total_volume w); Ret (lo, hi, v).

Example OneSymbolAccumulatesStats :
  (a ← aggregated [make_trade "BTCUSDT" 1 "100.0" "1.0" 1200 false; make_trade "BTCUSDT" 2 "110.0" "2.0" 1500 true];
   Ret ((λ w, (ws_symbol w, ws_window_start_ms w, ws_trade_count w)) <$> window_stats a "BTCUSDT" 1000)) =
  Ret (Some ("BTCUSDT", 1000, 2)).
Proof. run. Qed.

Example MultipleSymbolsAggregateIndependently :
  (a ← aggregated [make_trade "BTCUSDT" 1 "100.0" "1.0" 1200 false; make_trade "ETHUSDT" 1 "10.0" "5.0" 1300 true;
                   make_trade "ETHUSDT" 2 "12.0" "1.0" 1400 true];
   Ret (ws_trade_count <$> window_stats a "BTCUSDT" 1000, ws_trade_count <$> window_stats a "ETHUSDT" 1000)) =
  Ret (Some 1, Some 2).
Proof. run. Qed.

Example BucketsTradesByExchangeTimeWindow :
  (a ← aggregated [make_trade "BTCUSDT" 1 "100.0" "1.0" 1500 false; make_trade "BTCUSDT" 2 "100.0" "1.0" 2500 false];
   Ret ((λ t, ws_trade_count <$> window_stats a "BTCUSDT" t) <$> [1000; 2000; 3000])) = Ret [Some 1; Some 1; None].
Proof. run. Qed.

Example TracksMinAndMaxPrice :
  (a ← aggregated [make_trade "BTCUSDT" 1 "100.0" "1.0" 1000 false; make_trade "BTCUSDT" 2 "50.0" "1.0" 1100 false;
                   make_trade "BTCUSDT" 3 "200.0" "1.0" 1200 false];
   Ret (prices <$> window_stats a "BTCUSDT" 1000)) = Ret (Some (Ret ("50", "200", "350"))).
Proof. run. Qed.

Example AccumulatesTotalVolume :
  (a ← aggregated [make_trade "BTCUSDT" 1 "10.0" "2.0" 1000 false; make_trade "BTCUSDT" 2 "5.0" "3.0" 1100 false];
   Ret (prices <$> window_stats a "BTCUSDT" 1000)) = Ret (Some (Ret ("5", "10", "35"))).
Proof. run. Qed.

Example CountsBuyerAndSellerInitiatedTrades :
  (a ← aggregated [make_trade "BTCUSDT" 1 "10.0" "1.0" 1000 false; make_trade "BTCUSDT" 2 "10.0" "1.0" 1100 false;
                   make_trade "BTCUSDT" 3 "10.0" "1.0" 1200 true];
   Ret (counts <$> window_stats a "BTCUSDT" 1000)) = Ret (Some (3, 2, 1)).
Proof. run. Qed.

Example EmptyWindowIsNeverCreated :
  window_stats (new_aggregator 1000) "BTCUSDT" 1000 = None ∧ (extract_all_windows (new_aggregator 1000)).1 = [].
Proof. split; run. Qed.

Example LateTradeAfterExtractionStartsFreshWindow :
  (a ← aggregated [make_trade "BTCUSDT" 1 "100.0" "1.0" 1000 false];
   let '(first_flush, a) := extract_all_windows a in
   a ← add_all a [make_trade "BTCUSDT" 2 "200.0" "1.0" 1000 false];
   Ret (counts <$> first_flush, counts <$> (extract_all_windows a).1, prices <$> (extract_all_windows a).1)) =
  Ret ([(1, 1, 0)], [(1, 1, 0)], [Ret ("200", "200", "200")]).
Proof. run. Qed.

Example ExtractCompletedWindowsOnlyReturnsWindowsBeforeWatermark :
  (a ← aggregated ((λ i, make_trade "BTCUSDT" i "100.0" "1.0" (1000 * i) false) <$> [1; 2; 3]);
   let '(completed, a) := extract_completed_windows a 3000 in
   Ret (ws_window_start_ms <$> completed, (λ t, ws_trade_count <$> window_stats a "BTCUSDT" t) <$> [1000; 2000; 3000])) =
  Ret ([1000; 2000], [None; None; Some 1]).
Proof. run. Qed.

Example ExtractCompletedWindowsLeavesCurrentWindowAcrossSymbols :
  (a ← aggregated [make_trade "BTCUSDT" 1 "100.0" "1.0" 1000 false; make_trade "ETHUSDT" 1 "10.0" "1.0" 2000 false];
   let '(completed, a) := extract_completed_windows a 2000 in
   Ret (ws_symbol <$> completed, ws_trade_count <$> window_stats a "ETHUSDT" 2000)) = Ret (["BTCUSDT"], Some 1).
Proof. run. Qed.

Example ExtractCompletedWindowsReturnsNothingWhenAllWindowsAreCurrent :
  (a ← aggregated [make_trade "BTCUSDT" 1 "100.0" "1.0" 5000 false];
   let '(completed, a) := extract_completed_windows a 5000 in
   Ret (completed, ws_trade_count <$> window_stats a "BTCUSDT" 5000)) = Ret ([], Some 1).
Proof. run. Qed.

(** ** StatsSerializerTest, FileOutputSinkTest *)

Definition line (s : string) : string := s +:+ String newline "".

Definition make_window (symbol : string) (trades : Z) (volume lo hi : string) (buy sell : Z) : outcome WindowStats :=
  v ← DecimalFp.parse volume; lo ← DecimalFp.parse lo; hi ← DecimalFp.parse hi;
  Ret {| ws_symbol := symbol; ws_window_start_ms := 0; ws_trade_count := trades; ws_total_volume := v;
         ws_min_price := lo; ws_max_price := hi; ws_buyer_initiated_count := buy; ws_seller_initiated_count := sell |}.

Definition serialized (windows : list (outcome WindowStats)) : outcome string :=
  ws ← mapM id windows; serialize {| ss_window_start_ms := 1768227800000; ss_windows := ws |}.

Example FormatsMultipleSymbolsUnderOneTimestamp :
  serialized [make_window "BTCUSDT" 154 "23.51" "43012.1" "43189.4" 82 72;
              make_window "ETHUSDT" 231 "112.7" "2289.2" "2301.8" 120 111] =
  Ret (line "timestamp=2026-01-12T14:23:20Z" +:+
       line "symbol=BTCUSDT trades=154 volume=23.51 min=43012.1 max=43189.4 buy=82 sell=72" +:+
       line "symbol=ETHUSDT trades=231 volume=112.7 min=2289.2 max=2301.8 buy=120 sell=111" +:+ line "").
Proof. run. Qed.

Example SkipsEmptyOutputForSnapshotWithNoWindows : serialized [] = Ret "".
Proof. run. Qed.

Example WritesTextToFile :
  (sink ← open_FileOutputSink "output.log" true "" [];
   sink ← file_write sink (line "timestamp=2026-01-12T14:23:20Z");
   sink ← file_write sink (line "symbol=BTCUSDT trades=1 volume=1 min=1 max=1 buy=1 sell=0");
   Ret (fos_file sink)) =
  Ret (line "timestamp=2026-01-12T14:23:20Z" +:+ line "symbol=BTCUSDT trades=1 volume=1 min=1 max=1 buy=1 sell=0").
Proof. run. Qed.

Example ThrowsWhenFileCannotBeOpened :
  throws_runtime_error (open_FileOutputSink "/nonexistent_binance_aggregator_dir/output.log" false "" []) = true.
Proof. run. Qed.


(** ** BinanceTradeParserTest *)

Definition reading (ev : TradeEvent) : string * Z * outcome string * outcome string * Z * bool :=
  (te_symbol ev, te_trade_id ev, DecimalFp.to_string (te_price ev), DecimalFp.to_string (te_quantity ev),
   te_trade_time_ms ev, te_buyer_is_maker ev).
Definition parsed (s : string) : outcome (option (string * Z * outcome string * outcome string * Z * bool)) :=
  fmap (M := option) reading <$> parse_trade (jtext s).

Example ParsesValidRawTradeMessage :
  parsed "{ 'e': 'trade', 'E': 123456789, 's': 'BTCUSDT', 't': 12345, 'p': '43012.10', 'q': '0.50000000',
            'b': 88, 'a': 50, 'T': 123456785, 'm': true, 'M': true }" =
  Ret (Some ("BTCUSDT", 12345, Ret "43012.1", Ret "0.5", 123456785, true)).
Proof. run. Qed.

Example ParsesValidCombinedStreamMessage :
  parsed "{ 'stream': 'btcusdt@trade', 'data': { 'e': 'trade', 'E': 123456789, 's': 'BTCUSDT', 't': 12345,
            'p': '43012.10', 'q': '0.5', 'b': 88, 'a': 50, 'T': 123456785, 'm': false, 'M': true } }" =
  Ret (Some ("BTCUSDT", 12345, Ret "43012.1", Ret "0.5", 123456785, false)).
Proof. run. Qed.

Example ReturnsNullopt :
  parsed <$>
    ["{not valid json";
     "{ 'e': 'trade', 's': 'BTCUSDT', 't': 12345, 'p': '43012.10', 'T': 123456785, 'm': true }";
     "{ 'e': 'trade', 's': 'BTCUSDT', 't': 12345, 'p': 'not-a-number', 'q': '0.5', 'T': 123456785, 'm': true }";
     "{ 'e': 'trade', 's': 'BTCUSDT', 't': 12345, 'p': '43012.10', 'q': '12.3.4', 'T': 123456785, 'm': true }";
     "{ 'e': 'kline', 's': 'BTCUSDT', 't': 12345, 'p': '43012.10', 'q': '0.5', 'T': 123456785, 'm': true }"] =
  replicate 5 (Ret None).
Proof. run. Qed.

Example MapsBuyerIsMakerFieldFromSourceMField :
  (λ m, fmap (M := option) te_buyer_is_maker <$> parse_trade (jtext m)) <$>
    ["{'e':'trade','s':'BTCUSDT','t':1,'p':'1.0','q':'1.0','T':1,'m':true}";
     "{'e':'trade','s':'BTCUSDT','t':2,'p':'1.0','q':'1.0','T':1,'m':false}"] =
  [Ret (Some true); Ret (Some false)].
Proof. run. Qed.

(** ** ConfigLoaderTest *)

(** A configuration with the fields the other tests share, and some more. *)
Definition config_text (fields : string) : string :=
  jtext ("{" +:+ fields +:+
    "'flush_interval_ms': 1000, 'output_file': 'market_stats.log', 'ws_host': 'stream.binance.com', 'ws_port': '9443' }").
Definition loaded (fields : string) : outcome Config := load_from_file "config.json" (Some (config_text fields)).

Example LoadsValidConfig :
  load_from_file "config.json"
    (Some (jtext "{ 'symbols': ['BTCUSDT', 'ETHUSDT'], 'window_ms': 1000, 'flush_interval_ms': 2000,
       'output_file': 'market_stats.log', 'ws_host': 'stream.binance.com', 'ws_port': '9443',
       'reconnect': { 'initial_backoff_ms': 500, 'max_backoff_ms': 30000, 'jitter_ratio': 0.2 } }")) =
  Ret {| cf_symbols := ["BTCUSDT"; "ETHUSDT"]; cf_window_ms := 1000; cf_flush_interval_ms := 2000;
         cf_aggregator_threads := 1; cf_output_file := "market_stats.log"; cf_ws_host := "stream.binance.com";
         cf_ws_port := "9443"; cf_reconnect := make_reconnect_config 500 30000 double_0_2 |}.
Proof. run. Qed.

Example NormalizesSymbolsToUppercase :
  cf_symbols <$> loaded "'symbols': ['btcusdt', 'ethusdt'], 'window_ms': 1000, " = Ret ["BTCUSDT"; "ETHUSDT"].
Proof. run. Qed.

Example ParsesExplicitAggregatorThreads :
  cf_aggregator_threads <$> loaded "'symbols': ['BTCUSDT'], 'window_ms': 1000, 'aggregator_threads': 4, " = Ret 4.
Proof. run. Qed.

Example RejectsInvalidConfigs :
  forallb (λ fields, throws_runtime_error (loaded fields))
    ["'window_ms': 1000, ";
     "'symbols': [], 'window_ms': 1000, ";
     "'symbols': ['BTCUSDT'], 'window_ms': 0, ";
     "'symbols': ['BTCUSDT'], 'window_ms': 1000, 'aggregator_threads': 0, ";
     "'symbols': ['BTCUSDT'], 'window_ms': 1000, 'reconnect': { 'initial_backoff_ms': 30000, 'max_backoff_ms': 500 }, "]
  = true.
Proof. run. Qed.

(** ** BoundedQueueTest *)

Notation filled := {| bq_items := [1]; bq_capacity := 1; bq_shutdown := false |}.

Example PushAndPopPreserveFifoOrder :
  ('(_, q) ← push (new_queue 8) 1; '(_, q) ← push q 2; '(_, q) ← push q 3;
   '(x, q) ← pop q; '(y, q) ← pop q; '(z, q) ← pop q; Some (x, y, z)) = Some (Some 1, Some 2, Some 3).
Proof. run. Qed.

(** The second push waits, and goes on when an item has been taken. *)
Example PushBlocksUntilCapacityAvailable :
  push (new_queue 1) 1 = Some (true, filled) ∧ push filled 2 = None ∧
  ('(x, q) ← pop filled; '(b, q) ← push q 2; Some (x, b, size q)) = Some (Some 1, true, 1).
Proof. split_and!; run. Qed.

Example PopBlocksUntilItemIsPushed :
  pop (new_queue 4 : BoundedQueue Z) = None ∧ ('(_, q) ← push (new_queue 4) 42; '(x, _) ← pop q; Some x) = Some (Some 42).
Proof. split; run. Qed.

Example PopDrainsRemainingItemsAfterShutdown :
  ('(_, q) ← push (new_queue 4) 1; '(_, q) ← push q 2; let q := shutdown q in
   '(x, q) ← pop q; '(y, q) ← pop q; '(z, q) ← pop q; Some (x, y, z)) = Some (Some 1, Some 2, None).
Proof. run. Qed.

Example ShutdownUnblocks :
  ('(b, _) ← push (shutdown (new_queue 4)) 1; '(b', _) ← push (shutdown filled) 2;
   '(x, _) ← pop (shutdown (new_queue 4 : BoundedQueue Z)); Some (b, b', x)) = Some (false, false, None).
Proof. run. Qed.

(** ** MarketDataPipelineIntegrationTest *)

Section pipelines.
Variable hash : string → Z.

(** Some thread that can make a step makes one, in a fixed order. *)
Fixpoint first_step (p : pipeline FileOutputSink) (acts : list action) : option (outcome (pipeline FileOutputSink)) :=
  match acts with
  | [] => None
  | a :: acts => match pipe_step hash p a with Some m => Some m | None => first_step p acts end
  end.

Fixpoint settle (fuel : nat) (p : pipeline FileOutputSink) : outcome (pipeline FileOutputSink) :=
  match fuel with
  | O => Ret p
  | S fuel =>
      match first_step p ([ActWriterWait 0; ActWriterFlush; ActParser] ++ (ActAgg <$> seq 0 (length (pl_shards p))) ++ [ActStop]) with
      | Some m => p ← m; settle fuel p
      | None => Ret p
      end
  end.

(** The step [a], and what the threads then do. *)
Definition do_and_settle (p : pipeline FileOutputSink) (a : action) : outcome (pipeline FileOutputSink) :=
  match pipe_step hash p a with Some m => p ← m; settle 100 p | None => Throw (RuntimeError "blocked") end.

Fixpoint do_all (p : pipeline FileOutputSink) (acts : list action) : outcome (pipeline FileOutputSink) :=
  match acts with [] => Ret p | a :: acts => p ← do_and_settle p a; do_all p acts end.

Definition output_of (threads : Z) (acts : list action) : outcome string :=
  p ← do_all (new_pipeline 1000 500 16 {| fos_file := ""; fos_good := true; fos_os := [] |} threads) (ActStart :: acts);
  Ret (fos_file (pl_sink p)).
End pipelines.

Definition length_hash (s : string) : Z := Z.of_nat (String.length s).
Definition first_char_hash (s : string) : Z := match s with String c _ => code c | "" => 0 end.

Example ProcessesFixtureMessagesIntoExpectedOutput :
  output_of length_hash 1
    (((ActSubmit ∘ jtext) <$>
       ["{'e':'trade','s':'BTCUSDT','t':1,'p':'100.0','q':'1.0','T':1200,'m':false}";
        "{'stream':'ethusdt@trade','data':{'e':'trade','s':'ETHUSDT','t':1,'p':'10.0','q':'5.0','T':1300,'m':false}}";
        "{'e':'trade','s':'BTCUSDT','t':2,'p':'110.0','q':'2.0','T':1500,'m':true}";
        "{not valid json";
        "{'e':'kline','s':'BTCUSDT','t':3,'p':'999.0','q':'1.0','T':1600,'m':false}"]) ++ [ActStopRequest]) =
  Ret (line "timestamp=1970-01-01T00:00:01Z" +:+
       line "symbol=BTCUSDT trades=2 volume=320 min=100 max=110 buy=1 sell=1" +:+
       line "symbol=ETHUSDT trades=1 volume=50 min=10 max=10 buy=1 sell=0" +:+ line "").
Proof. run. Qed.

Definition now_message : string := jtext "{'e':'trade','s':'BTCUSDT','t':1,'p':'100.0','q':'1.0','T':1700000000020,'m':false}".

Example PeriodicFlushWithholdsCurrentWindowUntilStop :
  output_of length_hash 1 (ActSubmit now_message :: ((λ now, ActTimeout now 0) <$> [1700000000070; 1700000000120; 1700000000270])) = Ret "" ∧
  output_of length_hash 1
    (ActSubmit now_message :: ((λ now, ActTimeout now 0) <$> [1700000000070; 1700000000120; 1700000000270]) ++ [ActStopRequest]) =
  Ret (line "timestamp=2023-11-14T22:13:20Z" +:+
       line "symbol=BTCUSDT trades=1 volume=100 min=100 max=100 buy=1 sell=0" +:+ line "").
Proof. split; run. Qed.

Definition shard_messages : list string :=
  jtext <$>
    ["{'e':'trade','s':'BTCUSDT','t':1,'p':'100.0','q':'1.0','T':1200,'m':false}";
     "{'e':'trade','s':'ETHUSDT','t':1,'p':'10.0','q':'5.0','T':1300,'m':false}";
     "{'e':'trade','s':'BTCUSDT','t':2,'p':'110.0','q':'2.0','T':1500,'m':true}";
     "{'e':'trade','s':'BNBUSDT','t':1,'p':'300.0','q':'1.0','T':1250,'m':true}";
     "{'e':'trade','s':'ETHUSDT','t':2,'p':'11.0','q':'1.0','T':1600,'m':false}";
     "{'e':'trade','s':'SOLUSDT','t':1,'p':'20.0','q':'4.0','T':1700,'m':false}"].

Example ShardedAggregationProducesIdenticalOutputToSingleShard :
  output_of length_hash 1 ((ActSubmit <$> shard_messages) ++ [ActStopRequest]) =
  output_of first_char_hash 4 ((ActSubmit <$> shard_messages) ++ [ActStopRequest]).
Proof. run. Qed.

Example SingleSymbolTradesNeverSplitAcrossShards :
  output_of first_char_hash 8
    (((λ i, ActSubmit (jtext ("{'e':'trade','s':'BTCUSDT','t':" +:+ to_string_u64 (Z.of_nat i) +:+
               ",'p':'100.0','q':'1.0','T':1200,'m':" +:+ (if Nat.even i then "true" else "false") +:+ "}")))
      <$> seq 0 20) ++ [ActStopRequest]) =
  Ret (line "timestamp=1970-01-01T00:00:01Z" +:+
       line "symbol=BTCUSDT trades=20 volume=2000 min=100 max=100 buy=10 sell=10" +:+ line "").
Proof. run. Qed.

Example StopWithoutAnyMessagesProducesNoOutput : output_of length_hash 1 [ActStopRequest] = Ret "".
Proof. run. Qed.
